(* ===== verification/_CoqProject ===== *)
-Q . S2P
Prelude.v
CInt.v
Dll.v
CString.v
CBuf.v
CppString.v
ConnPool.v
LogQueue.v
Filesystem.v
Net.v
Utils.v
Log.v
LogMonitor.v
Server.v
ServerStart.v
Alloc.v
MemCache.v
Vector.v
SortList.v
SortMutex.v
SortCond.v
SortRW.v
SortPerNode.v
Proc.v
ProcChildren.v
MyLs.v
DirCrawler.v
Base64.v
Charset.v
Eml.v
Dijkstra.v
Rlp.v
CppAlloc.v
SharedPtr.v
Triangles.v
BoundedStore.v
MapReduce.v
LRUCache.v
Any.v
HTTPClient.v
Widgets.v
PingPong.v
Primitives.v
LinearAlgebra.v
FileThreads.v
UdpServer.v
SortServer.v
Array.v
