(* ===== verification/Prelude.v ===== *)
(** * Verification of the linux-programing-workouts programs

    The repository collects C and C++ programs, most of them around the Linux
    system interfaces.
    Modelled here are those with logic of their own:

    - the threaded file server, src/src/net/tcp/server/fileserver;
    - the boundary-tag allocator, src/src/mem/allocator;
    - the slab cache, src/src/mem/mem_cache;
    - the growable array, src/src/utils/collections/vector;
    - the list of lines sorted by a thread, src/src/pthreads-problems/problem-3;
    - the readers of /proc, src/src/file-system/proc;
    - the extractor of mail attachments, src/src/c++/eml-attachments-parser;
    - shortest paths, src/src/c++/dijkstra.cpp;
    - the reverser of RLP encodings, src/src/c++/RTL.cpp;
    - the allocator in C++, src/src/mem/allocator/c++version;
    - the reference-counted pointer, src/src/c++/shared_ptr.cpp;
    - counting triangles, src/src/utils/math/graphs/find_triangle;
    - Gaussian elimination and least squares, src/src/utils/math/linear_algebra;
    - the exercises with threads, src/src/pthreads-problems: printing in turns
      (1), variants of the sorted list (3), writers and readers of files (4),
      the assembly line (5), the HTTP client (6), the bounded store (7);
    - other C++ exercises, src/src/c++: one round of a distributed search
      (map-reduce), the LRU cache, the holder of any value, the array that
      constructs in place, the synchronisation primitives;
    - ls and the directory crawler, src/src/file-system;
    - the UDP server and the sorting server, src/src/net.

    ** How the code is modelled

    A C function is a function on the state it works on.  Undefined behaviour
    is a value, a [fault] of this file, so a theorem that gives a result also
    says that the run stays within the language; where the code does leave it,
    a theorem says so.  Pointers are [Z] with 0 for NULL, memory is a finite
    map or a list of cells, machine integers are [Z] with their wrap-around
    written out ([u64], [i32] of CInt).  What the environment decides is an
    argument: which allocations are refused, what a system call answers, the
    contents of uninitialised locals, the interleaving of threads.

    ** Files

    - Prelude: faults, the state and fault monad, its tactics.
    - CInt: machine integers, count-trailing-zeros, little-endian bytes.
    - Dll: doubly linked chains in a store, used by LogQueue and MemCache.
    - CString: C strings and the string.h functions the programs call.
    - CBuf: arrays of bytes with checked accesses.
    - CppString: the std::string members the C++ programs call, stoi, and
      matching of the regular expressions they use.
    - ConnPool (conn_pool.c): the connection pool with its bitmap of free slots.
    - LogQueue (log_msg_queue.c): the linked queue of log messages, and the
      interface [MsgQueue] that Log is written against.
    - Filesystem (filesystem.c): stdio streams, copying and moving files.
    - Net (net.c): sending a file over a connection.
    - Utils (utils.c): splitting and classifying a request.
    - Log (log.c): creating and archiving logs, the text of a log line.
    - LogMonitor (log_msg_queue.c, log.c, server.c): the producers, the writer
      thread with what it allocates and writes, and the end of main as a step
      relation over the queue.
    - Server (server.c): one request end to end, and main_loop with its workers
      as a step relation over the pool; a worker waits in [read] until its
      client sends a request, and then serves it.
    - ServerStart (server.c, os_layer.c): the pipe, the signal handler and main
      up to its loop, on Log and Net; the start of a daemon.
    - Alloc (alloc.c, alloc_utils.c): chunks with boundary tags, first fit,
      coalescing.
    - MemCache (block.c, slab.c, list.c, mem_cache.c): slabs, their free lists
      and the three lists of a cache.
    - Vector (vector.c, number_interface.c, string_interface.c): the growable
      array, its locked operations, the typed interfaces.
    - SortList (problem-3/solution.c): the list operations and the bubble sort;
      SortCond: its two threads with the mutex and the condition variable.
    - SortMutex, SortRW, SortPerNode (problem-3/solution_only_mutex.c,
      solution_rw.c, solution_only_mutex++.c): the variants with one mutex, a
      read-write lock and a mutex in every node, on the list of SortList.
    - Proc (proc-names.c, proc_tree.c): lines, keys and values of status files,
      counting processes, walking to the ancestors.
    - ProcChildren (proc_children_count.c): counting the descendants of a process.
    - MyLs (my_ls.c), DirCrawler (dir-crawler.c): listing a directory, counting
      what is below one.
    - Base64 (base64_to_bytes.cpp): the lazily built table and the two decoders.
    - Charset (charset_decoder.cpp, base16.cpp): Windows-1251, ISO 8859-5 and
      KOI8-R to UTF-8, quoted-printable.
    - Eml (get_attachments.cpp): headers, encoded words, file names and the
      loop of main over the lines of a mail, down to the files it writes;
      built on Base64 and Charset.
    - Dijkstra (dijkstra.cpp): reading a graph and the search.
    - Rlp (RTL.cpp): taking an encoding apart and printing it reversed.
    - CppAlloc (my_alloc.cpp): the second allocator, on the memory of Alloc.
    - SharedPtr (shared_ptr.cpp): objects, counters and the pointers that share
      them, under any sequence of operations.
    - Triangles (find_triangle.cpp): the coloured search from each vertex.
    - BoundedStore (problem-7: store_ll.cpp, main.cpp): the linked list and the
      two threads that fill and drain it, as a step relation.
    - MapReduce (map-reduce): the mapper, the reducer and the lines they exchange.
    - LRUCache, Any, Array (LRUCache.cpp, any.cpp, array.cpp): C++ classes over a
      heap of the objects that exist.
    - HTTPClient (problem-6): a URL taken apart, the requests built from it.
    - Widgets (problem-5), PingPong (problem-1 and its task-13), FileThreads
      (problem-4): threads with semaphores, a mutex and condition variables.
    - Primitives (primitives.cpp): the spin lock, the barrier and the semaphore.
    - LinearAlgebra (matrix_utils.cpp, linear_system_solver.cpp,
      least_squares_solver.cpp): elimination, determinants, least squares, over
      a class of scalars with the rationals and IEEE binary64 as instances.
    - UdpServer (udp_server.c), SortServer (sortserver/solution.c): the loops of
      two servers over what their sockets receive.

    ** What is shown

    - Refinement.  The pool is a finite map from slots to sockets, under any
      sequence of calls; the message queue is a list used first in, first out,
      also under every interleaving of the logger's threads; the vector is a
      list of elements that [add], [set] and [pop] update as expected; the
      cache is a set of objects in use, to which [cache_alloc] adds one that is
      not among them, with the lists the slab moves between;
      the LRU cache is a map, a holder of any value holds it until it is
      replaced, and arrays are lists that copies do not share.
    - Equivalence.  The two base64 decoders agree on every input; the C++
      allocator agrees with the C one on every memory, but for the width of the
      numbers it lists; the character set converters agree with UTF-8 encoding
      on Russian text, but for one letter of Windows-1251; the two programs
      that print in turns print the same; least squares, with an [EPSILON] of
      0, solves the normal equations.
    - Invariants and progress.  In every reachable state of the server the only
      steps that can fault are the service of a request that faults by itself
      and the read of a thread id; a worker only touches its own slot, and
      after the exit signal the server ends with every socket closed once the
      clients it waits for have sent something.  In every
      program over shared pointers an object lives exactly as long as some
      pointer holds it.  The threads of the bounded store never both wait, and
      at most fourteen steps pass between two exchanges.  The sorted list loses
      no line under any interleaving with one mutex, faults only on a line whose
      copy was refused, and after two lines whose copies were made the program
      can always end; no more widgets are made than there are parts; the
      barrier lets all its threads go, the semaphore counts as long as its
      [int] does, the spin lock excludes; a reader of files reads all that its
      writer wrote.
    - Functional behaviour.  What is copied, sent, parsed and logged, byte for
      byte; which chunk an allocation splits and what a release merges; the
      geometry of a slab; that the relinking sort ends with the same lines in
      order; what is read from a status file; that the search returns the
      least weight of a path; that a mail with any number of attachments
      leaves each of them in the file its header names; that the triangles
      of a graph are counted once each; that elimination, with an [EPSILON] of
      0, finds the solution of a system; the distances after a number of rounds of the distributed
      search; the request an URL gives; what ls lists and the crawlers count.
    - Round trips.  Allocating and freeing restores the heap; [pop] undoes
      [add]; decoding undoes the standard base64, quoted-printable and RFC 2231
      encodings; reading a graph undoes printing it.
    - Where the code does not do what it means to, the theorem states what
      happens: the byte 255 that [copy_file] appends to some files, the slab
      laid out past its memory, the write past a token, the lost slot of a
      full pool, the shutdown that hangs, allocated chunks that are split,
      the connection slots beyond the width of a mask, the empty vector that is
      freed when it should grow, [clear] wiping the vector's own structure, the racing [pop], the empty
      attachment and the characters outside the alphabet that read memory
      nobody wrote, the letters a converter loses, the search for an
      unreachable vertex that overflows, the recursion that never ends, the
      list that is freed under the sorting thread, the line a read-write lock
      loses, the thread that locks a node it holds.

    ** Bounds and fuel

    Loops without a structural measure carry fuel, and the theorems show that
    the fuel suffices: a copy or send loop takes one round per byte or page
    plus one to meet the end of the file ([length + 2]); a walk over chunks or
    nodes takes at most as many rounds as the heap has cells or the store has
    nodes; the order of a slab is at most ten.  The pool theorems take at most
    31 slots, the width of the [int] masks of the code; the program uses 16.
    The search takes as many rounds as its own bound, the square of the number
    of vertices; taking an RLP encoding apart takes at most one call for each
    digit.  Weights are bounded so that as many of them as there are vertices
    add up to an [int], the square of the number of vertices has to be one too
    (46340 vertices), and lengths have to fit a [size_t].
    Walks down a directory tree or a process tree take the depth of the tree,
    determinants the rows that are left.  The programs that print in turns have
    finitely many states, 4000 rounds of the exploration find them all, and the
    checker says so; the assembly line rests within 23 steps of the signal.
    The theorems on linear algebra are about exact scalars, with an [EPSILON]
    of 0 instead of 1e-13, so they say nothing of products that the code takes
    for integers; the binary64 instance runs the same code with its constant.
    The growth factor of the vector is computed in IEEE double arithmetic
    (SpecFloat); that it gains an element is checked for every capacity from 1
    to 5000.

    ** Not modelled

    crypto.c (a binding to libgcrypt), the vendored base64.hpp (nothing of it is
    called), code that does not compile (get_file of net.c, which has no loop
    condition; mcat.c and proc-ppid.c, which use an undeclared EOT;
    pthreads-problems/problem-2), the exercises with one system call each
    (processes-problems and net/examples/simple-udp), the test and
    demonstration programs, the printers of progress messages, graphs and
    matrices.  What client_serving reads at a fixed offset of its thread
    descriptor is a parameter.  Accesses of two threads to the same variable outside a
    lock are interleaved as whole accesses. *)

From stdpp Require Export base numbers list gmap.
From Stdlib Require Export ZArith Lia.

#[export] Set Default Goal Selector "!".

(** ** Undefined behaviour as a value *)

(** The ways in which a C operation leaves the defined part of the language.
    A run that reaches one of them has no result. *)
Inductive fault :=
| NullDeref        (* access through a null pointer *)
| OutOfBounds      (* access outside the object it is based on *)
| Dangling         (* access to storage that is not (or no longer) allocated *)
| Indeterminate    (* an operation whose result the language leaves undefined *)
| Thrown           (* a C++ exception that nothing catches *)
| Blocked          (* waits for a lock or a flag that its own thread holds *)
| NoFuel.          (* the bound on loop iterations chosen by the model was hit *)

Inductive outcome (A : Type) :=
| Ok (a : A)
| Fault (f : fault).
Arguments Ok {A} a.
Arguments Fault {A} f.

#[export] Instance fault_eq_dec : EqDecision fault.
Proof. solve_decision. Defined.

#[export] Instance outcome_eq_dec `{EqDecision A} : EqDecision (outcome A).
Proof. solve_decision. Defined.

Definition is_ok {A} (o : outcome A) : bool :=
  match o with Ok _ => true | Fault _ => false end.

Definition of_option {A} (f : fault) (o : option A) : outcome A :=
  match o with Some a => Ok a | None => Fault f end.

Definition obind {A B} (o : outcome A) (k : A -> outcome B) : outcome B :=
  match o with Ok a => k a | Fault f => Fault f end.

(** ** A state and fault monad *)

(** C code that mutates a store of type [S], returns an [A] or faults. *)
Definition M (S A : Type) : Type := S -> outcome (A * S).

Definition ret {S A} (a : A) : M S A := fun s => Ok (a, s).
Definition bind {S A B} (m : M S A) (k : A -> M S B) : M S B :=
  fun s => match m s with
           | Ok (a, s') => k a s'
           | Fault f => Fault f
           end.
Definition fail {S A} (f : fault) : M S A := fun _ => Fault f.
Definition gets {S A} (g : S -> A) : M S A := fun s => Ok (g s, s).
Definition modify {S} (g : S -> S) : M S unit := fun s => Ok (tt, g s).
Definition lift {S A} (o : outcome A) : M S A :=
  fun s => match o with Ok a => Ok (a, s) | Fault f => Fault f end.

Declare Scope c_scope.
Delimit Scope c_scope with c.
Notation "x <- m ;; k" := (bind m (fun x => k))
  (at level 100, m at next level, right associativity) : c_scope.
Notation "m ;; k" := (bind m (fun _ => k))
  (at level 100, right associativity) : c_scope.
Notation "'let?' x := o 'in' k" := (obind o (fun x => k))
  (at level 10, x pattern, o at level 100, k at level 200) : c_scope.
Open Scope c_scope.

Section monad_laws.
Context {S A B C : Type}.

Lemma bind_ok (m : M S A) (k : A -> M S B) s a s' :
  m s = Ok (a, s') -> bind m k s = k a s'.
Proof. unfold bind. by intros ->. Qed.

Lemma bind_inv (m : M S A) (k : A -> M S B) s r :
  bind m k s = Ok r -> exists a s', m s = Ok (a, s') /\ k a s' = Ok r.
Proof. unfold bind. destruct (m s) as [[a s']|]; naive_solver. Qed.

Lemma bind_fault (m : M S A) (k : A -> M S B) s f :
  m s = Fault f -> bind m k s = Fault f.
Proof. unfold bind. by intros ->. Qed.

Lemma bind_ret_l (a : A) (k : A -> M S B) s : bind (ret a) k s = k a s.
Proof. done. Qed.

Lemma bind_ext (m : M S A) (k k' : A -> M S B) s :
  (forall a s', k a s' = k' a s') -> bind m k s = bind m k' s.
Proof. intros Hk. unfold bind. destruct (m s) as [[a s']|]; [apply Hk|done]. Qed.

Lemma bind_lift (a : A) (k : A -> M S B) s : bind (lift (Ok a)) k s = k a s.
Proof. done. Qed.

Lemma bind_assoc (m : M S A) (k : A -> M S B) (h : B -> M S C) s :
  bind (bind m k) h s = bind m (fun a => bind (k a) h) s.
Proof. unfold bind. by destruct (m s) as [[a s']|]. Qed.
End monad_laws.

(** Binds whose first computation does not touch the state. *)
Create Rewrite HintDb c_monad.
#[export] Hint Rewrite @bind_ret_l @bind_lift : c_monad.

(** The first computation of the goal is known to succeed: take its step. *)
Tactic Notation "run" open_constr(H) := rewrite (bind_ok _ _ _ _ _ H).

(** Open every monadic bind among the hypotheses. *)
Ltac binds :=
  repeat match goal with
  | H : bind _ _ _ = Ok _ |- _ =>
      let a := fresh "a" in let s := fresh "s" in
      let H1 := fresh "Hm" in let H2 := fresh "Hk" in
      apply bind_inv in H as (a & s & H1 & H2)
  | H : ret _ _ = Ok _ |- _ => unfold ret in H; simplify_eq
  | H : Ok _ = Ok _ |- _ => injection H as H; simplify_eq
  | H : Fault _ = Ok _ |- _ => discriminate H
  | H : fail _ _ = Ok _ |- _ => discriminate H
  end.

(** Case analysis on the boolean comparisons of the source. *)
Ltac zcmp :=
  repeat match goal with
  | H : context [Z.eqb ?a ?b] |- _ => destruct (Z.eqb_spec a b)
  | H : context [Z.ltb ?a ?b] |- _ => destruct (Z.ltb_spec a b)
  | H : context [Z.leb ?a ?b] |- _ => destruct (Z.leb_spec a b)
  | |- context [Z.eqb ?a ?b] => destruct (Z.eqb_spec a b)
  | |- context [Z.ltb ?a ?b] => destruct (Z.ltb_spec a b)
  | |- context [Z.leb ?a ?b] => destruct (Z.leb_spec a b)
  end.

(** Linear arithmetic with division and remainder by constants. *)
Ltac dlia := Z.to_euclidean_division_equations; lia.
