(* ===== verification/CInt.v ===== *)
(** * CInt: machine integers of the LP64 data model

    [size_t], [uint8_t], [int] and [int64_t] as [Z] with their wrap-around
    written out, the count-trailing-zeros builtin, and little-endian byte
    representations. *)

From S2P Require Import Prelude.
Open Scope Z_scope.

(** ** Widths *)

Definition u8 (z : Z) : Z := z mod 2 ^ 8.
Definition u32 (z : Z) : Z := z mod 2 ^ 32.
Definition u64 (z : Z) : Z := z mod 2 ^ 64.
Definition i8 (z : Z) : Z := (z + 2 ^ 7) mod 2 ^ 8 - 2 ^ 7.
Definition i32 (z : Z) : Z := (z + 2 ^ 31) mod 2 ^ 32 - 2 ^ 31.
Definition i64 (z : Z) : Z := (z + 2 ^ 63) mod 2 ^ 64 - 2 ^ 63.

Definition INT64_MAX : Z := 9223372036854775807.

Definition INT_MAX : Z := 2 ^ 31 - 1.

(** The sum and the product of two [int]s; overflow is undefined. *)
Definition add_int (a b : Z) : outcome Z :=
  if (- 2 ^ 31 <=? a + b) && (a + b <=? INT_MAX) then Ok (a + b) else Fault Indeterminate.

Definition mul_int (a b : Z) : outcome Z :=
  if (- 2 ^ 31 <=? a * b) && (a * b <=? INT_MAX) then Ok (a * b) else Fault Indeterminate.

Lemma u64_small z : 0 <= z < 2 ^ 64 -> u64 z = z.
Proof. apply Z.mod_small. Qed.

Lemma u64_range z : 0 <= u64 z < 2 ^ 64.
Proof. by apply Z.mod_pos_bound. Qed.

Create HintDb c_int.
#[export] Hint Resolve u64_range u64_small : c_int.

Lemma i32_small z : - 2 ^ 31 <= z < 2 ^ 31 -> i32 z = z.
Proof. intros. unfold i32. rewrite Z.mod_small; lia. Qed.

Lemma i64_small z : - 2 ^ 63 <= z < 2 ^ 63 -> i64 z = z.
Proof. intros. unfold i64. rewrite Z.mod_small; lia. Qed.

Lemma u64_add_idemp_l a b : u64 (u64 a + b) = u64 (a + b).
Proof. apply Zplus_mod_idemp_l. Qed.

(** ** Bits *)

(** [__builtin_ctz(x)] on the [unsigned int] value of [x]: the index of the
    lowest set bit; the builtin leaves the result for zero undefined. *)
Fixpoint ctz_from (n : nat) (i x : Z) : option Z :=
  match n with
  | O => None
  | S n => if Z.testbit x i then Some i else ctz_from n (i + 1) x
  end.

Definition builtin_ctz (x : Z) : outcome Z :=
  of_option Indeterminate (ctz_from 32 0 (u32 x)).

Lemma u32_testbit x i :
  0 <= i -> Z.testbit (u32 x) i = (i <? 32) && Z.testbit x i.
Proof.
  intros Hi. unfold u32. destruct (Z.ltb_spec i 32).
  - by rewrite Z.mod_pow2_bits_low by lia.
  - by rewrite Z.mod_pow2_bits_high by lia.
Qed.

Lemma ctz_from_first n i x k :
  i <= k < i + Z.of_nat n -> Z.testbit x k = true ->
  (forall j, i <= j < k -> Z.testbit x j = false) ->
  ctz_from n i x = Some k.
Proof.
  revert i. induction n as [|n IH]; intros i Hk Hb Hlow; [lia|]. simpl.
  destruct (Z.eqb_spec i k) as [->|Hne]; [by rewrite Hb|].
  rewrite Hlow by lia. apply IH; [lia|done|]. intros j Hj. apply Hlow. lia.
Qed.

(** The lowest set bit below 32 is what the builtin returns. *)
Lemma builtin_ctz_first x k :
  0 <= k < 32 -> Z.testbit x k = true ->
  (forall j, 0 <= j < k -> Z.testbit x j = false) ->
  builtin_ctz x = Ok k.
Proof.
  intros Hk Hb Hlow. unfold builtin_ctz.
  rewrite (ctz_from_first 32 0 _ k); [done|lia| |].
  - rewrite u32_testbit by lia. rewrite Hb. zcmp; [done|lia].
  - intros j Hj. rewrite u32_testbit by lia. rewrite Hlow by lia.
    by rewrite andb_false_r.
Qed.

Lemma shiftl1_testbit n i : 0 <= n -> Z.testbit (Z.shiftl 1 n) i = (i =? n).
Proof.
  intros Hn. destruct (Z.ltb_spec i 0).
  - rewrite Z.testbit_neg_r by lia. zcmp; lia.
  - rewrite Z.shiftl_1_l, Z.pow2_bits_eqb by lia. zcmp; lia.
Qed.


(** ** Little-endian bytes *)

Fixpoint le_bytes (n : nat) (z : Z) : list Z :=
  match n with
  | O => []
  | S n => z mod 256 :: le_bytes n (z / 256)
  end.

Fixpoint of_le (bs : list Z) : Z :=
  match bs with
  | [] => 0
  | b :: bs => b + 256 * of_le bs
  end.

Lemma length_le_bytes n z : length (le_bytes n z) = n.
Proof. revert z. induction n as [|n IH]; intros z; simpl; [done|by rewrite IH]. Qed.

Lemma of_le_bytes n z : of_le (le_bytes n z) = z mod 256 ^ Z.of_nat n.
Proof.
  revert z. induction n as [|n IH]; intros z.
  - simpl. by rewrite Z.mod_1_r.
  - cbn [le_bytes of_le]. rewrite IH.
    replace (256 ^ Z.of_nat (S n)) with (256 * 256 ^ Z.of_nat n)
      by (rewrite Nat2Z.inj_succ, Z.pow_succ_r by lia; done).
    rewrite Z.rem_mul_r by lia. done.
Qed.
