(* ===== verification/Dll.v ===== *)
(** * Dll: doubly linked lists in a store

    The log queue, the slab lists, the allocator's chunk list and the sorted
    line list are all chains of nodes linked both ways.  This file states once
    what it means for a store to hold such a chain, whatever its nodes are:
    [links a] gives the successor and the predecessor that the node at address
    [a] records, and address [0] is the null pointer. *)

From S2P Require Import Prelude.
Open Scope Z_scope.

Definition hdZ (d : Z) (l : list Z) : Z := match l with [] => d | a :: _ => a end.

Fixpoint lastZ (d : Z) (l : list Z) : Z :=
  match l with [] => d | a :: l => lastZ a l end.

(** [dll links p l n]: the nodes of [l], in this order, are linked; the first
    one's predecessor is [p] and the last one's successor is [n]. *)
Fixpoint dll (links : Z -> option (Z * Z)) (p : Z) (l : list Z) (n : Z) : Prop :=
  match l with
  | [] => True
  | a :: l => a <> 0 /\ links a = Some (hdZ n l, p) /\ dll links a l n
  end.

Lemma hdZ_app d l1 l2 : hdZ d (l1 ++ l2) = hdZ (hdZ d l2) l1.
Proof. by destruct l1. Qed.

Lemma lastZ_app d l1 l2 : lastZ d (l1 ++ l2) = lastZ (lastZ d l1) l2.
Proof. revert d. induction l1; intros; simpl; auto. Qed.

Lemma lastZ_snoc d l a : lastZ d (l ++ [a]) = a.
Proof. by rewrite lastZ_app. Qed.

Lemma lastZ_in d l : l <> [] -> lastZ d l ∈ l.
Proof.
  revert d. induction l as [|a [|b l] IH]; intros d Hne; [done|simpl; set_solver|].
  simpl. right. by apply (IH a).
Qed.

Lemma hdZ_in d l : l <> [] -> hdZ d l ∈ l.
Proof. destruct l; [done|]. simpl. set_solver. Qed.

Lemma dll_app links p l1 l2 n :
  dll links p (l1 ++ l2) n <->
  dll links p l1 (hdZ n l2) /\ dll links (lastZ p l1) l2 n.
Proof.
  revert p. induction l1 as [|a l1 IH]; intros p; simpl; [tauto|].
  rewrite IH, hdZ_app. tauto.
Qed.

Section dll.
Context (links : Z -> option (Z * Z)).

Lemma dll_nonnull p l n : dll links p l n -> Forall (fun a => a <> 0) l.
Proof. revert p. induction l; intros p; simpl; [done|]. intros (?&?&?). eauto. Qed.

Lemma dll_hd_null p l n : dll links p l n -> n = 0 -> hdZ n l = 0 <-> l = [].
Proof. destruct l; simpl; [done|]. intros (?&?&?) ->. naive_solver. Qed.

Lemma dll_lookup p l1 a l2 n :
  dll links p (l1 ++ a :: l2) n -> links a = Some (hdZ n l2, lastZ p l1).
Proof. intros (_ & _ & H & _)%dll_app. done. Qed.

(** A chain is determined by the links of its own nodes. *)
Lemma dll_ext links' p l n :
  (forall a, a ∈ l -> links' a = links a) -> dll links p l n -> dll links' p l n.
Proof.
  revert p. induction l as [|a l IH]; intros p Heq; simpl; [done|].
  intros (Ha & Hl & Hr). split; [done|]. split.
  - rewrite Heq; [done|set_solver].
  - apply IH; [|done]. set_solver.
Qed.

(** Redirect the successor of the last node. *)
Lemma dll_set_last links' p l a n n' :
  dll links p (l ++ [a]) n -> (forall b, b ∈ l -> links' b = links b) ->
  links' a = Some (n', lastZ p l) ->
  dll links' p (l ++ [a]) n'.
Proof.
  rewrite !dll_app. simpl. intros [H1 (Ha & _ & _)] Heq Hl.
  split; [by eapply dll_ext|done].
Qed.

(** Redirect the predecessor of the first node. *)
Lemma dll_set_first links' p p' a l n :
  dll links p (a :: l) n -> (forall b, b ∈ l -> links' b = links b) ->
  links' a = Some (hdZ n l, p') ->
  dll links' p' (a :: l) n.
Proof.
  simpl. intros (Ha & _ & H) Heq Hl. split; [done|]. split; [done|].
  by eapply dll_ext.
Qed.

(** Take a node out: its neighbours are linked to each other. *)
Lemma dll_delete links' p l1 a l2 n :
  dll links p (l1 ++ a :: l2) n ->
  (forall l0 t, l1 = l0 ++ [t] ->
     links' t = Some (hdZ n l2, lastZ p l0) /\ forall b, b ∈ l0 -> links' b = links b) ->
  (forall b l0, l2 = b :: l0 ->
     links' b = Some (hdZ n l0, lastZ p l1) /\ forall x, x ∈ l0 -> links' x = links x) ->
  dll links' p (l1 ++ l2) n.
Proof.
  intros Hd Hlast Hfirst. apply dll_app in Hd as [H1 (_ & _ & H2)]. apply dll_app. split.
  - destruct l1 as [|x xs]; [done|]. destruct (exists_last (l := x :: xs)) as (l0 & t & E); [done|].
    rewrite E in *. destruct (Hlast l0 t eq_refl) as [Ht Hb]. by eapply dll_set_last.
  - destruct l2 as [|b l0]; [done|]. destruct (Hfirst b l0 eq_refl) as [Hb Hx]. by eapply dll_set_first.
Qed.

(** Exchange two neighbours. *)
Lemma dll_swap links' p l1 a b l2 n :
  dll links p (l1 ++ a :: b :: l2) n ->
  links' a = Some (hdZ n l2, b) -> links' b = Some (a, lastZ p l1) ->
  (forall l0 t, l1 = l0 ++ [t] ->
     links' t = Some (b, lastZ p l0) /\ forall x, x ∈ l0 -> links' x = links x) ->
  (forall q l0, l2 = q :: l0 ->
     links' q = Some (hdZ n l0, a) /\ forall x, x ∈ l0 -> links' x = links x) ->
  dll links' p (l1 ++ b :: a :: l2) n.
Proof.
  intros Hd Ha Hb Hlast Hfirst. apply dll_app in Hd as [H1 (Ha0 & _ & Hb0 & _ & H2)].
  apply dll_app. split.
  - destruct l1 as [|x xs]; [done|]. destruct (exists_last (l := x :: xs)) as (l0 & t & E); [done|].
    rewrite E in *. destruct (Hlast l0 t eq_refl) as [Ht Hx]. by eapply dll_set_last.
  - split; [done|]. split; [done|]. split; [done|]. split; [done|].
    destruct l2 as [|q l0]; [done|]. destruct (Hfirst q l0 eq_refl) as [Hq Hx].
    by eapply dll_set_first.
Qed.
End dll.
