(* ===== verification/CString.v ===== *)
(** * CString: C strings and the string.h functions the programs call

    A string is the list of its bytes before the terminating NUL, so no byte
    of it is zero; a buffer that holds it is that list followed by [0]. *)

From S2P Require Import Prelude.
From Stdlib Require Ascii String.
Export String.StringSyntax.
Open Scope Z_scope.

Abbreviation cstr := (list Z).

(** A literal of the source, as bytes. *)
Definition bytes_of (s : String.string) : cstr :=
  List.map (fun a => Z.of_N (Ascii.N_of_ascii a)) (String.list_ascii_of_string s).
Arguments bytes_of s%_string_scope.

(** The contents of a buffer up to its first NUL. *)
Fixpoint c_str (buf : list Z) : cstr :=
  match buf with
  | [] => []
  | b :: buf => if b =? 0 then [] else b :: c_str buf
  end.

Definition strlen (s : cstr) : Z := Z.of_nat (length s).

(** [strncmp] on the bytes as [unsigned char]; only the sign of the result is
    specified, the difference is what the library computes. *)
Fixpoint strncmp (a b : cstr) (n : nat) {struct n} : Z :=
  match n with
  | O => 0
  | S n =>
      match a, b with
      | [], [] => 0
      | x :: a, y :: b => if x =? y then strncmp a b n else x - y
      | [], y :: _ => - y
      | x :: _, [] => x
      end
  end.

Fixpoint strcmp (a b : cstr) : Z :=
  match a, b with
  | [], [] => 0
  | x :: a, y :: b => if x =? y then strcmp a b else x - y
  | [], y :: _ => - y
  | x :: _, [] => x
  end.

(** [snprintf(buf, n, ..)] keeps what fits before the terminator. *)
Definition snprintf (n : nat) (s : cstr) : cstr := take (n - 1) s.

(** [sprintf] into an array of [n] bytes. *)
Definition sprintf (n : nat) (text : cstr) : outcome cstr :=
  if decide (length text < n)%nat then Ok text else Fault OutOfBounds.

(** Decimal digits, as ["%ld"] prints a non-negative number. *)
Fixpoint dec_digits (fuel : nat) (z : Z) (acc : cstr) : cstr :=
  match fuel with
  | O => acc
  | S fuel =>
      let acc := (48 + z mod 10) :: acc in
      if z <? 10 then acc else dec_digits fuel (z / 10) acc
  end.

Definition print_dec (z : Z) : cstr :=
  if z <? 0 then 45 :: dec_digits 20 (- z) [] else dec_digits 20 z [].

(** A string proper: bytes, none of them NUL. *)
Definition is_cstr (s : list Z) : Prop := Forall (fun b => 0 < b < 256) s.

Lemma strncmp_prefix p s :
  is_cstr p -> is_cstr s -> strncmp s p (length p) = 0 <-> p `prefix_of` s.
Proof.
  intros Hp. revert s. induction Hp as [|x p Hx Hp IH]; intros s Hs; simpl.
  - split; [|done]. intros _. apply prefix_nil.
  - destruct s as [|y s]; simpl.
    + split; [lia|]. by intros ?%prefix_nil_not.
    + inversion_clear Hs as [|? ? Hy Hs']. destruct (Z.eqb_spec y x) as [->|Hne].
      * rewrite (IH s Hs'). split; [apply prefix_cons|apply prefix_cons_inv_2].
      * split; [lia|]. intros ?%prefix_cons_inv_1. congruence.
Qed.

Lemma strcmp_eq a b : is_cstr a -> is_cstr b -> strcmp a b = 0 <-> a = b.
Proof.
  intros Ha. revert b. induction Ha as [|x a Hx Ha IH]; intros b Hb; destruct b as [|y b]; simpl.
  - done.
  - inversion_clear Hb. split; [lia|done].
  - split; [lia|done].
  - inversion_clear Hb as [|? ? Hy Hb']. destruct (Z.eqb_spec x y) as [->|Hne].
    + rewrite (IH b Hb'). split; [by intros ->|by intros [= ->]].
    + split; [lia|]. intros [= ? ?]. done.
Qed.

Lemma snprintf_short n s : (length s < n)%nat -> snprintf n s = s.
Proof. intros. unfold snprintf. apply take_ge. lia. Qed.

Lemma c_str_app s rest : is_cstr s -> c_str (s ++ 0 :: rest) = s.
Proof.
  intros Hs. induction Hs as [|x s Hx Hs IH]; [done|]. simpl.
  rewrite (proj2 (Z.eqb_neq x 0)) by lia. by rewrite IH.
Qed.

(** [strcmp] orders strings totally. *)
Lemma strcmp_trans a b c :
  is_cstr a -> is_cstr b -> is_cstr c ->
  strcmp a b <= 0 -> strcmp b c <= 0 -> strcmp a c <= 0.
Proof.
  intros Ha. revert b c. induction Ha as [|x a Hx Ha IH]; intros b c Hb Hc; destruct Hc as [|z c Hz Hc].
  - done.
  - simpl. lia.
  - destruct Hb as [|y b Hy Hb]; simpl; [lia|]. lia.
  - destruct Hb as [|y b Hy Hb]; simpl; [lia|].
    destruct (Z.eqb_spec x y) as [->|], (Z.eqb_spec y z) as [->|]; try lia.
    + by apply IH.
    + destruct (Z.eqb_spec x z); lia.
    + destruct (Z.eqb_spec x z); lia.
Qed.

Lemma strcmp_total a b : is_cstr a -> is_cstr b -> 0 < strcmp a b -> strcmp b a <= 0.
Proof.
  intros Ha. revert b. induction Ha as [|x a Hx Ha IH]; intros b Hb; destruct Hb as [|y b Hy Hb].
  - done.
  - simpl. lia.
  - simpl. lia.
  - simpl. destruct (Z.eqb_spec x y) as [->|Hne].
    + rewrite Z.eqb_refl. by apply IH.
    + destruct (Z.eqb_spec y x); lia.
Qed.

(** ** Strings in a buffer of zeros *)

Definition is_bytes (l : list Z) : Prop := Forall (fun b => 0 <= b < 256) l.

Lemma c_str_bytes buf : is_bytes buf -> is_cstr (c_str buf).
Proof.
  induction 1 as [|b buf Hb _ IH]; [constructor|]. simpl.
  destruct (Z.eqb_spec b 0); [constructor|]. constructor; [lia|done].
Qed.

(** A prefix without a NUL is one of the string in the buffer. *)
Lemma prefix_c_str p buf : is_cstr p -> p `prefix_of` c_str buf <-> p `prefix_of` buf.
Proof.
  intros Hp. revert buf. induction Hp as [|x p Hx Hp IH]; intros buf.
  { split; intros _; apply prefix_nil. }
  destruct buf as [|b buf]; simpl; [done|]. destruct (Z.eqb_spec b 0) as [->|Hb].
  - split; [by intros ?%prefix_nil_not|]. intros ?%prefix_cons_inv_1. lia.
  - split; intros H; pose proof (prefix_cons_inv_1 _ _ _ _ H) as ->;
      apply prefix_cons, IH; by apply prefix_cons_inv_2 in H.
Qed.

Lemma prefix_zeros p data n : is_cstr p -> p `prefix_of` data ++ replicate n 0 <-> p `prefix_of` data.
Proof.
  intros Hp. split; [|apply prefix_app_r]. revert data.
  induction Hp as [|x p Hx Hp IH]; intros data H; [apply prefix_nil|].
  destruct data as [|y data]; simpl in H.
  - destruct n; simpl in H; [by apply prefix_nil_not in H|]. apply prefix_cons_inv_1 in H. lia.
  - pose proof (prefix_cons_inv_1 _ _ _ _ H) as ->. apply prefix_cons, IH.
    by apply prefix_cons_inv_2 in H.
Qed.

(** [strncmp] with a literal, on a buffer of zeros that [data] was read into. *)
Lemma strncmp_zeros p data n :
  is_cstr p -> is_bytes data ->
  strncmp (c_str (data ++ replicate n 0)) p (length p) = 0 <-> p `prefix_of` data.
Proof.
  intros Hp Hd. rewrite strncmp_prefix; [|done|apply c_str_bytes].
  - by rewrite prefix_c_str, prefix_zeros.
  - apply Forall_app. split; [done|]. apply Forall_replicate. lia.
Qed.
