(* ===== verification/CBuf.v ===== *)
(** * CBuf: arrays accessed with their bounds checked

    A block of memory is the list of its cells.  Reading or writing outside of
    it is a fault, so a theorem that a run succeeds also bounds its accesses. *)

From S2P Require Import Prelude.
Open Scope Z_scope.

Abbreviation block := (list Z).

Definition load {A} (b : list A) (i : Z) : outcome A :=
  if i <? 0 then Fault OutOfBounds else of_option OutOfBounds (b !! Z.to_nat i).

Definition store {A} (b : list A) (i : Z) (v : A) : outcome (list A) :=
  let? _ := load b i in Ok (<[Z.to_nat i := v]> b).

(** [memcpy(dst, src + from, n)] *)
Definition memcpy (dst src : block) (from n : Z) : outcome block :=
  if (Z.of_nat (length dst) <? n) || (Z.of_nat (length src) <? from + n) then Fault OutOfBounds
  else Ok (take (Z.to_nat n) (drop (Z.to_nat from) src) ++ drop (Z.to_nat n) dst).

Section blocks.
Context {A : Type}.
Implicit Types b : list A.

Lemma load_nat b i x : b !! i = Some x -> load b (Z.of_nat i) = Ok x.
Proof.
  intros Hi. unfold load. rewrite (proj2 (Z.ltb_ge _ 0)) by lia. by rewrite Nat2Z.id, Hi.
Qed.

Lemma load_z b i x : 0 <= i -> b !! Z.to_nat i = Some x -> load b i = Ok x.
Proof. intros H0 Hi. rewrite <- (Z2Nat.id i) by done. by apply load_nat. Qed.

Lemma load_inv b i x : load b i = Ok x -> 0 <= i /\ b !! Z.to_nat i = Some x.
Proof.
  unfold load. destruct (Z.ltb_spec i 0); [done|].
  destruct (b !! Z.to_nat i); simpl; intros [= ->]; done.
Qed.

Lemma load_app_r (l : list A) b x i :
  i = Z.of_nat (length l) -> load (l ++ x :: b) i = Ok x.
Proof. intros ->. apply load_nat. by apply list_lookup_middle. Qed.

Lemma store_nat b i v : (i < length b)%nat -> store b (Z.of_nat i) v = Ok (<[i := v]> b).
Proof.
  intros Hi. destruct (lookup_lt_is_Some_2 b i Hi) as [x Hx].
  unfold store. rewrite (load_nat _ _ _ Hx). simpl. by rewrite Nat2Z.id.
Qed.

Lemma store_z b i v :
  0 <= i < Z.of_nat (length b) -> store b i v = Ok (<[Z.to_nat i := v]> b).
Proof. intros Hi. rewrite <- (Z2Nat.id i) at 1 by lia. apply store_nat. lia. Qed.

Lemma store_app_r (l : list A) b x v i :
  i = Z.of_nat (length l) -> store (l ++ x :: b) i v = Ok (l ++ v :: b).
Proof.
  intros ->. rewrite store_nat by (rewrite length_app; simpl; lia).
  by rewrite insert_app_r_alt, Nat.sub_diag by lia.
Qed.
End blocks.

Lemma memcpy_mid b pre t rest :
  (length t <= length b)%nat ->
  memcpy b (pre ++ t ++ rest) (Z.of_nat (length pre)) (Z.of_nat (length t)) = Ok (t ++ drop (length t) b).
Proof.
  intros Hl. unfold memcpy. rewrite !length_app.
  rewrite (proj2 (Z.ltb_ge (Z.of_nat (length b)) _)), (proj2 (Z.ltb_ge _ (_ + _))) by lia.
  cbn [orb]. by rewrite !Nat2Z.id, drop_app_length, take_app_length.
Qed.
