(* ===== verification/CppString.v ===== *)
(** * CppString: std::string and std::regex

    The members of [std::string] that the C++ programs call, with positions as
    [size_t] and [npos] as its largest value, and the part of the ECMAScript
    regular expressions their patterns use: characters, classes, alternatives,
    optional parts and repeated single characters.  Only whether a search
    succeeds matters to the programs, so greedy and lazy repetition agree and
    groups are not recorded. *)

From S2P Require Import Prelude CInt CString CBuf.
Open Scope Z_scope.

Definition npos : Z := 2 ^ 64 - 1.

Definition size (s : list Z) : Z := Z.of_nat (length s).

(** [substr(pos, n)]; a position past the end throws. *)
Definition substr (s : list Z) (pos n : Z) : outcome (list Z) :=
  if size s <? pos then Fault Thrown
  else Ok (take (Z.to_nat (Z.min n (size s))) (drop (Z.to_nat pos) s)).

(** [s[i]]; the position of the terminator may be read. *)
Definition char_at (s : list Z) (i : Z) : outcome Z := load (s ++ [0]) i.

(** [find(c, pos)] *)
Fixpoint find_from (c : Z) (s : list Z) (i : Z) : Z :=
  match s with
  | [] => npos
  | x :: s => if x =? c then i else find_from c s (i + 1)
  end.

Definition find (s : list Z) (c pos : Z) : Z :=
  if size s <? pos then npos else find_from c (drop (Z.to_nat pos) s) pos.

(** [find(t) != npos] *)
Fixpoint contains (t s : list Z) : bool :=
  bool_decide (t `prefix_of` s) ||
  match s with [] => false | _ :: s => contains t s end.

(** [toupper] of a [char]: negative values other than [EOF] are outside of its
    domain. *)
Definition toupper (c : Z) : outcome Z :=
  if (128 <=? c) && (c <? 255) then Fault Indeterminate
  else Ok (if (97 <=? c) && (c <=? 122) then c - 32 else c).

(** [erase(pos, n)] at a position within the string. *)
Definition erase_last (s : list Z) : list Z := take (length s - 1) s.

(** [std::stoi]: blanks, a sign, decimal digits, and anything after them.
    [None] where it throws, for want of digits or because the number does not
    fit an [int]. *)
Definition isspace (c : Z) : bool := ((9 <=? c) && (c <=? 13)) || (c =? 32).
Definition isdigit (c : Z) : bool := (48 <=? c) && (c <=? 57).

Fixpoint drop_while (p : Z -> bool) (s : list Z) : list Z :=
  match s with c :: s' => if p c then drop_while p s' else s | [] => [] end.

Fixpoint take_while (p : Z -> bool) (s : list Z) : list Z :=
  match s with c :: s => if p c then c :: take_while p s else [] | [] => [] end.

Definition number (ds : list Z) : Z := foldl (fun v c => 10 * v + (c - 48)) 0 ds.

Definition to_int (neg : bool) (s : list Z) : option Z :=
  let ds := take_while isdigit s in
  let v := if neg then - number ds else number ds in
  if bool_decide (ds = []) then None
  else if (- 2 ^ 31 <=? v) && (v <? 2 ^ 31) then Some v else None.

Definition stoi (s : list Z) : option Z :=
  match drop_while isspace s with
  | 45 :: s => to_int true s
  | 43 :: s => to_int false s
  | s => to_int false s
  end.

(** The lines that [getline] extracts. *)
Fixpoint getlines (content acc : list Z) : list (list Z) :=
  match content with
  | [] => if bool_decide (acc = []) then [] else [acc]
  | c :: content => if c =? 10 then acc :: getlines content [] else getlines content (acc ++ [c])
  end.

(** ** Regular expressions *)

Inductive regex :=
| Eps
| Chr (p : Z -> bool)
| Seq (r1 r2 : regex)
| Alt (r1 r2 : regex)
| Opt (r : regex)
| Star (p : Z -> bool).

Fixpoint skips (p : Z -> bool) (s : list Z) : list (list Z) :=
  s :: match s with
       | [] => []
       | c :: s => if p c then skips p s else []
       end.

(** What can be left of [s] after a match at its start. *)
Fixpoint ends (r : regex) (s : list Z) : list (list Z) :=
  match r with
  | Eps => [s]
  | Chr p => match s with c :: s => if p c then [s] else [] | [] => [] end
  | Seq r1 r2 => flat_map (ends r2) (ends r1 s)
  | Alt r1 r2 => ends r1 s ++ ends r2 s
  | Opt r => ends r s ++ [s]
  | Star p => skips p s
  end.

Fixpoint regex_search (s : list Z) (r : regex) : bool :=
  match ends r s with
  | _ :: _ => true
  | [] => match s with [] => false | _ :: s => regex_search s r end
  end.

Definition lit (c : Z) : regex := Chr (Z.eqb c).
Definition lits (w : list Z) : regex := foldr (fun c r => Seq (lit c) r) Eps w.

(** A dot matches anything but a line terminator. *)
Definition dot (c : Z) : bool := negb ((c =? 10) || (c =? 13)).

Definition tolower (c : Z) : Z := if (65 <=? c) && (c <=? 90) then c + 32 else c.
Definition ilits (w : list Z) : regex :=
  foldr (fun c r => Seq (Chr (fun x => tolower x =? tolower c)) r) Eps w.

(** ** Lemmas *)

Lemma substr_mid pre t rest pos n :
  pos = Z.of_nat (length pre) -> n = Z.of_nat (length t) -> substr (pre ++ t ++ rest) pos n = Ok t.
Proof.
  intros -> ->. unfold substr, size. rewrite (proj2 (Z.ltb_ge _ _)) by (rewrite length_app; lia).
  rewrite !length_app, Z.min_l by lia. by rewrite !Nat2Z.id, drop_app_length, take_app_length.
Qed.

Lemma substr_head t rest n : n = Z.of_nat (length t) -> substr (t ++ rest) 0 n = Ok t.
Proof. by apply (substr_mid []). Qed.

Lemma substr_end pre t pos n :
  pos = Z.of_nat (length pre) -> Z.of_nat (length t) <= n -> substr (pre ++ t) pos n = Ok t.
Proof.
  intros -> Hn. unfold substr, size. rewrite (proj2 (Z.ltb_ge _ _)) by (rewrite length_app; lia).
  rewrite Nat2Z.id, drop_app_length, take_ge; [done|]. rewrite length_app. lia.
Qed.

Lemma find_from_first c pre rest i :
  ~ (c ∈ pre) -> find_from c (pre ++ c :: rest) i = i + Z.of_nat (length pre).
Proof.
  revert i. induction pre as [|x pre IH]; intros i Hc; simpl.
  - rewrite Z.eqb_refl. lia.
  - apply not_elem_of_cons in Hc as [Hx Hc]. rewrite (proj2 (Z.eqb_neq x c)) by done.
    rewrite IH by done. lia.
Qed.

Lemma find_first c pre mid rest pos :
  pos = Z.of_nat (length pre) -> ~ (c ∈ mid) ->
  find (pre ++ mid ++ c :: rest) c pos = Z.of_nat (length (pre ++ mid)).
Proof.
  intros -> Hc. unfold find, size. rewrite (proj2 (Z.ltb_ge _ _)) by (rewrite length_app; lia).
  rewrite Nat2Z.id, drop_app_length, find_from_first by done. rewrite length_app. lia.
Qed.

Lemma contains_infix t s : contains t s = true <-> exists l r, s = l ++ t ++ r.
Proof.
  induction s as [|x s IH]; simpl.
  - rewrite orb_false_r, bool_decide_eq_true. split.
    + intros [r ->]. exists [], r. done.
    + intros (l & r & H). symmetry in H. apply app_nil in H as [_ H]. by exists r.
  - rewrite orb_true_iff, bool_decide_eq_true, IH. split.
    + intros [[r ->]|(l & r & ->)]; [by exists [], r|by exists (x :: l), r].
    + intros ([|y l] & r & H); simplify_eq/=; [left; by exists r|right; by exists l, r].
Qed.

(** A string without the first character of the pattern. *)
Lemma contains_absent c t s : ~ (c ∈ s) -> contains (c :: t) s = false.
Proof.
  intros Hc. destruct (contains (c :: t) s) eqn:E; [|done]. exfalso.
  apply contains_infix in E as (l & r & ->). set_solver.
Qed.

Lemma regex_search_at r pre s : ends r s <> [] -> regex_search (pre ++ s) r = true.
Proof.
  intros Hs. induction pre as [|x pre IH]; simpl.
  - destruct (ends r s) eqn:E; [done|]. destruct s; simpl; by rewrite E.
  - destruct (ends r (x :: pre ++ s)); [exact IH|done].
Qed.

Lemma ends_lits w r s : ends (Seq (lits w) r) (w ++ s) = ends r s.
Proof.
  induction w as [|c w IH]; simpl in *; [by rewrite app_nil_r|].
  rewrite Z.eqb_refl. simpl. by rewrite app_nil_r.
Qed.

(** Printing and reading a number. *)
Lemma dec_digits_number fuel : forall z acc,
  0 <= z < 10 ^ Z.of_nat fuel ->
  foldl (fun v c => 10 * v + (c - 48)) 0 (dec_digits fuel z acc) = foldl (fun v c => 10 * v + (c - 48)) z acc.
Proof.
  induction fuel as [|fuel IH]; intros z acc Hz.
  { simpl in Hz. by replace z with 0 by lia. }
  cbn [dec_digits]. destruct (Z.ltb_spec z 10) as [Hlt|Hge].
  - rewrite Z.mod_small by lia. cbn [foldl]. f_equal. lia.
  - rewrite IH.
    + cbn [foldl]. f_equal. dlia.
    + rewrite Nat2Z.inj_succ, Z.pow_succ_r in Hz by lia. dlia.
Qed.

Lemma dec_digits_digits fuel : forall z acc,
  0 <= z -> (fuel <> 0)%nat -> exists c ds, dec_digits fuel z acc = c :: ds ++ acc /\
    Forall (fun c => isdigit c = true) (c :: ds).
Proof.
  induction fuel as [|fuel IH]; intros z acc Hz Hf; [done|]. cbn [dec_digits].
  assert (Hd : isdigit (48 + z mod 10) = true).
  { unfold isdigit. rewrite !(proj2 (Z.leb_le _ _)) by dlia. done. }
  destruct (z <? 10).
  - exists (48 + z mod 10), []. split; [done|]. by apply Forall_singleton.
  - destruct fuel as [|fuel].
    + exists (48 + z mod 10), []. split; [done|]. by apply Forall_singleton.
    + destruct (IH (z / 10) ((48 + z mod 10) :: acc)) as (c & ds & -> & Hds); [dlia|done|].
      exists c, (ds ++ [48 + z mod 10]). split; [by rewrite <- app_assoc|].
      rewrite app_comm_cons, Forall_app. split; [done|by apply Forall_singleton].
Qed.

Lemma take_while_all p s rest :
  Forall (fun c => p c = true) s -> match rest with c :: _ => p c = false | [] => True end ->
  take_while p (s ++ rest) = s.
Proof.
  intros Hs Hr. induction Hs as [|c s Hc _ IH]; simpl.
  - destruct rest as [|c rest]; simpl; [done|by rewrite Hr].
  - by rewrite Hc, IH.
Qed.

Lemma stoi_print z rest :
  0 <= z < 2 ^ 31 -> match rest with c :: _ => isdigit c = false | [] => True end ->
  stoi (print_dec z ++ rest) = Some z.
Proof.
  intros Hz Hr. unfold print_dec. rewrite (proj2 (Z.ltb_ge z 0)) by lia.
  pose proof (dec_digits_number 20 z []) as Hn. simpl foldl in Hn at 2.
  destruct (dec_digits_digits 20 z [] ltac:(lia) ltac:(done)) as (c & ds & E & Hd). rewrite E in *.
  rewrite app_nil_r in *. unfold stoi.
  assert (Hc : isdigit c = true) by (by apply Forall_cons in Hd as [? _]).
  assert (Hc' : 48 <= c <= 57) by (unfold isdigit in Hc; zcmp; (lia || done)).
  assert (isspace c = false) as Hsp by (unfold isspace; zcmp; (lia || done)).
  cbn [app drop_while]. rewrite Hsp.
  transitivity (to_int false (c :: ds ++ rest)).
  { destruct c as [|p|p]; try lia. do 6 (destruct p as [p|p|]; try lia; try done). }
  unfold to_int. rewrite app_comm_cons, take_while_all by done. rewrite bool_decide_false by done.
  unfold number. rewrite Hn by lia. cbn [foldl].
  rewrite (proj2 (Z.leb_le _ _)), (proj2 (Z.ltb_lt z _)) by lia. done.
Qed.

Lemma stoi_print_end z : 0 <= z < 2 ^ 31 -> stoi (print_dec z) = Some z.
Proof. intros Hz. rewrite <- (app_nil_r (print_dec z)). by apply stoi_print. Qed.

Lemma print_dec_digits z : 0 <= z -> print_dec z <> [] /\ Forall (fun c => isdigit c = true) (print_dec z).
Proof.
  intros Hz. unfold print_dec. rewrite (proj2 (Z.ltb_ge z 0)) by lia.
  destruct (dec_digits_digits 20 z [] Hz ltac:(done)) as (c & ds & -> & Hd). by rewrite app_nil_r.
Qed.

Lemma print_dec_avoids z c : 0 <= z -> isdigit c = false -> ~ (c ∈ print_dec z).
Proof.
  intros Hz Hc Hin. destruct (print_dec_digits z Hz) as [_ Hd]. rewrite Forall_forall in Hd.
  apply Hd in Hin. congruence.
Qed.

(** ** Lines *)

Lemma getlines_line l acc rest :
  ~ (10 ∈ l) -> getlines (l ++ 10 :: rest) acc = (acc ++ l) :: getlines rest [].
Proof.
  revert acc. induction l as [|c l IH]; intros acc Hl; simpl; [by rewrite app_nil_r|].
  apply not_elem_of_cons in Hl as [Hc Hl]. rewrite (proj2 (Z.eqb_neq c 10)) by done.
  rewrite IH by done. by rewrite <- app_assoc.
Qed.

Definition unlines (ls : list (list Z)) : list Z := flat_map (fun l => l ++ [10]) ls.

Lemma getlines_unlines ls : Forall (fun l => ~ (10 ∈ l)) ls -> getlines (unlines ls) [] = ls.
Proof.
  induction 1 as [|l ls Hl _ IH]; [done|]. cbn [unlines flat_map]. rewrite <- app_assoc. cbn [app].
  rewrite getlines_line by done. rewrite app_nil_l. f_equal. exact IH.
Qed.

Lemma unlines_app a b : unlines (a ++ b) = unlines a ++ unlines b.
Proof. apply flat_map_app. Qed.
