(* ===== verification/ConnPool.v ===== *)
(** * ConnPool: the file server's connection pool

    Models [src/net/tcp/server/fileserver/conn_pool.c] and
    [include/conn_pool.h]: a fixed array of connection descriptors whose free
    slots are the set bits of a 64-bit bitmap.  A pointer argument that the
    code tests against null is an [option].  The theorems relate the pool to
    a finite map from booked slots to sockets. *)

From S2P Require Import Prelude CInt.
Open Scope Z_scope.

(** ** Data *)

Definition OK : Z := 1.
Definition NOT_OK : Z := -1.

Record ConnectionDesc := mk_conn {
  thread_id : Z;
  connection_sock : Z;
  offset : Z
}.

Definition sizeof_ConnectionDesc : Z := 24.

(** The lock and the two condition variables carry no data here; what the
    code does to them is recorded as events. *)
Record ConnectionsPool := mk_pool {
  connections : list ConnectionDesc;
  pool_size : Z;
  free_space_bitmap : Z
}.

#[export] Instance ConnectionDesc_eq_dec : EqDecision ConnectionDesc.
Proof. solve_decision. Defined.
#[export] Instance ConnectionsPool_eq_dec : EqDecision ConnectionsPool.
Proof. solve_decision. Defined.

Definition zero_desc : ConnectionDesc := mk_conn 0 0 0.

Inductive resource := RPool | RConnections | RLock | RCond | RIsFreeCond.

#[export] Instance resource_eq_dec : EqDecision resource.
Proof. solve_decision. Defined.

Inductive event :=
| Acquire (r : resource)
| Release (r : resource)
| Close (sock : Z)
| BroadcastCond
| BroadcastIsFreeCond.

#[export] Instance event_eq_dec : EqDecision event.
Proof. solve_decision. Defined.

Definition set_bitmap (p : ConnectionsPool) (b : Z) : ConnectionsPool :=
  mk_pool (connections p) (pool_size p) b.
Definition set_connections (p : ConnectionsPool) (cs : list ConnectionDesc) : ConnectionsPool :=
  mk_pool cs (pool_size p) (free_space_bitmap p).

(** ** Creation and destruction *)

(** What the C library answers while the pool is created. *)
Record create_env := mk_create_env {
  malloc_pool : bool;
  malloc_connections : bool;
  mutex_init : Z;
  cond_init : Z;
  is_free_cond_init : Z
}.

Definition create_conn_pool (env : create_env) (sz : Z)
  : option ConnectionsPool * list event :=
  if negb (malloc_pool env) then (None, [])
  else
    let mem_size := u64 (sz * sizeof_ConnectionDesc) in
    if negb (malloc_connections env) then
      (None, [Acquire RPool; Release RPool])
    else
      let conns := replicate (Z.to_nat (mem_size / sizeof_ConnectionDesc)) zero_desc in
      if negb (mutex_init env =? 0) then
        (None, [Acquire RPool; Acquire RConnections;
                Release RConnections; Release RPool])
      else if negb (cond_init env =? 0) then
        (None, [Acquire RPool; Acquire RConnections; Acquire RLock;
                Release RConnections; Release RLock; Release RPool])
      else if negb (is_free_cond_init env =? 0) then
        (None, [Acquire RPool; Acquire RConnections; Acquire RLock; Acquire RCond;
                Release RConnections; Release RLock; Release RCond; Release RPool])
      else
        (Some (mk_pool conns sz INT64_MAX),
         [Acquire RPool; Acquire RConnections; Acquire RLock; Acquire RCond;
          Acquire RIsFreeCond]).

Definition destruct_conn_pool (pool : option ConnectionsPool) : list event :=
  match pool with
  | None => []
  | Some _ => [Release RConnections; Release RLock; Release RCond;
               Release RIsFreeCond; Release RPool]
  end.

(** ** Queries *)

Definition pool_is_free (p : ConnectionsPool) : bool :=
  free_space_bitmap p =? INT64_MAX.

(** [zero_size] is read before it is ever written: its initial value is
    whatever the stack slot holds, an argument here. *)
Definition pool_is_full (zero_size : Z) (p : ConnectionsPool) : outcome bool :=
  if 64 <=? pool_size p then Fault Indeterminate
  else
    let zero_size := i64 (Z.shiftl (Z.shiftr zero_size (pool_size p)) (pool_size p)) in
    Ok (free_space_bitmap p =? zero_size).

(** [1 << off] in a signed type with [w] value bits: undefined where the bit is
    not one of them. *)
Definition signed_bit (w off : Z) : outcome Z :=
  if (0 <=? off) && (off <? w) then Ok (Z.shiftl 1 off) else Fault Indeterminate.

Definition bitmap_contain (bitmap off : Z) : outcome Z :=
  if bitmap =? 0 then Ok NOT_OK
  else
    let? mask := signed_bit 63 off in
    let mask := Z.land mask bitmap in
    Ok (if mask =? 0 then 1 else 0).

(** ** Slots *)

(** The masks are [int]s: slots from 31 on have none. *)

Definition book_pos (bitmap : option Z) : outcome (Z * option Z) :=
  match bitmap with
  | None => Ok (-1, None)
  | Some b =>
      let? res := builtin_ctz b in
      let? mask := signed_bit 31 res in
      Ok (res, Some (Z.land b (Z.lnot mask)))
  end.

Definition unbook_pos (bitmap : option Z) (off : Z) : outcome (option Z) :=
  match bitmap with
  | None => Ok None
  | Some b =>
      let? mask := signed_bit 31 off in
      Ok (Some (Z.lor b mask))
  end.

(** The descriptor is built in a local whose [thread_id] is not assigned:
    [garbage_tid] is the value it happens to hold. *)
Definition store_connection (garbage_tid : Z) (pool : option ConnectionsPool) (sock : Z)
  : outcome (Z * option ConnectionsPool) :=
  match pool with
  | None => Ok (NOT_OK, None)
  | Some p =>
      if free_space_bitmap p =? 0 then Ok (NOT_OK, Some p)
      else
        let? bk := book_pos (Some (free_space_bitmap p)) in
        let off := fst bk in
        let p := match snd bk with Some b => set_bitmap p b | None => p end in
        if (off =? -1) || (pool_size p <=? u64 off) then Ok (NOT_OK, Some p)
        else
          let conn := mk_conn garbage_tid sock off in
          match connections p !! Z.to_nat off with
          | None => Fault OutOfBounds
          | Some _ =>
              Ok (off, Some (set_connections p (<[Z.to_nat off := conn]> (connections p))))
          end
  end.

(** The address of [connections[offset].thread_id], as the slot's index. *)
Definition get_tid_pos (pool : option ConnectionsPool) (off : Z) : option Z :=
  match pool with
  | None => None
  | Some _ => Some off
  end.

Definition release_connection (pool : option ConnectionsPool) (off : Z)
  : outcome (Z * option ConnectionsPool * list event) :=
  match pool with
  | None => Ok (NOT_OK, None, [])
  | Some p =>
      match (if off <? 0 then None else connections p !! Z.to_nat off) with
      | None => Fault OutOfBounds
      | Some conn =>
          let ev := [Close (connection_sock conn)] in
          let? bitmap := unbook_pos (Some (free_space_bitmap p)) off in
          let p := match bitmap with Some b => set_bitmap p b | None => p end in
          let ev := if pool_is_free p then ev ++ [BroadcastCond] else ev in
          let ev := ev ++ [BroadcastIsFreeCond] in
          let p := set_connections p (<[Z.to_nat off := zero_desc]> (connections p)) in
          Ok (OK, Some p, ev)
      end
  end.

(** The lines [print] writes: one descriptor per slot it takes as booked. *)
Fixpoint print_slots (p : ConnectionsPool) (slots : list Z) : outcome (list ConnectionDesc) :=
  match slots with
  | [] => Ok []
  | i :: slots =>
      let? contain := bitmap_contain (free_space_bitmap p) i in
      if negb (contain =? 0) then
        let? cur_conn := of_option OutOfBounds (connections p !! Z.to_nat i) in
        let? rest := print_slots p slots in
        Ok (cur_conn :: rest)
      else print_slots p slots
  end.

Definition print (pool : option ConnectionsPool) : outcome (list ConnectionDesc) :=
  match pool with
  | None => Ok []
  | Some p => print_slots p (seqZ 0 (pool_size p))
  end.

(** ** The pool as a finite map *)

(** [pool_rel p m]: the booked slots of [p] are the keys of [m], each holding
    the descriptor of its socket; every other slot is zeroed.  A pool has at most
    31 slots, as many as the [int] masks of [book_pos] and [unbook_pos] have
    bits; the server makes one of 16. *)
Record pool_rel (p : ConnectionsPool) (m : gmap Z Z) : Prop := {
  rel_size : pool_size p = Z.of_nat (length (connections p));
  rel_small : pool_size p <= 31;
  rel_bits : forall i, 0 <= i ->
    Z.testbit (free_space_bitmap p) i = (i <? 63) && bool_decide (m !! i = None);
  rel_booked : forall i s, m !! i = Some s ->
    0 <= i < pool_size p /\
    exists tid, connections p !! Z.to_nat i = Some (mk_conn tid s i);
  rel_free : forall i, 0 <= i < pool_size p -> m !! i = None ->
    connections p !! Z.to_nat i = Some zero_desc
}.

(** The first slot that is free in [m]. *)
Definition least_free (m : gmap Z Z) (i : Z) : Prop :=
  0 <= i /\ m !! i = None /\ forall j, 0 <= j < i -> is_Some (m !! j).

Definition full (m : gmap Z Z) (n : Z) : Prop :=
  forall i, 0 <= i < n -> is_Some (m !! i).

Lemma INT64_MAX_testbit i : 0 <= i -> Z.testbit INT64_MAX i = (i <? 63).
Proof.
  intros. change INT64_MAX with (Z.ones 63). rewrite Z.testbit_ones by lia.
  zcmp; lia.
Qed.

Lemma signed_bit_ok w off : 0 <= off < w -> signed_bit w off = Ok (Z.shiftl 1 off).
Proof. intros. unfold signed_bit. by rewrite (proj2 (Z.leb_le _ _)), (proj2 (Z.ltb_lt _ _)) by lia. Qed.

Lemma land_lnot_bit b k i :
  0 <= k -> 0 <= i ->
  Z.testbit (Z.land b (Z.lnot (Z.shiftl 1 k))) i = Z.testbit b i && negb (i =? k).
Proof. intros. by rewrite Z.land_spec, Z.lnot_spec, shiftl1_testbit by lia. Qed.

Lemma lor_bit b k i :
  0 <= k -> Z.testbit (Z.lor b (Z.shiftl 1 k)) i = Z.testbit b i || (i =? k).
Proof. intros. by rewrite Z.lor_spec, shiftl1_testbit by lia. Qed.

Lemma rel_bitmap_nonzero p m : pool_rel p m -> free_space_bitmap p <> 0.
Proof.
  intros H E. pose proof (rel_bits _ _ H 62 ltac:(lia)) as Hb.
  rewrite E, Z.testbit_0_l in Hb. symmetry in Hb.
  apply andb_false_iff in Hb as [Hb|Hb]; [discriminate|].
  apply bool_decide_eq_false in Hb.
  destruct (m !! 62) as [s|] eqn:Em; [|done].
  apply (rel_booked _ _ H) in Em. pose proof (rel_small _ _ H). lia.
Qed.

Lemma least_free_le p m n :
  pool_rel p m -> least_free m n -> 0 <= n <= pool_size p.
Proof.
  intros H (Hn & _ & Hlow). split; [done|].
  destruct (Z_le_gt_dec n (pool_size p)); [done|]. exfalso.
  pose proof (rel_size _ _ H).
  destruct (Hlow (pool_size p)) as [s Hs]; [lia|].
  apply (rel_booked _ _ H) in Hs. lia.
Qed.

Lemma book_pos_least p m n :
  pool_rel p m -> least_free m n ->
  n <= 30 ->
  book_pos (Some (free_space_bitmap p)) =
    Ok (n, Some (Z.land (free_space_bitmap p) (Z.lnot (Z.shiftl 1 n)))).
Proof.
  intros H Hl Hn30. pose proof (least_free_le _ _ _ H Hl). pose proof (rel_small _ _ H).
  destruct Hl as (Hn & Hfree & Hlow). unfold book_pos.
  rewrite (builtin_ctz_first _ n); [simpl; by rewrite signed_bit_ok by lia|lia| |].
  - rewrite (rel_bits _ _ H), bool_decide_eq_true_2 by done. zcmp; [done|lia].
  - intros j Hj. rewrite (rel_bits _ _ H) by lia.
    destruct (Hlow j Hj) as [s ->]. by rewrite andb_false_r.
Qed.

Lemma pool_rel_book p m n g sock :
  pool_rel p m -> 0 <= n < pool_size p -> m !! n = None ->
  pool_rel (mk_pool (<[Z.to_nat n := mk_conn g sock n]> (connections p)) (pool_size p)
              (Z.land (free_space_bitmap p) (Z.lnot (Z.shiftl 1 n))))
           (<[n := sock]> m).
Proof.
  intros H Hn Hfree. pose proof (rel_size _ _ H). pose proof (rel_small _ _ H).
  split; simpl.
  - by rewrite length_insert.
  - done.
  - intros i Hi. rewrite land_lnot_bit by lia. rewrite (rel_bits _ _ H) by lia.
    destruct (Z.eqb_spec i n) as [->|Hne].
    + rewrite lookup_insert_eq. rewrite (bool_decide_eq_false_2 (Some _ = _)) by done.
      by rewrite !andb_false_r.
    + rewrite lookup_insert_ne by done. by rewrite andb_true_r.
  - intros i s Hs. destruct (decide (i = n)) as [->|Hne].
    + rewrite lookup_insert_eq in Hs. simplify_eq. split; [lia|].
      exists g. rewrite list_lookup_insert_eq; [done|lia].
    + rewrite lookup_insert_ne in Hs by done.
      apply (rel_booked _ _ H) in Hs as [Hi [tid Ht]]. split; [done|].
      exists tid. rewrite list_lookup_insert_ne; [done|lia].
  - intros i Hi Hnone. destruct (decide (i = n)) as [->|Hne].
    + by rewrite lookup_insert_eq in Hnone.
    + rewrite lookup_insert_ne in Hnone by done.
      rewrite list_lookup_insert_ne by lia. by apply (rel_free _ _ H).
Qed.

Lemma pool_rel_unbook p m n s :
  pool_rel p m -> m !! n = Some s ->
  pool_rel (mk_pool (<[Z.to_nat n := zero_desc]> (connections p)) (pool_size p)
              (Z.lor (free_space_bitmap p) (Z.shiftl 1 n)))
           (delete n m).
Proof.
  intros H Hs. pose proof (rel_size _ _ H). pose proof (rel_small _ _ H).
  pose proof (rel_booked _ _ H _ _ Hs) as [Hn _].
  split; simpl.
  - by rewrite length_insert.
  - done.
  - intros i Hi. rewrite lor_bit by lia. rewrite (rel_bits _ _ H) by lia.
    destruct (Z.eqb_spec i n) as [->|Hne].
    + rewrite lookup_delete_eq. rewrite orb_true_r. zcmp; [done|lia].
    + rewrite lookup_delete_ne by done. by rewrite orb_false_r.
  - intros i s' Hs'. apply lookup_delete_Some in Hs' as [Hne Hs'].
    apply (rel_booked _ _ H) in Hs' as [Hi [tid Ht]]. split; [done|].
    exists tid. rewrite list_lookup_insert_ne; [done|lia].
  - intros i Hi Hnone. destruct (decide (i = n)) as [->|Hne].
    + rewrite list_lookup_insert_eq; [done|lia].
    + rewrite lookup_delete_ne in Hnone by done.
      rewrite list_lookup_insert_ne by lia. by apply (rel_free _ _ H).
Qed.

Lemma rel_pool_is_free p m :
  pool_rel p m -> pool_is_free p = bool_decide (m = ∅).
Proof.
  intros H. unfold pool_is_free. case_bool_decide as E.
  - subst m. apply Z.eqb_eq. apply Z.bits_inj'. intros i Hi.
    rewrite (rel_bits _ _ H), INT64_MAX_testbit by done.
    rewrite lookup_empty, bool_decide_eq_true_2 by done. by rewrite andb_true_r.
  - apply Z.eqb_neq. intros Eb. apply E, map_eq. intros i. rewrite lookup_empty.
    destruct (m !! i) as [s|] eqn:Hs; [exfalso|done].
    pose proof (rel_booked _ _ H _ _ Hs) as [Hi _]. pose proof (rel_small _ _ H).
    pose proof (rel_bits _ _ H i ltac:(lia)) as Hb.
    rewrite Eb, INT64_MAX_testbit in Hb by lia.
    rewrite bool_decide_eq_false_2, andb_false_r in Hb by congruence.
    zcmp; [done|lia].
Qed.

(** The bits of [(zero_size >> size) << size] are those of [zero_size] from
    [size] on. *)
Lemma zero_size_bits z n i :
  0 <= n -> 0 <= i ->
  Z.testbit (Z.shiftl (Z.shiftr z n) n) i = (n <=? i) && Z.testbit z i.
Proof.
  intros. rewrite Z.shiftl_spec by lia. destruct (Z.leb_spec n i).
  - rewrite Z.shiftr_spec by lia. simpl. f_equal. lia.
  - by rewrite Z.testbit_neg_r by lia.
Qed.

Lemma shift_back_range z n :
  0 <= n -> 0 <= z -> 0 <= Z.shiftl (Z.shiftr z n) n <= z.
Proof.
  intros Hn Hz. rewrite Z.shiftl_mul_pow2, Z.shiftr_div_pow2 by done.
  assert (0 < 2 ^ n) by (apply Z.pow_pos_nonneg; lia).
  pose proof (Z.div_pos z (2 ^ n)). pose proof (Z.mul_div_le z (2 ^ n)). nia.
Qed.

(** *** What the pool promises *)

(** A fresh pool. *)
Lemma create_conn_pool_rel sz :
  0 <= sz <= 31 ->
  pool_rel (mk_pool (replicate (Z.to_nat (u64 (sz * sizeof_ConnectionDesc) / sizeof_ConnectionDesc)) zero_desc)
              sz INT64_MAX) ∅.
Proof.
  intros Hsz. unfold sizeof_ConnectionDesc. rewrite u64_small by lia.
  rewrite Z.div_mul by lia. split; simpl.
  - rewrite length_replicate. lia.
  - lia.
  - intros i Hi. rewrite INT64_MAX_testbit, lookup_empty by done.
    by rewrite bool_decide_eq_true_2, andb_true_r.
  - intros i s. by rewrite lookup_empty.
  - intros i Hi _. apply lookup_replicate_2. lia.
Qed.

Lemma store_connection_run p m n g sock :
  pool_rel p m -> least_free m n -> n < pool_size p ->
  exists p', store_connection g (Some p) sock = Ok (n, Some p') /\
             connections p' = <[Z.to_nat n := mk_conn g sock n]> (connections p) /\
             pool_size p' = pool_size p /\ pool_rel p' (<[n := sock]> m).
Proof.
  intros H Hl Hn. pose proof (rel_small _ _ H). pose proof (rel_size _ _ H).
  pose proof (rel_bitmap_nonzero _ _ H). pose proof Hl as (Hn0 & Hfree & _).
  unfold store_connection. rewrite (proj2 (Z.eqb_neq _ _)) by done.
  rewrite (book_pos_least _ _ n) by (done || lia). simpl. rewrite u64_small by lia.
  rewrite (proj2 (Z.eqb_neq n (-1))), (proj2 (Z.leb_gt _ _)) by lia. simpl.
  rewrite (rel_free _ _ H) by (done || lia).
  eexists. split; [done|]. split; [done|]. split; [done|]. apply (pool_rel_book p); [done|lia|done].
Qed.

Lemma release_connection_run p m n s :
  pool_rel p m -> m !! n = Some s ->
  exists p',
    release_connection (Some p) n =
      Ok (OK, Some p',
          Close s :: (if bool_decide (delete n m = ∅) then [BroadcastCond] else [])
                  ++ [BroadcastIsFreeCond]) /\
    connections p' = <[Z.to_nat n := zero_desc]> (connections p) /\
    pool_size p' = pool_size p /\ pool_rel p' (delete n m).
Proof.
  intros H Hs. pose proof (rel_small _ _ H).
  pose proof (rel_booked _ _ H _ _ Hs) as [Hn [tid Ht]].
  pose proof (pool_rel_unbook _ _ _ _ H Hs) as Hrel.
  unfold release_connection. rewrite (proj2 (Z.ltb_ge _ _)), Ht by lia. simpl.
  rewrite signed_bit_ok by lia. simpl. rewrite <- (rel_pool_is_free _ _ Hrel).
  eexists. split; [|split; [|split; [|exact Hrel]]; done].
  unfold pool_is_free, set_bitmap, set_connections. simpl.
  by destruct (_ =? INT64_MAX).
Qed.

Lemma pool_tests_run p m :
  pool_rel p m ->
  (pool_is_free p = true <-> m = ∅) /\
  (pool_is_full INT64_MAX p = Ok true <-> full m (pool_size p)).
Proof.
  intros H. rewrite (rel_pool_is_free _ _ H), bool_decide_eq_true.
  split; [done|]. pose proof (rel_small _ _ H). pose proof (rel_size _ _ H).
  unfold pool_is_full. rewrite (proj2 (Z.leb_gt _ _)) by lia.
  pose proof (shift_back_range INT64_MAX (pool_size p) ltac:(lia) ltac:(done)).
  rewrite i64_small by (change INT64_MAX with (2 ^ 63 - 1) in *; lia).
  split.
  - intros [= E%Z.eqb_eq] i Hi.
    pose proof (rel_bits _ _ H i ltac:(lia)) as Hb.
    rewrite E, zero_size_bits in Hb by lia.
    destruct (m !! i); [done|]. exfalso. rewrite bool_decide_eq_true_2 in Hb by done.
    destruct (Z.leb_spec (pool_size p) i), (Z.ltb_spec i 63); (lia || discriminate).
  - intros Hf. f_equal. apply Z.eqb_eq, Z.bits_inj'. intros i Hi.
    rewrite (rel_bits _ _ H), zero_size_bits, INT64_MAX_testbit by lia.
    destruct (Z.leb_spec (pool_size p) i) as [Hle|Hlt].
    + rewrite bool_decide_eq_true_2; [by rewrite andb_true_r|].
      destruct (m !! i) eqn:E; [|done]. apply (rel_booked _ _ H) in E. lia.
    + destruct (Hf i) as [s ->]; [lia|]. by rewrite andb_false_r.
Qed.

Lemma store_connection_size g p sock k p' :
  store_connection g (Some p) sock = Ok (k, Some p') -> pool_size p' = pool_size p.
Proof.
  unfold store_connection, book_pos. destruct (_ =? 0); [by intros [= _ <-]|].
  destruct (builtin_ctz _); [|done]. simpl. destruct (signed_bit _ _); [|done]. simpl.
  destruct (_ || _); [by intros [= _ <-]|].
  destruct (_ !! _); [|done]. by intros [= _ <-].
Qed.

Lemma release_connection_size p off r p' ev :
  release_connection (Some p) off = Ok (r, Some p', ev) -> pool_size p' = pool_size p.
Proof.
  unfold release_connection. destruct (if _ <? 0 then _ else _); [|done]. simpl.
  destruct (signed_bit _ _); [|done]. simpl. by intros [= _ <- _].
Qed.

(** ** Properties *)

(** The resources of a run that are acquired and not released, in order. *)
Fixpoint held (acc : list resource) (ev : list event) : list resource :=
  match ev with
  | [] => acc
  | Acquire r :: ev => held (acc ++ [r]) ev
  | Release r :: ev => held (filter (fun r' => r' <> r) acc) ev
  | _ :: ev => held acc ev
  end.

(** whatever the allocator and the pthread initialisers answer,
    [create_conn_pool] either fails and has released everything it had
    acquired, or returns an empty pool that holds its five resources, all of
    which [destruct_conn_pool] releases. *)
Theorem create_conn_pool_no_leak env sz :
  match create_conn_pool env sz with
  | (None, ev) => held [] ev = []
  | (Some p, ev) =>
      pool_size p = sz /\ pool_is_free p = true /\
      held [] ev = [RPool; RConnections; RLock; RCond; RIsFreeCond] /\
      held [] (ev ++ destruct_conn_pool (Some p)) = []
  end.
Proof.
  unfold create_conn_pool.
  destruct (malloc_pool env); [|done]. destruct (malloc_connections env); [|done].
  destruct (mutex_init env =? 0); [|done]. destruct (cond_init env =? 0); [|done].
  by destruct (is_free_cond_init env =? 0).
Qed.

(** C6: on a pool of at most 31 slots that has a free one [store_connection]
    books the lowest free slot, returns its offset and records the socket
    there; every other slot keeps its descriptor, its thread id included. *)
Theorem store_connection_books p m n g sock :
  pool_rel p m -> least_free m n -> n < pool_size p ->
  exists p', store_connection g (Some p) sock = Ok (n, Some p') /\
             connections p' = <[Z.to_nat n := mk_conn g sock n]> (connections p) /\
             pool_size p' = pool_size p /\ pool_rel p' (<[n := sock]> m).
Proof. apply store_connection_run. Qed.

(** C7: in a pool of at most 31 slots [release_connection] of a booked one
    closes exactly the socket stored there, frees the slot for reuse and zeroes
    it, leaves the other descriptors as they are, and signals [is_free_cond]
    always and [cond] exactly when no connection is left. *)
Theorem release_connection_frees p m n s :
  pool_rel p m -> m !! n = Some s ->
  exists p',
    release_connection (Some p) n =
      Ok (OK, Some p',
          Close s :: (if bool_decide (delete n m = ∅) then [BroadcastCond] else [])
                  ++ [BroadcastIsFreeCond]) /\
    connections p' = <[Z.to_nat n := zero_desc]> (connections p) /\
    pool_size p' = pool_size p /\ pool_rel p' (delete n m).
Proof. apply release_connection_run. Qed.

(** the two tests the server waits on: [pool_is_free] holds exactly when no
    slot is booked, and [pool_is_full], started from an all-ones value, exactly
    when every slot below [size] is booked. *)
Theorem pool_tests_exact p m :
  pool_rel p m ->
  (pool_is_free p = true <-> m = ∅) /\
  (pool_is_full INT64_MAX p = Ok true <-> full m (pool_size p)).
Proof. apply pool_tests_run. Qed.

(** The pool operations the server issues, in sequence. *)
Inductive pool_op :=
| OpStore (garbage_tid sock : Z)
| OpRelease (off : Z).

Definition run_op (p : ConnectionsPool) (op : pool_op) : outcome ConnectionsPool :=
  match op with
  | OpStore g sock =>
      let? r := store_connection g (Some p) sock in
      Ok (default p (snd r))
  | OpRelease off =>
      let? r := release_connection (Some p) off in
      Ok (default p (snd (fst r)))
  end.

Fixpoint run_ops (p : ConnectionsPool) (ops : list pool_op) : outcome ConnectionsPool :=
  match ops with
  | [] => Ok p
  | op :: ops => let? p := run_op p op in run_ops p ops
  end.

Definition op_in_range (n : Z) (op : pool_op) : Prop :=
  match op with OpStore _ _ => True | OpRelease off => 0 <= off < n end.

Definition leaked (p : ConnectionsPool) : Prop :=
  pool_size p <= 30 /\ Z.testbit (free_space_bitmap p) (pool_size p) = false.

Lemma leaked_not_free p : 0 <= pool_size p -> leaked p -> pool_is_free p = false.
Proof.
  intros Hp [Hs Hb]. apply Z.eqb_neq. intros E.
  rewrite E, INT64_MAX_testbit in Hb by done. zcmp; (lia || done).
Qed.

Lemma run_op_leaked p op p' :
  0 <= pool_size p -> leaked p -> op_in_range (pool_size p) op -> run_op p op = Ok p' ->
  leaked p' /\ pool_size p' = pool_size p.
Proof.
  intros Hp [Hs Hb] Hop. destruct op as [g sock|off]; simpl in Hop |- *.
  - unfold store_connection, book_pos.
    destruct (_ =? 0); [by intros [= <-]|].
    destruct (builtin_ctz _) as [n|]; [|done]. simpl. destruct (signed_bit 31 n); [|done]. simpl.
    assert (Hkeep : forall b, Z.testbit (Z.land (free_space_bitmap p) b) (pool_size p) = false)
      by (intros b; by rewrite Z.land_spec, Hb).
    destruct (_ || _); [intros [= <-]; split; [split; simpl; [done|apply Hkeep]|done]|].
    destruct (connections p !! _); [|done]. intros [= <-]. split; [split; simpl; [done|apply Hkeep]|done].
  - unfold release_connection. rewrite (proj2 (Z.ltb_ge _ _)) by lia.
    destruct (connections p !! _); [|done]. simpl. rewrite signed_bit_ok by lia.
    intros [= <-]. split; [split; simpl; [done|]|done].
    rewrite lor_bit, Hb by lia. zcmp; [lia|done].
Qed.

Lemma run_ops_leaked ops p p' :
  0 <= pool_size p -> leaked p -> Forall (op_in_range (pool_size p)) ops ->
  run_ops p ops = Ok p' -> leaked p' /\ pool_size p' = pool_size p.
Proof.
  revert p. induction ops as [|op ops IH]; intros p Hp Hl Hops; simpl.
  - by intros [= <-].
  - inversion_clear Hops as [|? ? Hop Hrest]. destruct (run_op p op) as [q|] eqn:E; [|done].
    simpl. destruct (run_op_leaked _ _ _ Hp Hl Hop E) as [Hq Hsq]. intros Hr.
    rewrite <- Hsq in Hrest |- *. apply (IH q); try done. lia.
Qed.

(** the error path of [store_connection] leaks: on a full pool it answers
    [NOT_OK] after it has booked the bit of slot [size], and no later sequence
    of stores and of releases of real slots ever makes [pool_is_free] true
    again, so [wait_routines] would block for ever. *)
Theorem store_connection_full_leaks p m g sock :
  pool_rel p m -> pool_size p <= 30 -> full m (pool_size p) ->
  exists p', store_connection g (Some p) sock = Ok (NOT_OK, Some p') /\
    connections p' = connections p /\
    forall ops q, Forall (op_in_range (pool_size p)) ops -> run_ops p' ops = Ok q ->
                  pool_is_free q = false.
Proof.
  intros H Hs Hf. pose proof (rel_size _ _ H). pose proof (rel_bitmap_nonzero _ _ H).
  assert (Hl : least_free m (pool_size p)).
  { repeat split; [lia| |done].
    destruct (m !! pool_size p) eqn:E; [|done]. apply (rel_booked _ _ H) in E. lia. }
  unfold store_connection. rewrite (proj2 (Z.eqb_neq _ _)) by done.
  rewrite (book_pos_least _ _ (pool_size p)) by done. simpl. rewrite u64_small by lia.
  rewrite (proj2 (Z.leb_le _ _)), orb_true_r by lia.
  eexists. split; [done|]. split; [done|]. intros ops q Hops Hq.
  apply run_ops_leaked in Hq as [Hq Hsz]; simpl in *; [| lia | |done].
  - apply leaked_not_free; [lia|done].
  - split; [done|]. simpl. rewrite land_lnot_bit by lia. by rewrite Z.eqb_refl, andb_false_r.
Qed.

Lemma print_slots_rel p m l :
  pool_rel p m -> Forall (fun i => 0 <= i < pool_size p) l ->
  exists ds, print_slots p l = Ok ds /\
    (fun d => (offset d, connection_sock d)) <$> ds =
    omap (fun i => (fun s => (i, s)) <$> m !! i) l.
Proof.
  intros H. pose proof (rel_small _ _ H). pose proof (rel_bitmap_nonzero _ _ H) as Hnz.
  induction l as [|i l IH]; intros Hl; [by exists []|].
  inversion_clear Hl as [|? ? Hi Hrest]. destruct (IH Hrest) as (ds & Hds & Hmap).
  simpl. unfold bitmap_contain. rewrite (proj2 (Z.eqb_neq _ 0) Hnz).
  rewrite signed_bit_ok by lia. simpl.
  assert (Hland : Z.land (Z.shiftl 1 i) (free_space_bitmap p)
                  = if bool_decide (m !! i = None) then Z.shiftl 1 i else 0).
  { apply Z.bits_inj'. intros j Hj. rewrite Z.land_spec, (rel_bits _ _ H), shiftl1_testbit by lia.
    destruct (Z.eqb_spec j i) as [->|Hne]; simpl.
    - rewrite (proj2 (Z.ltb_lt i 63)) by lia. simpl.
      case_bool_decide; [|by rewrite Z.bits_0]. rewrite shiftl1_testbit, Z.eqb_refl by lia. done.
    - case_bool_decide; [|by rewrite Z.bits_0]. rewrite shiftl1_testbit by lia. zcmp; [lia|done]. }
  rewrite Hland. destruct (m !! i) as [s|] eqn:Em.
  - rewrite bool_decide_eq_false_2 by done. simpl.
    destruct (rel_booked _ _ H _ _ Em) as [_ [tid Ht]]. rewrite Ht. simpl. rewrite Hds. simpl.
    eexists. split; [done|]. csimpl. by rewrite Hmap.
  - rewrite bool_decide_eq_true_2 by done.
    assert (0 < Z.shiftl 1 i) by (rewrite Z.shiftl_1_l; apply Z.pow_pos_nonneg; lia).
    rewrite (proj2 (Z.eqb_neq (Z.shiftl 1 i) 0)) by lia. simpl. exists ds.
    split; [done|]. csimpl. done.
Qed.

(** [print] lists the booked connections, in slot order, with the slot and
    the socket each was stored with, and no others. *)
Theorem print_lists_booked p m :
  pool_rel p m ->
  exists ds, print (Some p) = Ok ds /\
    (fun d => (offset d, connection_sock d)) <$> ds =
    omap (fun i => (fun s => (i, s)) <$> m !! i) (seqZ 0 (pool_size p)).
Proof.
  intros H. apply print_slots_rel; [done|]. apply Forall_seqZ. lia.
Qed.

(** ** Concrete pools *)

Definition pool2 : ConnectionsPool := mk_pool [zero_desc; zero_desc] 2 INT64_MAX.
Definition pool2_one : ConnectionsPool :=
  mk_pool [mk_conn 0 7 0; zero_desc] 2 (INT64_MAX - 1).
Definition pool2_both : ConnectionsPool :=
  mk_pool [mk_conn 0 7 0; mk_conn 0 9 1] 2 (INT64_MAX - 3).

Lemma pool2_rel : pool_rel pool2 ∅.
Proof. exact (create_conn_pool_rel 2 ltac:(lia)). Qed.

Lemma pool2_one_rel : pool_rel pool2_one {[0 := 7]}.
Proof. exact (pool_rel_book pool2 ∅ 0 0 7 pool2_rel ltac:(simpl; lia) eq_refl). Qed.

Lemma pool2_both_rel : pool_rel pool2_both (<[1 := 9]> {[0 := 7]}).
Proof. exact (pool_rel_book pool2_one _ 1 0 9 pool2_one_rel ltac:(simpl; lia) eq_refl). Qed.

Lemma store_connection_books_witness :
  exists p', store_connection 0 (Some pool2_one) 9 = Ok (1, Some p') /\
             connections p' = [mk_conn 0 7 0; mk_conn 0 9 1] /\
             pool_size p' = 2 /\ pool_rel p' (<[1 := 9]> {[0 := 7]}).
Proof.
  apply (store_connection_books pool2_one {[0 := 7]} 1 0 9 pool2_one_rel); [|reflexivity].
  split; [lia|]. split; [reflexivity|]. intros j Hj. assert (j = 0) as -> by lia. by exists 7.
Defined.

Lemma release_connection_frees_witness :
  exists p', release_connection (Some pool2_one) 0 =
    Ok (OK, Some p', [Close 7; BroadcastCond; BroadcastIsFreeCond]) /\
    connections p' = [zero_desc; zero_desc] /\ pool_size p' = 2 /\
    pool_rel p' (delete 0 {[0 := 7]}).
Proof.
  exact (release_connection_frees pool2_one {[0 := 7]} 0 7 pool2_one_rel eq_refl).
Defined.

Lemma pool_tests_exact_witness :
  (pool_is_free pool2_one = true <-> ({[0 := 7]} : gmap Z Z) = ∅) /\
  (pool_is_full INT64_MAX pool2_one = Ok true <-> full {[0 := 7]} 2).
Proof. exact (pool_tests_exact pool2_one {[0 := 7]} pool2_one_rel). Defined.

Lemma store_connection_full_leaks_witness :
  exists p', store_connection 0 (Some pool2_both) 11 = Ok (NOT_OK, Some p') /\
    connections p' = connections pool2_both /\
    forall ops q, Forall (op_in_range 2) ops -> run_ops p' ops = Ok q ->
                  pool_is_free q = false.
Proof.
  apply (store_connection_full_leaks pool2_both _ 0 11 pool2_both_rel); [simpl; lia|].
  intros i Hi. simpl in Hi. assert (i = 0 \/ i = 1) as [-> | ->] by lia; by eexists.
Defined.

Lemma print_lists_booked_witness :
  exists ds, print (Some pool2_one) = Ok ds /\
    (fun d => (offset d, connection_sock d)) <$> ds = [(0, 7)].
Proof. exact (print_lists_booked pool2_one {[0 := 7]} pool2_one_rel). Defined.

(** With the first 31 slots booked the mask of the next one is undefined. *)
Example slot_31_undefined : book_pos (Some (INT64_MAX - (2 ^ 31 - 1))) = Fault Indeterminate.
Proof. reflexivity. Qed.
