(* ===== verification/LogQueue.v ===== *)
(** * LogQueue: the log message queue

    Models [src/net/tcp/server/fileserver/log_msg_queue.c] and
    [include/log_msg_queue.h]: a doubly linked queue, filled at the tail and
    drained at the head, shared under one mutex.  The store maps the addresses
    of the allocated nodes to their contents; address [0] is the null pointer,
    and the address a [malloc] answers is an argument. *)

From S2P Require Import Prelude CInt Dll.
Open Scope Z_scope.

(** ** Data *)

(** The text is the [char] array of the descriptor, one [Z] per byte. *)
Record message_desc := mk_msg {
  message : list Z;
  error_code : Z;
  level : Z;
  message_time : Z;
  tid : Z
}.

Record queue_node := mk_node {
  next : Z;
  prev : Z;
  msg_desc : message_desc
}.

Record log_message_queue := mk_queue {
  head : Z;
  tail : Z;
  queue_size : Z;
  capacity : Z;
  critical_size : bool
}.

(** [queue] is [None] where the code is handed a null queue pointer. *)
Record qstate := mk_qstate {
  nodes : gmap Z queue_node;
  queue : option log_message_queue
}.

#[export] Instance message_desc_eq_dec : EqDecision message_desc.
Proof. solve_decision. Defined.
#[export] Instance queue_node_eq_dec : EqDecision queue_node.
Proof. solve_decision. Defined.
#[export] Instance log_message_queue_eq_dec : EqDecision log_message_queue.
Proof. solve_decision. Defined.

(** ** Access to the store *)

Definition set_queue (q : log_message_queue) : M qstate unit :=
  modify (fun s => mk_qstate (nodes s) (Some q)).

Definition node_at (p : Z) : M qstate queue_node :=
  fun s => if p =? 0 then Fault NullDeref
           else match nodes s !! p with
                | Some n => Ok (n, s)
                | None => Fault Dangling
                end.

Definition set_node (p : Z) (n : queue_node) : M qstate unit :=
  fun s => if p =? 0 then Fault NullDeref
           else match nodes s !! p with
                | Some _ => Ok (tt, mk_qstate (<[p := n]> (nodes s)) (queue s))
                | None => Fault Dangling
                end.

Definition set_next (p v : Z) : M qstate unit :=
  n <- node_at p ;; set_node p (mk_node v (prev n) (msg_desc n)).
Definition set_prev (p v : Z) : M qstate unit :=
  n <- node_at p ;; set_node p (mk_node (next n) v (msg_desc n)).

(** [free]: nothing for a null pointer, undefined for storage that is not
    allocated. *)
Definition free (p : Z) : M qstate unit :=
  fun s => if p =? 0 then Ok (tt, s)
           else match nodes s !! p with
                | Some _ => Ok (tt, mk_qstate (delete p (nodes s)) (queue s))
                | None => Fault Dangling
                end.

(** ** Operations *)

(** [addr] is the answer of [malloc], [0] when it fails. *)
Definition new_node (addr : Z) (m : message_desc) : M qstate Z :=
  if addr =? 0 then ret 0
  else modify (fun s => mk_qstate (<[addr := mk_node 0 0 m]> (nodes s)) (queue s)) ;;
       ret addr.

Definition free_node (node : Z) : M qstate unit := free node.

(** [mutex_init], [cond_init]: the return values of the pthread initialisers;
    [addr] is the answer of [malloc], which the code does not test. *)
Definition create_log_queue (addr mutex_init cond_init : Z) (max_size : Z)
  : outcome (option log_message_queue) :=
  if addr =? 0 then Fault NullDeref
  else
    let log_queue := mk_queue 0 0 0 max_size true in
    if negb (mutex_init =? 0) then Ok None
    else if negb (cond_init =? 0) then Ok None
    else Ok (Some log_queue).

Fixpoint destroy_loop (fuel : nat) (current : Z) : M qstate unit :=
  if current =? 0 then ret tt
  else
    match fuel with
    | O => fail NoFuel
    | S fuel =>
        n <- node_at current ;;
        free current ;;
        destroy_loop fuel (next n)
    end.

(** The chain has as many nodes as the store at most: that many rounds. *)
Definition destroy_log_queue : M qstate unit :=
  oq <- gets queue ;;
  match oq with
  | None => ret tt
  | Some q =>
      fuel <- gets (fun s => size (nodes s)) ;;
      destroy_loop fuel (tail q) ;;
      modify (fun s => mk_qstate (nodes s) None)
  end.

Definition add_tail (node : Z) : M qstate unit :=
  oq <- gets queue ;;
  match oq with
  | None => ret tt
  | Some q =>
      if node =? 0 then ret tt
      else
        (if queue_size q =? 0 then
           set_queue (mk_queue node node (queue_size q) (capacity q) (critical_size q))
         else
           set_next node (tail q) ;;
           set_prev (tail q) node ;;
           set_queue (mk_queue (head q) node (queue_size q) (capacity q) (critical_size q))) ;;
        modify (fun s =>
          mk_qstate (nodes s)
            ((fun q => mk_queue (head q) (tail q) (u64 (queue_size q + 1)) (capacity q)
                                (critical_size q)) <$> queue s))
  end.

Definition delete_head : M qstate unit :=
  oq <- gets queue ;;
  match oq with
  | None => ret tt
  | Some q =>
      if queue_size q =? 0 then ret tt
      else
        let temp := head q in
        (if head q =? tail q then
           set_queue (mk_queue 0 0 (queue_size q) (capacity q) (critical_size q))
         else
           n <- node_at (head q) ;;
           set_queue (mk_queue (prev n) (tail q) (queue_size q) (capacity q) (critical_size q)) ;;
           set_next (prev n) 0) ;;
        modify (fun s =>
          mk_qstate (nodes s)
            ((fun q => mk_queue (head q) (tail q) (u64 (queue_size q - 1)) (capacity q)
                                (critical_size q)) <$> queue s)) ;;
        free_node temp
  end.

Definition push_message (addr : Z) (msg : option message_desc) : M qstate unit :=
  oq <- gets queue ;;
  match oq, msg with
  | Some _, Some m =>
      node <- new_node addr m ;;
      add_tail node
  | _, _ => ret tt
  end.

(** On an empty queue the call waits for another thread to push; run by itself
    it never returns. *)
Definition pop_message : M qstate message_desc :=
  oq <- gets queue ;;
  match oq with
  | None => fail NullDeref
  | Some q =>
      if queue_size q =? 0 then fail Blocked
      else
        n <- node_at (head q) ;;
        delete_head ;;
        ret (msg_desc n)
  end.

(** The messages [print_queue] writes, from the tail on. *)
Fixpoint print_loop (fuel : nat) (node : Z) : M qstate (list (list Z)) :=
  if node =? 0 then ret []
  else
    match fuel with
    | O => fail NoFuel
    | S fuel =>
        n <- node_at node ;;
        rest <- print_loop fuel (next n) ;;
        ret (message (msg_desc n) :: rest)
    end.

Definition print_queue : M qstate (list (list Z)) :=
  oq <- gets queue ;;
  match oq with
  | None => fail NullDeref
  | Some q =>
      fuel <- gets (fun s => size (nodes s)) ;;
      print_loop fuel (tail q)
  end.

(** ** The queue as a list of messages *)

(** From head to tail a node's successor is its [prev] field. *)
Definition links (ns : gmap Z queue_node) (a : Z) : option (Z * Z) :=
  (fun n => (prev n, next n)) <$> ns !! a.

(** [queue_rep s l ms]: the queue of [s] is the chain of the nodes [l], head
    first, holding the messages [ms]. *)
Record queue_rep (s : qstate) (l : list Z) (ms : list message_desc) : Prop := {
  rep_queue : exists q, queue s = Some q /\ head q = hdZ 0 l /\ tail q = lastZ 0 l /\
                        queue_size q = Z.of_nat (length l);
  rep_dll : dll (links (nodes s)) 0 l 0;
  rep_nodup : NoDup l;
  rep_msgs : Forall2 (fun a m => msg_desc <$> nodes s !! a = Some m) l ms;
  rep_small : Z.of_nat (length l) < 2 ^ 64
}.

(** No node but those of [l] is allocated. *)
Definition owns (s : qstate) (l : list Z) : Prop :=
  forall a, is_Some (nodes s !! a) <-> a ∈ l.

(** [s'] differs from [s] at the nodes of [l] at most. *)
Definition same_outside (l : list Z) (s s' : qstate) : Prop :=
  forall b, ~ (b ∈ l) -> nodes s' !! b = nodes s !! b.

Section access.
Context (s : qstate) (p : Z) (n : queue_node).
Hypotheses (Hp : p <> 0) (Hn : nodes s !! p = Some n).

Lemma node_at_ok : node_at p s = Ok (n, s).
Proof. unfold node_at. by rewrite (proj2 (Z.eqb_neq _ _) Hp), Hn. Qed.

Lemma set_next_ok v :
  set_next p v s = Ok (tt, mk_qstate (<[p := mk_node v (prev n) (msg_desc n)]> (nodes s)) (queue s)).
Proof.
  unfold set_next. run node_at_ok.
  unfold set_node. by rewrite (proj2 (Z.eqb_neq _ _) Hp), Hn.
Qed.

Lemma set_prev_ok v :
  set_prev p v s = Ok (tt, mk_qstate (<[p := mk_node (next n) v (msg_desc n)]> (nodes s)) (queue s)).
Proof.
  unfold set_prev. run node_at_ok.
  unfold set_node. by rewrite (proj2 (Z.eqb_neq _ _) Hp), Hn.
Qed.

Lemma free_run : free p s = Ok (tt, mk_qstate (delete p (nodes s)) (queue s)).
Proof. unfold free. by rewrite (proj2 (Z.eqb_neq _ _) Hp), Hn. Qed.
End access.

Lemma links_insert_ne ns a b n : a <> b -> links (<[a := n]> ns) b = links ns b.
Proof. intros. unfold links. by rewrite lookup_insert_ne. Qed.

Lemma links_insert_eq ns a n : links (<[a := n]> ns) a = Some (prev n, next n).
Proof. unfold links. by rewrite lookup_insert_eq. Qed.

Lemma links_delete_ne ns a b : a <> b -> links (delete a ns) b = links ns b.
Proof. intros. unfold links. by rewrite lookup_delete_ne. Qed.

Lemma links_node ns a x y :
  links ns a = Some (x, y) -> exists m, ns !! a = Some (mk_node y x m).
Proof. unfold links. destruct (ns !! a) as [[? ? m]|] eqn:E; [|done]. simpl. naive_solver. Qed.

(** Messages live in the nodes of the chain only. *)
Lemma msgs_frame (ns ns' : gmap Z queue_node) l ms :
  (forall a, a ∈ l -> msg_desc <$> ns' !! a = msg_desc <$> ns !! a) ->
  Forall2 (fun a m => msg_desc <$> ns !! a = Some m) l ms ->
  Forall2 (fun a m => msg_desc <$> ns' !! a = Some m) l ms.
Proof.
  intros Heq HF. induction HF as [|a m l ms Ha HF IH]; constructor.
  - rewrite Heq; [done|set_solver].
  - apply IH. set_solver.
Qed.

Lemma rep_allocated s l ms a : queue_rep s l ms -> a ∈ l -> is_Some (nodes s !! a).
Proof.
  intros H Ha. apply list_elem_of_lookup in Ha as [i Hi].
  destruct (Forall2_lookup_l _ _ _ _ _ (rep_msgs _ _ _ H) Hi) as (m & _ & Hm).
  by destruct (nodes s !! a).
Qed.

(** A fresh node is no node of the chain. *)
Lemma rep_fresh s l ms a : queue_rep s l ms -> nodes s !! a = None -> ~ (a ∈ l).
Proof. intros H Hf Ha. destruct (rep_allocated _ _ _ _ H Ha). congruence. Qed.

(** Nodes outside the chain do not matter. *)
Lemma rep_frame s s' l ms :
  queue_rep s l ms -> queue s' = queue s ->
  (forall a, a ∈ l -> nodes s' !! a = nodes s !! a) -> queue_rep s' l ms.
Proof.
  intros [Hq Hd Hn Hm Hs] Heq Hsame. split; try done.
  - by rewrite Heq.
  - eapply dll_ext; [|exact Hd]. intros a Ha. unfold links. by rewrite Hsame.
  - eapply msgs_frame; [|exact Hm]. intros a Ha. by rewrite Hsame.
Qed.

Lemma rep_tail_node s l t ms :
  queue_rep s (l ++ [t]) ms ->
  t <> 0 /\ ~ (t ∈ l) /\ exists m, nodes s !! t = Some (mk_node (lastZ 0 l) 0 m).
Proof.
  intros H. pose proof (rep_dll _ _ _ H) as Hd. pose proof (dll_nonnull _ _ _ _ Hd) as Hnn.
  apply Forall_app in Hnn as [_ Hnn]. inversion_clear Hnn as [|? ? Ht0 _].
  split; [done|]. split.
  - pose proof (rep_nodup _ _ _ H) as (_ & Hx & _)%NoDup_app. intros ?. eapply Hx; [done|set_solver].
  - apply links_node. by apply (dll_lookup _ _ _ _ [] _) in Hd.
Qed.

(** The store and the queue record after appending node [a] to an empty
    queue, and to one whose tail is [t]. *)
Lemma rep_push_empty s q a m :
  nodes s !! a = Some (mk_node 0 0 m) -> a <> 0 ->
  queue_rep (mk_qstate (nodes s) (Some (mk_queue a a 1 (capacity q) (critical_size q)))) [a] [m].
Proof.
  intros Hn Ha. split; simpl.
  - eexists. by repeat split.
  - split; [done|]. split; [|done]. unfold links. by rewrite Hn.
  - apply NoDup_singleton.
  - constructor; [|constructor]. by rewrite Hn.
  - lia.
Qed.

Lemma rep_push_tail s l t ms q a m mt :
  queue_rep s (l ++ [t]) ms -> queue s = Some q -> a <> 0 -> ~ (a ∈ l ++ [t]) ->
  nodes s !! t = Some (mk_node (lastZ 0 l) 0 mt) ->
  Z.of_nat (length (l ++ [t])) + 1 < 2 ^ 64 ->
  queue_rep (mk_qstate (<[t := mk_node (lastZ 0 l) a mt]> (<[a := mk_node t 0 m]> (nodes s)))
               (Some (mk_queue (head q) a (queue_size q + 1) (capacity q) (critical_size q))))
            ((l ++ [t]) ++ [a]) (ms ++ [m]).
Proof.
  intros H Hq Ha Hnotin Ht Hsm.
  pose proof (rep_tail_node _ _ _ _ H) as (Ht0 & Htl & _).
  destruct H as [ (q' & Hq' & Hh & _ & Hs) Hdll Hnd Hms _ ]. simplify_eq.
  assert (Hta : t <> a) by set_solver.
  split; simpl.
  - eexists. split; [done|]. simpl. split_and!.
    + rewrite Hh, !hdZ_app. by destruct l.
    + by rewrite lastZ_snoc.
    + rewrite Hs, !length_app. simpl. lia.
  - apply dll_app. split.
    + eapply dll_set_last; [exact Hdll| |by rewrite links_insert_eq].
      intros b Hb. rewrite !links_insert_ne; [done|set_solver|set_solver].
    + simpl. split; [done|]. split; [|done].
      rewrite links_insert_ne, links_insert_eq by done. simpl. by rewrite lastZ_snoc.
  - apply NoDup_app. split; [done|]. split; [set_solver|apply NoDup_singleton].
  - apply Forall2_app; [|constructor; [|constructor]].
    + eapply msgs_frame; [|exact Hms]. intros b Hb.
      destruct (decide (b = t)) as [->|]; [by rewrite lookup_insert_eq, Ht|].
      rewrite !lookup_insert_ne; [done|set_solver|done].
    + by rewrite lookup_insert_ne, lookup_insert_eq by done.
  - rewrite length_app. simpl. lia.
Qed.

(** Linking a new node at the tail. *)
Lemma add_tail_spec s l ms a m :
  queue_rep s l ms -> nodes s !! a = Some (mk_node 0 0 m) -> a <> 0 -> ~ (a ∈ l) ->
  Z.of_nat (length l) + 1 < 2 ^ 64 ->
  exists s', add_tail a s = Ok (tt, s') /\ queue_rep s' (l ++ [a]) (ms ++ [m]) /\
             same_outside (l ++ [a]) s s'.
Proof.
  intros H Hn Ha Hal Hsm.
  pose proof (rep_queue _ _ _ H) as (q & Hq & _ & Ht & Hs).
  unfold add_tail, gets, set_queue, modify. unfold bind at 1. rewrite Hq.
  rewrite (proj2 (Z.eqb_neq _ _) Ha), Hs.
  destruct (decide (l = [])) as [->|Hne].
  - simpl. pose proof (rep_msgs _ _ _ H) as Hms. inversion Hms; subst.
    eexists. split; [done|]. simpl. split; [by apply rep_push_empty|done].
  - rewrite (proj2 (Z.eqb_neq (Z.of_nat (length l)) 0)) by (destruct l; simpl; [done|lia]).
    destruct (exists_last Hne) as (l0 & t & ->). rewrite lastZ_snoc in Ht.
    pose proof (rep_tail_node _ _ _ _ H) as (Ht0 & _ & mt & Hmt).
    assert (t <> a) by set_solver. rewrite Ht. unfold bind.
    erewrite set_next_ok; [|done|exact Hn]. simpl.
    erewrite set_prev_ok; [|done|simpl; rewrite !lookup_insert_ne by done; exact Hmt]. simpl.
    eexists. split; [done|]. simpl. rewrite u64_small by lia. rewrite <- Hs. split.
    + by apply (rep_push_tail _ _ _ _ q _ _ _ H Hq Ha Hal Hmt).
    + intros b Hb. simpl. rewrite !lookup_insert_ne; [done|set_solver|set_solver].
Qed.

(** The store and the queue record after unlinking the head node. *)
Lemma rep_head_node s a l ms :
  queue_rep s (a :: l) ms ->
  a <> 0 /\ ~ (a ∈ l) /\ exists m ms', ms = m :: ms' /\ nodes s !! a = Some (mk_node 0 (hdZ 0 l) m).
Proof.
  intros H. pose proof (rep_dll _ _ _ H) as (Ha & Hl & _).
  split; [done|]. split; [by pose proof (rep_nodup _ _ _ H) as [? ?]%NoDup_cons|].
  pose proof (rep_msgs _ _ _ H) as Hms. inversion Hms as [|? m ? ms' Hm HF]; subst.
  apply links_node in Hl as [m' Hm']. rewrite Hm' in Hm. simpl in Hm.
  exists m, ms'. split; [done|]. by simplify_eq.
Qed.

Lemma rep_empty ns q :
  queue_rep (mk_qstate ns (Some (mk_queue 0 0 0 (capacity q) (critical_size q)))) [] [].
Proof. split; simpl; try done; [eexists; by repeat split|apply NoDup_nil_2]. Qed.

Lemma rep_pop_more s a b l ms q m n :
  queue_rep s (a :: b :: l) (m :: ms) -> queue s = Some q ->
  nodes s !! b = Some n ->
  queue_rep (mk_qstate (delete a (<[b := mk_node 0 (prev n) (msg_desc n)]> (nodes s)))
               (Some (mk_queue b (tail q) (queue_size q - 1) (capacity q) (critical_size q))))
            (b :: l) ms.
Proof.
  intros H Hq Hb.
  pose proof (rep_head_node _ _ _ _ H) as (_ & Hab & _).
  destruct H as [ (q' & Hq' & _ & Ht & Hs) (Ha & _ & Hdll) Hnd Hms Hsm ]. simplify_eq.
  apply NoDup_cons in Hnd as [_ Hnd]. pose proof Hnd as [Hbl _]%NoDup_cons.
  inversion Hms as [|? ? ? ? _ HF]; subst.
  pose proof Hdll as (_ & Hlb & _). unfold links in Hlb. rewrite Hb in Hlb. injection Hlb as Hpb _.
  split; simpl.
  - eexists. split; [done|]. simpl. split; [done|]. split; [done|].
    rewrite Hs. simpl. lia.
  - eapply (dll_set_first (links (nodes s)) _ a); [exact Hdll| |].
    + intros c Hc. rewrite links_delete_ne, links_insert_ne; [done|congruence|set_solver].
    + rewrite links_delete_ne, links_insert_eq; [|set_solver]. simpl. by rewrite Hpb.
  - done.
  - eapply msgs_frame; [|exact HF]. intros c Hc.
    rewrite lookup_delete_ne by set_solver.
    destruct (decide (c = b)) as [->|]; [by rewrite lookup_insert_eq, Hb|].
    by rewrite lookup_insert_ne.
  - simpl in Hsm. lia.
Qed.

Lemma delete_head_spec s a l m ms :
  queue_rep s (a :: l) (m :: ms) ->
  exists s', delete_head s = Ok (tt, s') /\ queue_rep s' l ms /\
             nodes s' !! a = None /\ same_outside (a :: l) s s'.
Proof.
  intros H. pose proof (rep_head_node _ _ _ _ H) as (Ha & Hal & m' & ms' & Hm & Hn). simplify_eq.
  pose proof (rep_queue _ _ _ H) as (q & Hq & Hh & Ht & Hs).
  pose proof (rep_small _ _ _ H) as Hsm. simpl in Hh, Hsm.
  unfold delete_head, gets, set_queue, modify, free_node. unfold bind at 1. rewrite Hq, Hh.
  rewrite (proj2 (Z.eqb_neq (queue_size q) 0)) by (rewrite Hs; simpl; lia).
  destruct l as [|b l].
  - simpl in Ht. rewrite Ht, Z.eqb_refl. unfold bind.
    simpl. erewrite free_run; [|done|simpl; exact Hn].
    pose proof (rep_msgs _ _ _ H) as Hms. inversion Hms as [|? ? ? ? ? HF]; subst. inversion HF; subst.
    eexists. split; [done|]. simpl. rewrite Hs. simpl. split; [apply rep_empty|].
    split; [by rewrite lookup_delete_eq|]. intros c Hc. simpl. rewrite lookup_delete_ne; set_solver.
  - assert (a <> tail q).
    { rewrite Ht. simpl. intros ->. apply Hal. change (lastZ b l) with (lastZ 0 (b :: l)).
      by apply lastZ_in. }
    rewrite (proj2 (Z.eqb_neq _ _)) by done. unfold bind.
    erewrite node_at_ok; [|done|exact Hn]. simpl.
    pose proof (rep_dll _ _ _ H) as (_ & _ & Hb0 & Hlb & _).
    destruct (links_node _ _ _ _ Hlb) as [mb Hmb].
    erewrite set_next_ok; [|done|simpl; exact Hmb]. simpl.
    erewrite free_run; [|done|simpl; rewrite lookup_insert_ne; [exact Hn|set_solver]].
    eexists. split; [done|]. simpl. rewrite u64_small by (rewrite Hs; simpl in *; lia). split.
    + by apply (rep_pop_more _ _ _ _ _ q _ _ H Hq Hmb).
    + split; [by rewrite lookup_delete_eq|]. intros c Hc. simpl.
      rewrite lookup_delete_ne, lookup_insert_ne; [done|set_solver|set_solver].
Qed.

(** ** The sequential contract *)

(** What the logger relies on: a first-in first-out queue over some state. *)
Class MsgQueue (S : Type) := {
  mq_push : Z -> option message_desc -> M S unit;
  mq_pop : M S message_desc;
  mq_holds : S -> list message_desc -> Prop;
  mq_fresh : S -> Z -> Prop;
  mq_push_ok : forall s ms a m,
    mq_holds s ms -> mq_fresh s a -> Z.of_nat (length ms) + 1 < 2 ^ 64 ->
    exists s', mq_push a (Some m) s = Ok (tt, s') /\ mq_holds s' (ms ++ [m]);
  mq_push_null : forall s ms m, mq_holds s ms -> mq_push 0 (Some m) s = Ok (tt, s);
  mq_pop_ok : forall s m ms,
    mq_holds s (m :: ms) -> exists s', mq_pop s = Ok (m, s') /\ mq_holds s' ms;
  mq_pop_empty : forall s, mq_holds s [] -> mq_pop s = Fault Blocked
}.

(** The queue of [s] holds [ms] and every allocated node belongs to it. *)
Definition queue_holds (s : qstate) (ms : list message_desc) : Prop :=
  exists l, queue_rep s l ms /\ owns s l.

Lemma push_message_run s l ms a m :
  queue_rep s l ms -> a <> 0 -> nodes s !! a = None -> Z.of_nat (length l) + 1 < 2 ^ 64 ->
  exists s', push_message a (Some m) s = Ok (tt, s') /\ queue_rep s' (l ++ [a]) (ms ++ [m]) /\
             same_outside (l ++ [a]) s s'.
Proof.
  intros H Ha Hf Hsm. pose proof (rep_queue _ _ _ H) as (q & Hq & _).
  set (s1 := mk_qstate (<[a := mk_node 0 0 m]> (nodes s)) (queue s)).
  pose proof (rep_fresh _ _ _ _ H Hf) as Hal.
  assert (H1 : queue_rep s1 l ms).
  { eapply rep_frame; [exact H|done|]. intros b Hb. simpl. rewrite lookup_insert_ne; set_solver. }
  destruct (add_tail_spec s1 l ms a m H1) as (s' & Hr & Hrep & Hsame); try done.
  { simpl. by rewrite lookup_insert_eq. }
  exists s'. split; [|split; [done|]].
  - unfold push_message, gets. unfold bind at 1. rewrite Hq. unfold new_node.
    rewrite (proj2 (Z.eqb_neq _ _) Ha). exact Hr.
  - intros b Hb. rewrite Hsame by done. simpl. rewrite lookup_insert_ne; set_solver.
Qed.

Lemma push_message_owns s s' l ms a :
  queue_rep s' (l ++ [a]) ms -> owns s l -> same_outside (l ++ [a]) s s' -> owns s' (l ++ [a]).
Proof.
  intros H Ho Hsame b. split.
  - destruct (decide (b ∈ l ++ [a])) as [|Hb]; [done|].
    rewrite Hsame, (Ho b) by done. set_solver.
  - by apply (rep_allocated _ _ _ _ H).
Qed.

Lemma pop_message_run s a l m ms :
  queue_rep s (a :: l) (m :: ms) ->
  exists s', pop_message s = Ok (m, s') /\ queue_rep s' l ms /\
             nodes s' !! a = None /\ same_outside (a :: l) s s'.
Proof.
  intros H. pose proof (rep_queue _ _ _ H) as (q & Hq & Hh & _ & Hs).
  pose proof (rep_head_node _ _ _ _ H) as (Ha & _ & m' & ms' & ? & Hn). simplify_eq.
  destruct (delete_head_spec _ _ _ _ _ H) as (s' & Hr & Hrest).
  exists s'. split; [|done].
  unfold pop_message, gets. unfold bind at 1. rewrite Hq.
  rewrite (proj2 (Z.eqb_neq (queue_size q) 0)) by (rewrite Hs; simpl; lia). simpl in Hh. rewrite Hh.
  run (node_at_ok _ _ _ Ha Hn). by rewrite (bind_ok _ _ _ _ _ Hr).
Qed.

Lemma pop_message_owns s s' a l ms :
  queue_rep s' l ms -> owns s (a :: l) -> nodes s' !! a = None -> same_outside (a :: l) s s' ->
  owns s' l.
Proof.
  intros H Ho Hn Hsame b. split; [|by apply (rep_allocated _ _ _ _ H)].
  intros Hb. destruct (decide (b = a)) as [->|Hne]; [rewrite Hn in Hb; by destruct Hb|].
  destruct (decide (b ∈ l)) as [|Hbl]; [done|].
  rewrite Hsame in Hb by set_solver. apply Ho in Hb. set_solver.
Qed.

#[export] Program Instance log_msg_queue_fifo : MsgQueue qstate := {|
  mq_push := push_message;
  mq_pop := pop_message;
  mq_holds := queue_holds;
  mq_fresh := fun s a => a <> 0 /\ nodes s !! a = None
|}.
Next Obligation.
  intros s ms a m (l & H & Ho) [Ha Hf] Hsm.
  assert (Hlen : length l = length ms) by eapply Forall2_length, (rep_msgs _ _ _ H).
  destruct (push_message_run s l ms a m H Ha Hf) as (s' & Hr & Hrep & Hsame); [lia|].
  exists s'. split; [done|]. exists (l ++ [a]). split; [done|]. by eapply push_message_owns.
Qed.
Next Obligation.
  intros s ms m (l & H & _). pose proof (rep_queue _ _ _ H) as (q & Hq & _).
  unfold push_message, gets. unfold bind at 1. rewrite Hq. simpl.
  unfold add_tail, gets. unfold bind. simpl. by rewrite Hq.
Qed.
Next Obligation.
  intros s m ms (l & H & Ho). destruct l as [|a l]; [by pose proof (rep_msgs _ _ _ H) as Hx; inversion Hx|].
  destruct (pop_message_run _ _ _ _ _ H) as (s' & Hr & Hrep & Hn & Hsame).
  exists s'. split; [done|]. exists l. split; [done|]. by eapply pop_message_owns.
Qed.
Next Obligation.
  intros s (l & H & _). pose proof (rep_queue _ _ _ H) as (q & Hq & _ & _ & Hs).
  pose proof (rep_msgs _ _ _ H) as Hx. inversion Hx; subst. simpl in Hs.
  unfold pop_message, gets. unfold bind at 1. by rewrite Hq, Hs.
Qed.

Lemma owns_size s l : NoDup l -> owns s l -> size (nodes s) = length l.
Proof.
  intros Hnd Ho. rewrite <- size_dom. rewrite <- (size_list_to_set (C := gset Z) l) by done.
  f_equal. apply set_eq. intros a. rewrite elem_of_dom, elem_of_list_to_set. apply Ho.
Qed.

Lemma destroy_loop_spec l : forall fuel n s,
  dll (links (nodes s)) 0 l n -> NoDup l -> owns s l -> (length l <= fuel)%nat ->
  destroy_loop fuel (lastZ 0 l) s = Ok (tt, mk_qstate ∅ (queue s)).
Proof.
  induction l as [|t l IH] using rev_ind; intros fuel n s Hd Hnd Ho Hf.
  - destruct s as [ns q]. replace ns with (∅ : gmap Z queue_node); [by destruct fuel|].
    apply map_eq. intros a. rewrite lookup_empty. symmetry. apply eq_None_not_Some.
    rewrite (Ho a). set_solver.
  - rewrite lastZ_snoc. rewrite length_app in Hf. simpl in Hf. destruct fuel as [|fuel]; [lia|].
    pose proof (dll_lookup _ _ _ _ [] _ Hd) as Hl. simpl in Hl.
    destruct (links_node _ _ _ _ Hl) as [m Hm].
    pose proof (dll_nonnull _ _ _ _ Hd) as Hnn. apply Forall_app in Hnn as [_ Hnn].
    inversion_clear Hnn as [|? ? Ht _]. apply NoDup_app in Hnd as (Hnd & Hx & _).
    assert (Htl : ~ (t ∈ l)) by (intros ?; eapply Hx; [done|set_solver]).
    simpl. rewrite (proj2 (Z.eqb_neq _ _) Ht). unfold bind.
    rewrite (node_at_ok _ _ _ Ht Hm), (free_run _ _ _ Ht Hm). simpl.
    apply dll_app in Hd as [Hd _]. simpl in Hd.
    rewrite (IH fuel t); [done| |done| |lia].
    + eapply dll_ext; [|exact Hd]. intros a Ha. simpl. rewrite links_delete_ne; [done|set_solver].
    + intros a. simpl. rewrite lookup_delete_is_Some, (Ho a). set_solver.
Qed.

Lemma print_loop_spec l : forall fuel n s ms,
  dll (links (nodes s)) 0 l n -> Forall2 (fun a m => msg_desc <$> nodes s !! a = Some m) l ms ->
  (length l <= fuel)%nat ->
  print_loop fuel (lastZ 0 l) s = Ok (rev (message <$> ms), s).
Proof.
  induction l as [|t l IH] using rev_ind; intros fuel n s ms Hd HF Hf.
  - inversion HF; subst. by destruct fuel.
  - rewrite lastZ_snoc. rewrite length_app in Hf. simpl in Hf. destruct fuel as [|fuel]; [lia|].
    apply Forall2_app_inv_l in HF as (ms0 & mt & HF0 & HFt & ->).
    inversion HFt as [|? m ? ? Hmt HF1]; subst. inversion HF1; subst.
    pose proof (dll_lookup _ _ _ _ [] _ Hd) as Hl. destruct (links_node _ _ _ _ Hl) as [m' Hm].
    pose proof (dll_nonnull _ _ _ _ Hd) as Hnn. apply Forall_app in Hnn as [_ Hnn].
    inversion_clear Hnn as [|? ? Ht _]. rewrite Hm in Hmt. simplify_eq/=.
    rewrite (proj2 (Z.eqb_neq _ _) Ht). unfold bind. rewrite (node_at_ok _ _ _ Ht Hm). simpl.
    apply dll_app in Hd as [Hd _]. rewrite (IH fuel _ s ms0 Hd HF0) by lia.
    unfold ret. by rewrite fmap_app, rev_app_distr.
Qed.

(** *** Sequences of operations *)

Inductive queue_op := Push (m : message_desc) | Pop.

Section sequences.
Context {S : Type} `{MsgQueue S}.
Context (malloc : S -> Z).

Fixpoint run_queue (ops : list queue_op) : M S (list message_desc) :=
  match ops with
  | [] => ret []
  | Push m :: ops =>
      addr <- gets malloc ;;
      mq_push addr (Some m) ;;
      run_queue ops
  | Pop :: ops =>
      r <- mq_pop ;;
      rest <- run_queue ops ;;
      ret (r :: rest)
  end.

(** The same operations on a plain list: what they return and leave. *)
Fixpoint run_list (ops : list queue_op) (ms : list message_desc)
  : outcome (list message_desc * list message_desc) :=
  match ops with
  | [] => Ok ([], ms)
  | Push m :: ops => run_list ops (ms ++ [m])
  | Pop :: ops =>
      match ms with
      | [] => Fault Blocked
      | m :: ms => let? (outs, ms') := run_list ops ms in Ok (m :: outs, ms')
      end
  end.

(** Proved against the interface alone. *)
Lemma run_queue_refines (Hmalloc : forall s, mq_fresh s (malloc s)) ops s ms :
  mq_holds s ms -> Z.of_nat (length ms + length ops) < 2 ^ 64 ->
  match run_list ops ms with
  | Ok (outs, ms') => exists s', run_queue ops s = Ok (outs, s') /\ mq_holds s' ms'
  | Fault f => run_queue ops s = Fault f
  end.
Proof.
  revert s ms. induction ops as [|[m|] ops IH]; intros s ms Hs Hlen; cbn [run_list].
  - by exists s.
  - destruct (mq_push_ok s ms (malloc s) m Hs) as (s1 & Hr & H1); [done|simpl in Hlen; lia|].
    assert (E : run_queue (Push m :: ops) s = run_queue ops s1) by (simpl; unfold bind, gets; by rewrite Hr).
    rewrite E. apply (IH s1 (ms ++ [m]) H1). rewrite length_app. simpl in *. lia.
  - destruct ms as [|m ms].
    + by apply bind_fault, mq_pop_empty.
    + destruct (mq_pop_ok s m ms Hs) as (s1 & Hr & H1). specialize (IH s1 ms H1).
      simpl in Hlen. cbn [run_queue]. rewrite (bind_ok _ _ _ _ _ Hr).
      destruct (run_list ops ms) as [[outs ms']|f]; simpl.
      * destruct IH as (s2 & Hr2 & H2); [lia|]. exists s2. by run Hr2.
      * apply bind_fault, IH. lia.
Qed.
End sequences.

(** An empty queue as [create_log_queue] returns it. *)
Definition empty_queue (max_size : Z) : qstate :=
  mk_qstate ∅ (Some (mk_queue 0 0 0 max_size true)).

Lemma empty_queue_holds n : queue_holds (empty_queue n) [].
Proof.
  exists []. split; [exact (rep_empty ∅ (mk_queue 0 0 0 n true))|].
  intros a. simpl. rewrite lookup_empty. split; [by intros [? ?]|set_solver].
Qed.

(** ** Properties *)

(** C11: the linked queue is a first-in first-out queue: any sequence of
    [push_message] and [pop_message] calls of one thread, with an allocator that
    answers unused non-null addresses, returns what the same sequence returns on
    a plain list and leaves every allocated node in the queue; where the list is
    empty at a pop, the call waits and nothing after it runs. *)
Theorem log_queue_fifo (malloc : qstate -> Z) ops s ms :
  (forall s, malloc s <> 0 /\ nodes s !! malloc s = None) ->
  queue_holds s ms -> Z.of_nat (length ms + length ops) < 2 ^ 64 ->
  match run_list ops ms with
  | Ok (outs, ms') => exists s', run_queue malloc ops s = Ok (outs, s') /\ queue_holds s' ms'
  | Fault f => run_queue malloc ops s = Fault f
  end.
Proof. intros Hm. exact (run_queue_refines malloc Hm ops s ms). Qed.

(** a push whose [malloc] fails drops the message silently and leaves the
    queue as it was; a push through a null queue or message pointer likewise. *)
Theorem push_message_dropped s ms om addr :
  queue_holds s ms ->
  push_message 0 om s = Ok (tt, s) /\
  push_message addr None s = Ok (tt, s) /\
  push_message addr om (mk_qstate (nodes s) None) = Ok (tt, mk_qstate (nodes s) None).
Proof.
  intros Hs. destruct om as [m|].
  - split; [exact (mq_push_null s ms m Hs)|]. destruct Hs as (l & H & _).
    pose proof (rep_queue _ _ _ H) as (q & Hq & _).
    split; unfold push_message, gets, bind; simpl; by rewrite ?Hq.
  - destruct Hs as (l & H & _). pose proof (rep_queue _ _ _ H) as (q & Hq & _).
    split_and!; unfold push_message, gets, bind; simpl; by rewrite ?Hq.
Qed.

(** [destroy_log_queue] terminates and frees every node exactly once, and
    [print_queue] writes the stored texts, the newest first. *)
Theorem destroy_log_queue_frees_all s ms :
  queue_holds s ms ->
  destroy_log_queue s = Ok (tt, mk_qstate ∅ None) /\
  print_queue s = Ok (rev (message <$> ms), s).
Proof.
  intros (l & H & Ho). pose proof (rep_queue _ _ _ H) as (q & Hq & _ & Ht & _).
  pose proof (owns_size _ _ (rep_nodup _ _ _ H) Ho) as Hsz. split.
  - unfold destroy_log_queue, gets, modify, bind. rewrite Hq, Ht, Hsz.
    rewrite (destroy_loop_spec l _ 0); [done|apply H|apply H|done|lia].
  - unfold print_queue, gets, bind. rewrite Hq, Ht, Hsz.
    apply (print_loop_spec l _ 0); [apply H|apply H|lia].
Qed.

Definition malloc_fresh (s : qstate) : Z := fresh (({[0]} : gset Z) ∪ dom (nodes s)).

Lemma malloc_fresh_ok s : malloc_fresh s <> 0 /\ nodes s !! malloc_fresh s = None.
Proof.
  pose proof (is_fresh (({[0]} : gset Z) ∪ dom (nodes s))) as Hf.
  fold (malloc_fresh s) in Hf. split; [set_solver|]. apply not_elem_of_dom. set_solver.
Qed.

Definition msg_of (text : list Z) : message_desc := mk_msg text 0 0 0 0.

Lemma log_queue_fifo_witness :
  (exists s', run_queue malloc_fresh [Push (msg_of [1]); Push (msg_of [2]); Pop; Push (msg_of [3]); Pop]
               (empty_queue 1024)
             = Ok ([msg_of [1]; msg_of [2]], s') /\ queue_holds s' [msg_of [3]]) /\
  run_queue malloc_fresh [Push (msg_of [1]); Pop; Pop; Push (msg_of [2])] (empty_queue 1024) = Fault Blocked.
Proof.
  split.
  - exact (log_queue_fifo malloc_fresh
             [Push (msg_of [1]); Push (msg_of [2]); Pop; Push (msg_of [3]); Pop] (empty_queue 1024) []
             malloc_fresh_ok (empty_queue_holds 1024) ltac:(simpl; lia)).
  - exact (log_queue_fifo malloc_fresh
             [Push (msg_of [1]); Pop; Pop; Push (msg_of [2])] (empty_queue 1024) []
             malloc_fresh_ok (empty_queue_holds 1024) ltac:(simpl; lia)).
Defined.

(** Two messages, at addresses 8 and 16. *)
Definition queue2 : qstate :=
  mk_qstate (<[16 := mk_node 8 0 (msg_of [2])]> {[8 := mk_node 0 16 (msg_of [1])]})
            (Some (mk_queue 8 16 2 1024 true)).

Lemma queue2_holds : queue_holds queue2 [msg_of [1]; msg_of [2]].
Proof.
  exists [8; 16]. split.
  - split; simpl; [eexists; by repeat split|repeat split; lia| |by repeat constructor|lia].
    repeat constructor; set_solver.
  - intros a. simpl. rewrite lookup_insert_is_Some', lookup_singleton_is_Some. set_solver.
Qed.

Lemma push_message_dropped_witness :
  push_message 0 (Some (msg_of [1])) queue2 = Ok (tt, queue2) /\
  push_message 8 None queue2 = Ok (tt, queue2) /\
  push_message 8 (Some (msg_of [1])) (mk_qstate (nodes queue2) None)
    = Ok (tt, mk_qstate (nodes queue2) None).
Proof. exact (push_message_dropped queue2 _ (Some (msg_of [1])) 8 queue2_holds). Defined.

Lemma destroy_log_queue_frees_all_witness :
  destroy_log_queue queue2 = Ok (tt, mk_qstate ∅ None) /\
  print_queue queue2 = Ok ([[2]; [1]], queue2).
Proof. exact (destroy_log_queue_frees_all queue2 _ queue2_holds). Defined.
