(* ===== verification/Filesystem.v ===== *)
(** * Filesystem: streams, copying and archiving of files

    Models [src/net/tcp/server/fileserver/filesystem.c] and
    [include/filesystem.h].  A stdio stream is the bytes of its file, a
    position and the two indicators; where a device error strikes, and which
    paths may be opened, are parameters of the model. *)

From S2P Require Import Prelude CInt CString.
Open Scope Z_scope.

(** ** stdio *)

Definition EOF : Z := -1.
Definition PAGESIZE : nat := 4096.
Definition PATH_SIZE : nat := 4096.

(** [err_at] is the position at which reading fails, if it ever does. *)
Record FILE := mk_file {
  data : list Z;
  pos : nat;
  eof : bool;
  err : bool;
  err_at : option nat
}.

Definition feof (f : FILE) : bool := eof f.
Definition ferror (f : FILE) : bool := err f.

Definition fgetc (f : FILE) : Z * FILE :=
  if eof f then (EOF, f)
  else if decide (err_at f = Some (pos f)) then
    (EOF, mk_file (data f) (pos f) (eof f) true (err_at f))
  else
    match data f !! pos f with
    | Some b => (b, mk_file (data f) (S (pos f)) (eof f) (err f) (err_at f))
    | None => (EOF, mk_file (data f) (pos f) true (err f) (err_at f))
    end.

(** [fread(buf, 1, n, f)]: [n] calls of [fgetc] that stop at the first one
    which delivers no byte. *)
Fixpoint fread (n : nat) (f : FILE) : list Z * FILE :=
  match n with
  | O => ([], f)
  | S n =>
      let '(c, f') := fgetc f in
      if c =? EOF then ([], f')
      else let '(bs, f'') := fread n f' in (c :: bs, f'')
  end.

(** ** The file store *)

Record fs := mk_fs {
  files : gmap cstr (list Z);
  dirs : gset cstr
}.

Record io_env := mk_io_env {
  can_read : cstr -> bool;
  can_write : cstr -> bool;
  can_remove : cstr -> bool;
  read_err : cstr -> option nat
}.

Definition set_file (s : fs) (p : cstr) (d : list Z) : fs := mk_fs (<[p := d]> (files s)) (dirs s).

(** [sprintf("%s/%s")] *)
Definition join (dir name : cstr) : cstr := dir ++ [47] ++ name.

Record FileInfo := mk_info {
  file : FILE;
  file_size : Z;
  file_size_str : cstr
}.

Section env.
Context (env : io_env).

Definition stream (s : fs) (p : cstr) : FILE :=
  mk_file (default [] (files s !! p)) 0 false false (read_err env p).

Definition fopen_r (s : fs) (p : cstr) : bool :=
  can_read env p && bool_decide (is_Some (files s !! p)).

(** Opening for writing truncates. *)
Definition fopen_w (s : fs) (p : cstr) : option fs :=
  if can_write env p then Some (set_file s p []) else None.

(** *** Single files *)

Definition get_file_size (f : FILE) : Z * FILE :=
  let size := Z.of_nat (length (data f)) in
  (size, mk_file (data f) 0 false (err f) (err_at f)).

Definition open_file (malloc_ok : bool) (s : fs) (p : cstr) : outcome (option FileInfo) :=
  if negb malloc_ok then Fault NullDeref
  else if negb (fopen_r s p) then Ok None
  else
    let '(size, f) := get_file_size (stream s p) in
    Ok (Some (mk_info f size (print_dec size ++ [10]))).

Definition create_file (malloc_ok : bool) (s : fs) (p : cstr) : outcome (option FileInfo * fs) :=
  if negb malloc_ok then Fault NullDeref
  else
    match fopen_w s p with
    | None => Ok (None, s)
    | Some s => Ok (Some (mk_info (stream s p) 0 (print_dec 0 ++ [10])), s)
    end.

(** [fclose(file_info->file)] through a pointer nobody tests. *)
Definition close_file (info : option FileInfo) : outcome unit :=
  match info with Some _ => Ok tt | None => Fault NullDeref end.

Definition check_dir (s : fs) (p : cstr) : bool := bool_decide (p ∈ dirs s).

Definition create_dir (s : fs) (p : option cstr) : fs :=
  match p with
  | None => s
  | Some p => if can_write env p then mk_fs (files s) ({[p]} ∪ dirs s) else s
  end.

(** *** Copying byte by byte *)

Fixpoint copy_loop (fuel : nat) (f : FILE) (file_buf : list Z) (index : nat) (out : list Z)
  : outcome (list Z * nat * list Z) :=
  if feof f then Ok (file_buf, index, out)
  else if ferror f then Ok (file_buf, index, out)
  else
    match fuel with
    | O => Fault NoFuel
    | S fuel =>
        let '(c, f) := fgetc f in
        if decide (length file_buf <= index)%nat then Fault OutOfBounds
        else
          let file_buf := <[index := u8 c]> file_buf in
          let index := S index in
          if decide (index = PAGESIZE)
          then copy_loop fuel f (replicate PAGESIZE 0) 0 (out ++ file_buf)
          else copy_loop fuel f file_buf index out
    end.

(** Each round reads a byte or raises an indicator. *)
Definition copy_stream (f : FILE) : outcome (list Z) :=
  let? r := copy_loop (length (data f) + 2) f (replicate PAGESIZE 0) 0 [] in
  let '(file_buf, index, out) := r in
  Ok (if decide (1 < index)%nat then out ++ take (index - 1) file_buf else out).

Definition copy_file (s : fs) (dest src : cstr) : outcome fs :=
  if negb (fopen_r s src) then Ok s
  else
    match fopen_w s dest with
    | None => Ok s
    | Some s =>
        let? out := copy_stream (stream s src) in
        Ok (set_file s dest out)
    end.

(** *** Copying page by page *)

Fixpoint copy_loop_new (fuel : nat) (f : FILE) (out : list Z) : outcome (list Z) :=
  if feof f then Ok out
  else if ferror f then Ok out
  else
    match fuel with
    | O => Fault NoFuel
    | S fuel =>
        let '(bs, f) := fread PAGESIZE f in
        copy_loop_new fuel f (out ++ bs)
    end.

Definition copy_file_new (s : fs) (dest src : cstr) : outcome fs :=
  if negb (fopen_r s src) then Ok s
  else
    match fopen_w s dest with
    | None => Ok s
    | Some s =>
        let f := stream s src in
        let? out := copy_loop_new (length (data f) + 2) f [] in
        Ok (set_file s dest out)
    end.

(** *** Moving *)

Definition delete_file (s : fs) (p : cstr) : fs :=
  if can_remove env p then mk_fs (delete p (files s)) (dirs s) else s.

Definition move_file (s : fs) (dest_dir src_dir name : cstr) : outcome fs :=
  let new_file_path := snprintf PATH_SIZE (join dest_dir name) in
  let old_file_path := snprintf PATH_SIZE (join src_dir name) in
  let? s := copy_file s new_file_path old_file_path in
  Ok (delete_file s old_file_path).

(** [entries] is what [readdir] answers, in its order; [None] when the
    directory cannot be opened. *)
Fixpoint move_entries (s : fs) (src_dir dest_dir pattern : cstr) (char_cnt : nat)
  (entries : list cstr) : outcome fs :=
  match entries with
  | [] => Ok s
  | d_name :: entries =>
      let? s := (if strncmp d_name pattern char_cnt =? 0
                 then move_file s dest_dir src_dir d_name
                 else Ok s) in
      move_entries s src_dir dest_dir pattern char_cnt entries
  end.

Definition move_files_to_dir (s : fs) (src_dir dest_dir pattern : cstr) (char_cnt : nat)
  (entries : option (list cstr)) : outcome fs :=
  match entries with
  | None => Ok s
  | Some entries => move_entries s src_dir dest_dir pattern char_cnt entries
  end.
End env.

(** ** The copy loops *)

Definition is_bytes (d : list Z) : Prop := Forall (fun b => 0 <= b < 256) d.

(** A stream in the middle of error-free reading. *)
Definition reading (d : list Z) (p : nat) : FILE := mk_file d p false false None.

Lemma fgetc_byte d p b :
  d !! p = Some b -> fgetc (reading d p) = (b, reading d (S p)).
Proof. intros Hb. unfold fgetc. simpl. by rewrite Hb. Qed.

Lemma fgetc_end d : fgetc (reading d (length d)) = (EOF, mk_file d (length d) true false None).
Proof. unfold fgetc. simpl. by rewrite lookup_ge_None_2. Qed.

Lemma PAGESIZE_gt : (1 < PAGESIZE)%nat.
Proof. unfold PAGESIZE. lia. Qed.

#[local] Opaque PAGESIZE.

Lemma take_S_insert {A} (l : list A) i x :
  (i < length l)%nat -> take (S i) (<[i := x]> l) = take i l ++ [x].
Proof.
  intros Hi. rewrite (take_S_r _ _ x) by by rewrite list_lookup_insert_eq.
  by rewrite take_insert_ge.
Qed.

(** The byte loop moves what is left of the file, and one byte 255 for the end
    of file, through the page buffer. *)
Lemma copy_loop_spec d : is_bytes d -> forall fuel p buf index out,
  (p <= length d)%nat -> (length d - p + 1 <= fuel)%nat ->
  length buf = PAGESIZE -> (index < PAGESIZE)%nat ->
  exists buf' index' out',
    copy_loop fuel (reading d p) buf index out = Ok (buf', index', out') /\
    length buf' = PAGESIZE /\
    out' ++ take index' buf' = out ++ take index buf ++ drop p d ++ [255] /\
    index' = ((index + (length d - p) + 1) mod PAGESIZE)%nat.
Proof.
  intros Hd. induction fuel as [|fuel IH]; intros p buf index out Hp Hf Hbuf Hi; [lia|].
  pose proof PAGESIZE_gt. simpl.
  destruct (decide (p = length d)) as [->|Hne].
  - rewrite fgetc_end. destruct (decide _) as [|_]; [lia|].
    rewrite drop_all, Nat.sub_diag. destruct (decide (S index = PAGESIZE)) as [HS|HS].
    + exists (replicate PAGESIZE 0), 0%nat. eexists. split; [by destruct fuel|]. split; [by rewrite length_replicate|]. split.
      * rewrite take_0, app_nil_r. f_equal. rewrite <- (take_ge (<[index := _]> buf) (S index))
          by (rewrite length_insert; lia). by rewrite take_S_insert by lia.
      * replace (index + 0 + 1)%nat with PAGESIZE by lia. by rewrite Nat.Div0.mod_same.
    + exists (<[index := u8 EOF]> buf), (S index), out. split; [by destruct fuel|]. split; [by rewrite length_insert|]. split.
      * by rewrite take_S_insert by lia.
      * rewrite Nat.mod_small; lia.
  - destruct (lookup_lt_is_Some_2 d p) as [b Hb]; [lia|].
    rewrite (fgetc_byte _ _ _ Hb). destruct (decide _) as [|_]; [lia|].
    assert (Hub : u8 b = b).
    { apply Z.mod_small. by apply (Forall_lookup_1 _ _ _ _ Hd Hb). }
    rewrite Hub, (drop_S _ _ _ Hb).
    destruct (decide (S index = PAGESIZE)) as [HS|HS].
    + destruct (IH (S p) (replicate PAGESIZE 0) 0%nat (out ++ <[index := b]> buf))
        as (buf' & index' & out' & Hr & Hlen & Heq & Hidx); try lia; [by rewrite length_replicate|].
      exists buf', index', out'. split; [done|]. split; [done|]. split.
      * rewrite Heq, take_0. rewrite <- !app_assoc. f_equal. simpl.
        rewrite <- (take_ge (<[index := b]> buf) (S index)) by (rewrite length_insert; lia).
        rewrite take_S_insert by lia. by rewrite <- app_assoc.
      * rewrite Hidx. rewrite <- (Nat.Div0.mod_add (0 + _ + 1) 1). f_equal. lia.
    + destruct (IH (S p) (<[index := b]> buf) (S index) out)
        as (buf' & index' & out' & Hr & Hlen & Heq & Hidx); try lia; [by rewrite length_insert|].
      exists buf', index', out'. split; [done|]. split; [done|]. split.
      * rewrite Heq, take_S_insert by lia. by rewrite <- !app_assoc.
      * rewrite Hidx. f_equal. lia.
Qed.

(** What the byte loop and the flush after it make of a file they can read to
    the end. *)
Lemma copy_stream_parts d : is_bytes d -> forall out0,
  exists buf index out,
    copy_loop (length d + 2) (reading d 0) (replicate PAGESIZE 0) 0 out0 = Ok (buf, index, out) /\
    (if decide (1 < index)%nat then out ++ take (index - 1) buf else out) =
      out0 ++ (if decide (length d mod PAGESIZE = PAGESIZE - 1)%nat then d ++ [255] else d).
Proof.
  intros Hd out0. pose proof PAGESIZE_gt.
  destruct (copy_loop_spec d Hd (length d + 2) 0 (replicate PAGESIZE 0) 0 out0)
    as (buf & index & out & Hr & Hlen & Heq & Hidx); try (simpl; lia); [by rewrite length_replicate|].
  exists buf, index, out. split; [done|]. rewrite drop_0, take_0 in Heq. simpl in Heq.
  rewrite Nat.sub_0_r in Hidx. simpl in Hidx.
  pose proof (Nat.mod_upper_bound (length d) PAGESIZE ltac:(lia)) as Hub.
  pose proof (Nat.Div0.add_mod (length d) 1 PAGESIZE) as Hadd.
  rewrite (Nat.mod_small 1) in Hadd by lia. rewrite Hadd in Hidx.
  destruct (decide (length d mod PAGESIZE = PAGESIZE - 1)%nat) as [Hc|Hc].
  - replace (length d mod PAGESIZE + 1)%nat with PAGESIZE in Hidx by lia.
    rewrite Nat.Div0.mod_same in Hidx. subst index. rewrite take_0, app_nil_r in Heq.
    by rewrite Heq.
  - rewrite Nat.mod_small in Hidx by lia.
    destruct (lookup_lt_is_Some_2 buf (index - 1)) as [x Hx]; [lia|].
    replace index with (S (index - 1)) in Heq by lia.
    rewrite (take_S_r _ _ _ Hx), !app_assoc in Heq. apply app_inj_tail in Heq as [Heq _].
    destruct (decide (1 < index)%nat); [done|].
    replace (index - 1)%nat with 0%nat in Heq by lia. by rewrite take_0, app_nil_r in Heq.
Qed.

Lemma copy_stream_result d :
  is_bytes d ->
  copy_stream (reading d 0) =
    Ok (if decide (length d mod PAGESIZE = PAGESIZE - 1)%nat then d ++ [255] else d).
Proof.
  intros Hd. destruct (copy_stream_parts d Hd []) as (buf & index & out & Hr & Hres).
  unfold copy_stream. simpl data. rewrite Hr. simpl. by rewrite Hres.
Qed.

Lemma fread_spec d : is_bytes d -> forall n p,
  (p <= length d)%nat ->
  fread n (reading d p) =
    (take n (drop p d),
     if decide (n <= length d - p)%nat then reading d (p + n)
     else mk_file d (length d) true false None).
Proof.
  intros Hd. induction n as [|n IH]; intros p Hp.
  - simpl fread. rewrite take_0, decide_True by lia. by rewrite Nat.add_0_r.
  - simpl fread. destruct (decide (p = length d)) as [->|Hne].
    + rewrite fgetc_end, drop_all, take_nil. simpl. by rewrite decide_False by lia.
    + destruct (lookup_lt_is_Some_2 d p) as [b Hb]; [lia|].
      rewrite (fgetc_byte _ _ _ Hb).
      pose proof (Forall_lookup_1 _ _ _ _ Hd Hb). simpl in *.
      unfold EOF. rewrite (proj2 (Z.eqb_neq b (-1))) by lia.
      rewrite IH by lia. rewrite (drop_S _ _ _ Hb). simpl. f_equal.
      destruct (decide (n <= length d - S p)%nat).
      * rewrite decide_True by lia. f_equal. lia.
      * by rewrite decide_False by lia.
Qed.

Lemma copy_loop_new_spec d : is_bytes d -> forall fuel p out,
  (p <= length d)%nat -> (length d - p + 1 <= fuel)%nat ->
  copy_loop_new fuel (reading d p) out = Ok (out ++ drop p d).
Proof.
  intros Hd. pose proof PAGESIZE_gt.
  induction fuel as [|fuel IH]; intros p out Hp Hf; [lia|]. simpl.
  rewrite (fread_spec d Hd) by done. destruct (decide _) as [Hle|Hgt].
  - rewrite IH by lia. by rewrite <- app_assoc, <- drop_drop, take_drop.
  - rewrite take_ge by (rewrite length_drop; lia). by destruct fuel.
Qed.

(** ** Properties *)

(** A path the environment lets the code read to its end. *)
Definition readable (env : io_env) (s : fs) (p : cstr) (d : list Z) : Prop :=
  can_read env p = true /\ files s !! p = Some d /\ read_err env p = None /\ is_bytes d.

Lemma readable_open env s p d : readable env s p d -> fopen_r env s p = true.
Proof.
  intros (Hr & Hp & _ & _). unfold fopen_r. rewrite Hr, Hp. by rewrite bool_decide_eq_true_2 by eauto.
Qed.

Lemma readable_stream env s p d q :
  readable env s p d -> p <> q -> stream env (set_file s q []) p = reading d 0.
Proof.
  intros (_ & Hp & He & _) Hne. unfold stream, reading. simpl.
  by rewrite lookup_insert_ne, Hp, He by done.
Qed.

Lemma set_file_twice s p d d' : set_file (set_file s p d) p d' = set_file s p d'.
Proof. unfold set_file. simpl. by rewrite insert_insert_eq. Qed.

Lemma copy_file_run env s dest src d :
  readable env s src d -> can_write env dest = true -> src <> dest ->
  copy_file env s dest src =
    Ok (set_file s dest
          (if decide (length d mod PAGESIZE = PAGESIZE - 1)%nat then d ++ [255] else d)).
Proof.
  intros Hr Hw Hne. pose proof Hr as (_ & _ & _ & Hd). unfold copy_file, fopen_w.
  rewrite (readable_open _ _ _ _ Hr), Hw. simpl.
  rewrite (readable_stream _ _ _ _ _ Hr Hne), (copy_stream_result d Hd). simpl.
  by rewrite set_file_twice.
Qed.

(** C13: what [copy_file] leaves in the destination: the source's bytes, except
    that a source of length 4095 modulo the page size comes out with one extra
    byte 255, the end-of-file value that the loop stored in the last slot of
    the page buffer and flushed with it. *)
Theorem copy_file_result env s dest src d :
  readable env s src d -> can_write env dest = true -> src <> dest ->
  copy_file env s dest src =
    Ok (set_file s dest
          (if decide (length d mod PAGESIZE = PAGESIZE - 1)%nat then d ++ [255] else d)).
Proof. apply copy_file_run. Qed.

(** the page-wise [copy_file_new] copies every readable file exactly, so it
    agrees with [copy_file] unless the length is 4095 modulo the page size. *)
Theorem copy_file_new_exact env s dest src d :
  readable env s src d -> can_write env dest = true -> src <> dest ->
  copy_file_new env s dest src = Ok (set_file s dest d) /\
  (copy_file env s dest src = copy_file_new env s dest src <->
   (length d mod PAGESIZE <> PAGESIZE - 1)%nat).
Proof.
  intros Hr Hw Hne. pose proof Hr as (_ & _ & _ & Hd).
  assert (Hnew : copy_file_new env s dest src = Ok (set_file s dest d)).
  { unfold copy_file_new, fopen_w. rewrite (readable_open _ _ _ _ Hr), Hw. cbn [negb].
    rewrite (readable_stream _ _ _ _ _ Hr Hne). cbv zeta. change (data (reading d 0)) with d.
    rewrite (copy_loop_new_spec d Hd (length d + 2) 0 []); [|lia|lia]. simpl. by rewrite set_file_twice. }
  split; [done|]. rewrite Hnew, (copy_file_run env s dest src d) by done.
  destruct (decide _) as [Hc|Hc]; [|done]. split; [|done].
  intros [= Heq]. apply (f_equal (lookup dest)) in Heq. rewrite !lookup_insert_eq in Heq.
  injection Heq as Heq. apply (f_equal length) in Heq. rewrite length_app in Heq. simpl in Heq. lia.
Qed.

(** *** Archiving *)

Lemma join_inj dir n n' : join dir n = join dir n' -> n = n'.
Proof. unfold join. intros H. apply app_inv_head in H. by simplify_eq. Qed.

(** No entry of a directory contains a slash, so an entry of [dir/sub] is none
    of [dir]. *)
Lemma join_sub_ne dir sub n n' : ~ (47 ∈ n') -> join (join dir sub) n <> join dir n'.
Proof.
  unfold join. rewrite <- !app_assoc. intros Hn H. apply app_inv_head in H.
  injection H as H. apply Hn. rewrite <- H. set_solver.
Qed.

(** What [move_files_to_dir] needs of a matching entry to move it intact. *)
Record movable (env : io_env) (s : fs) (src_dir dest_dir n : cstr) (d : list Z) : Prop := {
  mv_read : readable env s (join src_dir n) d;
  mv_write : can_write env (join dest_dir n) = true;
  mv_remove : can_remove env (join src_dir n) = true;
  mv_short_src : (length (join src_dir n) < PATH_SIZE)%nat;
  mv_short_dest : (length (join dest_dir n) < PATH_SIZE)%nat;
  mv_length : (length d mod PAGESIZE <> PAGESIZE - 1)%nat
}.

Lemma move_file_run env s src_dir dest_dir n d :
  movable env s src_dir dest_dir n d -> join src_dir n <> join dest_dir n ->
  move_file env s dest_dir src_dir n =
    Ok (mk_fs (delete (join src_dir n) (<[join dest_dir n := d]> (files s))) (dirs s)).
Proof.
  intros [Hr Hw Hrm Hs Hd Hl] Hne. unfold move_file, delete_file.
  rewrite !snprintf_short by done.
  rewrite (copy_file_run env s _ _ d Hr Hw Hne), decide_False by done.
  unfold obind. by rewrite Hrm.
Qed.

Lemma movable_frame env s s' src_dir dest_dir n d :
  movable env s src_dir dest_dir n d ->
  files s' !! join src_dir n = files s !! join src_dir n ->
  movable env s' src_dir dest_dir n d.
Proof.
  intros [(Hc & Hf & He & Hb) Hw Hrm Hs Hd Hl] Heq. split; try done.
  split; [done|]. by rewrite Heq.
Qed.

Lemma move_entries_spec env src_dir sub pattern entries : forall s (contents : cstr -> list Z),
  let dest_dir := join src_dir sub in
  is_cstr pattern -> Forall is_cstr entries -> Forall (fun n => ~ (47 ∈ n)) entries -> NoDup entries ->
  (forall n, n ∈ entries -> pattern `prefix_of` n -> movable env s src_dir dest_dir n (contents n)) ->
  exists s', move_entries env s src_dir dest_dir pattern (length pattern) entries = Ok s' /\
    (forall n, n ∈ entries -> pattern `prefix_of` n ->
       files s' !! join dest_dir n = Some (contents n) /\ files s' !! join src_dir n = None) /\
    (forall p, (forall n, n ∈ entries -> pattern `prefix_of` n ->
                  p <> join dest_dir n /\ p <> join src_dir n) -> files s' !! p = files s !! p).
Proof.
  intros s contents dest_dir Hpat Hcs. revert s.
  induction Hcs as [|n entries Hn Hcs IH]; intros s Hns Hnd Hmv.
  { exists s. split; [done|]. split; [by intros n ?%elem_of_nil|done]. }
  apply NoDup_cons in Hnd as [Hnin Hnd]. inversion_clear Hns as [|? ? Hs1 Hs2].
  assert (Hdisj : forall m m', m' ∈ n :: entries -> join dest_dir m <> join src_dir m').
  { intros m m' Hm'. apply join_sub_ne. apply elem_of_cons in Hm' as [->|Hm']; [done|].
    rewrite Forall_forall in Hs2. by apply Hs2. }
  simpl. destruct (Z.eqb_spec (strncmp n pattern (length pattern)) 0) as [Hm|Hm];
    rewrite strncmp_prefix in Hm by done.
  - rewrite (move_file_run env s src_dir dest_dir n (contents n));
      [|apply Hmv; [set_solver|done]|symmetry; apply Hdisj; set_solver].
    simpl. set (s1 := mk_fs _ _).
    assert (Hfr : forall m, m ∈ entries -> files s1 !! join src_dir m = files s !! join src_dir m).
    { intros m Hme. unfold s1. simpl.
      rewrite lookup_delete_ne, lookup_insert_ne; [done|apply Hdisj; set_solver|].
      intros ->%join_inj. done. }
    destruct (IH s1) as (s' & Hr & Hin & Hout); try done.
    { intros m Hme Hmp. eapply movable_frame; [apply Hmv; [set_solver|done]|by apply Hfr]. }
    exists s'. split; [done|]. split.
    + intros m [->|Hme]%elem_of_cons Hmp; [|by apply Hin].
      split; (rewrite Hout; [unfold s1; simpl|]).
      * rewrite lookup_delete_ne, lookup_insert_eq; [done|]. apply not_eq_sym, Hdisj. set_solver.
      * intros k Hk _. split; [intros ?%join_inj; congruence|apply Hdisj; set_solver].
      * by rewrite lookup_delete_eq.
      * intros k Hk _. split; [apply not_eq_sym, Hdisj; set_solver|intros ?%join_inj; congruence].
    + intros p Hp. rewrite Hout by (intros m Hme; apply Hp; set_solver).
      unfold s1. simpl. destruct (Hp n) as [Hp1 Hp2]; [set_solver|done|].
      by rewrite lookup_delete_ne, lookup_insert_ne by congruence.
  - simpl. destruct (IH s) as (s' & Hr & Hin & Hout); try done.
    { intros m Hme. apply Hmv. set_solver. }
    exists s'. split; [done|]. split.
    + intros m [->|Hme]%elem_of_cons Hmp; [done|by apply Hin].
    + intros p Hp. apply Hout. intros m Hme. apply Hp. set_solver.
Qed.

(** archiving: every entry whose name starts with the pattern leaves the
    source directory and appears under its own name in the subdirectory with
    its bytes, and every other path keeps its contents (for entries that can
    be read, written and removed, whose paths fit the buffers, and whose
    length is not 4095 modulo the page size). *)
Theorem move_files_to_dir_moves env s src_dir sub pattern entries (contents : cstr -> list Z) :
  let dest_dir := join src_dir sub in
  is_cstr pattern -> Forall is_cstr entries -> Forall (fun n => ~ (47 ∈ n)) entries -> NoDup entries ->
  (forall n, n ∈ entries -> pattern `prefix_of` n -> movable env s src_dir dest_dir n (contents n)) ->
  exists s', move_files_to_dir env s src_dir dest_dir pattern (length pattern) (Some entries) = Ok s' /\
    (forall n, n ∈ entries -> pattern `prefix_of` n ->
       files s' !! join dest_dir n = Some (contents n) /\ files s' !! join src_dir n = None) /\
    (forall p, (forall n, n ∈ entries -> pattern `prefix_of` n ->
                  p <> join dest_dir n /\ p <> join src_dir n) -> files s' !! p = files s !! p).
Proof. apply move_entries_spec. Qed.

(** [move_file] deletes the source whether or not the copy was made: when
    the destination cannot be opened the file's bytes are gone from both
    places. *)
Theorem move_file_loses_data env s src_dir dest_dir n :
  can_write env (join dest_dir n) = false -> can_remove env (join src_dir n) = true ->
  (length (join src_dir n) < PATH_SIZE)%nat -> (length (join dest_dir n) < PATH_SIZE)%nat ->
  move_file env s dest_dir src_dir n = Ok (mk_fs (delete (join src_dir n) (files s)) (dirs s)).
Proof.
  intros Hw Hrm Hs Hd. unfold move_file, copy_file, fopen_w, delete_file.
  rewrite !snprintf_short, Hw, Hrm by done. by destruct (negb _).
Qed.

(** ** Concrete files *)

Definition open_env : io_env := mk_io_env (fun _ => true) (fun _ => true) (fun _ => true) (fun _ => None).
Definition locked_env : io_env := mk_io_env (fun _ => true) (fun _ => false) (fun _ => true) (fun _ => None).

(** One file, [a], of [n] bytes 7. *)
Definition fs_a (n : nat) : fs := mk_fs {[ [97] := replicate n 7 ]} ∅.

Lemma readable_a n : readable open_env (fs_a n) [97] (replicate n 7).
Proof. split; [done|]. split; [done|]. split; [done|]. apply Forall_replicate. lia. Qed.

Lemma copy_file_result_witness :
  copy_file open_env (fs_a 3) [98] [97] = Ok (set_file (fs_a 3) [98] [7; 7; 7]) /\
  copy_file open_env (fs_a 4095) [98] [97] = Ok (set_file (fs_a 4095) [98] (replicate 4095 7 ++ [255])).
Proof.
  split.
  - rewrite (copy_file_result open_env (fs_a 3) [98] [97] _ (readable_a 3) eq_refl ltac:(done)).
    vm_compute. reflexivity.
  - rewrite (copy_file_result open_env (fs_a 4095) [98] [97] _ (readable_a 4095) eq_refl ltac:(done)).
    vm_compute. reflexivity.
Defined.

Lemma copy_file_new_exact_witness :
  copy_file_new open_env (fs_a 4095) [98] [97] = Ok (set_file (fs_a 4095) [98] (replicate 4095 7)).
Proof.
  exact (proj1 (copy_file_new_exact open_env (fs_a 4095) [98] [97] _ (readable_a 4095) eq_refl ltac:(done))).
Defined.

(** A directory [d] with the files [ax] and [b]; the first one is archived. *)
Definition fs_dir : fs := mk_fs {[ [100; 47; 97; 120] := [1; 2]; [100; 47; 98] := [3] ]} ∅.

Lemma fs_dir_movable n :
  n ∈ [[97; 120]; [98]] -> [97] `prefix_of` n -> movable open_env fs_dir [100] (join [100] [115]) n [1; 2].
Proof.
  intros Hn Hp. assert (n = [97; 120]) as ->.
  { apply elem_of_cons in Hn as [->|Hn]; [done|].
    apply list_elem_of_singleton in Hn as ->. by apply prefix_cons_inv_1 in Hp. }
  assert (Hlt : forall n, (n < 100)%nat -> (n < PATH_SIZE)%nat) by (unfold PATH_SIZE; lia).
  split; try done.
  - split; [done|]. split; [done|]. split; [done|]. repeat constructor; lia.
  - apply Hlt. simpl. lia.
  - apply Hlt. simpl. lia.
Qed.

Lemma move_files_to_dir_moves_witness :
  exists s', move_files_to_dir open_env fs_dir [100] (join [100] [115]) [97] 1 (Some [[97; 120]; [98]]) = Ok s' /\
    (forall n, n ∈ [[97; 120]; [98]] -> [97] `prefix_of` n ->
       files s' !! join (join [100] [115]) n = Some [1; 2] /\ files s' !! join [100] n = None) /\
    (forall p, (forall n, n ∈ [[97; 120]; [98]] -> [97] `prefix_of` n ->
                  p <> join (join [100] [115]) n /\ p <> join [100] n) -> files s' !! p = files fs_dir !! p).
Proof.
  apply (move_files_to_dir_moves open_env fs_dir [100] [115] [97] [[97; 120]; [98]] (fun _ => [1; 2])).
  - repeat constructor; lia.
  - repeat constructor; lia.
  - repeat constructor; set_solver.
  - repeat constructor; set_solver.
  - exact fs_dir_movable.
Defined.

Lemma move_file_loses_data_witness :
  move_file locked_env fs_dir (join [100] [115]) [100] [98]
    = Ok (mk_fs (delete [100; 47; 98] (files fs_dir)) ∅).
Proof.
  apply (move_file_loses_data locked_env fs_dir [100] (join [100] [115]) [98]);
    [reflexivity|reflexivity|unfold PATH_SIZE; simpl; lia|unfold PATH_SIZE; simpl; lia].
Defined.
