(* ===== verification/Net.v ===== *)
(** * Net: sending a file over a connection

    Models [send_file], [send_file_old], [create_server] and
    [init_addr_ipinet] of [src/net/tcp/server/fileserver/net.c].  What each
    [send] call answers is an oracle: [-1], or the number of bytes the socket
    took, which may be fewer than asked. *)

From S2P Require Import Prelude CInt CString Filesystem.
Open Scope Z_scope.

(** ** The socket *)

Record sock_state := mk_sock {
  calls : nat;        (* send calls so far *)
  sent : list Z       (* bytes the socket has taken *)
}.

(** A [#define]d message and its NUL: [sizeof] counts both. *)
Definition OK_MSG : list Z := bytes_of "OK" ++ [10; 0].
Definition ERR_MSG1 : list Z := bytes_of "Can not open file" ++ [10; 0].

Definition AF_INET : Z := 2.

Record sockaddr_in := mk_addr { sin_addr : Z; sin_port : Z; sin_family : Z }.

(** Network byte order of a 16-bit number on a little-endian machine. *)
Definition htons (port : Z) : Z := (port mod 256) * 256 + (port / 256) mod 256.

(** [ip] is the address [inet_aton] parsed; on a string it rejects the field
    keeps its old value. *)
Definition init_addr_ipinet (addr : sockaddr_in) (ip : option Z) (port : Z) : sockaddr_in :=
  mk_addr (default (sin_addr addr) ip) (htons (port mod 2 ^ 16)) AF_INET.

(** [local] is an uninitialised structure, [socket_ret] and [bind_ret] the
    answers of the system calls. *)
Definition create_server (local : sockaddr_in) (socket_ret : Z) (bind_ret : sockaddr_in -> Z)
  (ip : option Z) (port : Z) : Z :=
  let local := init_addr_ipinet local ip port in
  if bind_ret local =? -1 then -1 else socket_ret.

Section send.
Context (env : io_env) (send_ret : nat -> Z -> Z).

Definition send (buf : list Z) : M sock_state Z :=
  fun s =>
    let r := send_ret (calls s) (Z.of_nat (length buf)) in
    Ok (r, mk_sock (S (calls s)) (sent s ++ (if r =? -1 then [] else take (Z.to_nat r) buf))).

(** The page loop of [send_file]: the bytes counted, or [None] when it left
    through [error_exit]. *)
Fixpoint send_loop (fuel : nat) (f : FILE) (total_cnt : Z) : M sock_state (option Z) :=
  if feof f then ret (Some total_cnt)
  else if ferror f then ret None
  else
    match fuel with
    | O => fail NoFuel
    | S fuel =>
        let '(file_buf, f) := fread PAGESIZE f in
        send_cnt <- send file_buf ;;
        if send_cnt =? -1 then ret None
        else send_loop fuel f (u64 (total_cnt + send_cnt))
    end.

(** [resp] is what [recv] left in the zeroed response buffer. *)
Definition send_file (malloc_ok : bool) (s : fs) (path resp : cstr) : M sock_state (option Z) :=
  info <- lift (open_file env malloc_ok s path) ;;
  match info with
  | None =>
      send ERR_MSG1 ;;
      lift (close_file None) ;;
      ret None
  | Some fi =>
      send_cnt <- send OK_MSG ;;
      if send_cnt =? -1 then lift (close_file info) ;; ret None
      else if strncmp resp (bytes_of "STOP" ++ [10]) 4 =? 0 then lift (close_file info) ;; ret None
      else
        send_cnt <- send (file_size_str fi) ;;
        if send_cnt =? -1 then lift (close_file info) ;; ret None
        else
          total <- send_loop (length (data (file fi)) + 2) (file fi) 0 ;;
          lift (close_file info) ;;
          ret total
  end.

(** The byte loop of [send_file_old]: the buffer and index it ends with, or
    [None] when a [send] failed. *)
Fixpoint send_old_loop (fuel : nat) (f : FILE) (file_buf : list Z) (index : nat)
  : M sock_state (option (list Z * nat)) :=
  if feof f then ret (Some (file_buf, index))
  else if ferror f then ret (Some (file_buf, index))
  else
    match fuel with
    | O => fail NoFuel
    | S fuel =>
        let '(c, f) := fgetc f in
        if decide (length file_buf <= index)%nat then fail OutOfBounds
        else
          let file_buf := <[index := u8 c]> file_buf in
          let index := S index in
          if decide (index = PAGESIZE) then
            send_cnt <- send file_buf ;;
            if send_cnt =? -1 then ret None
            else send_old_loop fuel f (replicate PAGESIZE 0) 0
          else send_old_loop fuel f file_buf index
    end.

Definition send_file_old (malloc_ok : bool) (s : fs) (path resp : cstr) : M sock_state unit :=
  info <- lift (open_file env malloc_ok s path) ;;
  match info with
  | None =>
      send_cnt <- send ERR_MSG1 ;;
      if send_cnt =? -1 then lift (close_file None) else ret tt
  | Some fi =>
      send_cnt <- send OK_MSG ;;
      if send_cnt =? -1 then lift (close_file info)
      else if strncmp resp (bytes_of "STOP" ++ [10]) 4 =? 0 then ret tt
      else
        send_cnt <- send (file_size_str fi) ;;
        if send_cnt =? -1 then lift (close_file info)
        else
          r <- send_old_loop (length (data (file fi)) + 2) (file fi) (replicate PAGESIZE 0) 0 ;;
          match r with
          | None => lift (close_file info)
          | Some (file_buf, index) =>
              if decide (1 < index)%nat then
                send (take (index - 1) file_buf) ;;
                lift (close_file info)
              else lift (close_file info)
          end
  end.
End send.

(** ** Behaviour of the send loops *)

#[local] Opaque PAGESIZE.

(** Every [send] takes all it is given. *)
Definition complete (send_ret : nat -> Z -> Z) : Prop := forall i n, 0 <= n -> send_ret i n = n.

(** The documented answers of [send]. *)
Definition documented (send_ret : nat -> Z -> Z) : Prop :=
  forall i n, 0 <= n -> send_ret i n = -1 \/ 0 <= send_ret i n <= n.

Lemma send_complete r buf s :
  complete r -> send r buf s = Ok (Z.of_nat (length buf), mk_sock (S (calls s)) (sent s ++ buf)).
Proof.
  intros Hc. unfold send. rewrite Hc by lia.
  rewrite (proj2 (Z.eqb_neq (Z.of_nat (length buf)) (-1))) by lia. by rewrite Nat2Z.id, firstn_all.
Qed.

(** A complete [send] in front of the test for [-1]. *)
Lemma bind_send {A} r buf s (k1 k2 : M sock_state A) :
  complete r ->
  (c <- send r buf ;; if c =? -1 then k1 else k2) s = k2 (mk_sock (S (calls s)) (sent s ++ buf)).
Proof.
  intros Hc. run (send_complete _ _ _ Hc).
  by rewrite (proj2 (Z.eqb_neq _ (-1))) by lia.
Qed.

Lemma send_took r buf s c s' :
  send r buf s = Ok (c, s') -> exists h, h `prefix_of` buf /\ sent s' = sent s ++ h.
Proof.
  unfold send. intros Hr. injection Hr as _ <-. eexists. split; [|done].
  destruct (_ =? -1); [apply prefix_nil|apply prefix_take].
Qed.

Lemma open_file_readable env s p d :
  readable env s p d ->
  open_file env true s p =
    Ok (Some (mk_info (reading d 0) (Z.of_nat (length d)) (print_dec (Z.of_nat (length d)) ++ [10]))).
Proof.
  intros Hr. pose proof Hr as (_ & Hp & He & _). unfold open_file.
  rewrite (readable_open _ _ _ _ Hr). unfold stream. by rewrite Hp, He.
Qed.

Section loops.
Context (send_ret : nat -> Z -> Z).

Lemma send_loop_complete (Hc : complete send_ret) d : is_bytes d -> forall fuel p tot s,
  (p <= length d)%nat -> (length d - p + 1 <= fuel)%nat ->
  0 <= tot -> tot + Z.of_nat (length d - p) < 2 ^ 64 ->
  exists n, send_loop send_ret fuel (reading d p) tot s =
    Ok (Some (tot + Z.of_nat (length d - p)), mk_sock n (sent s ++ drop p d)).
Proof.
  intros Hd. pose proof PAGESIZE_gt.
  induction fuel as [|fuel IH]; intros p tot s Hp Hf Ht Hb; [lia|]. simpl.
  rewrite (fread_spec d Hd) by done. unfold bind. rewrite (send_complete _ _ _ Hc).
  rewrite (proj2 (Z.eqb_neq _ (-1))) by lia. rewrite length_take, length_drop.
  destruct (decide _) as [Hle|Hgt].
  - rewrite Nat.min_l, u64_small by lia.
    destruct (IH (p + PAGESIZE)%nat (tot + Z.of_nat PAGESIZE)
                (mk_sock (S (calls s)) (sent s ++ take PAGESIZE (drop p d)))) as [n Hn]; try lia.
    exists n. rewrite Hn. simpl. rewrite <- app_assoc, <- drop_drop, take_drop.
    do 3 f_equal. lia.
  - rewrite Nat.min_r, u64_small by lia. rewrite take_ge by (rewrite length_drop; lia).
    eexists. destruct fuel; simpl; unfold ret; done.
Qed.

Lemma send_grows buf s r s' : send send_ret buf s = Ok (r, s') -> sent s `prefix_of` sent s'.
Proof. intros (h & _ & Hh)%send_took. by exists h. Qed.

Lemma send_loop_grows : forall fuel f tot s o s',
  send_loop send_ret fuel f tot s = Ok (o, s') -> sent s `prefix_of` sent s'.
Proof.
  induction fuel as [|fuel IH]; intros f tot s o s' Hr; simpl in Hr;
    (destruct (feof f); [unfold ret in Hr; by simplify_eq|]);
    (destruct (ferror f); [unfold ret in Hr; by simplify_eq|]); [done|].
  destruct (fread PAGESIZE f) as [bs f1]. apply bind_inv in Hr as (r & s1 & Hs1 & Hr).
  apply send_grows in Hs1. destruct (r =? -1); [unfold ret in Hr; by simplify_eq|].
  etrans; [exact Hs1|by eapply IH].
Qed.

Lemma send_loop_counts (Hdoc : documented send_ret) : forall fuel f tot s t s',
  0 <= tot -> tot + Z.of_nat (length (sent s')) - Z.of_nat (length (sent s)) < 2 ^ 64 ->
  send_loop send_ret fuel f tot s = Ok (Some t, s') ->
  t = tot + Z.of_nat (length (sent s')) - Z.of_nat (length (sent s)).
Proof.
  induction fuel as [|fuel IH]; intros f tot s t s' Ht Hb Hr; simpl in Hr;
    (destruct (feof f); [unfold ret in Hr; simplify_eq; lia|]);
    (destruct (ferror f); [done|]); [done|].
  destruct (fread PAGESIZE f) as [bs f1]. apply bind_inv in Hr as (r & s1 & Hs1 & Hr).
  destruct (Z.eqb_spec r (-1)) as [E|E]; [done|]. unfold send in Hs1. injection Hs1 as Hr1 Hs1.
  destruct (Hdoc (calls s) (Z.of_nat (length bs))) as [|Hrange]; [lia|congruence|].
  rewrite Hr1 in Hrange, Hs1. rewrite (proj2 (Z.eqb_neq r (-1)) E) in Hs1.
  assert (Hlen : Z.of_nat (length (sent s1)) = Z.of_nat (length (sent s)) + r).
  { rewrite <- Hs1. simpl. rewrite length_app, length_take. lia. }
  pose proof (prefix_length _ _ (send_loop_grows _ _ _ _ _ _ Hr)) as Hg.
  rewrite u64_small in Hr by lia. apply IH in Hr; lia.
Qed.

(** With complete sends the old loop delivers what the byte-wise copy loop
    would write to a file. *)
Lemma send_old_loop_copy (Hc : complete send_ret) : forall fuel f buf index s b i o,
  copy_loop fuel f buf index (sent s) = Ok (b, i, o) ->
  exists n, send_old_loop send_ret fuel f buf index s = Ok (Some (b, i), mk_sock n o).
Proof.
  induction fuel as [|fuel IH]; intros f buf index s b i o Hr; simpl in Hr |- *;
    (destruct (feof f); [simplify_eq; exists (calls s); by destruct s|]);
    (destruct (ferror f); [simplify_eq; exists (calls s); by destruct s|]); [done|].
  destruct (fgetc f) as [c f1]. destruct (decide _); [done|].
  destruct (decide _); [|by apply IH].
  unfold bind. rewrite (send_complete _ _ _ Hc). rewrite (proj2 (Z.eqb_neq _ (-1))) by lia.
  by apply IH.
Qed.
End loops.

(** The run of [send_file] on a readable file over complete sends. *)
Lemma send_file_run env send_ret s path d resp st :
  readable env s path d -> complete send_ret -> Z.of_nat (length d) < 2 ^ 64 ->
  strncmp resp (bytes_of "STOP" ++ [10]) 4 <> 0 ->
  exists n, send_file env send_ret true s path resp st =
    Ok (Some (Z.of_nat (length d)),
        mk_sock n (sent st ++ OK_MSG ++ (print_dec (Z.of_nat (length d)) ++ [10]) ++ d)).
Proof.
  intros Hr Hc Hb Hresp. pose proof Hr as (_ & _ & _ & Hd).
  unfold send_file. rewrite (open_file_readable _ _ _ _ Hr), bind_lift.
  rewrite (bind_send _ _ _ _ _ Hc), (proj2 (Z.eqb_neq _ 0) Hresp), (bind_send _ _ _ _ _ Hc).
  cbn [file file_size_str sent calls]. change (data (reading d 0)) with d.
  match goal with |- context [bind (send_loop _ _ _ _) _ ?s2] =>
    destruct (send_loop_complete send_ret Hc d Hd (length d + 2) 0 0 s2) as [n Hn]; [lia..|] end.
  exists n. run Hn. unfold bind, lift, ret. simpl.
  by rewrite drop_0, Nat.sub_0_r, <- !app_assoc.
Qed.

(** ** Properties *)

(** C35: serving a readable file to a client that accepts it: when every [send]
    takes all its bytes, the client receives the four bytes of [OK_MSG], the
    decimal size and a newline, then exactly the file, and the function counts
    the file's length. *)
Theorem send_file_delivers env send_ret s path d resp st :
  readable env s path d -> complete send_ret -> Z.of_nat (length d) < 2 ^ 64 ->
  strncmp resp (bytes_of "STOP" ++ [10]) 4 <> 0 ->
  exists n, send_file env send_ret true s path resp st =
    Ok (Some (Z.of_nat (length d)),
        mk_sock n (sent st ++ OK_MSG ++ (print_dec (Z.of_nat (length d)) ++ [10]) ++ d)).
Proof. apply send_file_run. Qed.

(** a request for a file that cannot be opened sends the error text and
    then closes through the null descriptor: undefined behaviour, whatever the
    socket answers. *)
Theorem send_file_missing_faults env send_ret s path resp st :
  fopen_r env s path = false ->
  send_file env send_ret true s path resp st = Fault NullDeref.
Proof. intros Hr. unfold send_file, bind, open_file. by rewrite Hr. Qed.

(** whatever the socket answers (an error, or any count up to the one
    asked), a transfer that reports a number was not stopped by the client, and
    the number is that of the bytes the socket took after the two header
    messages. *)
Theorem send_file_reports_taken env send_ret s path d resp st t st' :
  readable env s path d -> documented send_ret ->
  Z.of_nat (length (sent st')) < 2 ^ 64 ->
  send_file env send_ret true s path resp st = Ok (Some t, st') ->
  strncmp resp (bytes_of "STOP" ++ [10]) 4 <> 0 /\
  exists hdr1 hdr2 body,
    hdr1 `prefix_of` OK_MSG /\ hdr2 `prefix_of` print_dec (Z.of_nat (length d)) ++ [10] /\
    sent st' = sent st ++ hdr1 ++ hdr2 ++ body /\ t = Z.of_nat (length body).
Proof.
  intros Hr Hdoc Hb Hrun. unfold send_file in Hrun.
  rewrite (open_file_readable _ _ _ _ Hr), bind_lift in Hrun.
  apply bind_inv in Hrun as (c1 & s1 & (h1 & Hh1 & Hs1)%send_took & Hrun).
  destruct (c1 =? -1); [by binds|].
  destruct (Z.eqb_spec (strncmp resp (bytes_of "STOP" ++ [10]) 4) 0) as [|Hresp]; [by binds|].
  apply bind_inv in Hrun as (c2 & s2 & (h2 & Hh2 & Hs2)%send_took & Hrun).
  destruct (c2 =? -1); [by binds|].
  apply bind_inv in Hrun as (o & s3 & E3 & Hrun). injection Hrun as -> ->.
  split; [done|]. pose proof (send_loop_grows _ _ _ _ _ _ _ E3) as [body Hbody].
  exists h1, h2, body. split; [done|]. split; [done|].
  apply (send_loop_counts _ Hdoc) in E3; [|lia|lia].
  split; [by rewrite Hbody, Hs2, Hs1, <- !app_assoc|]. rewrite E3, Hbody, length_app. lia.
Qed.

(** the older byte-wise [send_file_old], with complete sends, delivers the
    file's bytes, but a file of length 4095 modulo the page size arrives with
    one extra byte 255. *)
Theorem send_file_old_delivers env send_ret s path d resp st :
  readable env s path d -> complete send_ret ->
  strncmp resp (bytes_of "STOP" ++ [10]) 4 <> 0 ->
  exists n, send_file_old env send_ret true s path resp st =
    Ok (tt, mk_sock n (sent st ++ OK_MSG ++ (print_dec (Z.of_nat (length d)) ++ [10]) ++
              (if decide (length d mod PAGESIZE = PAGESIZE - 1)%nat then d ++ [255] else d))).
Proof.
  intros Hr Hc Hresp. pose proof Hr as (_ & _ & _ & Hd).
  unfold send_file_old. rewrite (open_file_readable _ _ _ _ Hr), bind_lift.
  rewrite (bind_send _ _ _ _ _ Hc), (proj2 (Z.eqb_neq _ 0) Hresp), (bind_send _ _ _ _ _ Hc).
  cbn [file file_size_str sent calls]. change (data (reading d 0)) with d.
  set (hdr := (sent st ++ OK_MSG) ++ _). set (s2 := mk_sock _ hdr).
  destruct (copy_stream_parts d Hd hdr) as (b & i & o & Hrun & Hres).
  destruct (send_old_loop_copy send_ret Hc _ _ _ _ s2 _ _ _ Hrun) as [n Hn].
  run Hn.
  rewrite (app_assoc (sent st)), (app_assoc (sent st ++ OK_MSG)). fold hdr. rewrite <- Hres.
  destruct (decide (1 < i)%nat); [|by eexists].
  eexists. by rewrite (bind_ok _ _ _ _ _ (send_complete _ _ _ Hc)).
Qed.

(** ** Concrete transfers *)

(** A socket that takes everything, and one that takes at most two bytes. *)
Definition send_all (_ : nat) (n : Z) : Z := n.
Definition send_two (_ : nat) (n : Z) : Z := Z.min n 2.

Definition GO : cstr := bytes_of "GO".

Lemma send_file_delivers_witness :
  exists n, send_file open_env send_all true (fs_a 3) [97] GO (mk_sock 0 []) =
    Ok (Some 3, mk_sock n (OK_MSG ++ [51; 10] ++ [7; 7; 7])).
Proof.
  apply (send_file_delivers open_env send_all (fs_a 3) [97] [7; 7; 7] GO (mk_sock 0 []));
    [exact (readable_a 3)|done|done|done].
Defined.

Lemma send_file_missing_faults_witness :
  send_file open_env send_all true (fs_a 3) [98] GO (mk_sock 0 []) = Fault NullDeref.
Proof. apply send_file_missing_faults. vm_compute. reflexivity. Defined.

(** Two bytes of each message get through, and 2 is reported of a file of 3. *)
Lemma send_file_reports_taken_witness :
  send_file open_env send_two true (fs_a 3) [97] GO (mk_sock 0 []) =
    Ok (Some 2, mk_sock 3 [79; 75; 51; 10; 7; 7]) /\
  exists hdr1 hdr2 body : list Z,
    hdr1 `prefix_of` OK_MSG /\ hdr2 `prefix_of` print_dec 3 ++ [10] /\
    [79; 75; 51; 10; 7; 7] = [] ++ hdr1 ++ hdr2 ++ body /\ 2 = Z.of_nat (length body).
Proof.
  split; [vm_compute; reflexivity|].
  apply (send_file_reports_taken open_env send_two (fs_a 3) [97] [7; 7; 7] GO
           (mk_sock 0 []) 2 (mk_sock 3 [79; 75; 51; 10; 7; 7])).
  - exact (readable_a 3).
  - intros i n Hn. right. unfold send_two. lia.
  - simpl. lia.
  - vm_compute. reflexivity.
Defined.

Lemma send_file_old_delivers_witness :
  exists n, send_file_old open_env send_all true (fs_a 4095) [97] GO (mk_sock 0 []) =
    Ok (tt, mk_sock n ([] ++ OK_MSG ++ (print_dec (Z.of_nat (length (replicate 4095 7))) ++ [10]) ++
       (if decide (length (replicate 4095 7) mod PAGESIZE = PAGESIZE - 1)%nat
        then replicate 4095 7 ++ [255] else replicate 4095 7))).
Proof.
  apply (send_file_old_delivers open_env send_all (fs_a 4095) [97] (replicate 4095 7) GO (mk_sock 0 []));
    [exact (readable_a 4095)|done|done].
Defined.
