(* ===== verification/Utils.v ===== *)
(** * Utils: splitting and classifying a request

    Models [src/net/tcp/server/fileserver/utils.c] and [include/utils.h].  The
    allocator is a parameter: for a request of [n] bytes it answers null or a
    block of at least [n] bytes with unknown contents.  Every access to a block
    is checked against the block the allocator gave. *)

From S2P Require Import Prelude CInt CString CBuf.
Open Scope Z_scope.

Inductive Operation := GET | POST | UNDEFINED.

#[export] Instance Operation_eq_dec : EqDecision Operation.
Proof. solve_decision. Defined.

(** ** The operations *)

Fixpoint count_colons (buf : block) (len : nat) : outcome Z :=
  match len, buf with
  | O, _ => Ok 0
  | S _, [] => Fault OutOfBounds
  | S len, c :: buf => let? n := count_colons buf len in Ok (if c =? 58 then n + 1 else n)
  end.

Definition get_tokens_cnt (str : block) (len : Z) : outcome Z :=
  let? n := count_colons str (Z.to_nat len) in Ok (1 + n).

Definition get_op_type (request : cstr) : Operation :=
  if strncmp request (bytes_of "GET") 3 =? 0 then GET
  else if strncmp request (bytes_of "GET") 3 =? 0 then POST
  else UNDEFINED.

Section malloc.
Context (malloc : Z -> option block).

(** One token: [str] is the whole buffer, its terminator included. *)
Definition new_token (str : block) (start_pos end_pos : Z) : outcome block :=
  let token_size := u64 (end_pos - start_pos) in
  match malloc token_size with
  | None => Fault NullDeref
  | Some b =>
      let? b := memcpy b str start_pos token_size in
      let? b := store b token_size 0 in
      let? last := load b (u64 (token_size - 1)) in
      if last =? 10 then store b (u64 (token_size - 1)) 0 else Ok b
  end.

Definition add_elemnt (tokens : list (option block)) (str : block)
  (tokens_indx start_pos end_pos : Z) : outcome (list (option block)) :=
  let? b := new_token str start_pos end_pos in
  match tokens !! Z.to_nat tokens_indx with
  | None => Fault OutOfBounds
  | Some _ => Ok (<[Z.to_nat tokens_indx := Some b]> tokens)
  end.

Record parse_state := mk_parse {
  tokens : list (option block);
  start_pos : Z;
  tokens_indx : Z;
  end_pos : Z
}.

Fixpoint parse_loop (fuel : nat) (str : block) (str_len tokens_cnt : Z) (st : parse_state)
  : outcome parse_state :=
  if end_pos st <? str_len then
    match fuel with
    | O => Fault NoFuel
    | S fuel =>
        let? c := load str (end_pos st) in
        if (c =? 58) && (tokens_indx st <? tokens_cnt) then
          let? ts := add_elemnt (tokens st) str (tokens_indx st) (start_pos st) (end_pos st) in
          parse_loop fuel str str_len tokens_cnt
            (mk_parse ts (u64 (end_pos st + 1)) (u64 (tokens_indx st + 1)) (u64 (end_pos st + 1)))
        else
          parse_loop fuel str str_len tokens_cnt
            (mk_parse (tokens st) (start_pos st) (tokens_indx st) (u64 (end_pos st + 1)))
    end
  else Ok st.

(** [str] is the string before its NUL.  The array of token pointers comes
    from the allocator too. *)
Definition parse_request (array_ok : bool) (str : cstr) : outcome (list (option block) * Z) :=
  let buf := str ++ [0] in
  let str_len := i32 (strlen str) in
  let? tokens_cnt := get_tokens_cnt buf (u64 str_len) in
  if negb array_ok then Fault NullDeref
  else
    let ts := replicate (Z.to_nat tokens_cnt) None in
    let? st := parse_loop (S (length buf)) buf (u64 str_len) tokens_cnt (mk_parse ts 0 0 0) in
    let? ts := add_elemnt (tokens st) buf (tokens_indx st) (start_pos st) (end_pos st) in
    Ok (ts, tokens_cnt).
End malloc.

(** The blocks released: every token, then the array. *)
Definition free_args_list (args_list : list (option block)) (size : Z)
  : outcome (list (option block)) :=
  if Z.of_nat (length args_list) <? size then Fault OutOfBounds
  else Ok (take (Z.to_nat size) args_list).

(** ** What a request means *)

(** One trailing newline is dropped. *)
Definition chomp (t : cstr) : cstr :=
  if decide (last t = Some 10) then take (length t - 1) t else t.

(** The fields of a request, joined by colons. *)
Fixpoint join_colon (ts : list cstr) : cstr :=
  match ts with
  | [] => []
  | [t] => t
  | t :: ts => t ++ [58] ++ join_colon ts
  end.

Definition field (t : cstr) : Prop := is_cstr t /\ t <> [] /\ ~ (58 ∈ t).

(** An allocator that never fails and hands out at least one byte more than
    asked. *)
Definition roomy (malloc : Z -> option block) : Prop :=
  forall n, 0 <= n -> exists b, malloc n = Some b /\ n < Z.of_nat (length b).

(** An allocator that hands out exactly what it was asked for. *)
Definition exact (malloc : Z -> option block) : Prop :=
  forall n, 0 <= n -> exists b, malloc n = Some b /\ Z.of_nat (length b) = n.

(** The token of a field, given one byte of room. *)
Lemma new_token_field malloc pre t rest :
  roomy malloc -> field t -> Z.of_nat (length (pre ++ t)) < 2 ^ 64 ->
  exists b, new_token malloc (pre ++ t ++ rest) (Z.of_nat (length pre)) (Z.of_nat (length (pre ++ t))) = Ok b /\
    c_str b = chomp t.
Proof.
  intros Hm (Hc & Hne & _) Hlen. unfold new_token. rewrite length_app in Hlen |- *.
  destruct (exists_last Hne) as (t0 & x & ->). rewrite length_app in Hlen |- *. simpl length in *.
  rewrite u64_small by lia.
  replace (Z.of_nat (length pre + (length t0 + 1)) - Z.of_nat (length pre))
    with (Z.of_nat (length (t0 ++ [x]))) by (rewrite length_app; simpl; lia).
  destruct (Hm (Z.of_nat (length (t0 ++ [x]))) ltac:(lia)) as (b & -> & Hb).
  rewrite memcpy_mid by lia. cbn [obind].
  destruct (drop (length (t0 ++ [x])) b) as [|g b1] eqn:Ed.
  { apply (f_equal length) in Ed. rewrite length_drop in Ed. simpl in Ed. lia. }
  rewrite store_nat by (rewrite !length_app; simpl; lia). cbn [obind].
  rewrite insert_app_r_alt, Nat.sub_diag by lia. cbn [insert list_insert].
  assert (Hu : u64 (Z.of_nat (length (t0 ++ [x])) - 1) = Z.of_nat (length t0)).
  { rewrite length_app in *. simpl in *. rewrite u64_small by lia. lia. }
  rewrite Hu. clear Hu.
  rewrite (load_nat _ _ x) by (rewrite <- app_assoc; apply list_lookup_middle; done). cbn [obind].
  unfold chomp. rewrite last_snoc. destruct (Z.eqb_spec x 10) as [->|Hx].
  - rewrite store_nat by (rewrite !length_app; simpl; lia). eexists. split; [done|].
    rewrite decide_True by done. rewrite length_app. simpl. rewrite Nat.add_sub, take_app_length.
    rewrite <- app_assoc, insert_app_r_alt, Nat.sub_diag by lia. simpl. apply c_str_app.
    by apply Forall_app in Hc as [? _].
  - eexists. split; [done|]. rewrite decide_False by congruence. by apply c_str_app.
Qed.

(** An empty field reads before the block, whatever the allocator gave. *)
Lemma new_token_empty malloc str pos :
  (forall n b, malloc n = Some b -> Z.of_nat (length b) < 2 ^ 64 - 1) ->
  is_ok (new_token malloc str pos pos) = false.
Proof.
  intros Hb. unfold new_token. rewrite Z.sub_diag. change (u64 0) with 0.
  destruct (malloc 0) as [b|] eqn:E; [|done]. apply Hb in E.
  unfold memcpy. destruct (_ || _); [done|]. cbn [obind]. simpl drop. rewrite drop_0. simpl app.
  unfold store at 1. destruct (load b 0); [|done]. cbn [obind].
  assert (Hu : u64 (0 - 1) = 2 ^ 64 - 1) by done. rewrite Hu. unfold load.
  rewrite (proj2 (Z.ltb_ge _ 0)) by lia.
  rewrite lookup_ge_None_2; [done|]. rewrite length_insert. lia.
Qed.

(** Without room for the terminator the first token overruns its block. *)
Lemma new_token_exact malloc pre t rest :
  exact malloc -> Z.of_nat (length (pre ++ t)) < 2 ^ 64 ->
  new_token malloc (pre ++ t ++ rest) (Z.of_nat (length pre)) (Z.of_nat (length (pre ++ t))) = Fault OutOfBounds.
Proof.
  intros Hm Hlen. unfold new_token. rewrite length_app in Hlen |- *. rewrite u64_small by lia.
  replace (Z.of_nat (length pre + length t) - Z.of_nat (length pre)) with (Z.of_nat (length t)) by lia.
  destruct (Hm (Z.of_nat (length t)) ltac:(lia)) as (b & -> & Hb).
  rewrite memcpy_mid by lia. cbn [obind]. unfold store, load.
  rewrite (proj2 (Z.ltb_ge _ 0)), Nat2Z.id by lia.
  rewrite lookup_ge_None_2; [done|]. rewrite length_app, length_drop. lia.
Qed.

Lemma count_colons_app a b n :
  count_colons (a ++ b) (length a + n) =
    let? k := count_colons b n in Ok (Z.of_nat (length (filter (fun c => c = 58) a)) + k).
Proof.
  induction a as [|c a IH]; simpl; [by destruct (count_colons b n)|].
  rewrite IH. destruct (count_colons b n) as [k|]; [|done]. simpl.
  rewrite filter_cons. destruct (Z.eqb_spec c 58); [rewrite decide_True by done|rewrite decide_False by done].
  all: simpl; f_equal; lia.
Qed.

Section parse.
Context (malloc : Z -> option block).

(** Bytes that are no colon only advance [end_pos]. *)
Lemma parse_loop_skip t : ~ (58 ∈ t) -> forall fuel pre rest len cnt ts start indx,
  Z.of_nat (length (pre ++ t)) <= len < 2 ^ 64 ->
  parse_loop malloc (length t + fuel) (pre ++ t ++ rest) len cnt
    (mk_parse ts start indx (Z.of_nat (length pre))) =
  parse_loop malloc fuel (pre ++ t ++ rest) len cnt
    (mk_parse ts start indx (Z.of_nat (length (pre ++ t)))).
Proof.
  induction t as [|c t IH]; intros Hn fuel pre rest len cnt ts start indx Hlen.
  { by rewrite app_nil_r. }
  rewrite length_app in Hlen. simpl in Hlen. cbn [length Nat.add parse_loop end_pos].
  rewrite (proj2 (Z.ltb_lt _ len)) by lia.
  rewrite (load_nat _ _ c) by by apply list_lookup_middle. cbn [obind].
  rewrite (proj2 (Z.eqb_neq c 58)) by set_solver. cbn [andb tokens start_pos tokens_indx].
  rewrite u64_small by lia.
  replace (Z.of_nat (length pre) + 1) with (Z.of_nat (length (pre ++ [c])))
    by (rewrite length_app; simpl; lia).
  change (pre ++ (c :: t) ++ rest) with (pre ++ [c] ++ t ++ rest).
  rewrite (app_assoc pre [c]). rewrite IH; [by rewrite <- !app_assoc|set_solver|].
  rewrite !length_app in *. simpl. lia.
Qed.

Lemma add_elemnt_at done pad str start end_ b :
  new_token malloc str start end_ = Ok b ->
  add_elemnt malloc (map Some done ++ None :: pad) str (Z.of_nat (length done)) start end_ =
    Ok (map Some (done ++ [b]) ++ pad).
Proof.
  intros Hb. unfold add_elemnt. rewrite Hb. cbn [obind]. rewrite Nat2Z.id.
  rewrite list_lookup_middle by by rewrite length_map.
  rewrite insert_app_r_alt, length_map, Nat.sub_diag by (rewrite length_map; lia).
  simpl. by rewrite map_app, <- app_assoc.
Qed.

(** The loop and the final token, from the start of a field on. *)
Lemma parse_fields (Hm : roomy malloc) ts : forall t pre done fuel,
  let buf := pre ++ join_colon (t :: ts) ++ [0] in
  let len := Z.of_nat (length pre + length (join_colon (t :: ts))) in
  Forall field (t :: ts) -> len < 2 ^ 64 - 1 -> (length done <= length pre)%nat -> (length (join_colon (t :: ts)) <= fuel)%nat ->
  exists st bs,
    parse_loop malloc fuel buf len (Z.of_nat (length done + S (length ts)))
      (mk_parse (map Some done ++ replicate (S (length ts)) None)
         (Z.of_nat (length pre)) (Z.of_nat (length done)) (Z.of_nat (length pre))) = Ok st /\
    add_elemnt malloc (tokens st) buf (tokens_indx st) (start_pos st) (end_pos st)
      = Ok (map Some (done ++ bs)) /\
    map c_str bs = map chomp (t :: ts).
Proof.
  induction ts as [|t' ts IH]; intros t pre done fuel buf len Hf Hlen Hd Hfuel.
  - apply Forall_cons_1 in Hf as [Hf _]. simpl in len, Hfuel. subst buf. cbn [join_colon].
    replace fuel with (length t + (fuel - length t))%nat by lia.
    pose proof Hf as (_ & _ & Hn).
    rewrite parse_loop_skip by (done || rewrite length_app; lia).
    destruct (new_token_field malloc pre t [0] Hm Hf) as (b & Hb & Hc);
      [rewrite length_app; lia|].
    exists (mk_parse (map Some done ++ [None]) (Z.of_nat (length pre)) (Z.of_nat (length done))
              (Z.of_nat (length (pre ++ t)))), [b].
    split; [|split; [cbn [tokens tokens_indx start_pos end_pos]; by rewrite (add_elemnt_at _ _ _ _ _ b Hb), app_nil_r|by simpl; rewrite Hc]].
    destruct (fuel - length t)%nat; cbn [parse_loop end_pos];
      by rewrite (proj2 (Z.ltb_ge _ len)) by (rewrite length_app; lia).
  - apply Forall_cons_1 in Hf as [Ht Hf]. pose proof Ht as (_ & _ & Hn).
    assert (Hj : join_colon (t :: t' :: ts) = t ++ [58] ++ join_colon (t' :: ts)) by done.
    subst buf len. rewrite Hj in Hlen, Hfuel |- *. clear Hj. rewrite !length_app in Hlen, Hfuel.
    set (J := join_colon (t' :: ts)) in *. change (length [58]) with 1%nat in *.
    replace fuel with (length t + S (fuel - length t - 1))%nat by lia.
    rewrite <- (app_assoc t), parse_loop_skip by (done || rewrite !length_app; simpl; lia).
    destruct (new_token_field malloc pre t (([58] ++ J) ++ [0]) Hm Ht) as (b & Hb & Hc);
      [rewrite length_app; lia|].
    cbn [parse_loop end_pos tokens start_pos tokens_indx].
    rewrite (proj2 (Z.ltb_lt (Z.of_nat (length (pre ++ t))) _)) by (rewrite !length_app; simpl; lia).
    rewrite (load_nat _ _ 58)
      by (rewrite app_assoc; simpl; by apply list_lookup_middle).
    cbn [obind]. change (58 =? 58) with true.
    rewrite (proj2 (Z.ltb_lt (Z.of_nat (length done)) _)) by (simpl; lia). cbn [andb].
    change (replicate (S (length (t' :: ts))) None)
      with (@None block :: replicate (S (length ts)) None).
    rewrite (add_elemnt_at _ _ _ _ _ b Hb). cbn [obind].
    rewrite !u64_small by (rewrite ?length_app; lia).
    destruct (IH t' (pre ++ t ++ [58]) (done ++ [b]) (fuel - length t - 1)%nat) as (st & bs & Hl & Ha & Hbs).
    { done. }
    { fold J. rewrite !length_app. simpl. lia. }
    { rewrite !length_app. simpl. lia. }
    { fold J. lia. }
    exists st, (b :: bs). fold J in Hl, Ha. rewrite <- !app_assoc in Hl, Ha. rewrite <- !app_assoc.
    split; [|split; [by rewrite Ha, <- app_assoc|by simpl map at 1; rewrite Hc, Hbs]].
    rewrite <- Hl, !length_app. cbn [length]. f_equal; [lia|lia|f_equal; lia].
Qed.
End parse.

Lemma filter_no_colon t : ~ (58 ∈ t) -> filter (fun c => c = 58) t = [].
Proof.
  intros Hn. induction t as [|c t IH]; [done|]. rewrite filter_cons.
  rewrite decide_False by set_solver. apply IH. set_solver.
Qed.

Lemma count_join ts rest :
  ts <> [] -> Forall field ts ->
  count_colons (join_colon ts ++ rest) (length (join_colon ts)) = Ok (Z.of_nat (length ts) - 1).
Proof.
  intros Hne Hf. destruct ts as [|t ts]; [done|]. clear Hne. revert t Hf.
  induction ts as [|t' ts IH]; intros t Hf; apply Forall_cons_1 in Hf as [(_ & _ & Ht) Hf].
  - pose proof (count_colons_app t rest 0) as Hc. simpl. rewrite Nat.add_0_r in Hc.
    rewrite Hc. rewrite filter_no_colon by done. by destruct rest.
  - change (join_colon (t :: t' :: ts)) with (t ++ [58] ++ join_colon (t' :: ts)).
    rewrite <- app_assoc, length_app, count_colons_app, filter_no_colon by done.
    cbn [app length count_colons]. rewrite (IH t' Hf). cbn [obind length]. rewrite Z.eqb_refl.
    f_equal. lia.
Qed.

(** A whole request of fields, through the allocator. *)
Lemma parse_request_run malloc ts :
  roomy malloc -> ts <> [] -> Forall field ts -> Z.of_nat (length (join_colon ts)) < 2 ^ 31 ->
  exists bs, parse_request malloc true (join_colon ts) = Ok (map Some bs, Z.of_nat (length ts)) /\
    map c_str bs = map chomp ts.
Proof.
  intros Hm Hne Hf Hlen. unfold parse_request, strlen, get_tokens_cnt.
  rewrite i32_small, u64_small, Nat2Z.id by lia.
  rewrite count_join by done. cbn [obind negb].
  replace (1 + (Z.of_nat (length ts) - 1)) with (Z.of_nat (length ts)) by lia. rewrite Nat2Z.id.
  destruct ts as [|t ts]; [done|].
  destruct (parse_fields malloc Hm ts t [] [] (S (length (join_colon (t :: ts) ++ [0]))))
    as (st & bs & Hl & Ha & Hb); [done|change (length (@nil Z)) with 0%nat; lia|done|rewrite length_app; lia|].
  exists bs. cbn [app length map Nat.add] in Hl, Ha. change (Z.of_nat 0) with 0 in Hl. cbn [length].
  rewrite Hl. cbn [obind]. by rewrite Ha.
Qed.

(** A string up to its first colon. *)
Lemma first_field str :
  exists t rest, str = t ++ rest /\ ~ (58 ∈ t) /\ (rest = [] \/ exists r, rest = 58 :: r).
Proof.
  induction str as [|c str (t & rest & -> & Ht & Hr)].
  { exists [], []. split; [done|]. split; [set_solver|by left]. }
  destruct (decide (c = 58)) as [->|Hne].
  - exists [], (58 :: t ++ rest). split; [done|]. split; [set_solver|right; by eexists].
  - exists (c :: t), rest. split; [done|]. split; [set_solver|done].
Qed.

(** With exact blocks the first token faults, in the loop or after it. *)
Lemma parse_first_overruns malloc t rest cnt ts :
  exact malloc -> ~ (58 ∈ t) -> (rest = [] \/ exists r, rest = 58 :: r) -> 0 < cnt ->
  Z.of_nat (length (t ++ rest)) < 2 ^ 31 ->
  let buf := (t ++ rest) ++ [0] in
  let run := parse_loop malloc (S (length buf)) buf (Z.of_nat (length (t ++ rest))) cnt (mk_parse ts 0 0 0) in
  run = Fault OutOfBounds \/
  exists st, run = Ok st /\
    add_elemnt malloc (tokens st) buf (tokens_indx st) (start_pos st) (end_pos st) = Fault OutOfBounds.
Proof.
  intros Hm Ht Hr Hcp Hlen buf. set (s := t ++ rest) in *.
  assert (Hb : buf = t ++ rest ++ [0]) by (unfold buf, s; by rewrite <- app_assoc).
  assert (Hls : length s = (length t + length rest)%nat) by apply length_app.
  assert (Hlb : length buf = (length s + 1)%nat) by (unfold buf; by rewrite length_app).
  assert (Hadd : add_elemnt malloc ts buf 0 0 (Z.of_nat (length t)) = Fault OutOfBounds).
  { pose proof (new_token_exact malloc [] t (rest ++ [0]) Hm) as Htok. cbn [app length] in Htok. change (Z.of_nat 0) with 0 in Htok.
    unfold add_elemnt. rewrite Hb, Htok by lia. done. }
  pose proof (parse_loop_skip malloc t Ht (S (length buf) - length t) [] (rest ++ [0])
                (Z.of_nat (length s)) cnt ts 0 0 ltac:(simpl; lia)) as Hskip.
  cbn [app length] in Hskip. change (Z.of_nat 0) with 0 in Hskip. rewrite <- Hb in Hskip.
  replace (length t + (S (length buf) - length t))%nat with (S (length buf)) in Hskip by lia.
  cbv zeta. rewrite Hskip. destruct Hr as [->|[r ->]].
  - right. exists (mk_parse ts 0 0 (Z.of_nat (length t))). split; [|exact Hadd].
    assert (length s = length t) as -> by (simpl in Hls; lia).
    destruct (_ - _)%nat; cbn [parse_loop end_pos]; by rewrite Z.ltb_irrefl.
  - left. replace (S (length buf) - length t)%nat with (S (length buf - length t)) by lia.
    simpl in Hls. cbn [parse_loop end_pos]. rewrite (proj2 (Z.ltb_lt _ _)) by lia.
    rewrite (load_nat _ _ 58) by (rewrite Hb; by apply list_lookup_middle).
    cbn [obind tokens_indx]. rewrite (proj2 (Z.ltb_lt 0 cnt) Hcp). cbn [andb Z.eqb Pos.eqb tokens start_pos].
    by rewrite Hadd.
Qed.

(** ** Properties *)

(** a request of non-empty fields joined by colons is split into exactly
    these fields, in order, with one trailing newline dropped from each, and
    the reported count is their number, provided the allocator hands out at
    least one byte more than it is asked for. *)
Theorem parse_request_splits malloc ts :
  roomy malloc -> ts <> [] -> Forall field ts -> Z.of_nat (length (join_colon ts)) < 2 ^ 31 ->
  exists bs, parse_request malloc true (join_colon ts) = Ok (map Some bs, Z.of_nat (length ts)) /\
    map c_str bs = map chomp ts.
Proof. apply parse_request_run. Qed.

(** with an allocator that hands out exactly the bytes asked for, every
    request overruns the block of its first field: the terminator is stored
    one byte past its end. *)
Theorem parse_request_overruns malloc str :
  exact malloc -> Z.of_nat (length str) < 2 ^ 31 ->
  parse_request malloc true str = Fault OutOfBounds.
Proof.
  intros Hm Hlen. destruct (first_field str) as (t & rest & -> & Ht & Hr).
  unfold parse_request, strlen, get_tokens_cnt. rewrite i32_small, u64_small, Nat2Z.id by lia.
  pose proof (count_colons_app (t ++ rest) [0] 0) as Hcnt.
  rewrite Nat.add_0_r in Hcnt. rewrite Hcnt. cbn [obind count_colons negb].
  set (cnt := 1 + _). assert (Hcp : 0 < cnt) by lia.
  destruct (parse_first_overruns malloc t rest cnt (replicate (Z.to_nat cnt) None) Hm Ht Hr Hcp Hlen)
    as [Hl|(st & Hl & Ha)].
  - by rewrite Hl.
  - rewrite Hl. cbn [obind]. by rewrite Ha.
Qed.

(** a request is classified [GET] exactly when it begins with the three
    letters, and no request at all is classified [POST]. *)
Theorem get_op_type_exact request :
  is_cstr request ->
  (get_op_type request = GET <-> bytes_of "GET" `prefix_of` request) /\
  get_op_type request <> POST.
Proof.
  intros Hr. unfold get_op_type.
  rewrite <- (strncmp_prefix (bytes_of "GET") request) by first [done | repeat constructor; lia].
  change (length (bytes_of "GET")) with 3%nat. by destruct (Z.eqb_spec (strncmp request (bytes_of "GET") 3) 0).
Qed.

(** ** Concrete requests *)

(** Blocks of twice the size and one byte, and of the exact size, of 170s. *)
Definition malloc_roomy (n : Z) : option block := Some (replicate (2 * Z.to_nat n + 1) 170).
Definition malloc_exact (n : Z) : option block := Some (replicate (Z.to_nat n) 170).

Lemma malloc_roomy_ok : roomy malloc_roomy.
Proof. intros n Hn. eexists. split; [done|]. rewrite length_replicate. lia. Qed.

Lemma malloc_exact_ok : exact malloc_exact.
Proof. intros n Hn. eexists. split; [done|]. rewrite length_replicate. lia. Qed.

Ltac solve_field :=
  repeat constructor; try done; try lia; try set_solver.

Lemma parse_request_splits_witness :
  exists bs, parse_request malloc_roomy true (bytes_of "GET:a" ++ [10]) = Ok (map Some bs, 2) /\
    map c_str bs = [bytes_of "GET"; bytes_of "a"].
Proof.
  apply (parse_request_splits malloc_roomy [bytes_of "GET"; bytes_of "a" ++ [10]] malloc_roomy_ok);
    [done|solve_field|vm_compute; reflexivity].
Defined.

Lemma parse_request_overruns_witness :
  parse_request malloc_exact true (bytes_of "GET:a") = Fault OutOfBounds.
Proof.
  apply (parse_request_overruns malloc_exact _ malloc_exact_ok). vm_compute. reflexivity.
Defined.

Lemma get_op_type_exact_witness :
  (get_op_type (bytes_of "POST") = GET <-> bytes_of "GET" `prefix_of` bytes_of "POST") /\
  get_op_type (bytes_of "POST") <> POST.
Proof. apply (get_op_type_exact (bytes_of "POST")). solve_field. Defined.
