(* ===== verification/Log.v ===== *)
(** * Log: the log descriptor, archiving and the text of a log line

    Models [src/net/tcp/server/fileserver/log.c] and [include/log.h].  The
    operations that enqueue a message are written against the [MsgQueue]
    interface of [LogQueue]; archiving runs on the file store of
    [Filesystem].  The clock, the time zone and the directory listing are
    arguments. *)

From S2P Require Import Prelude CInt CString LogQueue Filesystem.
Open Scope Z_scope.

(** ** Data *)

Definition DEFAULT_MESSAGE_SIZE : nat := 4096.
Definition DEFAULT_MESSAGE_METAINFO_SIZE : nat := 1024.
Definition WORK : Z := 0.
Definition SHUTDOWN : Z := 1.

(** [file_desc] is the path of the open log file; a null stream is [None]. *)
Record LogDesc := mk_log {
  log_queue : qstate;
  file_desc : option cstr;
  shutdown_flag : Z
}.

Record tm := mk_tm { tm_mon : Z; tm_mday : Z; tm_year : Z; tm_hour : Z; tm_min : Z }.

(** ** Creating and destroying the log *)

Section files.
Context (env : io_env) (readdir : fs -> cstr -> option (list cstr)).

Definition LOG_PATTERN : cstr := bytes_of "fileserver.log".

Definition arch_logs (s : fs) (log_dir : cstr) : outcome fs :=
  let arch_dir := snprintf PATH_SIZE (join log_dir (bytes_of "arch")) in
  let s := if negb (check_dir s arch_dir) then create_dir env s (Some arch_dir) else s in
  move_files_to_dir env s log_dir arch_dir LOG_PATTERN (length LOG_PATTERN) (readdir s log_dir).

Definition log_base (time : Z) : cstr := LOG_PATTERN ++ [46] ++ print_dec time.

Definition log_name (log_dir : cstr) (time : Z) : cstr :=
  snprintf PATH_SIZE (join log_dir (log_base time)).

(** [desc_ok]: the descriptor's [malloc]; [queue_addr], [mutex_init] and
    [cond_init]: the answers [create_log_queue] gets. *)
Definition create_log (desc_ok : bool) (queue_addr mutex_init cond_init : Z) (s : fs)
  (log_dir : cstr) (log_queue_size time : Z) : outcome (option LogDesc * fs) :=
  if negb desc_ok then Ok (None, s)
  else
    let? oq := create_log_queue queue_addr mutex_init cond_init log_queue_size in
    match oq with
    | None => Ok (None, s)
    | Some q =>
        let? s := arch_logs s log_dir in
        let name := log_name log_dir time in
        let '(f, s) := match fopen_w env s name with
                       | Some s => (Some name, s)
                       | None => (None, s)
                       end in
        Ok (Some (mk_log (mk_qstate ∅ (Some q)) f WORK), s)
    end.
End files.

(** [fclose] of a null stream is undefined. *)
Definition destroy_log (ld : LogDesc) : outcome qstate :=
  match file_desc ld with
  | None => Fault NullDeref
  | Some _ => let? r := destroy_log_queue (log_queue ld) in Ok (snd r)
  end.

(** ** Writing *)

(** A number in a field of width [w], padded on the left. *)
Definition padded (c : Z) (w : nat) (z : Z) : cstr :=
  let d := print_dec z in replicate (w - length d) c ++ d.

(** What ["%s"] reads of a [char] array. *)
Definition array_str (a : list Z) : outcome cstr :=
  if decide (length (c_str a) < length a)%nat then Ok (c_str a) else Fault OutOfBounds.

Section writer.
(** [vararg z] is the 64-bit value that ["%ld"] reads for the [int] [z]. *)
Context (localtime : Z -> tm) (vararg : Z -> Z).

Definition time_text (info : tm) : cstr :=
  padded 48 2 (tm_mon info + 1) ++ [47] ++ padded 48 2 (tm_mday info) ++ [47] ++
  padded 32 4 (1900 + tm_year info) ++ [32] ++
  padded 48 2 (tm_hour info) ++ [58] ++ padded 48 2 (tm_min info).

Definition log_line (m : message_desc) (time_buf text : cstr) : cstr :=
  bytes_of "thread id: " ++ print_dec (tid m) ++
  bytes_of " date: " ++ time_buf ++
  bytes_of " message: " ++ text ++
  bytes_of " error code: " ++ print_dec (vararg (error_code m)) ++ [32] ++
  print_dec (vararg (level m)) ++ [10].

(** The contents of the log file after the line. *)
Definition write_to_logfile (file : list Z) (m : message_desc) : outcome (list Z) :=
  let? time_buf := sprintf 17 (time_text (localtime (message_time m))) in
  let? text := array_str (message m) in
  let? file_buf := sprintf (DEFAULT_MESSAGE_SIZE + DEFAULT_MESSAGE_METAINFO_SIZE)
                     (log_line m time_buf text) in
  Ok (file ++ file_buf).

(** The writer thread's share of the work on messages already popped. *)
Fixpoint write_all (file : list Z) (ms : list message_desc) : outcome (list Z) :=
  match ms with
  | [] => Ok file
  | m :: ms => let? file := write_to_logfile file m in write_all file ms
  end.
End writer.

Section producers.
Context {Q : Type} `{MsgQueue Q}.

(** [msg] is the object the pointer points to: 4096 bytes of it are copied
    whatever its size.  [addr] is what [malloc] answers in [push_message]. *)
Definition log_write_thread (now addr : Z) (tid : Z) (msg : list Z) (error level : Z)   : M Q unit :=
  if decide (length msg < DEFAULT_MESSAGE_SIZE)%nat then fail OutOfBounds
  else
    mq_push addr (Some (mk_msg (take DEFAULT_MESSAGE_SIZE msg) error level now tid)).

Definition log_write (now addr : Z) (msg : list Z) (error level : Z)   : M Q unit :=
  if decide (length msg < DEFAULT_MESSAGE_SIZE)%nat then fail OutOfBounds
  else
    mq_push addr (Some (mk_msg (take DEFAULT_MESSAGE_SIZE msg) error level now 0)).
End producers.

(** ** Lengths of the printed pieces *)

Lemma dec_digits_length fuel : forall z acc, (length (dec_digits fuel z acc) <= fuel + length acc)%nat.
Proof.
  induction fuel as [|fuel IH]; intros z acc; [done|]. cbn [dec_digits].
  destruct (_ <? 10); [simpl; lia|]. etrans; [apply IH|simpl; lia].
Qed.

Lemma dec_digits_small k : forall fuel z acc,
  0 <= z < 10 ^ Z.of_nat (S k) -> (length (dec_digits fuel z acc) <= S k + length acc)%nat.
Proof.
  induction k as [|k IH]; intros fuel z acc Hz; (destruct fuel as [|fuel]; [simpl; lia|]); cbn [dec_digits].
  - change (10 ^ Z.of_nat 1) with 10 in Hz. rewrite (proj2 (Z.ltb_lt z 10)) by lia. simpl. lia.
  - destruct (_ <? 10); [simpl; lia|]. etrans; [apply IH|simpl; lia].
    rewrite Nat2Z.inj_succ, Z.pow_succ_r in Hz by lia.
    split; [apply Z.div_pos; lia|apply Z.div_lt_upper_bound; lia].
Qed.

Lemma print_dec_length z : (length (print_dec z) <= 21)%nat.
Proof.
  unfold print_dec. pose proof (dec_digits_length 20 z []) as H1. pose proof (dec_digits_length 20 (- z) []) as H2.
  change (length (@nil Z)) with 0%nat in H1, H2. destruct (z <? 0); [cbn [length]; lia|lia].
Qed.

Lemma print_dec_small k z : 0 <= z < 10 ^ Z.of_nat (S k) -> (length (print_dec z) <= S k)%nat.
Proof.
  intros Hz. unfold print_dec. rewrite (proj2 (Z.ltb_ge z 0)) by lia.
  pose proof (dec_digits_small k 20 z [] Hz). change (length (@nil Z)) with 0%nat in *. lia.
Qed.

Lemma dec_digits_no_slash fuel : forall z acc, 0 <= z -> ~ (47 ∈ acc) -> ~ (47 ∈ dec_digits fuel z acc).
Proof.
  induction fuel as [|fuel IH]; intros z acc Hz Ha; [done|]. cbn [dec_digits].
  pose proof (Z.mod_pos_bound z 10 ltac:(lia)).
  assert (~ (47 ∈ (48 + z mod 10) :: acc)) by (rewrite elem_of_cons; intros [|]; [lia|done]).
  destruct (_ <? 10); [done|]. apply IH; [|done]. by apply Z.div_pos.
Qed.

Lemma print_dec_no_slash z : ~ (47 ∈ print_dec z).
Proof.
  unfold print_dec. destruct (Z.ltb_spec z 0); [rewrite elem_of_cons; intros [|Hin]; [done|]; revert Hin|];
    apply dec_digits_no_slash; (lia || set_solver).
Qed.

Lemma padded_length c k z : 0 <= z < 10 ^ Z.of_nat (S k) -> length (padded c (S k) z) = S k.
Proof.
  intros Hz%print_dec_small. unfold padded. rewrite length_app, length_replicate. lia.
Qed.

Lemma c_str_length a : 0 ∈ a -> (length (c_str a) < length a)%nat.
Proof.
  induction a as [|b a IH]; intros Hin; [by apply not_elem_of_nil in Hin|]. cbn [c_str length].
  destruct (Z.eqb_spec b 0); [simpl; lia|]. apply elem_of_cons in Hin as [|Hin]; [lia|].
  apply IH in Hin. simpl. lia.
Qed.

(** What [localtime] answers for the years the format was written for. *)
Definition four_digit_tm (info : tm) : Prop :=
  0 <= tm_mon info < 12 /\ 1 <= tm_mday info <= 31 /\ 0 <= 1900 + tm_year info < 10000 /\
  0 <= tm_hour info < 24 /\ 0 <= tm_min info < 60.

(** A descriptor whose text is a terminated string in its array. *)
Definition printable (localtime : Z -> tm) (m : message_desc) : Prop :=
  length (message m) = DEFAULT_MESSAGE_SIZE /\ 0 ∈ message m /\
  four_digit_tm (localtime (message_time m)).

Lemma time_text_length info : four_digit_tm info -> length (time_text info) = 16%nat.
Proof.
  intros (? & ? & ? & ? & ?). unfold time_text. rewrite !length_app.
  rewrite (padded_length 48 1 (tm_mon info + 1)), (padded_length 48 1 (tm_mday info)),
    (padded_length 32 3), (padded_length 48 1 (tm_hour info)), (padded_length 48 1 (tm_min info));
    [done|cbn; lia..].
Qed.

Definition line_of (localtime : Z -> tm) (vararg : Z -> Z) (m : message_desc) : cstr :=
  log_line vararg m (time_text (localtime (message_time m))) (c_str (message m)).

Lemma write_to_logfile_run localtime vararg file m :
  printable localtime m ->
  write_to_logfile localtime vararg file m = Ok (file ++ line_of localtime vararg m).
Proof.
  intros (Hlen & Hz & Ht). unfold write_to_logfile, sprintf at 1.
  rewrite decide_True by (rewrite time_text_length by done; lia). cbn [obind].
  pose proof (c_str_length _ Hz) as Hc. unfold array_str. rewrite decide_True by done. cbn [obind].
  unfold sprintf. rewrite decide_True; [done|]. unfold log_line. rewrite !length_app, time_text_length by done.
  pose proof (print_dec_length (tid m)). pose proof (print_dec_length (vararg (error_code m))).
  pose proof (print_dec_length (vararg (level m))).
  unfold DEFAULT_MESSAGE_SIZE, DEFAULT_MESSAGE_METAINFO_SIZE in *.
  change (length (bytes_of "thread id: ")) with 11%nat. change (length (bytes_of " date: ")) with 7%nat.
  change (length (bytes_of " message: ")) with 10%nat. change (length (bytes_of " error code: ")) with 13%nat.
  cbn [length]. lia.
Qed.

(** ** Properties *)

(** the lines of the log: for messages whose array holds a terminated text
    and times with a four-digit year, both buffers of [write_to_logfile] are
    large enough, and the file grows by one line per message, in order. *)
Theorem write_to_logfile_lines localtime vararg ms file :
  Forall (printable localtime) ms ->
  write_all localtime vararg file ms = Ok (file ++ concat (line_of localtime vararg <$> ms)).
Proof.
  intros Hms. revert file. induction Hms as [|m ms Hm Hms IH]; intros file.
  - simpl. by rewrite app_nil_r.
  - cbn [write_all]. rewrite write_to_logfile_run by done. cbn [obind]. rewrite IH.
    rewrite fmap_cons. cbn [concat]. by rewrite app_assoc.
Qed.

(** what [log_write_thread] and [log_write] do over any queue that keeps
    the [MsgQueue] contract: an object of fewer than 4096 bytes (every string
    literal the server logs) is read past its end; from a larger one the first
    4096 bytes are enqueued behind the messages already there. *)
Theorem log_write_contract {Q} `{MsgQueue Q} (s : Q) ms now addr tid text error level :
  mq_holds s ms -> mq_fresh s addr -> Z.of_nat (length ms) + 1 < 2 ^ 64 ->
  if decide (length text < DEFAULT_MESSAGE_SIZE)%nat then
    log_write_thread now addr tid text error level s = Fault OutOfBounds /\
    log_write now addr text error level s = Fault OutOfBounds
  else
    (exists s', log_write_thread now addr tid text error level s = Ok (tt, s') /\
       mq_holds s' (ms ++ [mk_msg (take DEFAULT_MESSAGE_SIZE text) error level now tid])) /\
    (exists s', log_write now addr text error level s = Ok (tt, s') /\
       mq_holds s' (ms ++ [mk_msg (take DEFAULT_MESSAGE_SIZE text) error level now 0])).
Proof.
  intros Hs Hf Hb. unfold log_write_thread, log_write. destruct (decide _); [done|].
  split; by apply mq_push_ok.
Qed.

Lemma move_files_env env s src_dir sub entries contents :
  Forall is_cstr entries -> Forall (fun n => ~ (47 ∈ n)) entries -> NoDup entries ->
  (forall n, n ∈ entries -> LOG_PATTERN `prefix_of` n ->
     movable env s src_dir (join src_dir sub) n (contents n)) ->
  forall ds,
  exists s', move_files_to_dir env (mk_fs (files s) ds) src_dir (join src_dir sub) LOG_PATTERN
               (length LOG_PATTERN) (Some entries) = Ok s' /\
    (forall n, n ∈ entries -> LOG_PATTERN `prefix_of` n ->
       files s' !! join (join src_dir sub) n = Some (contents n) /\ files s' !! join src_dir n = None).
Proof.
  intros Hc Hsl Hnd Hmv ds.
  destruct (move_entries_spec env src_dir sub LOG_PATTERN entries (mk_fs (files s) ds) contents)
    as (s' & Hr & Hin & _); try done.
  - repeat constructor; lia.
  - intros n Hn Hp. eapply movable_frame; [by apply Hmv|done].
  - by exists s'.
Qed.

Lemma create_dir_files env s p : exists ds, create_dir env s (Some p) = mk_fs (files s) ds.
Proof. unfold create_dir. destruct (can_write env p); [by eexists|]. exists (dirs s). by destruct s. Qed.

(** The part of the directory listing that [create_log] archives, and the
    conditions under which nothing of it is lost. *)
Record archivable (env : io_env) (s : fs) (log_dir : cstr) (entries : list cstr)
  (contents : cstr -> list Z) : Prop := {
  arch_names : Forall is_cstr entries /\ Forall (fun n => ~ (47 ∈ n)) entries /\ NoDup entries;
  arch_short : (length (join log_dir (bytes_of "arch")) < PATH_SIZE)%nat;
  arch_movable : forall n, n ∈ entries -> LOG_PATTERN `prefix_of` n ->
    movable env s log_dir (join log_dir (bytes_of "arch")) n (contents n)
}.

(** [create_log] with working allocations returns an empty queue and a
    fresh, empty log file; every earlier log of the directory is found in the
    [arch] subdirectory with its bytes, and is gone from the directory unless
    the new log took its very name. *)
Theorem create_log_archives env readdir s log_dir n time addr entries contents :
  archivable env s log_dir entries contents ->
  (forall ds, readdir (mk_fs (files s) ds) log_dir = Some entries) ->
  addr <> 0 -> can_write env (log_name log_dir time) = true ->
  (length (join log_dir (log_base time)) < PATH_SIZE)%nat ->
  exists s', create_log env readdir true addr 0 0 s log_dir n time =
      Ok (Some (mk_log (empty_queue n) (Some (log_name log_dir time)) WORK), s') /\
    files s' !! log_name log_dir time = Some [] /\
    forall e, e ∈ entries -> LOG_PATTERN `prefix_of` e ->
      files s' !! join (join log_dir (bytes_of "arch")) e = Some (contents e) /\
      (join log_dir e <> log_name log_dir time -> files s' !! join log_dir e = None).
Proof.
  intros [(Hc & Hsl & Hnd) Hshort Hmv] Hrd Ha Hw Hname.
  assert (Harch : exists s1, arch_logs env readdir s log_dir = Ok s1 /\
    forall e, e ∈ entries -> LOG_PATTERN `prefix_of` e ->
      files s1 !! join (join log_dir (bytes_of "arch")) e = Some (contents e) /\
      files s1 !! join log_dir e = None).
  { unfold arch_logs. rewrite snprintf_short by done.
    assert (Hds : exists ds, (if negb (check_dir s (join log_dir (bytes_of "arch")))
      then create_dir env s (Some (join log_dir (bytes_of "arch"))) else s) = mk_fs (files s) ds).
    { destruct (negb _); [apply create_dir_files|]. exists (dirs s). by destruct s. }
    destruct Hds as [ds ->]. rewrite Hrd. by apply move_files_env. }
  destruct Harch as (s1 & Hr & Hin). unfold create_log, create_log_queue.
  rewrite (proj2 (Z.eqb_neq addr 0) Ha), Hr. cbn [negb Z.eqb obind].
  unfold fopen_w. rewrite Hw. eexists. split; [done|]. simpl.
  split; [by rewrite lookup_insert_eq|]. intros e He Hp. destruct (Hin e He Hp) as [Hi1 Hi2].
  split; [|by intros Hne; rewrite lookup_insert_ne].
  rewrite lookup_insert_ne; [done|]. unfold log_name. rewrite snprintf_short by done.
  apply not_eq_sym, join_sub_ne. intros Hin47.
  unfold log_base in Hin47. rewrite !elem_of_app in Hin47. destruct Hin47 as [H47|[H47|H47]].
  - vm_compute in H47. set_solver.
  - set_solver.
  - by apply print_dec_no_slash in H47.
Qed.

(** ** Concrete logs *)

Definition noon (_ : Z) : tm := mk_tm 11 31 126 12 5.
Definition hello : message_desc :=
  mk_msg (bytes_of "hi" ++ replicate 4094 0) 0 1 1767182700 7.

Lemma hello_printable : printable noon hello.
Proof.
  split; [unfold hello, DEFAULT_MESSAGE_SIZE; cbn [message]; by rewrite length_app, length_replicate|].
  split; [|split_and!; simpl; lia]. unfold hello. cbn [message].
  apply elem_of_app. right. apply elem_of_replicate. done.
Qed.

Lemma hello_line : line_of noon (fun z => z) hello =
  bytes_of "thread id: 7 date: 12/31/2026 12:05 message: hi error code: 0 1" ++ [10].
Proof. vm_compute. reflexivity. Qed.

Lemma write_to_logfile_lines_witness :
  write_all noon (fun z => z) [] [hello] =
    Ok ([] ++ (bytes_of "thread id: 7 date: 12/31/2026 12:05 message: hi error code: 0 1" ++ [10]) ++ []).
Proof.
  rewrite <- hello_line. apply (write_to_logfile_lines noon (fun z => z) [hello] []).
  constructor; [exact hello_printable|constructor].
Defined.

Lemma log_write_contract_witness :
  log_write_thread (Q := qstate) 5 8 7 (bytes_of "client serving") 0 0 (empty_queue 1024) = Fault OutOfBounds /\
  log_write (Q := qstate) 5 8 (bytes_of "client serving") 0 0 (empty_queue 1024) = Fault OutOfBounds.
Proof.
  apply (log_write_contract (Q := qstate) (empty_queue 1024) [] 5 8 7 (bytes_of "client serving") 0 0).
  - apply empty_queue_holds.
  - done.
  - done.
Defined.

(** The directory [d] with the file [fileserver.log.1]. *)
Definition old_log : cstr := LOG_PATTERN ++ [46; 49].
Definition log_dir0 : cstr := [100].
Definition fs_log : fs := mk_fs {[ join log_dir0 old_log := [65; 10] ]} ∅.

Lemma fs_log_archivable :
  archivable open_env fs_log log_dir0 [old_log; [46]] (fun _ => [65; 10]).
Proof.
  assert (Hlt : forall n, (n < 100)%nat -> (n < PATH_SIZE)%nat) by (unfold PATH_SIZE; lia).
  split.
  - split_and!; [repeat constructor; lia|repeat constructor; vm_compute; set_solver|].
    repeat constructor; set_solver.
  - apply Hlt. vm_compute. lia.
  - intros n Hn Hp. apply elem_of_cons in Hn as [->|Hn].
    + split; try done; [|apply Hlt; vm_compute; lia..].
      split; [done|]. split; [vm_compute; reflexivity|]. split; [done|]. repeat constructor; lia.
    + apply list_elem_of_singleton in Hn as ->. by apply prefix_cons_inv_1 in Hp.
Qed.

Lemma create_log_archives_witness :
  exists s', create_log open_env (fun _ _ => Some [old_log; [46]]) true 8 0 0 fs_log log_dir0 1024 2 =
      Ok (Some (mk_log (empty_queue 1024) (Some (log_name log_dir0 2)) WORK), s') /\
    files s' !! log_name log_dir0 2 = Some [] /\
    forall e, e ∈ [old_log; [46]] -> LOG_PATTERN `prefix_of` e ->
      files s' !! join (join log_dir0 (bytes_of "arch")) e = Some [65; 10] /\
      (join log_dir0 e <> log_name log_dir0 2 -> files s' !! join log_dir0 e = None).
Proof.
  apply (create_log_archives open_env _ fs_log log_dir0 1024 2 8 [old_log; [46]] (fun _ => [65; 10]));
    [exact fs_log_archivable|done|done|done|].
  unfold PATH_SIZE. vm_compute length. lia.
Defined.
