(* ===== verification/LogMonitor.v ===== *)
(** * LogMonitor: the logger's threads

    The threads that share the log queue, one step per action of the source:
    producers in [push_message] (log_msg_queue.c), the log writer in
    [log_writer_routine] and [pop_message] (log.c, log_msg_queue.c), and the
    end of [main] (server.c), which logs its last line, sets [shutdown_flag]
    and joins the writer.  The scheduler's choices are arguments of [exec]:
    which thread moves, and an integer that settles what the step leaves open
    (the address [malloc] answers, the waiter a signal wakes). *)

From S2P Require Import Prelude CInt Dll LogQueue Log.
Open Scope Z_scope.

(** ** Threads *)

(** What a producer does after its [push_message]: it is done, or it is [main]
    and goes on to stop and join the writer. *)
Inductive cont := KDone | KShutdown (writer : nat).

Inductive pc :=
(* push_message *)
| PushNew (m : message_desc) (k : cont)               (* node = new_node(..) *)
| PushLock (node : Z) (m : message_desc) (k : cont)   (* pthread_mutex_lock *)
| PushAdd (node : Z) (m : message_desc) (k : cont)    (* add_tail *)
| PushSignal (k : cont)                               (* pthread_cond_signal *)
| PushUnlock (k : cont)                               (* pthread_mutex_unlock *)
| Finished
(* log_writer_routine and, inside it, pop_message *)
| WriterAlloc                                         (* msg_desc = malloc(..) *)
| WriterNull                                          (* the loop with a null msg_desc *)
| WriterTest                                          (* while(!shutdown_flag); memset *)
| PopLock                                             (* pthread_mutex_lock *)
| PopTest                                             (* while(size == 0) *)
| PopWait                                             (* in pthread_cond_wait *)
| PopCopy                                             (* memcpy of the head *)
| PopDelete (m : message_desc)                        (* delete_head *)
| PopUnlock (m : message_desc)                        (* pthread_mutex_unlock *)
| WriterWrite (m : message_desc)                      (* write_to_logfile *)
| WriterExit
(* the end of main *)
| SetFlag (writer : nat)                              (* shutdown_flag = 1 *)
| Join (writer : nat)                                 (* pthread_join *)
| MainDone.

#[export] Instance cont_eq_dec : EqDecision cont.
Proof. solve_decision. Defined.
#[export] Instance pc_eq_dec : EqDecision pc.
Proof. solve_decision. Defined.

(** [pushed], [popped] and [written] record, in order, the messages linked
    into the queue, taken from it and handed to the log file. *)
Record config := mk_config {
  cq : qstate;
  owner : option nat;
  shutdown_flag : bool;
  pcs : gmap nat pc;
  pushed : list message_desc;
  popped : list message_desc;
  written : list message_desc
}.

Definition move (c : config) (t : nat) (p : pc) : config :=
  mk_config (cq c) (owner c) (shutdown_flag c) (<[t := p]> (pcs c)) (pushed c) (popped c) (written c).
Definition with_queue (c : config) (q : qstate) : config :=
  mk_config q (owner c) (shutdown_flag c) (pcs c) (pushed c) (popped c) (written c).
Definition with_owner (c : config) (o : option nat) : config :=
  mk_config (cq c) o (shutdown_flag c) (pcs c) (pushed c) (popped c) (written c).
Definition log_pushed (c : config) (m : message_desc) : config :=
  mk_config (cq c) (owner c) (shutdown_flag c) (pcs c) (pushed c ++ [m]) (popped c) (written c).
Definition log_popped (c : config) (m : message_desc) : config :=
  mk_config (cq c) (owner c) (shutdown_flag c) (pcs c) (pushed c) (popped c ++ [m]) (written c).
Definition log_written (c : config) (m : message_desc) : config :=
  mk_config (cq c) (owner c) (shutdown_flag c) (pcs c) (pushed c) (popped c) (written c ++ [m]).
Definition set_flag (c : config) : config :=
  mk_config (cq c) (owner c) true (pcs c) (pushed c) (popped c) (written c).

Definition lock (c : config) (t : nat) (p : pc) : outcome (option config) :=
  match owner c with
  | None => Ok (Some (with_owner (move c t p) (Some t)))
  | Some _ => Ok None
  end.

Definition waiting (c : config) : list nat :=
  omap (fun tp => if decide (snd tp = PopWait) then Some (fst tp) else None)
       (map_to_list (pcs c)).

Definition after (k : cont) : pc :=
  match k with KDone => Finished | KShutdown w => SetFlag w end.

Section threads.
(** Whether the log file was opened, what [localtime] answers and what "%ld"
    reads for an [int]. *)
Context (file : bool) (localtime : Z -> tm) (vararg : Z -> Z).

(** [write_to_logfile] of a message: its buffers, then [fputs]. *)
Definition write (m : message_desc) : outcome unit :=
  let? _ := write_to_logfile localtime vararg [] m in
  if file then Ok tt else Fault NullDeref.

(** One step of thread [t]; [Ok None] when it cannot move. *)
Definition exec (t : nat) (e : Z) (c : config) : outcome (option config) :=
  match pcs c !! t with
  | None => Ok None
  | Some (PushNew m k) =>
      if bool_decide (e = 0 \/ nodes (cq c) !! e = None) then
        let? r := new_node e m (cq c) in
        Ok (Some (with_queue (move c t (PushLock (fst r) m k)) (snd r)))
      else Ok None
  | Some (PushLock node m k) => lock c t (PushAdd node m k)
  | Some (PushAdd node m k) =>
      let? r := add_tail node (cq c) in
      let c := with_queue (move c t (PushSignal k)) (snd r) in
      Ok (Some (if node =? 0 then c else log_pushed c m))
  | Some (PushSignal k) =>
      if decide (waiting c = []) then Ok (Some (move c t (PushUnlock k)))
      else if decide (pcs c !! Z.to_nat e = Some PopWait)
      then Ok (Some (move (move c (Z.to_nat e) PopLock) t (PushUnlock k)))
      else Ok None
  | Some (PushUnlock k) => Ok (Some (with_owner (move c t (after k)) None))
  | Some WriterAlloc => Ok (Some (move c t (if e =? 0 then WriterNull else WriterTest)))
  | Some WriterNull =>
      (* memset of a null pointer; free of one *)
      if shutdown_flag c then Ok (Some (move c t WriterExit)) else Fault NullDeref
  | Some WriterTest =>
      Ok (Some (move c t (if shutdown_flag c then WriterExit else PopLock)))
  | Some PopLock => lock c t PopTest
  | Some PopTest =>
      match queue (cq c) with
      | None => Fault NullDeref
      | Some q =>
          if queue_size q =? 0
          then Ok (Some (with_owner (move c t PopWait) None))
          else Ok (Some (move c t PopCopy))
      end
  | Some PopWait => Ok (Some (move c t PopLock))
  | Some PopCopy =>
      match queue (cq c) with
      | None => Fault NullDeref
      | Some q =>
          let? r := node_at (head q) (cq c) in
          Ok (Some (move c t (PopDelete (msg_desc (fst r)))))
      end
  | Some (PopDelete m) =>
      let? r := delete_head (cq c) in
      Ok (Some (log_popped (with_queue (move c t (PopUnlock m)) (snd r)) m))
  | Some (PopUnlock m) => Ok (Some (with_owner (move c t (WriterWrite m)) None))
  | Some (WriterWrite m) =>
      let? _ := write m in
      Ok (Some (log_written (move c t WriterTest) m))
  | Some (SetFlag w) => Ok (Some (set_flag (move c t (Join w))))
  | Some (Join w) =>
      if decide (pcs c !! w = Some WriterExit) then Ok (Some (move c t MainDone)) else Ok None
  | Some (Finished | WriterExit | MainDone) => Ok None
  end.

Definition step (c c' : config) : Prop := exists t e, exec t e c = Ok (Some c').

(** The writer is thread 1; every other thread is about to log one message. *)
Definition initial (max_size : Z) (producers : gmap nat (message_desc * cont)) : config :=
  mk_config (empty_queue max_size) None false
    (<[1%nat := WriterAlloc]> ((fun mk => PushNew (fst mk) (snd mk)) <$> producers)) [] [] [].

(** ** The invariant *)

(** Inside the critical section of the queue's mutex. *)
Definition in_cs (p : pc) : bool :=
  match p with
  | PushAdd _ _ _ | PushSignal _ | PushUnlock _
  | PopTest | PopCopy | PopDelete _ | PopUnlock _ => true
  | _ => false
  end.

(** A node that is allocated but not linked yet. *)
Definition pending (p : pc) : option (Z * message_desc) :=
  match p with
  | PushLock n m _ | PushAdd n m _ => if n =? 0 then None else Some (n, m)
  | _ => None
  end.

Definition is_writer (p : pc) : bool :=
  match p with
  | WriterAlloc | WriterNull | WriterTest | PopLock | PopTest | PopWait | PopCopy | PopDelete _ | PopUnlock _
  | WriterWrite _ | WriterExit => true
  | _ => false
  end.

(** The message the writer has taken and not written yet. *)
Definition inflight (op : option pc) : list message_desc :=
  match op with Some (PopUnlock m) | Some (WriterWrite m) => [m] | _ => [] end.

(** What a thread between its test of the queue and its use of it relies on. *)
Definition relies (p : pc) (ms : list message_desc) : Prop :=
  match p with
  | PopCopy => ms <> []
  | PopDelete m => exists ms', ms = m :: ms'
  | _ => True
  end.

Record thread_ok (c : config) (l : list Z) (ms : list message_desc) (t : nat) (p : pc) : Prop := {
  ok_cs : in_cs p = true -> owner c = Some t;
  ok_pending : forall n m, pending p = Some (n, m) ->
    n <> 0 /\ nodes (cq c) !! n = Some (mk_node 0 0 m) /\ ~ (n ∈ l);
  ok_writer : is_writer p = true -> t = 1%nat;
  ok_relies : relies p ms
}.

Record inv (c : config) (l : list Z) (ms : list message_desc) : Prop := {
  inv_rep : queue_rep (cq c) l ms;
  inv_fifo : popped c ++ ms = pushed c;
  inv_threads : forall t p, pcs c !! t = Some p -> thread_ok c l ms t p;
  inv_distinct : forall t1 t2 p1 p2 n m1 m2,
    pcs c !! t1 = Some p1 -> pcs c !! t2 = Some p2 ->
    pending p1 = Some (n, m1) -> pending p2 = Some (n, m2) -> t1 = t2;
  inv_written : popped c = written c ++ inflight (pcs c !! 1%nat)
}.

Lemma relies_outside p ms : in_cs p = false -> relies p ms.
Proof. by destruct p. Qed.

(** How the owner of the mutex may change when thread [t] moves. *)
Definition owner_change (t : nat) (o o' : option nat) : Prop :=
  o' = o \/ (o = None /\ o' = Some t) \/ (o = Some t /\ o' = None).

Lemma inflight_move c t p p' :
  pcs c !! t = Some p -> inflight (Some p') = inflight (Some p) ->
  inflight (<[t := p']> (pcs c) !! 1%nat) = inflight (pcs c !! 1%nat).
Proof.
  intros Hp Hi. destruct (decide (t = 1%nat)) as [->|].
  - by rewrite lookup_insert_eq, Hp.
  - by rewrite lookup_insert_ne.
Qed.

Lemma distinct_move c l ms t p p' :
  inv c l ms -> pcs c !! t = Some p -> pending p' = pending p \/ pending p' = None ->
  forall t1 t2 p1 p2 n m1 m2,
    <[t := p']> (pcs c) !! t1 = Some p1 -> <[t := p']> (pcs c) !! t2 = Some p2 ->
    pending p1 = Some (n, m1) -> pending p2 = Some (n, m2) -> t1 = t2.
Proof.
  intros H Hp Hpend t1 t2 p1 p2 n m1 m2 H1 H2 E1 E2.
  assert (Hback : forall u q m, <[t := p']> (pcs c) !! u = Some q -> pending q = Some (n, m) ->
                  exists q', pcs c !! u = Some q' /\ pending q' = Some (n, m)).
  { intros u q m Hu Eq. apply lookup_insert_Some in Hu as [[<- <-]|[_ Hu]]; [|by eauto].
    exists p. destruct Hpend as [<-|Hn]; [done|congruence]. }
  destruct (Hback _ _ _ H1 E1) as (q1 & ? & ?). destruct (Hback _ _ _ H2 E2) as (q2 & ? & ?).
  by eapply (inv_distinct _ _ _ H).
Qed.

(** A move that leaves the queue alone. *)
Lemma inv_move c l ms t p p' o :
  inv c l ms -> pcs c !! t = Some p ->
  pending p' = pending p \/ pending p' = None ->
  is_writer p' = is_writer p -> inflight (Some p') = inflight (Some p) ->
  owner_change t (owner c) o -> (in_cs p' = true -> o = Some t) -> relies p' ms ->
  inv (with_owner (move c t p') o) l ms.
Proof.
  intros H Hp Hpend Hw Hi Ho Hcs Hrel. pose proof (inv_threads _ _ _ H _ _ Hp) as Hok.
  split; simpl.
  - apply H.
  - apply H.
  - intros u q Hu. apply lookup_insert_Some in Hu as [[<- <-]|[Hne Hu]].
    + split; simpl; try done.
      * intros n m Hn. apply (ok_pending _ _ _ _ _ Hok). destruct Hpend; congruence.
      * rewrite Hw. apply Hok.
    + pose proof (inv_threads _ _ _ H _ _ Hu) as Hq. split; try apply Hq.
      intros Hin. pose proof (ok_cs _ _ _ _ _ Hq Hin) as Ou. simpl.
      destruct Ho as [->|[[Oc ->]|[Oc ->]]]; congruence.
  - by eapply distinct_move.
  - rewrite (inflight_move _ _ _ _ Hp Hi). apply H.
Qed.

(** The queue changes under a thread's hands: what the other threads keep. *)
Lemma thread_ok_frame c l ms l' ms' q t p :
  thread_ok c l ms t p -> in_cs p = false ->
  (forall n m, pending p = Some (n, m) ->
     nodes q !! n = nodes (cq c) !! n /\ ~ (n ∈ l')) ->
  forall c', cq c' = q -> thread_ok c' l' ms' t p.
Proof.
  intros H Hcs Hp c' <-. split.
  - congruence.
  - intros n m Hn. destruct (ok_pending _ _ _ _ _ H n m Hn) as (?&?&?).
    destruct (Hp n m Hn) as [-> ?]. done.
  - apply H.
  - by apply relies_outside.
Qed.

Lemma other_not_in_cs c l ms t u p :
  inv c l ms -> owner c = Some t -> u <> t -> pcs c !! u = Some p -> in_cs p = false.
Proof.
  intros H Ho Hne Hu. destruct (in_cs p) eqn:E; [|done].
  pose proof (ok_cs _ _ _ _ _ (inv_threads _ _ _ H _ _ Hu) E). congruence.
Qed.

(** *** The steps that change the queue *)

Lemma inv_push_new c l ms t m k e :
  inv c l ms -> pcs c !! t = Some (PushNew m k) -> e <> 0 -> nodes (cq c) !! e = None ->
  inv (with_queue (move c t (PushLock e m k))
         (mk_qstate (<[e := mk_node 0 0 m]> (nodes (cq c))) (queue (cq c)))) l ms.
Proof.
  intros H Hp He Hf. pose proof (inv_rep _ _ _ H) as Hrep.
  pose proof (rep_fresh _ _ _ _ Hrep Hf) as Hel.
  assert (Hpe : forall n m', n <> e -> pending (PushLock e m k) = Some (n, m') -> False).
  { intros n m' Hne. simpl. rewrite (proj2 (Z.eqb_neq _ _) He). naive_solver. }
  assert (Hpend : forall u p n m', pcs c !! u = Some p -> pending p = Some (n, m') -> n <> e).
  { intros u p n m' Hu Hn. destruct (ok_pending _ _ _ _ _ (inv_threads _ _ _ H _ _ Hu) _ _ Hn). naive_solver. }
  split; simpl.
  - eapply rep_frame; [exact Hrep|done|]. intros a Ha. simpl. rewrite lookup_insert_ne; set_solver.
  - apply H.
  - intros u p Hu. apply lookup_insert_Some in Hu as [[<- <-]|[Hne Hu]].
    + split; simpl; try done. rewrite (proj2 (Z.eqb_neq _ _) He). intros n m' [= <- <-].
      by rewrite lookup_insert_eq.
    + pose proof (inv_threads _ _ _ H _ _ Hu) as Hok. split; try apply Hok.
      intros n m' Hn. simpl. rewrite lookup_insert_ne; [by apply Hok|].
      pose proof (Hpend _ _ _ _ Hu Hn). congruence.
  - intros t1 t2 p1 p2 n m1 m2 H1 H2 E1 E2.
    apply lookup_insert_Some in H1 as [[<- <-]|[Hn1 H1]];
      apply lookup_insert_Some in H2 as [[<- <-]|[Hn2 H2]]; try done.
    + exfalso. eapply (Hpe n); [by eapply Hpend|exact E1].
    + exfalso. eapply (Hpe n); [by eapply Hpend|exact E2].
    + by eapply (inv_distinct _ _ _ H).
  - rewrite (inflight_move _ _ _ (PushLock e m k) Hp eq_refl). apply H.
Qed.

Lemma inv_push_add c l ms t n m k q :
  inv c l ms -> pcs c !! t = Some (PushAdd n m k) -> n <> 0 ->
  queue_rep q (l ++ [n]) (ms ++ [m]) -> same_outside (l ++ [n]) (cq c) q ->
  inv (log_pushed (with_queue (move c t (PushSignal k)) q) m) (l ++ [n]) (ms ++ [m]).
Proof.
  intros H Hp Hn Hrep Hsame. pose proof (inv_threads _ _ _ H _ _ Hp) as Hok.
  pose proof (ok_cs _ _ _ _ _ Hok eq_refl) as Ho.
  assert (Hpn : pending (PushAdd n m k) = Some (n, m)).
  { simpl. by rewrite (proj2 (Z.eqb_neq _ _) Hn). }
  split; simpl.
  - done.
  - by rewrite app_assoc, (inv_fifo _ _ _ H).
  - intros u p Hu. apply lookup_insert_Some in Hu as [[<- <-]|[Hne Hu]]; [by split|].
    pose proof (inv_threads _ _ _ H _ _ Hu) as Hq.
    eapply (thread_ok_frame c l ms); [done|by eapply other_not_in_cs| |done].
    intros n' m' Hn'. destruct (ok_pending _ _ _ _ _ Hq _ _ Hn') as (_ & _ & Hl).
    assert (n' <> n).
    { intros ->. apply Hne. by eapply (inv_distinct _ _ _ H). }
    assert (Hout : ~ (n' ∈ l ++ [n])) by set_solver. by rewrite Hsame.
  - by eapply (distinct_move _ _ _ _ _ _ H Hp); right.
  - rewrite (inflight_move _ _ _ (PushSignal k) Hp eq_refl). apply H.
Qed.

Lemma inv_pop_delete c a l m ms t q :
  inv c (a :: l) (m :: ms) -> pcs c !! t = Some (PopDelete m) ->
  queue_rep q l ms -> same_outside (a :: l) (cq c) q ->
  inv (log_popped (with_queue (move c t (PopUnlock m)) q) m) l ms.
Proof.
  intros H Hp Hrep Hsame. pose proof (inv_threads _ _ _ H _ _ Hp) as Hok.
  pose proof (ok_cs _ _ _ _ _ Hok eq_refl) as Ho.
  pose proof (ok_writer _ _ _ _ _ Hok eq_refl) as ->.
  split; simpl.
  - done.
  - rewrite <- app_assoc. simpl. apply H.
  - intros u p Hu. apply lookup_insert_Some in Hu as [[<- <-]|[Hne Hu]]; [by split|].
    pose proof (inv_threads _ _ _ H _ _ Hu) as Hq.
    eapply (thread_ok_frame c _ _); [done|by eapply other_not_in_cs| |done].
    intros n' m' Hn'. destruct (ok_pending _ _ _ _ _ Hq _ _ Hn') as (_ & _ & Hl).
    rewrite Hsame by done. set_solver.
  - by eapply (distinct_move _ _ _ _ _ _ H Hp); right.
  - rewrite lookup_insert_eq. simpl. rewrite (inv_written _ _ _ H), Hp. simpl. by rewrite app_nil_r.
Qed.

Lemma inv_writer_write c l ms t m :
  inv c l ms -> pcs c !! t = Some (WriterWrite m) ->
  inv (log_written (move c t WriterTest) m) l ms.
Proof.
  intros H Hp. pose proof (inv_threads _ _ _ H _ _ Hp) as Hok.
  pose proof (ok_writer _ _ _ _ _ Hok eq_refl) as ->.
  split; simpl; try apply H.
  - intros u p Hu. apply lookup_insert_Some in Hu as [[<- <-]|[Hne Hu]]; [by split|].
    pose proof (inv_threads _ _ _ H _ _ Hu) as Hq. split; apply Hq.
  - by eapply (distinct_move _ _ _ _ _ _ H Hp); right.
  - rewrite lookup_insert_eq. simpl. rewrite app_nil_r, (inv_written _ _ _ H), Hp. done.
Qed.

Lemma inv_set_flag c l ms : inv c l ms -> inv (set_flag c) l ms.
Proof.
  intros H. split; try apply H. intros t p Hp.
  pose proof (inv_threads _ _ _ H _ _ Hp) as Hq. split; apply Hq.
Qed.

(** *** Every step *)

Lemma rep_contents s l ms :
  queue_rep s l ms -> exists q, queue s = Some q /\ head q = hdZ 0 l /\
    queue_size q = Z.of_nat (length ms).
Proof.
  intros H. pose proof (rep_queue _ _ _ H) as (q & Hq & Hh & _ & Hs). exists q.
  by rewrite Hs, (Forall2_length _ _ _ (rep_msgs _ _ _ H)).
Qed.

Lemma add_tail_null s l ms : queue_rep s l ms -> add_tail 0 s = Ok (tt, s).
Proof.
  intros H. pose proof (rep_queue _ _ _ H) as (q & Hq & _).
  unfold add_tail, gets, bind. by rewrite Hq.
Qed.

Ltac quiet := eapply inv_move; [eassumption|eassumption|..]; simpl; eauto;
  unfold owner_change; naive_solver.

Lemma exec_inv_producer c l ms t p e c' :
  inv c l ms -> pcs c !! t = Some p -> is_writer p = false ->
  exec t e c = Ok (Some c') -> Z.of_nat (length (pushed c)) + 1 < 2 ^ 64 ->
  exists l' ms', inv c' l' ms'.
Proof.
  intros H Hp Hw He Hlen. unfold exec in He. rewrite Hp in He.
  pose proof (inv_rep _ _ _ H) as Hrep. pose proof (inv_threads _ _ _ H _ _ Hp) as Hok.
  destruct (rep_contents _ _ _ Hrep) as (q & Hq & Hh & Hs).
  destruct p as [m k|n m k|n m k|k|k| | | | | | | | |m|m|m| |w|w| ]; simpl in He; try done; clear Hw.
  - case_bool_decide as Hb; [|done]. unfold new_node in He.
    destruct (Z.eqb_spec e 0) as [->|Hne].
    + simpl in He. simplify_eq. exists l, ms.
      change (inv (with_owner (move c t (PushLock 0 m k)) (owner c)) l ms). quiet.
    + simpl in He. simplify_eq. exists l, ms. apply inv_push_new; naive_solver.
  - unfold lock in He. destruct (owner c) eqn:Ho; [done|]. simplify_eq. exists l, ms. quiet.
  - destruct (Z.eqb_spec n 0) as [->|Hne].
    + rewrite (add_tail_null _ _ _ Hrep) in He. simpl in He. simplify_eq. exists l, ms.
      change (inv (with_owner (move c t (PushSignal k)) (owner c)) l ms).
      pose proof (ok_cs _ _ _ _ _ Hok eq_refl). quiet.
    + destruct (ok_pending _ _ _ _ _ Hok n m) as (_ & Hn & Hnl);
        [simpl; by rewrite (proj2 (Z.eqb_neq _ _) Hne)|].
      assert (length l <= length (pushed c))%nat.
      { rewrite <- (inv_fifo _ _ _ H), length_app.
        rewrite (Forall2_length _ _ _ (rep_msgs _ _ _ Hrep)). lia. }
      destruct (add_tail_spec _ _ _ _ _ Hrep Hn Hne Hnl) as (s' & Hr & Hrep' & Hsame); [lia|].
      rewrite Hr in He. simpl in He. simplify_eq. exists (l ++ [n]), (ms ++ [m]).
      by apply inv_push_add.
  - pose proof (ok_cs _ _ _ _ _ Hok eq_refl). destruct (decide (waiting c = [])).
    + simplify_eq. exists l, ms. change (inv (with_owner (move c t (PushUnlock k)) (owner c)) l ms). quiet.
    + destruct (decide (pcs c !! Z.to_nat e = Some PopWait)) as [Hw|]; [|done]. simplify_eq.
      exists l, ms.
      assert (H1 : inv (with_owner (move c (Z.to_nat e) PopLock) (owner c)) l ms) by quiet.
      change (inv (with_owner (move (with_owner (move c (Z.to_nat e) PopLock) (owner c)) t (PushUnlock k)) (owner c)) l ms).
      eapply (inv_move _ _ _ t (PushSignal k)); simpl; try done; [|by left|by left].
      rewrite lookup_insert_ne; [done|congruence].
  - pose proof (ok_cs _ _ _ _ _ Hok eq_refl). simplify_eq. exists l, ms. destruct k; quiet.
  - simplify_eq. exists l, ms. apply inv_set_flag.
    change (inv (with_owner (move c t (Join w)) (owner c)) l ms). quiet.
  - destruct (decide _); [|done]. simplify_eq. exists l, ms.
    change (inv (with_owner (move c t MainDone) (owner c)) l ms). quiet.
Qed.

Lemma exec_inv_writer c l ms t p e c' :
  inv c l ms -> pcs c !! t = Some p -> is_writer p = true ->
  exec t e c = Ok (Some c') -> Z.of_nat (length (pushed c)) + 1 < 2 ^ 64 ->
  exists l' ms', inv c' l' ms'.
Proof.
  intros H Hp Hw He Hlen. unfold exec in He. rewrite Hp in He.
  pose proof (inv_rep _ _ _ H) as Hrep. pose proof (inv_threads _ _ _ H _ _ Hp) as Hok.
  destruct (rep_contents _ _ _ Hrep) as (q & Hq & Hh & Hs).
  destruct p as [m k|n m k|n m k|k|k| | | | | | | | |m|m|m| |w|w| ]; simpl in He; try done; clear Hw.
  - simplify_eq. exists l, ms.
    change (inv (with_owner (move c t (if e =? 0 then WriterNull else WriterTest)) (owner c)) l ms).
    destruct (e =? 0); quiet.
  - destruct (shutdown_flag c); [|done]. simplify_eq. exists l, ms.
    change (inv (with_owner (move c t WriterExit) (owner c)) l ms). quiet.
  - simplify_eq. exists l, ms.
    change (inv (with_owner (move c t (if shutdown_flag c then WriterExit else PopLock)) (owner c)) l ms).
    destruct (shutdown_flag c); quiet.
  - unfold lock in He. destruct (owner c) eqn:Ho; [done|]. simplify_eq. exists l, ms. quiet.
  - pose proof (ok_cs _ _ _ _ _ Hok eq_refl). rewrite Hq, Hs in He.
    destruct (Z.eqb_spec (Z.of_nat (length ms)) 0).
    + simplify_eq. exists l, ms. quiet.
    + simplify_eq. exists l, ms. change (inv (with_owner (move c t PopCopy) (owner c)) l ms).
      assert (ms <> []) by (intros ->; simpl in *; lia). quiet.
  - simplify_eq. exists l, ms. change (inv (with_owner (move c t PopLock) (owner c)) l ms). quiet.
  - pose proof (ok_cs _ _ _ _ _ Hok eq_refl). rewrite Hq in He.
    pose proof (ok_relies _ _ _ _ _ Hok) as Hne. simpl in Hne.
    destruct l as [|a l]; [by pose proof (rep_msgs _ _ _ Hrep) as Hx; inversion Hx|].
    pose proof (rep_head_node _ _ _ _ Hrep) as (Ha & _ & m & ms' & -> & Hn).
    simpl in Hh. rewrite Hh, (node_at_ok _ _ _ Ha Hn) in He. simpl in He. injection He as <-.
    exists (a :: l), (m :: ms').
    change (inv (with_owner (move c t (PopDelete m)) (owner c)) (a :: l) (m :: ms')). quiet.
  - destruct (ok_relies _ _ _ _ _ Hok) as [ms' ->].
    destruct l as [|a l]; [by pose proof (rep_msgs _ _ _ Hrep) as Hx; inversion Hx|].
    destruct (delete_head_spec _ _ _ _ _ Hrep) as (s' & Hr & Hrep' & _ & Hsame).
    rewrite Hr in He. simpl in He. simplify_eq. exists l, ms'. by eapply inv_pop_delete.
  - pose proof (ok_cs _ _ _ _ _ Hok eq_refl). simplify_eq. exists l, ms. quiet.
  - destruct (write m); [|done]. simpl in He. simplify_eq. exists l, ms. by apply inv_writer_write.
Qed.

Lemma exec_inv c l ms t e c' :
  inv c l ms -> exec t e c = Ok (Some c') -> Z.of_nat (length (pushed c)) + 1 < 2 ^ 64 ->
  exists l' ms', inv c' l' ms'.
Proof.
  intros H He Hlen. destruct (pcs c !! t) as [p|] eqn:Hp.
  - destruct (is_writer p) eqn:Hw; [by eapply exec_inv_writer|by eapply exec_inv_producer].
  - unfold exec in He. by rewrite Hp in He.
Qed.

(** What may be undefined: the writer without a descriptor of its own, and the
    writing of a message. *)
Definition blame (c : config) (t : nat) (f : fault) : Prop :=
  (pcs c !! t = Some WriterNull /\ shutdown_flag c = false /\ f = NullDeref) \/
  exists m, pcs c !! t = Some (WriterWrite m) /\ write m = Fault f.

Lemma exec_fault c l ms t e f :
  inv c l ms -> Z.of_nat (length (pushed c)) + 1 < 2 ^ 64 -> exec t e c = Fault f -> blame c t f.
Proof.
  intros H Hlen. unfold exec, blame. pose proof (inv_rep _ _ _ H) as Hrep.
  destruct (pcs c !! t) as [p|] eqn:Hp; [|done].
  pose proof (inv_threads _ _ _ H _ _ Hp) as Hok.
  destruct (rep_contents _ _ _ Hrep) as (q & Hq & Hh & Hs).
  assert (Hl : length l = length ms) by eapply Forall2_length, (rep_msgs _ _ _ Hrep).
  destruct p as [m k|n m k|n m k|k|k| | | | | | | | |m|m|m| |w|w| ]; try done.
  - case_bool_decide; [|done]. unfold new_node. by destruct (e =? 0).
  - unfold lock. by destruct (owner c).
  - destruct (Z.eqb_spec n 0) as [->|Hne]; [by rewrite (add_tail_null _ _ _ Hrep)|].
    destruct (ok_pending _ _ _ _ _ Hok n m) as (_ & Hn & Hnl);
      [simpl; by rewrite (proj2 (Z.eqb_neq _ _) Hne)|].
    assert (length ms <= length (pushed c))%nat
      by (rewrite <- (inv_fifo _ _ _ H), length_app; lia).
    destruct (add_tail_spec _ _ _ _ _ Hrep Hn Hne Hnl) as (s' & -> & _); [lia|done].
  - destruct (decide (waiting c = [])); [done|]. by destruct (decide _).
  - destruct (shutdown_flag c); [done|]. intros [= <-]. by left.
  - unfold lock. by destruct (owner c).
  - rewrite Hq. by destruct (_ =? 0).
  - rewrite Hq. pose proof (ok_relies _ _ _ _ _ Hok) as Hne. simpl in Hne.
    destruct l as [|a l]; [destruct ms; done|].
    pose proof (rep_head_node _ _ _ _ Hrep) as (Ha & _ & m & ms' & -> & Hn).
    simpl in Hh. by rewrite Hh, (node_at_ok _ _ _ Ha Hn).
  - destruct (ok_relies _ _ _ _ _ Hok) as [ms' ->]. destruct l as [|a l]; [done|].
    by destruct (delete_head_spec _ _ _ _ _ Hrep) as (s' & -> & _).
  - destruct (write m) as [|f'] eqn:Hw; simpl; [done|]. intros [= <-]. right. by exists m.
  - by destruct (decide _).
Qed.

Lemma initial_inv n producers : inv (initial n producers) [] [].
Proof.
  pose proof (rep_empty ∅ (mk_queue 0 0 0 n true)) as Hrep.
  assert (Hpcs : forall t p, pcs (initial n producers) !! t = Some p ->
                 (p = WriterAlloc /\ t = 1%nat) \/ exists m k, p = PushNew m k).
  { intros t p Hp. simpl in Hp. apply lookup_insert_Some in Hp as [[<- <-]|[_ Hp]]; [by left|right].
    apply lookup_fmap_Some in Hp as ([m k] & <- & _). by exists m, k. }
  split; simpl; try done.
  - intros t p Hp. destruct (Hpcs t p Hp) as [[-> ->]|(m & k & ->)]; by split.
  - intros t1 t2 p1 p2 n' m1 m2 Hp. by destruct (Hpcs t1 p1 Hp) as [[-> ->]|(? & ? & ->)].
  - by rewrite lookup_insert_eq.
Qed.

Lemma exec_pushed t e c c' :
  exec t e c = Ok (Some c') -> (length (pushed c) <= length (pushed c'))%nat.
Proof.
  unfold exec. destruct (pcs c !! t) as [[]|]; try done; unfold lock, obind; intros He.
  all: repeat match type of He with
       | context [match ?x with _ => _ end] => destruct x
       | Ok (Some _) = Ok (Some _) => injection He as <-
       end; try done; simpl; rewrite ?length_app; lia.
Qed.

Lemma reachable_inv c0 c l ms :
  inv c0 l ms -> rtc step c0 c -> Z.of_nat (length (pushed c)) + 1 < 2 ^ 64 ->
  exists l' ms', inv c l' ms'.
Proof.
  intros H. revert c.
  apply (rtc_ind_r (fun c => Z.of_nat (length (pushed c)) + 1 < 2 ^ 64 -> exists l' ms', inv c l' ms') c0).
  - by eauto.
  - intros y z _ (t & e & He) IH Hlen. pose proof (exec_pushed _ _ _ _ He).
    destruct IH as (l' & ms' & Hi); [lia|]. eapply exec_inv; [exact Hi|exact He|lia].
Qed.

(** ** Properties *)

End threads.

(** A schedule, run. *)
Section schedules.
Context (file : bool) (localtime : Z -> tm) (vararg : Z -> Z).
#[local] Abbreviation exec := (exec file localtime vararg).
#[local] Abbreviation step := (step file localtime vararg).

Fixpoint run_sched (sched : list (nat * Z)) (c : config) : option config :=
  match sched with
  | [] => Some c
  | (t, e) :: sched =>
      match exec t e c with
      | Ok (Some c') => run_sched sched c'
      | _ => None
      end
  end.

Lemma run_sched_rtc sched c c' : run_sched sched c = Some c' -> rtc step c c'.
Proof.
  revert c. induction sched as [|[t e] sched IH]; intros c; simpl.
  - intros [= ->]. done.
  - destruct (exec t e c) as [[c1|]|] eqn:E; try done. intros Hr.
    eapply rtc_l; [|by apply IH]. by exists t, e.
Qed.

(** [main] waits in [pthread_join], the writer in [pop_message] on an empty
    queue, and nobody is left to push. *)
Record hung (c : config) : Prop := {
  hung_main : pcs c !! 0%nat = Some (Join 1);
  hung_writer : pcs c !! 1%nat = Some PopWait \/ pcs c !! 1%nat = Some PopLock \/
                pcs c !! 1%nat = Some PopTest;
  hung_rest : forall t p, t <> 0%nat -> t <> 1%nat -> pcs c !! t = Some p -> p = Finished;
  hung_empty : exists q, queue (cq c) = Some q /\ queue_size q = 0
}.

Lemma hung_step c c' : hung c -> step c c' -> hung c'.
Proof.
  intros [Hm Hw Hr (q & Hq & Hs)] (t & e & He). unfold exec in He.
  destruct (decide (t = 0%nat)) as [->|H0].
  { rewrite Hm in He. destruct (decide _) as [Hx|]; [|done].
    destruct Hw as [Hw|[Hw|Hw]]; congruence. }
  destruct (decide (t = 1%nat)) as [->|H1].
  2:{ destruct (pcs c !! t) as [p|] eqn:Hp; [|done]. rewrite (Hr t p) in He; done. }
  destruct Hw as [Hw|[Hw|Hw]]; rewrite Hw in He; unfold lock in He;
    rewrite ?Hq, ?Hs in He; simpl in He; try destruct (owner c); simplify_eq;
    (split; simpl; [by rewrite lookup_insert_ne|rewrite lookup_insert_eq; tauto| |by eauto]);
    intros t p ? ?; rewrite lookup_insert_ne by done; by apply Hr.
Qed.

End schedules.

(** A file that was opened, a fixed time of day, arguments read as passed. *)
#[local] Abbreviation run_log := (run_sched true noon id).
#[local] Abbreviation step_log := (step true noon id).

Definition stop_msg : message_desc := msg_of [83; 116; 111; 112; 0].

Definition shutdown_start : config := initial 1024 {[0%nat := (stop_msg, KShutdown 1)]}.

(** The writer takes and writes the last line, finds the flag still clear and
    waits for more; only then does [main] set the flag. *)
Definition shutdown_sched : list (nat * Z) :=
  (0%nat, 8) :: replicate 4 (0%nat, 0) ++ (1%nat, 8) :: replicate 10 (1%nat, 0) ++ [(0%nat, 0)].

(** the server's shutdown can hang: there is a schedule after which
    [shutdown_flag] is set and [main] is in [pthread_join], and from there no
    schedule at all, however the waiting writer is woken, lets [main] get past
    the join. *)
Theorem log_shutdown_hangs :
  exists c, rtc step_log shutdown_start c /\ shutdown_flag c = true /\
            forall c', rtc step_log c c' -> pcs c' !! 0%nat = Some (Join 1).
Proof.
  destruct (run_log shutdown_sched shutdown_start) as [c|] eqn:E; [|by vm_compute in E].
  exists c. split; [by eapply run_sched_rtc|].
  assert (Hc : shutdown_flag c = true /\ hung c).
  { vm_compute in E. injection E as <-. split; [done|].
    split; [done|by left| |by eexists]. intros t p H0 H1 Hp.
    assert (Hall : bool_decide (map_Forall (fun t p => t = 0%nat \/ t = 1%nat \/ p = Finished)
                     (<[1%nat := PopWait]> {[0%nat := Join 1]})) = true) by (vm_compute; reflexivity).
    apply bool_decide_eq_true in Hall. destruct (Hall t p Hp) as [?|[?|?]]; done. }
  destruct Hc as [Hf Hh]. split; [done|].
  intros c' Hr. apply hung_main. clear E Hf. revert Hh.
  induction Hr as [|x y z Hxy _ IH]; [done|]. intros Hh. apply IH. by eapply hung_step.
Qed.

(** One producer, whose message the writer takes and writes. *)
Definition one_producer : gmap nat (message_desc * cont) := {[2%nat := (msg_of [65; 0], KDone)]}.
Definition one_written : config :=
  default (initial 4 one_producer)
    (run_log ((2%nat, 8) :: replicate 4 (2%nat, 0) ++ (1%nat, 64) :: replicate 8 (1%nat, 0)) (initial 4 one_producer)).

(** A writer that got no descriptor is to blame for its next step. *)
Definition no_descriptor : config :=
  default (initial 4 one_producer) (run_log [(1%nat, 0)] (initial 4 one_producer)).

