(* ===== verification/Server.v ===== *)
(** * Server: serving requests and the life of the connection pool

    Models [src/net/tcp/server/fileserver/server.c] and [include/server.h] on
    top of [Utils], [Net], [Filesystem] and [ConnPool]: one request
    ([serve_connection]), the start of a worker
    ([start_client_serving_routine]), and [main_loop], [client_serving] and
    [wait_routines] as a step relation over the shared pool.  A critical
    section of the pool's mutex is one step; waiting on a condition variable
    is a state that a broadcast leaves, and a worker waits in [read] until its
    client sends.  The lines written to the log are those of [LogMonitor]. *)

From S2P Require Import Prelude CInt CString CBuf ConnPool Filesystem Net Utils.
Open Scope Z_scope.

(** ** One request *)

Definition BUFSIZE : nat := 4096 * 2.
Definition THREAD_LIMIT : nat := 64.

Section request.
Context (malloc : Z -> option block) (env : io_env) (send_ret : nat -> Z -> Z).
(** [get_file] has no compilable body in the source. *)
Context (get_file : cstr -> cstr -> M sock_state unit).

(** [args[i]], a pointer to the token's first byte. *)
Definition arg (args : list (option block)) (i : nat) : outcome cstr :=
  match args !! i with
  | None => Fault OutOfBounds
  | Some None => Fault NullDeref
  | Some (Some b) => Ok (c_str b)
  end.

(** [received] is what [read] stored at the start of the zeroed buffer;
    [resp] is the client's answer to the server's [OK_MSG]. *)
Definition serve_connection (s : fs) (received resp : list Z) : M sock_state unit :=
  let request := take BUFSIZE received ++ replicate (BUFSIZE - length received) 0 in
  if decide (length (c_str request) < BUFSIZE)%nat then
    p <- lift (parse_request malloc true (c_str request)) ;;
    let '(args, args_cnt) := p in
    a0 <- lift (arg args 0) ;;
    (match get_op_type a0 with
     | GET => a1 <- lift (arg args 1) ;; send_file env send_ret true s a1 resp ;; ret tt
     | POST => a1 <- lift (arg args 1) ;; a2 <- lift (arg args 2) ;; get_file a1 a2
     | UNDEFINED => ret tt
     end) ;;
    lift (free_args_list args args_cnt) ;;
    ret tt
  else fail OutOfBounds.
End request.

(** ** Workers *)

Record WorkerArgs := mk_args { args_offset : Z }.

Definition init_worker_args (thread_limit : nat) : list WorkerArgs :=
  (fun i => mk_args (Z.of_nat i)) <$> seq 0 thread_limit.

(** [created] is the thread id when [pthread_create] succeeds. *)
Definition start_client_serving_routine (garbage_tid : Z) (pool : option ConnectionsPool)
  (args : list WorkerArgs) (connection_sock : Z) (created : option Z)
  : outcome (Z * option ConnectionsPool * list event * option WorkerArgs) :=
  match pool with
  | None => Ok (NOT_OK, None, [], None)
  | Some _ =>
      let? r := store_connection garbage_tid pool connection_sock in
      let '(off, pool) := r in
      if off =? NOT_OK then Ok (NOT_OK, pool, [], None)
      else
        match get_tid_pos pool off, pool with
        | Some i, Some p =>
            match created with
            | None =>
                let? r := release_connection pool off in
                let '(_, pool, ev) := r in Ok (NOT_OK, pool, ev, None)
            | Some t =>
                match connections p !! Z.to_nat i, args !! Z.to_nat off with
                | Some conn, Some a =>
                    let conn := mk_conn t (ConnPool.connection_sock conn) (offset conn) in
                    Ok (OK, Some (set_connections p (<[Z.to_nat i := conn]> (connections p))), [], Some a)
                | _, _ => Fault OutOfBounds
                end
            end
        | _, _ => Ok (NOT_OK, pool, [], None)
        end
  end.

(** ** The server as a step relation *)

Inductive main_pc :=
| Select                  (* while (!exit_signal), the top of the loop of main_loop *)
| Poll                    (* in select, with the pipe and the server socket *)
| TestFull (sock : Z)     (* accepted; about to lock and test pool_is_full *)
| WaitFull (sock : Z)     (* in pthread_cond_wait on is_free_cond *)
| Drain                   (* wait_routines, about to lock and test pool_is_free *)
| DrainWait               (* in pthread_cond_wait on cond *)
| Returned.               (* main_loop has destroyed the pool *)

(** [client_serving], by the descriptor it has copied. *)
Inductive worker_pc :=
| Started (a : WorkerArgs)           (* about to copy its descriptor *)
| Serving (conn : ConnectionDesc)    (* in serve_connection, at read *)
| Served (conn : ConnectionDesc).    (* about to lock and release_connection *)

(** What a worker meets once [read] returns: what the client sent, what it
    answers to [OK_MSG], the files, and what the calls of [send] return. *)
Record request := mk_request {
  received : list Z;
  resp : list Z;
  files : fs;
  sends : nat -> Z -> Z
}.

#[export] Instance main_pc_eq_dec : EqDecision main_pc.
Proof. solve_decision. Defined.

Record server := mk_server {
  pool : option ConnectionsPool;     (* None once it is destroyed *)
  exit_signal : bool;
  main : main_pc;
  workers : gmap Z worker_pc;        (* by the slot they were started for *)
  accepted : list Z;                 (* sockets accept has returned *)
  closed : list Z                    (* sockets close has been called on *)
}.

Inductive action :=
| Signal                              (* SIGINT or SIGTERM *)
| Accept (sock : Z)
| Main (created : option Z)           (* the main thread's next section *)
| Worker (off : Z)                    (* the worker's next section *)
| Request (off : Z) (q : request)     (* the worker's read returns *)
| Spurious.                           (* a wait returns without a broadcast *)

(** What the pool's events do to the sockets and to a waiting main thread. *)
Definition on_event (c : server) (e : event) : server :=
  match e with
  | Close s => mk_server (pool c) (exit_signal c) (main c) (workers c) (accepted c) (closed c ++ [s])
  | BroadcastCond =>
      mk_server (pool c) (exit_signal c)
        (match main c with DrainWait => Drain | pc => pc end) (workers c) (accepted c) (closed c)
  | BroadcastIsFreeCond =>
      mk_server (pool c) (exit_signal c)
        (match main c with WaitFull s => TestFull s | pc => pc end) (workers c) (accepted c) (closed c)
  | Acquire _ | Release _ => c
  end.

Definition on_events (c : server) (ev : list event) : server := foldl on_event c ev.

Definition at_main (c : server) (pc : main_pc) : server :=
  mk_server (pool c) (exit_signal c) pc (workers c) (accepted c) (closed c).
Definition with_pool (c : server) (p : option ConnectionsPool) : server :=
  mk_server p (exit_signal c) (main c) (workers c) (accepted c) (closed c).
Definition with_workers (c : server) (w : gmap Z worker_pc) : server :=
  mk_server (pool c) (exit_signal c) (main c) w (accepted c) (closed c).

Section exec.
(** The values that the uninitialised locals of [pool_is_full] and
    [store_connection] hold. *)
Context (zero_size garbage_tid : Z).
(** The word 720 bytes into what [thread_id] points to, where the thread
    library keeps the kernel's id. *)
Context (kernel_tid : Z -> outcome Z).
Context (malloc : Z -> option block) (env : io_env) (get_file : cstr -> cstr -> M sock_state unit).

(** [serve_connection] on the socket of the worker. *)
Definition serve (q : request) : outcome unit :=
  let? _ := serve_connection malloc env (sends q) get_file (files q) (received q) (resp q) (mk_sock 0 []) in
  Ok tt.

(** One section of the main thread. *)
Definition main_step (created : option Z) (c : server) : outcome (option server) :=
  match main c, pool c with
  | Select, _ => Ok (Some (at_main c (if exit_signal c then Drain else Poll)))
  | Poll, _ => if exit_signal c then Ok (Some (at_main c Drain)) else Ok None
  | TestFull sock, Some p =>
      let? isfull := pool_is_full zero_size p in
      if isfull then Ok (Some (at_main c (WaitFull sock)))
      else
        let? r := start_client_serving_routine garbage_tid (pool c)
                    (init_worker_args THREAD_LIMIT) sock created in
        let '(_, p', ev, started) := r in
        let c := at_main (on_events (with_pool c p') ev) Select in
        Ok (Some (match started with
                  | Some a => with_workers c (<[args_offset a := Started a]> (workers c))
                  | None => c
                  end))
  | Drain, Some p =>
      if pool_is_free p
      then Ok (Some (with_pool (at_main (on_events c (destruct_conn_pool (pool c))) Returned) None))
      else Ok (Some (at_main c DrainWait))
  | (TestFull _ | Drain), None => Fault Dangling
  | (WaitFull _ | DrainWait | Returned), _ => Ok None
  end.

(** One section of the worker started for slot [off]. *)
Definition worker_step (off : Z) (c : server) : outcome (option server) :=
  match workers c !! off, pool c with
  | None, _ => Ok None
  | Some _, None => Fault Dangling
  | Some (Started a), Some p =>
      match connections p !! Z.to_nat (args_offset a) with
      | None => Fault OutOfBounds
      | Some conn =>
          let? tid := kernel_tid (thread_id conn) in
          Ok (Some (with_workers c (<[off := Serving conn]> (workers c))))
      end
  | Some (Serving _), Some p => Ok None
  | Some (Served conn), Some p =>
      let? r := release_connection (pool c) (offset conn) in
      let '(_, p', ev) := r in
      Ok (Some (on_events (with_pool (with_workers c (delete off (workers c))) p') ev))
  end.

(** The rest of [serve_connection]. *)
Definition request_step (off : Z) (q : request) (c : server) : outcome (option server) :=
  match workers c !! off with
  | Some (Serving conn) =>
      let? _ := serve q in
      Ok (Some (with_workers c (<[off := Served conn]> (workers c))))
  | _ => Ok None
  end.

Definition exec (a : action) (c : server) : outcome (option server) :=
  match a with
  | Signal =>
      Ok (Some (mk_server (pool c) true (main c) (workers c) (accepted c) (closed c)))
  | Accept sock =>
      match main c with
      | Poll =>
          if sock =? -1 then Ok (Some (at_main c Select))
          else Ok (Some (mk_server (pool c) (exit_signal c) (TestFull sock) (workers c)
                           (accepted c ++ [sock]) (closed c)))
      | _ => Ok None
      end
  | Main created => main_step created c
  | Worker off => worker_step off c
  | Request off q => request_step off q c
  | Spurious =>
      match main c with
      | WaitFull sock => Ok (Some (at_main c (TestFull sock)))
      | DrainWait => Ok (Some (at_main c Drain))
      | _ => Ok None
      end
  end.

Definition step (c c' : server) : Prop := exists a, exec a c = Ok (Some c').

Fixpoint run_actions (acts : list action) (c : server) : outcome server :=
  match acts with
  | [] => Ok c
  | a :: acts => let? r := exec a c in run_actions acts (default c r)
  end.
End exec.

(** [main_loop] after [create_conn_pool(max_connections)]. *)
Definition initial (max_connections : Z) : server :=
  mk_server (fst (create_conn_pool (mk_create_env true true 0 0 0) max_connections))
    false Select ∅ [] [].

(** ** The invariant of the pool's users *)

(** The pool under any slot's thread id. *)
Lemma pool_rel_tid p m i conn t :
  pool_rel p m -> connections p !! Z.to_nat i = Some conn -> is_Some (m !! i) ->
  pool_rel (set_connections p (<[Z.to_nat i := mk_conn t (connection_sock conn) (offset conn)]> (connections p))) m.
Proof.
  intros H Hc [s Hs]. pose proof (rel_booked _ _ H _ _ Hs) as [Hi [tid Ht]].
  rewrite Ht in Hc. injection Hc as <-. split; simpl.
  - rewrite length_insert. apply H.
  - apply H.
  - apply H.
  - intros j s' Hj. pose proof (rel_booked _ _ H _ _ Hj) as [Hj0 [tid' Hj']]. split; [done|].
    destruct (decide (j = i)) as [->|Hne].
    + exists t. rewrite list_lookup_insert_eq by (pose proof (rel_size _ _ H); lia). congruence.
    + exists tid'. by rewrite list_lookup_insert_ne by lia.
  - intros j Hj Hn. rewrite list_lookup_insert_ne by (intros E; assert (i = j) by lia; congruence).
    by apply (rel_free _ _ H).
Qed.

Lemma full_or_least m n : 0 <= n -> full m n \/ exists k, least_free m k /\ k < n.
Proof.
  intros Hn. rewrite <- (Z2Nat.id n Hn). induction (Z.to_nat n) as [|k IH].
  - left. intros i Hi. lia.
  - destruct IH as [Hf|(j & Hj & Hlt)]; [|right; exists j; split; [done|lia]].
    destruct (m !! Z.of_nat k) as [s|] eqn:E.
    + left. intros i Hi. destruct (decide (i = Z.of_nat k)) as [->|]; [by exists s|apply Hf; lia].
    + right. exists (Z.of_nat k). split; [|lia]. split; [lia|]. split; [done|]. intros i Hi. apply Hf. lia.
Qed.

Lemma pool_is_full_total p m :
  pool_rel p m ->
  exists b, pool_is_full INT64_MAX p = Ok b /\ (b = true <-> full m (pool_size p)).
Proof.
  intros H. destruct (pool_tests_run _ _ H) as [_ Hf]. pose proof (rel_small _ _ H).
  unfold pool_is_full in *. rewrite (proj2 (Z.leb_gt _ _)) in * by lia. eexists. split; [done|].
  rewrite <- Hf. split; [by intros ->|by intros [= ->]].
Qed.

Lemma init_worker_args_lookup k :
  0 <= k < 64 -> init_worker_args THREAD_LIMIT !! Z.to_nat k = Some (mk_args k).
Proof.
  intros Hk. unfold init_worker_args, THREAD_LIMIT. rewrite list_lookup_fmap.
  rewrite lookup_seq_lt by lia. simpl. by rewrite Z2Nat.id by lia.
Qed.

Lemma start_run g p m k sock created :
  pool_rel p m -> least_free m k -> k < pool_size p ->
  exists p', pool_size p' = pool_size p /\
    match created with
    | Some _ => pool_rel p' (<[k := sock]> m) /\
        start_client_serving_routine g (Some p) (init_worker_args THREAD_LIMIT) sock created
          = Ok (OK, Some p', [], Some (mk_args k))
    | None => pool_rel p' m /\ exists ev,
        start_client_serving_routine g (Some p) (init_worker_args THREAD_LIMIT) sock created
          = Ok (NOT_OK, Some p', Close sock :: ev ++ [BroadcastIsFreeCond], None) /\
        (ev = [] \/ ev = [BroadcastCond])
    end.
Proof.
  intros H Hl Hk. destruct (store_connection_run p m k g sock H Hl Hk) as (p1 & Hs & _ & _ & H1).
  pose proof Hl as (Hk0 & Hnone & _). pose proof (rel_small _ _ H).
  pose proof (store_connection_size _ _ _ _ _ Hs) as Hsz1.
  unfold start_client_serving_routine. rewrite Hs. cbn [obind get_tid_pos].
  unfold NOT_OK. rewrite (proj2 (Z.eqb_neq k (-1))) by lia. destruct created as [t|].
  - pose proof (rel_booked _ _ H1 k sock (lookup_insert_eq _ _ _)) as [_ [tid Ht]].
    rewrite Ht, init_worker_args_lookup by lia. cbn [connection_sock offset].
    eexists. split; [|split; [|done]].
    + done.
    + apply (pool_rel_tid p1 _ k (mk_conn tid sock k) t H1 Ht). by rewrite lookup_insert_eq.
  - destruct (release_connection_run p1 _ k sock H1 (lookup_insert_eq _ _ _)) as (p2 & Hr & _ & _ & H2).
    pose proof (release_connection_size _ _ _ _ _ Hr) as Hsz2.
    rewrite delete_insert_eq, (delete_id m k Hnone) in H2. exists p2. split; [congruence|]. split; [done|].
    rewrite Hr. cbn [obind]. eexists. split; [done|]. case_bool_decide; auto.
Qed.

Definition worker_ok (m : gmap Z Z) (off : Z) (w : worker_pc) : Prop :=
  match w with
  | Started a => args_offset a = off
  | Serving conn | Served conn => offset conn = off /\ m !! off = Some (connection_sock conn)
  end.

(** The socket that is accepted and not in the pool yet. *)
Definition pending (pc : main_pc) : list Z :=
  match pc with TestFull s | WaitFull s => [s] | _ => [] end.

(** [m] maps each booked slot to its socket. *)
Record live (n : Z) (c : server) (p : ConnectionsPool) (m : gmap Z Z) : Prop := {
  live_rel : pool_rel p m;
  live_size : pool_size p = n;
  live_main : main c <> Returned;
  live_workers : forall off, is_Some (workers c !! off) <-> is_Some (m !! off);
  live_worker_ok : forall off w, workers c !! off = Some w -> worker_ok m off w;
  live_sockets : accepted c ≡ₚ closed c ++ pending (main c) ++ (map_to_list m).*2;
  live_full : forall s, main c = WaitFull s -> full m n;
  live_drain : main c = DrainWait -> m <> ∅;
  live_exit : main c = Drain \/ main c = DrainWait -> exit_signal c = true
}.

Definition inv (n : Z) (c : server) : Prop :=
  match pool c with
  | Some p => exists m, live n c p m
  | None => main c = Returned /\ workers c = ∅ /\ accepted c ≡ₚ closed c
  end.

Lemma inv_initial n : 1 <= n <= 31 -> inv n (initial n).
Proof.
  intros Hn. unfold inv, initial. cbn. exists ∅. split; try done.
  - apply create_conn_pool_rel. lia.
  - intros off. simpl. by rewrite !lookup_empty.
  - simpl. intros [|]; done.
Qed.

(** Every step that leaves the pool, its workers and the sockets alone. *)
Lemma live_at_main n c p m pc :
  live n c p m -> pc <> Returned -> pending pc = pending (main c) ->
  (forall s, pc = WaitFull s -> full m n) -> (pc = DrainWait -> m <> ∅) ->
  (pc = Drain \/ pc = DrainWait -> exit_signal c = true) ->
  live n (at_main c pc) p m.
Proof. intros [] ? Hp ? ? ?. split; simpl; try done. by rewrite Hp. Qed.

Lemma inv_live n c p : pool c = Some p -> inv n c -> exists m, live n c p m.
Proof. intros Hp. unfold inv. by rewrite Hp. Qed.

Lemma live_inv n c p m : pool c = Some p -> live n c p m -> inv n c.
Proof. intros Hp Hl. unfold inv. rewrite Hp. by exists m. Qed.

(** Starting a worker for the accepted socket, on a pool that is not full. *)
Lemma start_live n g c p m sock created :
  live n c p m -> pool c = Some p -> main c = TestFull sock -> ~ full m n ->
  exists c', (let? r := start_client_serving_routine g (pool c) (init_worker_args THREAD_LIMIT) sock created in
          let '(_, p', ev, started) := r in
          let c := at_main (on_events (with_pool c p') ev) Select in
          Ok (Some (match started with
                    | Some a => with_workers c (<[args_offset a := Started a]> (workers c))
                    | None => c
                    end))) = Ok (Some c') /\ inv n c'.
Proof.
  intros Hl Hp Hpc Hnf. pose proof (live_rel _ _ _ _ Hl) as H. pose proof (live_size _ _ _ _ Hl) as Hsz.
  pose proof (rel_size _ _ H). pose proof (live_sockets _ _ _ _ Hl) as Hs. rewrite Hpc in Hs. simpl in Hs.
  destruct (full_or_least m n) as [|(k & Hk & Hlt)]; [lia|done|].
  destruct (start_run g p m k sock created H Hk) as (p' & Hsz' & Hstart); [lia|]. rewrite Hp.
  pose proof Hk as (_ & Hnone & _). destruct created as [t|].
  - destruct Hstart as [H' ->]. cbn [obind]. eexists. split; [done|]. eapply live_inv; [done|].
    split; simpl; try done; try congruence; try (by intros [|]).
    + intros off. destruct (decide (off = k)) as [->|Hne]; [by rewrite !lookup_insert_eq|].
      rewrite !lookup_insert_ne by done. apply Hl.
    + intros off w. destruct (decide (off = k)) as [->|Hne].
      * rewrite lookup_insert_eq. by intros [= <-].
      * rewrite lookup_insert_ne by done. intros Hw. pose proof (live_worker_ok _ _ _ _ Hl _ _ Hw) as Hok.
        destruct w as [a|conn|conn]; [done|..]; simpl in *; by rewrite lookup_insert_ne.
    + rewrite Hs, map_to_list_insert by done. done.
  - destruct Hstart as [H' (ev & -> & Hev)]. cbn [obind].
    assert (Hon : at_main (on_events (with_pool c (Some p')) (Close sock :: ev ++ [BroadcastIsFreeCond])) Select
      = mk_server (Some p') (exit_signal c) Select (workers c) (accepted c) (closed c ++ [sock])).
    { destruct Hev as [-> | ->]; done. }
    rewrite Hon. eexists. split; [done|]. eapply live_inv; [done|].
    destruct Hl. split; simpl; try done; try congruence; try (by intros [|]).
    rewrite <- app_assoc. exact Hs.
Qed.

Section steps.
Context (n g : Z) (kernel_tid : Z -> outcome Z).
Context (malloc : Z -> option block) (env : io_env) (get_file : cstr -> cstr -> M sock_state unit).

#[local] Abbreviation serve := (serve malloc env get_file).
#[local] Abbreviation worker_step := (worker_step kernel_tid).
#[local] Abbreviation request_step := (request_step malloc env get_file).
#[local] Abbreviation exec := (exec INT64_MAX g kernel_tid malloc env get_file).
#[local] Abbreviation step := (step INT64_MAX g kernel_tid malloc env get_file).

(** A defined outcome that keeps the invariant. *)
Definition keeps (r : outcome (option server)) : Prop :=
  exists o, r = Ok o /\ forall c', o = Some c' -> inv n c'.

Lemma keeps_some c : inv n c -> keeps (Ok (Some c)).
Proof. intros Hc. exists (Some c). split; [done|]. by intros c' [= <-]. Qed.

Lemma keeps_none : keeps (Ok None).
Proof. by exists None. Qed.

Lemma main_step_keeps created c : inv n c -> keeps (main_step INT64_MAX g created c).
Proof.
  intros Hc. unfold main_step. destruct (pool c) as [p|] eqn:Hp.
  2:{ pose proof Hc as Hc'. unfold inv in Hc'. rewrite Hp in Hc'. destruct Hc' as [-> _]. apply keeps_none. }
  destruct (inv_live _ _ _ Hp Hc) as [m Hl]. pose proof (live_rel _ _ _ _ Hl) as H.
  pose proof (live_size _ _ _ _ Hl) as Hsz.
  destruct (main c) as [| |sock|sock| | |] eqn:Hpc; try apply keeps_none.
  - apply keeps_some. eapply live_inv; [exact Hp|].
    apply (live_at_main _ _ _ m); destruct (exit_signal c); try done; rewrite ?Hpc; try done.
    by intros [|].
  - destruct (exit_signal c) eqn:He; [|apply keeps_none]. apply keeps_some.
    eapply live_inv; [exact Hp|]. apply (live_at_main _ _ _ m); try done. by rewrite Hpc.
  - destruct (pool_is_full_total p m H) as (b & -> & Hb). cbn [obind]. rewrite Hsz in Hb. destruct b.
    + apply keeps_some. eapply live_inv; [exact Hp|].
      apply (live_at_main _ _ _ m); try done; [by rewrite Hpc|by intros; apply Hb|by intros [|]].
    + destruct (start_live n g c p m sock created Hl Hp Hpc) as (c' & Hr & Hc'); [by intros ?%Hb|].
      rewrite Hp in Hr. exists (Some c'). split; [exact Hr|by intros ? [= <-]].
  - destruct (pool_is_free p) eqn:Hf.
    + apply keeps_some. unfold inv. simpl. apply (proj1 (pool_tests_run _ _ H)) in Hf as ->.
      split; [done|]. pose proof (live_sockets _ _ _ _ Hl) as Hs. rewrite Hpc, map_to_list_empty in Hs.
      simpl in Hs. rewrite app_nil_r in Hs. split; [|done]. apply map_eq. intros off. rewrite lookup_empty.
      apply eq_None_not_Some. rewrite (live_workers _ _ _ _ Hl), lookup_empty. by intros [].
    + apply keeps_some. eapply live_inv; [exact Hp|].
      apply (live_at_main _ _ _ m); try done; [by rewrite Hpc| |by intros _; apply Hl; left].
      intros _ ->. by rewrite (proj2 (proj1 (pool_tests_run _ _ H)) eq_refl) in Hf.
Qed.

(** A worker that releases its slot. *)
Lemma release_live c p m off conn :
  live n c p m -> pool c = Some p -> workers c !! off = Some (Served conn) ->
  keeps (let? r := release_connection (pool c) (offset conn) in
         let '(_, p', ev) := r in
         Ok (Some (on_events (with_pool (with_workers c (delete off (workers c))) p') ev))).
Proof.
  intros Hl Hp Hw. pose proof (live_worker_ok _ _ _ _ Hl _ _ Hw) as [Hoff Hm]. rewrite Hoff, Hp.
  destruct (release_connection_run p m off _ (live_rel _ _ _ _ Hl) Hm) as (p' & Hr & _ & _ & H').
  pose proof (release_connection_size _ _ _ _ _ Hr) as Hsz. rewrite Hr. cbn [obind]. apply keeps_some.
  pose proof (live_sockets _ _ _ _ Hl) as Hs.
  rewrite <- (map_to_list_delete m off (connection_sock conn) Hm) in Hs. simpl in Hs.
  set (woken := match main c with
                | WaitFull s => TestFull s
                | DrainWait => if bool_decide (delete off m = ∅) then Drain else DrainWait
                | pc => pc end).
  assert (Hon : on_events (with_pool (with_workers c (delete off (workers c))) (Some p'))
      (Close (connection_sock conn) :: (if bool_decide (delete off m = ∅) then [BroadcastCond] else [])
         ++ [BroadcastIsFreeCond])
    = mk_server (Some p') (exit_signal c) woken (delete off (workers c)) (accepted c)
        (closed c ++ [connection_sock conn])).
  { unfold woken, on_events. case_bool_decide; simpl; by destruct (main c). }
  rewrite Hon. eapply live_inv; [done|]. destruct Hl. split; simpl; try done.
  - congruence.
  - unfold woken. destruct (main c); try done. by case_bool_decide.
  - intros o. destruct (decide (o = off)) as [->|Hne]; [by rewrite !lookup_delete_eq|].
    by rewrite !lookup_delete_ne.
  - intros o w [Hne Ho]%lookup_delete_Some. pose proof (live_worker_ok0 _ _ Ho) as Hok.
    destruct w as [a|cn|cn]; [done|..]; simpl in *; by rewrite lookup_delete_ne.
  - rewrite Hs. assert (pending woken = pending (main c)) as ->.
    { unfold woken. destruct (main c); try done. by case_bool_decide. }
    rewrite <- app_assoc. apply Permutation_app_head. simpl. symmetry. apply Permutation_middle.
  - unfold woken. intros s. destruct (main c); try done. by case_bool_decide.
  - unfold woken. destruct (main c); try done. by case_bool_decide.
  - unfold woken. clear Hon woken.
    destruct (main c); try case_bool_decide; intros [|]; try done; apply live_exit0; auto.
Qed.

(** Where a step may be undefined: a worker that reads its kernel id, and one
    whose request [serve_connection] cannot serve. *)
Definition blame (a : action) (c : server) (f : fault) : Prop :=
  match a with
  | Worker off => exists arg p conn, workers c !! off = Some (Started arg) /\ pool c = Some p /\
      connections p !! Z.to_nat off = Some conn /\ kernel_tid (thread_id conn) = Fault f
  | Request off q => (exists conn, workers c !! off = Some (Serving conn)) /\ serve q = Fault f
  | _ => False
  end.

Definition keeps_or (P : fault -> Prop) (r : outcome (option server)) : Prop :=
  match r with Ok o => forall c', o = Some c' -> inv n c' | Fault f => P f end.

Lemma keeps_keeps_or P r : keeps r -> keeps_or P r.
Proof. by intros (o & -> & H). Qed.

(** A worker that moves on with its slot. *)
Lemma inv_worker c p m off w w' :
  live n c p m -> pool c = Some p -> workers c !! off = Some w -> worker_ok m off w' ->
  inv n (with_workers c (<[off := w']> (workers c))).
Proof.
  intros Hl Hp Hw Hok. eapply live_inv; [exact Hp|]. destruct Hl. split; simpl; try done.
  - intros o. destruct (decide (o = off)) as [->|Hne].
    + rewrite lookup_insert_eq, <- live_workers0, Hw. split; by eexists.
    + by rewrite lookup_insert_ne.
  - intros o v. destruct (decide (o = off)) as [->|Hne].
    + rewrite lookup_insert_eq. by intros [= <-].
    + rewrite lookup_insert_ne by done. apply live_worker_ok0.
Qed.

Lemma inv_workers c off w :
  inv n c -> workers c !! off = Some w ->
  exists p m, pool c = Some p /\ live n c p m /\ worker_ok m off w.
Proof.
  intros Hc Hw. destruct (pool c) as [p|] eqn:Hp.
  - destruct (inv_live _ _ _ Hp Hc) as [m Hl]. exists p, m. split_and!; try done. by apply (live_worker_ok _ _ _ _ Hl).
  - unfold inv in Hc. rewrite Hp in Hc. destruct Hc as (_ & Hc & _). by rewrite Hc, lookup_empty in Hw.
Qed.

Lemma worker_step_keeps off c : inv n c -> keeps_or (blame (Worker off) c) (worker_step off c).
Proof.
  intros Hc. unfold worker_step. destruct (workers c !! off) as [w|] eqn:Hw; [|done].
  destruct (inv_workers _ _ _ Hc Hw) as (p & m & Hp & Hl & Hok). rewrite Hp.
  destruct w as [a|conn|conn]; [|done|].
  - simpl in Hok. rewrite Hok.
    assert (is_Some (m !! off)) as [s Hs] by (apply (live_workers _ _ _ _ Hl); by rewrite Hw).
    destruct (rel_booked _ _ (live_rel _ _ _ _ Hl) _ _ Hs) as [_ [tid Ht]]. rewrite Ht. cbn [thread_id].
    destruct (kernel_tid tid) as [k|f] eqn:Hk; simpl.
    + intros c' [= <-]. by eapply inv_worker.
    + by exists a, p, (mk_conn tid s off).
  - rewrite <- Hp. by apply keeps_keeps_or, (release_live c p m).
Qed.

Lemma request_step_keeps off q c : inv n c -> keeps_or (blame (Request off q) c) (request_step off q c).
Proof.
  intros Hc. unfold request_step. destruct (workers c !! off) as [[a|conn|conn]|] eqn:Hw; try done.
  destruct (serve q) as [u|f] eqn:Hq; simpl.
  - intros c' [= <-]. destruct (inv_workers _ _ _ Hc Hw) as (p & m & Hp & Hl & Hok). by eapply inv_worker.
  - split; [by exists conn|done].
Qed.

Lemma exec_keeps a c : inv n c -> keeps_or (blame a c) (exec a c).
Proof.
  intros Hc. destruct a as [|sock|created|off|off q|]; simpl exec.
  1,2,6: apply keeps_keeps_or.
  - apply keeps_some. unfold inv in *. simpl. destruct (pool c); [|done].
    destruct Hc as [m []]. exists m. by split.
  - destruct (main c) eqn:Hpc; try apply keeps_none. destruct (sock =? -1); apply keeps_some.
    { unfold inv in *. simpl. destruct (pool c).
      - destruct Hc as [m Hl]. exists m. apply live_at_main; try done; rewrite ?Hpc; try done.
        by intros [|].
      - by destruct Hc as [? _]; rewrite Hpc in *. }
    unfold inv in *. simpl. destruct (pool c).
    2:{ by destruct Hc as [? _]; rewrite Hpc in *. }
    destruct Hc as [m []]. exists m. split; simpl; try done; [|by intros [|]].
    rewrite live_sockets0, Hpc. simpl. rewrite <- app_assoc. apply Permutation_app_head, Permutation_app_comm.
  - unfold inv in Hc. destruct (main c) eqn:Hpc; try apply keeps_none.
    all: apply keeps_some; unfold inv; simpl; destruct (pool c); [|by destruct Hc as [? _]].
    all: destruct Hc as [m []]; exists m; split; simpl; try done; try (by intros [|]).
    + by rewrite live_sockets0, Hpc.
    + by rewrite live_sockets0, Hpc.
    + intros _. apply live_exit0. by right.
  - by apply keeps_keeps_or, main_step_keeps.
  - by apply worker_step_keeps.
  - by apply request_step_keeps.
Qed.

Lemma server_step_inv c c' : inv n c -> step c c' -> inv n c'.
Proof. intros Hc [a Ha]. pose proof (exec_keeps a c Hc) as Hk. rewrite Ha in Hk. by apply Hk. Qed.

Lemma server_reachable_inv c : 1 <= n <= 31 -> rtc step (initial n) c -> inv n c.
Proof.
  intros Hn. apply (rtc_ind_r (fun c => inv n c)); [by apply inv_initial|].
  intros c1 c2 _ Hs Hi. by eapply server_step_inv.
Qed.
(** *** Shutdown *)

(** The steps the server takes by itself: no signal, no client, no spurious
    wakeup; and those together with the answers of the clients it has. *)
Definition internal (a : action) : Prop :=
  match a with Main _ | Worker _ => True | _ => False end.
Definition served (a : action) : Prop :=
  match a with Main _ | Worker _ | Request _ _ => True | _ => False end.

Definition istep (c c' : server) : Prop := exists a, internal a /\ exec a c = Ok (Some c').
Definition xstep (c c' : server) : Prop := exists a, served a /\ exec a c = Ok (Some c').

(** Some worker is in [read]. *)
Definition awaits_client (c : server) : Prop := exists off conn, workers c !! off = Some (Serving conn).

Lemma awaits_dec c : awaits_client c \/ ~ awaits_client c.
Proof.
  destruct (decide (map_Exists (fun _ w => match w with Serving _ => true | _ => false end = true) (workers c))) as [H|H].
  - left. destruct H as (off & [|conn|] & Hw & ?); try done. by exists off, conn.
  - right. intros (off & conn & Hw). apply H. by exists off, (Serving conn).
Qed.

Definition main_weight (pc : main_pc) : nat :=
  match pc with
  | Returned => 0 | DrainWait => 1 | Drain => 2 | Poll => 3 | Select => 3 | WaitFull _ => 7 | TestFull _ => 8
  end.
Definition worker_weight (w : worker_pc) : nat :=
  match w with Served _ => 2 | Serving _ => 3 | Started _ => 4 end.
Definition workload (w : gmap Z worker_pc) : nat :=
  map_fold (fun _ w acc => worker_weight w + acc)%nat 0%nat w.
Definition weight (c : server) : nat := main_weight (main c) + workload (workers c).

Lemma workload_insert w k x :
  w !! k = None -> workload (<[k := x]> w) = (worker_weight x + workload w)%nat.
Proof.
  intros Hk. apply (map_fold_insert_L (fun _ w acc => worker_weight w + acc)%nat); [intros; lia|done].
Qed.

Lemma workload_delete w k x :
  w !! k = Some x -> workload w = (worker_weight x + workload (delete k w))%nat.
Proof.
  intros Hk. rewrite <- (insert_delete_id w k x Hk) at 1. by rewrite workload_insert by apply lookup_delete_eq.
Qed.

Lemma workload_insert_le w k x : (workload (<[k := x]> w) <= worker_weight x + workload w)%nat.
Proof.
  rewrite <- insert_delete_eq, workload_insert by apply lookup_delete_eq.
  destruct (w !! k) as [y|] eqn:E; [rewrite (workload_delete w k y E); lia|by rewrite delete_id].
Qed.

Lemma workload_replace w k x y :
  w !! k = Some x -> (worker_weight y < worker_weight x)%nat -> (workload (<[k := y]> w) < workload w)%nat.
Proof.
  intros Hk Hy. rewrite <- insert_delete_eq, workload_insert by apply lookup_delete_eq.
  rewrite (workload_delete w k x Hk). lia.
Qed.

(** What the pool's events change: never the workers or the flag. *)
Lemma on_events_frame ev : forall c,
  workers (on_events c ev) = workers c /\ exit_signal (on_events c ev) = exit_signal c /\
  (main_weight (main (on_events c ev)) <= S (main_weight (main c)))%nat.
Proof.
  assert (Hgen : forall c b, (main_weight (main c) <= b)%nat ->
    (main c = DrainWait \/ (exists s, main c = WaitFull s) -> (S (main_weight (main c)) <= b)%nat) ->
    workers (on_events c ev) = workers c /\ exit_signal (on_events c ev) = exit_signal c /\
    (main_weight (main (on_events c ev)) <= b)%nat).
  { induction ev as [|e ev IH]; intros c b Hb Hw; [done|].
    unfold on_events. cbn [foldl]. fold (on_events (on_event c e) ev).
    destruct (IH (on_event c e) b) as (H1 & H2 & H3).
    - destruct e; simpl; try done; destruct (main c) eqn:E; simpl in *; eauto; lia.
    - destruct e; simpl; try done; destruct (main c) eqn:E; simpl in *; eauto; intros [|[]]; done || lia.
    - rewrite H1, H2. split_and!; [by destruct e|by destruct e|done]. }
  intros c. apply Hgen; [lia|done].
Qed.

Lemma main_step_decreases created c c' :
  exit_signal c = true -> main_step INT64_MAX g created c = Ok (Some c') ->
  (weight c' < weight c)%nat /\ exit_signal c' = true.
Proof.
  intros He. unfold main_step, weight.
  destruct (main c) as [| |sock|sock| | |] eqn:Hpc; try done.
  - rewrite He. intros [= <-]. simpl. split; [lia|done].
  - rewrite He. intros [= <-]. simpl. split; [lia|done].
  - destruct (pool c) as [p|]; [|done]. destruct (pool_is_full _ p) as [b|]; [|done]. cbn [obind].
    destruct b; [intros [= <-]; simpl; split; [lia|done]|].
    destruct (start_client_serving_routine _ _ _ _ _) as [[[[r p'] ev] started]|]; [|done]. cbn [obind]. cbv zeta.
    destruct (on_events_frame ev (with_pool c p')) as (Hw & Hx & _).
    destruct started as [a|]; intros [= <-]; simpl; rewrite ?Hw, ?Hx; simpl; (split; [|done]); [|lia].
    pose proof (workload_insert_le (workers c) (args_offset a) (Started a)) as Hle. simpl in Hle. lia.
  - destruct (pool c) as [p|]; [|done].
    destruct (pool_is_free p); intros [= <-]; simpl; (split; [lia|done]).
Qed.

Lemma worker_step_decreases off c c' :
  exit_signal c = true -> worker_step off c = Ok (Some c') ->
  (weight c' < weight c)%nat /\ exit_signal c' = true.
Proof.
  intros He. unfold worker_step, weight. destruct (workers c !! off) as [w|] eqn:Hw; [|done].
  destruct (pool c) as [p|]; [|by destruct w]. destruct w as [a|conn|conn]; [|done|].
  - destruct (connections p !! Z.to_nat (args_offset a)) as [conn|]; [|done].
    destruct (kernel_tid (thread_id conn)) as [k|]; [|done]. intros [= <-]. simpl. split; [|done].
    pose proof (workload_replace _ off _ (Serving conn) Hw ltac:(simpl; lia)). lia.
  - destruct (release_connection _ _) as [[[r p'] ev]|]; [|done]. cbn [obind]. intros [= <-].
    destruct (on_events_frame ev (with_pool (with_workers c (delete off (workers c))) p')) as (-> & -> & Hm).
    simpl in *. split; [|done]. pose proof (workload_delete _ _ _ Hw). simpl in *. lia.
Qed.

Lemma request_step_decreases off q c c' :
  exit_signal c = true -> request_step off q c = Ok (Some c') ->
  (weight c' < weight c)%nat /\ exit_signal c' = true.
Proof.
  intros He. unfold request_step, weight. destruct (workers c !! off) as [[a|conn|conn]|] eqn:Hw; try done.
  destruct (serve q); [|done]. intros [= <-]. simpl. split; [|done].
  pose proof (workload_replace _ off _ (Served conn) Hw ltac:(simpl; lia)). lia.
Qed.

Lemma xstep_decreases c c' :
  exit_signal c = true -> xstep c c' -> (weight c' < weight c)%nat /\ exit_signal c' = true.
Proof.
  intros He (a & Hi & Ha). destruct a as [| |created|off|off q|]; try done; simpl in Ha.
  - by apply (main_step_decreases created).
  - by apply (worker_step_decreases off).
  - by apply (request_step_decreases off q).
Qed.

Section progress.
Hypothesis kernel_tid_ok : forall t, is_ok (kernel_tid t) = true.

Lemma worker_progress c off :
  inv n c -> is_Some (workers c !! off) -> ~ awaits_client c -> exists c', istep c c'.
Proof.
  intros Hc [w Hw] Ha. destruct (inv_workers _ _ _ Hc Hw) as (p & m & Hp & Hl & Hok).
  pose proof (worker_step_keeps off c Hc) as Hk. destruct (worker_step off c) as [[c'|]|f] eqn:Ho.
  - exists c', (Worker off). done.
  - exfalso. revert Ho. unfold worker_step. rewrite Hw, Hp. destruct w as [a|conn|conn].
    + destruct (connections p !! Z.to_nat (args_offset a)); [|done]. by destruct (kernel_tid _).
    + exfalso. apply Ha. by exists off, conn.
    + by destruct (release_connection _ _) as [[[? ?] ?]|].
  - destruct Hk as (a & p' & conn & _ & _ & _ & Hf). pose proof (kernel_tid_ok (thread_id conn)) as E. by rewrite Hf in E.
Qed.

Lemma progress c :
  1 <= n -> inv n c -> exit_signal c = true -> main c <> Returned -> ~ awaits_client c ->
  exists c', istep c c'.
Proof.
  intros Hn Hc He Hm Ha. destruct (pool c) as [p|] eqn:Hp.
  2:{ unfold inv in Hc. rewrite Hp in Hc. by destruct Hc. }
  destruct (inv_live _ _ _ Hp Hc) as [m Hl].
  assert (Hgo : (forall s, main c <> WaitFull s) -> main c <> DrainWait -> exists c', istep c c').
  { intros Hnw Hnd. destruct (main_step_keeps None c Hc) as ([c'|] & Ho & _);
      [exists c', (Main None); by split|]. exfalso. revert Ho. unfold main_step. rewrite He, Hp.
    destruct (main c) as [| |sock|sock| | |] eqn:Hpc; try naive_solver.
    - destruct (pool_is_full _ p) as [[]|]; try done. cbn [obind].
      by destruct (start_client_serving_routine _ _ _ _ _) as [[[[? ?] ?] ?]|].
    - by destruct (pool_is_free p). }
  destruct (main c) as [| |sock|sock| | |] eqn:Hpc; try (by apply Hgo).
  - apply (worker_progress c 0 Hc); [|done]. apply (live_workers _ _ _ _ Hl), (live_full _ _ _ _ Hl _ Hpc). lia.
  - destruct (map_choose m (live_drain _ _ _ _ Hl Hpc)) as (off & s & Hs).
    apply (worker_progress c off Hc); [|done]. apply (live_workers _ _ _ _ Hl). by exists s.
Qed.
End progress.

Lemma xstep_inv c c' : inv n c -> xstep c c' -> inv n c'.
Proof. intros Hc (a & _ & Ha). eapply server_step_inv; [exact Hc|]. by exists a. Qed.

(** ** The server's threads *)


End steps.

(** ** Requests *)

Lemma c_str_request s : is_cstr s -> (length s < BUFSIZE)%nat ->
  c_str (take BUFSIZE s ++ replicate (BUFSIZE - length s) 0) = s.
Proof.
  intros Hs Hl. rewrite take_ge by lia. destruct (BUFSIZE - length s)%nat eqn:E; [lia|].
  simpl. by apply c_str_app.
Qed.

Lemma chomp_newline t : chomp (t ++ [10]) = t.
Proof.
  unfold chomp. rewrite last_snoc, decide_True by done. rewrite length_app. simpl.
  by rewrite Nat.add_sub, take_app_length.
Qed.

(** The request of a list of fields, up to the dispatch on its first one. *)
Lemma serve_fields malloc env send_ret get_file s ts resp st :
  roomy malloc -> ts <> [] -> Forall field ts -> (length (join_colon ts) < BUFSIZE)%nat ->
  is_cstr (join_colon ts) ->
  exists bs, map c_str bs = map chomp ts /\
    serve_connection malloc env send_ret get_file s (join_colon ts) resp st =
    (a0 <- lift (arg (map Some bs) 0) ;;
     (match get_op_type a0 with
      | GET => a1 <- lift (arg (map Some bs) 1) ;; send_file env send_ret true s a1 resp ;; ret tt
      | POST => a1 <- lift (arg (map Some bs) 1) ;; a2 <- lift (arg (map Some bs) 2) ;; get_file a1 a2
      | UNDEFINED => ret tt
      end) ;;
     ret tt) st.
Proof.
  intros Hm Hne Hf Hl Hc.
  destruct (parse_request_run malloc ts Hm Hne Hf) as (bs & Hp & Hbs).
  { assert (Z.of_nat BUFSIZE = 8192) by done. lia. }
  exists bs. split; [done|]. unfold serve_connection.
  rewrite c_str_request, decide_True by done. rewrite Hp. unfold bind at 1. cbn [lift].
  assert (Hlen : length bs = length ts) by (by rewrite <- (length_map c_str), Hbs, length_map).
  apply bind_ext. intros a0 st0. apply bind_ext. intros u st1.
  unfold free_args_list. by rewrite (proj2 (Z.ltb_ge _ _)) by (rewrite length_map; lia).
Qed.

(** ** Properties *)

(** a GET request, from the bytes received to the bytes sent: for a path
    without a colon that fits the request buffer and names a readable file,
    the client receives [OK_MSG], the size and exactly the file, and the
    function returns. *)
Theorem serve_connection_get malloc env send_ret get_file s path d resp st :
  roomy malloc -> is_cstr path -> ~ (58 ∈ path) -> (length path + 6 < BUFSIZE)%nat ->
  readable env s path d -> complete send_ret -> Z.of_nat (length d) < 2 ^ 64 ->
  strncmp resp (bytes_of "STOP" ++ [10]) 4 <> 0 ->
  exists k, serve_connection malloc env send_ret get_file s (bytes_of "GET:" ++ path ++ [10]) resp st =
    Ok (tt, mk_sock k (sent st ++ OK_MSG ++ (print_dec (Z.of_nat (length d)) ++ [10]) ++ d)).
Proof.
  intros Hm Hc Hn Hl Hr Hcomp Hd Hresp.
  assert (H10 : is_cstr (path ++ [10])) by (apply Forall_app; split; [done|by repeat constructor]).
  destruct (serve_fields malloc env send_ret get_file s [bytes_of "GET"; path ++ [10]] resp st Hm)
    as (bs & Hbs & Hrun).
  - done.
  - repeat constructor; try done; try lia; try set_solver. by destruct path.
  - simpl. rewrite length_app. simpl. lia.
  - simpl. repeat constructor; try lia. done.
  - destruct bs as [|b0 [|b1 [|]]]; try done. simpl in Hbs. injection Hbs as H0 H1.
    rewrite chomp_newline in H1. change (bytes_of "GET:" ++ path ++ [10])
      with (join_colon [bytes_of "GET"; path ++ [10]]). rewrite Hrun. cbn [arg map lookup list_lookup].
    rewrite bind_lift, H0. change (get_op_type _) with GET. cbn match.
    destruct (send_file_run env send_ret s path d resp st Hr Hcomp Hd Hresp) as [k Hk].
    exists k. rewrite H1. unfold bind. cbn [lift]. by rewrite Hk.
Qed.

(** requests that are not served: when the first field does not begin with
    GET nothing is sent (an upload is thus ignored), and a GET request without
    a second field reads past the array of tokens. *)
Theorem serve_connection_other malloc env send_ret get_file s ts op resp st :
  roomy malloc -> Forall field (op :: ts) -> is_cstr (join_colon (op :: ts)) ->
  (length (join_colon (op :: ts)) < BUFSIZE)%nat ->
  (~ bytes_of "GET" `prefix_of` chomp op ->
   serve_connection malloc env send_ret get_file s (join_colon (op :: ts)) resp st = Ok (tt, st)) /\
  (bytes_of "GET" `prefix_of` chomp op -> ts = [] ->
   serve_connection malloc env send_ret get_file s (join_colon (op :: ts)) resp st = Fault OutOfBounds).
Proof.
  intros Hm Hf Hc Hl.
  destruct (serve_fields malloc env send_ret get_file s (op :: ts) resp st Hm) as (bs & Hbs & Hrun); try done.
  destruct bs as [|b0 bs]; [done|]. simpl in Hbs. injection Hbs as H0 H1.
  assert (Hchomp : is_cstr (chomp op)).
  { inversion_clear Hf as [|? ? Ho _]. destruct Ho as (Ho & _). unfold chomp.
    destruct (decide _); [by apply Forall_take|done]. }
  rewrite Hrun. cbn [arg map lookup list_lookup]. rewrite bind_lift, H0. unfold get_op_type.
  pose proof (strncmp_prefix (bytes_of "GET") (chomp op) ltac:(repeat constructor; lia) Hchomp) as Hs.
  change (length (bytes_of "GET")) with 3%nat in Hs.
  destruct (Z.eqb_spec (strncmp (chomp op) (bytes_of "GET") 3) 0) as [E|E]; (split; [intros Hp|intros Hp ->]).
  - by apply Hs in E.
  - by destruct bs.
  - done.
  - by apply Hs in Hp.
Qed.

(** ** Concrete runs *)

Definition no_get_file (_ _ : cstr) : M sock_state unit := ret tt.
Definition known_tid (t : Z) : outcome Z := Ok t.

#[local] Abbreviation exec_in zs := (exec zs 0 known_tid malloc_roomy open_env no_get_file).
#[local] Abbreviation run_in zs := (run_actions zs 0 known_tid malloc_roomy open_env no_get_file).
#[local] Abbreviation step_in := (step INT64_MAX 0 known_tid malloc_roomy open_env no_get_file).
#[local] Abbreviation xstep_in := (xstep 0 known_tid malloc_roomy open_env no_get_file).
#[local] Abbreviation istep_in := (istep 0 known_tid malloc_roomy open_env no_get_file).

(** A client that asks for the file a, and one that asks for nothing. *)
Definition get_a : request := mk_request (bytes_of "GET:" ++ [97] ++ [10]) GO (fs_a 3) send_all.
Definition get_nothing : request := mk_request (bytes_of "GET") GO (fs_a 3) send_all.

(** when the uninitialised local of [pool_is_full] holds 0, a server of one
    slot that accepts a second client while the first is served drops its
    socket, and after the exit signal waits for ever: it is in the wait of
    [wait_routines], no worker is left, and none of its own steps is enabled. *)
Theorem server_garbage_hangs :
  exists c,
    run_in 0 [Main None; Accept 5; Main (Some 100); Main None; Accept 6; Main (Some 101);
              Worker 0; Request 0 get_a; Worker 0; Signal; Main None; Main None] (initial 1) = Ok c /\
    main c = DrainWait /\ workers c = ∅ /\ accepted c = [5; 6] /\ closed c = [5] /\
    forall a, internal a -> exec_in 0 a c = Ok None.
Proof.
  eexists. split; [vm_compute; reflexivity|]. do 4 (split; [vm_compute; reflexivity|]).
  intros [| |created|off|off q|] Hi; done.
Qed.

Lemma run_actions_rtc zs g k m e gf acts : forall c c',
  run_actions zs g k m e gf acts c = Ok c' -> rtc (step zs g k m e gf) c c'.
Proof.
  induction acts as [|a acts IH]; intros c c' Hr; cbn [run_actions] in Hr.
  - injection Hr as ->. apply rtc_refl.
  - destruct (exec zs g k m e gf a c) as [[c1|]|] eqn:E; [|by apply IH|done].
    eapply rtc_l; [by exists a|by apply IH].
Qed.

(** One client being served by a server of two slots, and the same after the
    exit signal. *)
Definition serving1 : server :=
  mk_server (Some (mk_pool [mk_conn 100 5 0; zero_desc] 2 (INT64_MAX - 1))) false Select
    {[ 0 := Serving (mk_conn 100 5 0) ]} [5] [].
Definition serving1_exit : server :=
  mk_server (pool serving1) true Select (workers serving1) [5] [].

Lemma serving1_reached :
  run_in INT64_MAX [Main None; Accept 5; Main (Some 100); Worker 0] (initial 2) = Ok serving1.
Proof. vm_compute. reflexivity. Qed.

Lemma serving1_exit_reached :
  run_in INT64_MAX [Main None; Accept 5; Main (Some 100); Worker 0; Signal] (initial 2) = Ok serving1_exit.
Proof. vm_compute. reflexivity. Qed.



Lemma short_request k : (k < 100)%nat -> (k < BUFSIZE)%nat.
Proof. intros. assert (Z.of_nat BUFSIZE = 8192) by done. lia. Qed.

Lemma serve_connection_get_witness :
  exists k, serve_connection malloc_roomy open_env send_all no_get_file (fs_a 3)
              (bytes_of "GET:" ++ [97] ++ [10]) GO (mk_sock 0 []) =
    Ok (tt, mk_sock k ([] ++ OK_MSG ++ [51; 10] ++ [7; 7; 7])).
Proof.
  apply (serve_connection_get malloc_roomy open_env send_all no_get_file (fs_a 3) [97] [7; 7; 7] GO
           (mk_sock 0 [])).
  - exact malloc_roomy_ok.
  - repeat constructor; lia.
  - set_solver.
  - apply short_request. simpl. lia.
  - exact (readable_a 3).
  - done.
  - done.
  - done.
Defined.

Lemma serve_connection_other_witness :
  (~ bytes_of "GET" `prefix_of` chomp (bytes_of "GET") ->
   serve_connection malloc_roomy open_env send_all no_get_file (fs_a 3) (bytes_of "GET") GO (mk_sock 0 [])
     = Ok (tt, mk_sock 0 [])) /\
  (bytes_of "GET" `prefix_of` chomp (bytes_of "GET") -> @nil cstr = [] ->
   serve_connection malloc_roomy open_env send_all no_get_file (fs_a 3) (bytes_of "GET") GO (mk_sock 0 [])
     = Fault OutOfBounds).
Proof.
  apply (serve_connection_other malloc_roomy open_env send_all no_get_file (fs_a 3) [] (bytes_of "GET") GO
           (mk_sock 0 [])).
  - exact malloc_roomy_ok.
  - solve_field.
  - solve_field.
  - apply short_request. simpl. lia.
Defined.
