(* ===== verification/ServerStart.v ===== *)
(** * ServerStart: how the file server comes up

    Models the parts of src/src/net/tcp/server/fileserver/server.c around the
    main loop: the pipe that wakes it, the signal handler, and [main] with its
    calls of [create_log], [start_log_routine] and [create_server]; and
    [start_daemon] of os_layer.c.  What the system calls answer is a record;
    [getcwd], [atoi] and [inet_aton] are taken as already applied. *)

From S2P Require Import Prelude CInt CString LogQueue Filesystem Net Log.
Open Scope Z_scope.

Definition OK := 0.
Definition NOT_OK := -1.
Definition EXIT_SUCCESS := 0.
Definition EXIT_FAILURE := 1.
Definition O_NONBLOCK := 2048.
Definition FD_SETSIZE := 1024.
Definition EAGAIN := 11.

(** ** The pipe *)

Record Pipe := mk_pipe {
  pfd : Z * Z;
  readfds : gset Z;
  nfds : Z;
  modes : Z * Z          (* the file status flags of its two ends *)
}.

(** [FD_SET] writes a bit of an array of 1024. *)
Definition FD_SET (fd : Z) (s : gset Z) : outcome (gset Z) :=
  if (0 <=? fd) && (fd <? FD_SETSIZE) then Ok (s ∪ {[ fd ]}) else Fault OutOfBounds.

Record pipe_calls := mk_calls {
  malloc_ok : bool;
  pipe_ret : option (Z * Z);    (* None: -1 *)
  getfl : Z * Z;                (* fcntl(F_GETFL) of the two ends *)
  setfl : Z * Z                 (* fcntl(F_SETFL) of the two ends *)
}.

(** The result and the pipe, as far as it was set up. *)
Definition init_pipe (w : pipe_calls) : outcome (Z * option Pipe) :=
  if negb (malloc_ok w) then Fault NullDeref
  else
    match pipe_ret w with
    | None => Ok (NOT_OK, None)
    | Some fds =>
        let? readfds := FD_SET (fst fds) ∅ in
        let nfds := fst fds + 1 in
        let made modes := Some (mk_pipe fds readfds nfds modes) in
        if fst (getfl w) =? -1 then Ok (NOT_OK, made (getfl w))
        else
          let flags0 := Z.lor (fst (getfl w)) O_NONBLOCK in
          if fst (setfl w) =? -1 then Ok (NOT_OK, made (getfl w))
          else if snd (getfl w) =? -1 then Ok (NOT_OK, made (flags0, snd (getfl w)))
          else
            let flags1 := Z.lor (snd (getfl w)) O_NONBLOCK in
            if snd (setfl w) =? -1 then Ok (NOT_OK, made (flags0, snd (getfl w)))
            else Ok (OK, made (flags0, flags1))
    end.

(** The pipe variable is null until [init_pipe].  [Some status]: the process
    exits; otherwise [exit_signal] is set. *)
Definition signal_handler (p : option Pipe) (write_ret errno : Z) : outcome (option Z) :=
  match p with
  | None => Fault NullDeref
  | Some _ =>
      if (write_ret =? -1) && negb (errno =? EAGAIN) then Ok (Some EXIT_FAILURE) else Ok None
  end.

(** ** Start *)

(** [pthread_t] is unsigned. *)
Definition start_log_routine (create_ret thread_id : Z) : Z :=
  if negb (create_ret =? 0) then u64 NOT_OK else thread_id.

Definition LOOPBACK : cstr := bytes_of "127.0.0.1".

Record world := mk_world {
  pipe_calls_of : pipe_calls;
  log_env : io_env;
  log_readdir : fs -> cstr -> option (list cstr);
  disk : fs;
  getcwd : cstr;
  now : Z;
  log_desc_ok : bool;
  log_queue_addr : Z; log_mutex_init : Z; log_cond_init : Z;
  thread_ret : Z; thread_id : Z;
  atoi : cstr -> Z;
  inet_aton : cstr -> option Z;
  local : sockaddr_in;
  socket_ret : Z;
  bind_ret : sockaddr_in -> Z
}.

(** How [main] leaves: before the loop, with what it released and whether the
    log writer runs, or into it. *)
Inductive start :=
| Exit (status : Z) (pipe_freed log_destroyed writer_runs : bool)
| Loop (server_sock : Z) (p : Pipe) (log_desc : LogDesc).

Definition main (w : world) (argv : list cstr) : outcome start :=
  match argv with
  | [] | [_] => Ok (Exit EXIT_FAILURE false false false)
  | _ :: port :: rest =>
      let port := atoi w port in
      let ip_address := match rest with [] => LOOPBACK | ip :: _ => ip end in
      let? (res, p) := init_pipe (pipe_calls_of w) in
      if res =? NOT_OK then Ok (Exit EXIT_FAILURE false false false)
      else
        let? p := of_option NullDeref p in
        let? (log_desc, _) :=
          create_log (log_env w) (log_readdir w) (log_desc_ok w) (log_queue_addr w) (log_mutex_init w)
            (log_cond_init w) (disk w) (getcwd w) 1024 (now w) in
        match log_desc with
        | None => Ok (Exit EXIT_FAILURE true false false)
        | Some log_desc =>
            let log_worker_tid := start_log_routine (thread_ret w) (thread_id w) in
            if log_worker_tid =? u64 NOT_OK then
              let? _ := destroy_log log_desc in Ok (Exit EXIT_FAILURE true true false)
            else
              let server_sock :=
                create_server (local w) (socket_ret w) (bind_ret w) (inet_aton w ip_address) port in
              if server_sock =? -1 then
                let? _ := destroy_log log_desc in Ok (Exit EXIT_FAILURE true true true)
              else Ok (Loop server_sock p log_desc)
        end
  end.

(** os_layer.c; [Some status]: the process exits. *)
Definition start_daemon (fork1 setsid fork2 : Z) : option Z :=
  if fork1 <? 0 then Some EXIT_FAILURE
  else if 0 <? fork1 then Some EXIT_SUCCESS
  else if setsid <? 0 then Some EXIT_FAILURE
  else if fork2 <? 0 then Some EXIT_FAILURE
  else if 0 <? fork2 then Some EXIT_SUCCESS
  else None.

(** ** Properties *)

Lemma lor_nonblock flags : Z.testbit (Z.lor flags O_NONBLOCK) 11 = true.
Proof. by rewrite Z.lor_spec, orb_true_r. Qed.

(** A pipe that [init_pipe] reports as ready can be watched by [select], and
    neither end blocks. *)
Lemma init_pipe_ready w p :
  init_pipe w = Ok (OK, p) ->
  exists fds m0 m1, pipe_ret w = Some fds /\ 0 <= fst fds < FD_SETSIZE /\
    p = Some (mk_pipe fds {[ fst fds ]} (fst fds + 1) (m0, m1)) /\
    Z.testbit m0 11 = true /\ Z.testbit m1 11 = true.
Proof.
  unfold init_pipe. destruct (malloc_ok w); simpl; [|done].
  destruct (pipe_ret w) as [fds|]; [|done]. unfold FD_SET.
  destruct ((0 <=? fds.1) && (fds.1 <? FD_SETSIZE)) eqn:E; simpl; [|done].
  apply andb_true_iff in E as [E1%Z.leb_le E2%Z.ltb_lt].
  repeat (case_match; [by intros [= ?]|]). intros [= <-].
  exists fds, (Z.lor (fst (getfl w)) O_NONBLOCK), (Z.lor (snd (getfl w)) O_NONBLOCK).
  split; [done|]. split; [done|]. split; [by rewrite (left_id_L ∅ (∪))|].
  split; apply lor_nonblock.
Qed.

(** The calls of [main] that can fail without the behaviour being undefined. *)
Record sane (w : world) (fds : Z * Z) : Prop := {
  sane_malloc : malloc_ok (pipe_calls_of w) = true;
  sane_pipe : pipe_ret (pipe_calls_of w) = Some fds;
  sane_fd : 0 <= fst fds < FD_SETSIZE
}.

Definition fcntl_ok (w : world) : bool :=
  let c := pipe_calls_of w in
  negb (fst (getfl c) =? -1) && negb (fst (setfl c) =? -1) &&
  negb (snd (getfl c) =? -1) && negb (snd (setfl c) =? -1).

Lemma init_pipe_result w fds :
  sane w fds ->
  exists p, init_pipe (pipe_calls_of w) = Ok (if fcntl_ok w then OK else NOT_OK, Some p).
Proof.
  intros [Hm Hp Hf]. unfold init_pipe, FD_SET, fcntl_ok. rewrite Hm, Hp. simpl.
  rewrite (proj2 (Z.leb_le _ _)), (proj2 (Z.ltb_lt _ _)) by lia. simpl.
  destruct (fst (getfl (pipe_calls_of w)) =? -1); simpl; [by eexists|].
  destruct (fst (setfl (pipe_calls_of w)) =? -1); simpl; [by eexists|].
  destruct (snd (getfl (pipe_calls_of w)) =? -1); simpl; [by eexists|].
  destruct (snd (setfl (pipe_calls_of w)) =? -1); simpl; by eexists.
Qed.

(** The socket [main] gets. *)
Definition socket_of (w : world) (port : cstr) (rest : list cstr) : Z :=
  create_server (local w) (socket_ret w) (bind_ret w)
    (inet_aton w (match rest with [] => LOOPBACK | ip :: _ => ip end)) (atoi w port).

(** [main], given a port and a pipe and a log that can be created: it
    enters the loop exactly when the modes of the pipe can be set, the log
    writer starts and the port can be bound, and then both ends of the pipe do
    not block and [select] watches its reading end; otherwise it exits with
    failure.  When the port cannot be bound it destroys the log while the
    writer runs. *)
Theorem main_starts w fds prog port rest ld s q :
  sane w fds -> thread_id w <> u64 NOT_OK ->
  create_log (log_env w) (log_readdir w) (log_desc_ok w) (log_queue_addr w) (log_mutex_init w)
    (log_cond_init w) (disk w) (getcwd w) 1024 (now w) = Ok (Some ld, s) ->
  destroy_log ld = Ok q ->
  exists p,
    main w (prog :: port :: rest) = Ok (
      if negb (fcntl_ok w) then Exit EXIT_FAILURE false false false
      else if negb (thread_ret w =? 0) then Exit EXIT_FAILURE true true false
      else if socket_of w port rest =? -1 then Exit EXIT_FAILURE true true true
      else Loop (socket_of w port rest) p ld) /\
    (fcntl_ok w = true ->
       readfds p = {[ fst fds ]} /\ Z.testbit (fst (modes p)) 11 = true /\
       Z.testbit (snd (modes p)) 11 = true).
Proof.
  intros Hs Ht Hlog Hd. destruct (init_pipe_result w fds Hs) as [p Hp]. exists p. split.
  - cbn [main]. rewrite Hp. destruct (fcntl_ok w); [|done]. cbn [obind of_option negb Z.eqb OK NOT_OK].
    rewrite Hlog. cbn [obind]. unfold start_log_routine.
    destruct (thread_ret w =? 0); cbn [negb].
    + rewrite (proj2 (Z.eqb_neq _ _) Ht). fold (socket_of w port rest).
      destruct (socket_of w port rest =? -1); [by rewrite Hd|done].
    + rewrite Z.eqb_refl. by rewrite Hd.
  - intros Hf. rewrite Hf in Hp. apply init_pipe_ready in Hp as (fds' & m0 & m1 & H1 & _ & [= ->] & H3 & H4).
    rewrite (sane_pipe _ _ Hs) in H1. injection H1 as <-. done.
Qed.

(** A signal that arrives before the pipe is made is answered through a null
    pointer. *)
Lemma early_signal_faults write_ret errno : signal_handler None write_ret errno = Fault NullDeref.
Proof. reflexivity. Qed.

(** ** Witness *)

(** Everything works but [bind]. *)
Definition bind_fails : world :=
  mk_world (mk_calls true (Some (3, 4)) (0, 1) (0, 0)) open_env (fun _ _ => Some []) (mk_fs ∅ ∅)
    (bytes_of "/srv") 7 true 8 0 0 0 99 (fun _ => 8080) (fun _ => Some 1) (mk_addr 0 0 0) 5 (fun _ => -1).

Definition small_log : LogDesc :=
  mk_log (mk_qstate ∅ (Some (mk_queue 0 0 0 1024 true))) (Some (log_name (bytes_of "/srv") 7)) WORK.

Lemma main_starts_witness :
  main bind_fails [bytes_of "server"; bytes_of "8080"] = Ok (Exit EXIT_FAILURE true true true).
Proof.
  destruct (create_log open_env (fun _ _ => Some []) true 8 0 0 (mk_fs ∅ ∅) (bytes_of "/srv") 1024 7)
    as [[[ld|] s]|] eqn:Hlog; [|discriminate Hlog..].
  assert (ld = small_log) as -> by (vm_compute in Hlog; by injection Hlog).
  destruct (destroy_log small_log) as [q|] eqn:Hd; [|discriminate Hd].
  destruct (main_starts bind_fails (3, 4) (bytes_of "server") (bytes_of "8080") [] small_log s q) as (p & Hp & _).
  - split; [reflexivity|reflexivity|]. unfold FD_SETSIZE. simpl. lia.
  - vm_compute. discriminate.
  - exact Hlog.
  - exact Hd.
  - exact Hp.
Defined.
