(* ===== verification/Alloc.v ===== *)
(** * Alloc: the boundary-tag allocator

    Models [src/mem/allocator/alloc.c], [alloc.h], [alloc_utils.c] and
    [alloc_utils.h].  Memory is an array of 8-byte cells that starts at cell
    [base]; a [size_t *] is the index of its cell, and [0] is the null pointer.
    A chunk is named by its payload: its size, its two links and its left
    marker are the four cells below it, its right marker the cell after its
    last payload cell. *)

From S2P Require Import Prelude CInt.
Open Scope Z_scope.

(** ** Memory *)

Record heap := mk_heap { base : Z; cells : list Z; head : Z }.

Definition cell_index (h : heap) (p : Z) : outcome nat :=
  if p =? 0 then Fault NullDeref
  else if (p <? base h) || (base h + Z.of_nat (length (cells h)) <=? p) then Fault OutOfBounds
  else Ok (Z.to_nat (p - base h)).

Definition load (p : Z) : M heap Z :=
  fun h => let? i := cell_index h p in
           match cells h !! i with Some v => Ok (v, h) | None => Fault OutOfBounds end.

Definition store (p v : Z) : M heap unit :=
  fun h => let? i := cell_index h p in
           Ok (tt, mk_heap (base h) (<[i := v]> (cells h)) (head h)).

(** ** alloc_utils.c *)

Definition FREE : Z := 1.
Definition ALLOCATED : Z := 0.
Definition METAINFO_SIZE : Z := 40.
Definition HEADER_SIZE : Z := 4.
Definition SIZE_OFFSET : Z := 4.
Definition NEXT_OFFSET : Z := 3.
Definition PREV_OFFSET : Z := 2.
Definition L_BORDER_MARKER_OFFSET : Z := 1.

Definition chunk_init_metainfo (chunk : Z) : Z := chunk + HEADER_SIZE.

Definition set_size (chunk size : Z) : M heap unit := store (chunk - SIZE_OFFSET) size.
Definition get_size (chunk : Z) : M heap Z := load (chunk - SIZE_OFFSET).
Definition set_next_chunk_ptr (chunk next : Z) : M heap unit := store (chunk - NEXT_OFFSET) next.
Definition get_next_chunk_ptr (chunk : Z) : M heap Z := load (chunk - NEXT_OFFSET).
Definition set_prev_chunk_ptr (chunk prev : Z) : M heap unit := store (chunk - PREV_OFFSET) prev.
Definition get_prev_chunk_ptr (chunk : Z) : M heap Z := load (chunk - PREV_OFFSET).
Definition set_left_border_marker (chunk flag : Z) : M heap unit :=
  store (chunk - L_BORDER_MARKER_OFFSET) flag.
Definition get_left_border_marker (chunk : Z) : M heap Z := load (chunk - L_BORDER_MARKER_OFFSET).
Definition set_right_border_marker (chunk size flag : Z) : M heap unit := store (chunk + size / 8) flag.
Definition get_right_border_marker (chunk : Z) : M heap Z :=
  size <- get_size chunk ;; load (chunk + size / 8).

Definition make_chunk (chunk size status : Z) : M heap Z :=
  let chunk := chunk_init_metainfo chunk in
  set_size chunk size ;;
  set_next_chunk_ptr chunk 0 ;;
  set_prev_chunk_ptr chunk 0 ;;
  set_left_border_marker chunk status ;;
  set_right_border_marker chunk size status ;;
  ret chunk.

Fixpoint find_loop (fuel : nat) (chunk size : Z) : M heap Z :=
  match fuel with
  | O => fail NoFuel
  | S fuel =>
      chunk_size <- get_size chunk ;;
      chunk_status <- get_left_border_marker chunk ;;
      chunk_status_r <- get_right_border_marker chunk ;;
      if size <? chunk_size then ret chunk
      else
        chunk <- get_next_chunk_ptr chunk ;;
        if chunk =? 0 then ret 0 else find_loop fuel chunk size
  end.

(** Each chunk takes at least one cell: as many rounds as there are cells. *)
Definition find_chunk (head size : Z) : M heap Z :=
  fuel <- gets (fun h => length (cells h)) ;; find_loop fuel head size.

Definition add_next (l_chunk r_chunk : Z) : M heap unit :=
  cur_next_l_chunk <- get_next_chunk_ptr l_chunk ;;
  (if cur_next_l_chunk =? 0 then ret tt else set_prev_chunk_ptr cur_next_l_chunk r_chunk) ;;
  set_next_chunk_ptr r_chunk cur_next_l_chunk ;;
  set_prev_chunk_ptr r_chunk l_chunk ;;
  set_next_chunk_ptr l_chunk r_chunk.

Definition merge_chunks (l_chunk r_chunk : Z) : M heap unit :=
  rsize <- get_size r_chunk ;;
  set_right_border_marker r_chunk rsize FREE ;;
  next_r_chunk <- get_next_chunk_ptr r_chunk ;;
  (if next_r_chunk =? 0 then ret tt else set_prev_chunk_ptr next_r_chunk l_chunk) ;;
  set_left_border_marker l_chunk FREE ;;
  set_next_chunk_ptr l_chunk next_r_chunk ;;
  lsize <- get_size l_chunk ;;
  rsize <- get_size r_chunk ;;
  set_size l_chunk (u64 (lsize + rsize + METAINFO_SIZE)).

Definition get_offset_mask (bytes : Z) : Z :=
  match bytes with
  | 1 => 0x00FFFFFFFFFFFFFF
  | 2 => 0x0000FFFFFFFFFFFF
  | 3 => 0x000000FFFFFFFFFF
  | 4 => 0x00000000FFFFFFFF
  | 5 => 0x0000000000FFFFFF
  | 6 => 0x000000000000FFFF
  | _ => 0x00000000000000FF
  end.

Fixpoint zero_loop (n : nat) (cur_ptr : Z) : M heap Z :=
  match n with
  | O => ret cur_ptr
  | S n => store cur_ptr 0 ;; zero_loop n (cur_ptr + 1)
  end.

Definition setzero (ptr bytes_cnt : Z) : M heap unit :=
  let intpart_size := (bytes_cnt / 8) * 8 in
  let otherpart_size := bytes_cnt - intpart_size in
  cur_ptr <- zero_loop (Z.to_nat (intpart_size / 8)) ptr ;;
  if otherpart_size =? 0 then ret tt
  else
    v <- load cur_ptr ;;
    store cur_ptr (Z.land v (get_offset_mask otherpart_size)).

Definition free_chunk (chunk : Z) : M heap unit :=
  set_left_border_marker chunk FREE ;;
  size <- get_size chunk ;;
  set_right_border_marker chunk size FREE.

(** The numbers [print_list] writes: size and both markers of each chunk.  The
    values are of type [size_t] and are printed with %d, which shows the low 32
    bits as an [int]. *)
Fixpoint print_loop (fuel : nat) (chunk : Z) : M heap (list (Z * Z * Z)) :=
  match fuel with
  | O => fail NoFuel
  | S fuel =>
      chunk_size <- get_size chunk ;;
      chunk_status <- get_left_border_marker chunk ;;
      chunk_status_r <- get_right_border_marker chunk ;;
      next <- get_next_chunk_ptr chunk ;;
      rest <- (if next =? 0 then ret [] else print_loop fuel next) ;;
      ret ((i32 chunk_size, i32 chunk_status, i32 chunk_status_r) :: rest)
  end.

Definition print_list (head : Z) : M heap (list (Z * Z * Z)) :=
  fuel <- gets (fun h => length (cells h)) ;; print_loop fuel head.

(** ** alloc.c *)

Definition set_head (p : Z) : M heap unit := modify (fun h => mk_heap (base h) (cells h) p).

Definition mysetup (buf size : Z) : M heap unit :=
  h <- make_chunk buf (u64 (size - METAINFO_SIZE)) FREE ;; set_head h.

Definition myalloc (size : Z) : M heap Z :=
  let real_size := u64 (size + METAINFO_SIZE) in
  hd <- gets head ;;
  chunk <- find_chunk hd real_size ;;
  if chunk =? 0 then ret 0
  else
    chunk_size <- get_size chunk ;;
    let old_chunk_new_size := u64 (chunk_size - real_size) in
    set_size chunk old_chunk_new_size ;;
    set_right_border_marker chunk old_chunk_new_size FREE ;;
    let offset := old_chunk_new_size / 8 + 1 in
    let new_chunk := chunk + offset in
    new_chunk <- make_chunk new_chunk size ALLOCATED ;;
    add_next chunk new_chunk ;;
    ret new_chunk.

Definition mycalloc (numitems size : Z) : M heap Z :=
  let bytes_cnt := u64 (numitems * size) in
  raw_chunk <- myalloc bytes_cnt ;;
  if raw_chunk =? 0 then ret 0
  else setzero raw_chunk bytes_cnt ;; ret raw_chunk.

Definition myfree (p : Z) : M heap unit :=
  if p =? 0 then ret tt
  else
    r <- get_right_border_marker p ;;
    l <- (if r =? FREE then ret FREE else get_left_border_marker p) ;;
    if l =? FREE then ret tt
    else
      prev <- get_prev_chunk_ptr p ;;
      next <- get_next_chunk_ptr p ;;
      if (prev =? 0) && (next =? 0) then free_chunk p
      else if negb (prev =? 0) && (next =? 0) then
        m <- get_right_border_marker prev ;;
        if m =? FREE then merge_chunks prev p else free_chunk p
      else if (prev =? 0) && negb (next =? 0) then
        m <- get_left_border_marker next ;;
        if m =? FREE then merge_chunks p next else free_chunk p
      else
        lp <- get_left_border_marker prev ;;
        ln <- get_left_border_marker next ;;
        if (lp =? FREE) && (ln =? FREE) then merge_chunks p next ;; merge_chunks prev p
        else if (lp =? FREE) && negb (ln =? FREE) then merge_chunks prev p
        else if negb (lp =? FREE) && (ln =? FREE) then merge_chunks p next
        else free_chunk p.

(** ** Chunks in memory *)

(** The cells of a chunk: size, next, previous, left marker, payload, right
    marker. *)
Record raw := mk_raw { rs : Z; rn : Z; rp : Z; rl : Z; pay : list Z; rr : Z }.

Definition raw_cells (c : raw) : list Z := rs c :: rn c :: rp c :: rl c :: pay c ++ [rr c].
Definition clen (c : raw) : Z := Z.of_nat (length (pay c)) + 5.

Lemma raw_cells_length c : Z.of_nat (length (raw_cells c)) = clen c.
Proof. unfold raw_cells, clen. simpl. rewrite length_app. simpl. lia. Qed.

Lemma cell_at b cs hd p pre x post :
  0 < b -> p = b + Z.of_nat (length pre) -> cs = pre ++ x :: post ->
  load p (mk_heap b cs hd) = Ok (x, mk_heap b cs hd) /\
  forall v cs', cs' = pre ++ v :: post -> store p v (mk_heap b cs hd) = Ok (tt, mk_heap b cs' hd).
Proof.
  intros Hb -> ->.
  assert (Hi : cell_index (mk_heap b (pre ++ x :: post) hd) (b + Z.of_nat (length pre)) = Ok (length pre)).
  { unfold cell_index. simpl. rewrite length_app. simpl.
    rewrite (proj2 (Z.eqb_neq _ 0)), (proj2 (Z.ltb_ge _ _)), (proj2 (Z.leb_gt _ _)) by lia.
    simpl. f_equal. lia. }
  unfold load, store. rewrite Hi. simpl. split.
  - by rewrite list_lookup_middle.
  - intros v ? ->. by rewrite insert_app_r_alt, Nat.sub_diag by lia.
Qed.

(** Two spellings of the same cells. *)
Ltac cells_eq := unfold raw_cells; simpl; rewrite <- ?app_assoc; simpl; try done.

Section focus.
Context (b hd : Z) (pre post : list Z) (a : Z).
Hypotheses (Hb : 0 < b) (Ha : a = b + Z.of_nat (length pre) + 4).

Definition at_chunk (c : raw) : heap := mk_heap b (pre ++ raw_cells c ++ post) hd.

Lemma size_at c :
  get_size a (at_chunk c) = Ok (rs c, at_chunk c) /\
  forall v, set_size a v (at_chunk c) = Ok (tt, at_chunk (mk_raw v (rn c) (rp c) (rl c) (pay c) (rr c))).
Proof.
  unfold get_size, set_size, SIZE_OFFSET.
  edestruct (cell_at b (pre ++ raw_cells c ++ post) hd (a - 4) pre (rs c)) as [Hl Hs];
    [done|lia|cells_eq|]. split; [done|]. intros v. apply Hs. cells_eq.
Qed.

Lemma next_at c :
  get_next_chunk_ptr a (at_chunk c) = Ok (rn c, at_chunk c) /\
  forall v, set_next_chunk_ptr a v (at_chunk c)
    = Ok (tt, at_chunk (mk_raw (rs c) v (rp c) (rl c) (pay c) (rr c))).
Proof.
  unfold get_next_chunk_ptr, set_next_chunk_ptr, NEXT_OFFSET.
  edestruct (cell_at b (pre ++ raw_cells c ++ post) hd (a - 3) (pre ++ [rs c]) (rn c)) as [Hl Hs];
    [done|rewrite length_app; simpl; lia|cells_eq|]. split; [done|]. intros v. apply Hs. cells_eq.
Qed.

Lemma prev_at c :
  get_prev_chunk_ptr a (at_chunk c) = Ok (rp c, at_chunk c) /\
  forall v, set_prev_chunk_ptr a v (at_chunk c)
    = Ok (tt, at_chunk (mk_raw (rs c) (rn c) v (rl c) (pay c) (rr c))).
Proof.
  unfold get_prev_chunk_ptr, set_prev_chunk_ptr, PREV_OFFSET.
  edestruct (cell_at b (pre ++ raw_cells c ++ post) hd (a - 2) (pre ++ [rs c; rn c]) (rp c)) as [Hl Hs];
    [done|rewrite length_app; simpl; lia|cells_eq|]. split; [done|]. intros v. apply Hs. cells_eq.
Qed.

Lemma left_at c :
  get_left_border_marker a (at_chunk c) = Ok (rl c, at_chunk c) /\
  forall v, set_left_border_marker a v (at_chunk c)
    = Ok (tt, at_chunk (mk_raw (rs c) (rn c) (rp c) v (pay c) (rr c))).
Proof.
  unfold get_left_border_marker, set_left_border_marker, L_BORDER_MARKER_OFFSET.
  edestruct (cell_at b (pre ++ raw_cells c ++ post) hd (a - 1) (pre ++ [rs c; rn c; rp c]) (rl c))
    as [Hl Hs]; [done|rewrite length_app; simpl; lia|cells_eq|].
  split; [done|]. intros v. apply Hs. cells_eq.
Qed.

Lemma right_at c sz :
  sz / 8 = Z.of_nat (length (pay c)) ->
  load (a + sz / 8) (at_chunk c) = Ok (rr c, at_chunk c) /\
  forall v, set_right_border_marker a sz v (at_chunk c)
    = Ok (tt, at_chunk (mk_raw (rs c) (rn c) (rp c) (rl c) (pay c) v)).
Proof.
  intros Hsz. unfold set_right_border_marker.
  edestruct (cell_at b (pre ++ raw_cells c ++ post) hd (a + sz / 8)
               (pre ++ [rs c; rn c; rp c; rl c] ++ pay c) (rr c)) as [Hl Hs];
    [done|rewrite !length_app; simpl; lia|cells_eq|]. split; [done|]. intros v. apply Hs. cells_eq.
Qed.

Lemma get_right_at c :
  rs c / 8 = Z.of_nat (length (pay c)) ->
  get_right_border_marker a (at_chunk c) = Ok (rr c, at_chunk c).
Proof.
  intros Hsz. unfold get_right_border_marker. run (proj1 (size_at c)).
  apply right_at, Hsz.
Qed.

(** Writing a whole header and the right marker. *)
Lemma make_chunk_at c sz st :
  sz / 8 = Z.of_nat (length (pay c)) ->
  make_chunk (a - 4) sz st (at_chunk c) = Ok (a, at_chunk (mk_raw sz 0 0 st (pay c) st)).
Proof.
  intros Hsz. unfold make_chunk, chunk_init_metainfo, HEADER_SIZE. rewrite Z.sub_add.
  run (proj2 (size_at c) sz).
  rewrite (bind_ok _ _ _ _ _ (proj2 (next_at _) 0)), (bind_ok _ _ _ _ _ (proj2 (prev_at _) 0)).
  run (proj2 (left_at _) st).
  by erewrite bind_ok by by apply right_at.
Qed.
End focus.

(** ** Chains of chunks *)

Definition flat (cs : list raw) : list Z := concat (map raw_cells cs).
Definition tlen (cs : list raw) : Z := Z.of_nat (length (flat cs)).

Lemma flat_app cs1 cs2 : flat (cs1 ++ cs2) = flat cs1 ++ flat cs2.
Proof. unfold flat. by rewrite map_app, concat_app. Qed.

Lemma tlen_app cs1 cs2 : tlen (cs1 ++ cs2) = tlen cs1 + tlen cs2.
Proof. unfold tlen. rewrite flat_app, length_app. lia. Qed.

Lemma tlen_cons c cs : tlen (c :: cs) = clen c + tlen cs.
Proof. unfold tlen, flat. cbn [map concat]. rewrite length_app, <- raw_cells_length. lia. Qed.

Lemma tlen_nonneg cs : 0 <= tlen cs.
Proof. unfold tlen. lia. Qed.

Definition set_prev_head (v : Z) (cs : list raw) : list raw :=
  match cs with
  | [] => []
  | c :: cs => mk_raw (rs c) (rn c) v (rl c) (pay c) (rr c) :: cs
  end.

Section chain.
Context (b hd : Z).
Hypothesis (Hb : 0 < b).

Definition of_chunks (cs : list raw) : heap := mk_heap b (flat cs) hd.

(** The payload address of the chunk that follows [cs]. *)
Definition addr (cs : list raw) : Z := b + tlen cs + 4.

Lemma of_chunks_focus cs1 c cs2 :
  of_chunks (cs1 ++ c :: cs2) = at_chunk b hd (flat cs1) (flat cs2) c.
Proof. unfold of_chunks, at_chunk. by rewrite flat_app. Qed.

Lemma addr_pos cs : 0 < addr cs.
Proof. pose proof (tlen_nonneg cs). unfold addr. lia. Qed.

Lemma addr_snoc cs c : addr (cs ++ [c]) = addr cs + clen c.
Proof. unfold addr. rewrite tlen_app, tlen_cons. change (tlen []) with 0. lia. Qed.

(** The accessors at the chunk that follows [cs1]. *)
Lemma size_on cs1 c cs2 :
  get_size (addr cs1) (of_chunks (cs1 ++ c :: cs2)) = Ok (rs c, of_chunks (cs1 ++ c :: cs2)) /\
  forall v, set_size (addr cs1) v (of_chunks (cs1 ++ c :: cs2))
    = Ok (tt, of_chunks (cs1 ++ mk_raw v (rn c) (rp c) (rl c) (pay c) (rr c) :: cs2)).
Proof. rewrite of_chunks_focus. setoid_rewrite of_chunks_focus. by apply size_at. Qed.

Lemma next_on cs1 c cs2 :
  get_next_chunk_ptr (addr cs1) (of_chunks (cs1 ++ c :: cs2)) = Ok (rn c, of_chunks (cs1 ++ c :: cs2)) /\
  forall v, set_next_chunk_ptr (addr cs1) v (of_chunks (cs1 ++ c :: cs2))
    = Ok (tt, of_chunks (cs1 ++ mk_raw (rs c) v (rp c) (rl c) (pay c) (rr c) :: cs2)).
Proof. rewrite of_chunks_focus. setoid_rewrite of_chunks_focus. by apply next_at. Qed.

Lemma prev_on cs1 c cs2 :
  get_prev_chunk_ptr (addr cs1) (of_chunks (cs1 ++ c :: cs2)) = Ok (rp c, of_chunks (cs1 ++ c :: cs2)) /\
  forall v, set_prev_chunk_ptr (addr cs1) v (of_chunks (cs1 ++ c :: cs2))
    = Ok (tt, of_chunks (cs1 ++ mk_raw (rs c) (rn c) v (rl c) (pay c) (rr c) :: cs2)).
Proof. rewrite of_chunks_focus. setoid_rewrite of_chunks_focus. by apply prev_at. Qed.

Lemma left_on cs1 c cs2 :
  get_left_border_marker (addr cs1) (of_chunks (cs1 ++ c :: cs2)) = Ok (rl c, of_chunks (cs1 ++ c :: cs2)) /\
  forall v, set_left_border_marker (addr cs1) v (of_chunks (cs1 ++ c :: cs2))
    = Ok (tt, of_chunks (cs1 ++ mk_raw (rs c) (rn c) (rp c) v (pay c) (rr c) :: cs2)).
Proof. rewrite of_chunks_focus. setoid_rewrite of_chunks_focus. by apply left_at. Qed.

Lemma right_on cs1 c cs2 sz :
  sz / 8 = Z.of_nat (length (pay c)) ->
  load (addr cs1 + sz / 8) (of_chunks (cs1 ++ c :: cs2)) = Ok (rr c, of_chunks (cs1 ++ c :: cs2)) /\
  forall v, set_right_border_marker (addr cs1) sz v (of_chunks (cs1 ++ c :: cs2))
    = Ok (tt, of_chunks (cs1 ++ mk_raw (rs c) (rn c) (rp c) (rl c) (pay c) v :: cs2)).
Proof. rewrite of_chunks_focus. setoid_rewrite of_chunks_focus. by apply right_at. Qed.

Lemma get_right_on cs1 c cs2 :
  rs c / 8 = Z.of_nat (length (pay c)) ->
  get_right_border_marker (addr cs1) (of_chunks (cs1 ++ c :: cs2)) = Ok (rr c, of_chunks (cs1 ++ c :: cs2)).
Proof. rewrite of_chunks_focus. by apply get_right_at. Qed.

(** The links of the chain [cs] that follows [pre]: the previous chunk of the
    first one is [p], the next one of the last one is [nxt]. *)
Fixpoint linked (p : Z) (pre cs : list raw) (nxt : Z) : Prop :=
  match cs with
  | [] => True
  | c :: cs =>
      rs c = 8 * Z.of_nat (length (pay c)) /\ rp c = p /\
      rn c = match cs with [] => nxt | _ => addr (pre ++ [c]) end /\
      linked (addr pre) (pre ++ [c]) cs nxt
  end.

(** The chunk before the end of [pre ++ cs]. *)
Fixpoint last_addr (p : Z) (pre cs : list raw) : Z :=
  match cs with [] => p | c :: cs => last_addr (addr pre) (pre ++ [c]) cs end.

Lemma last_addr_snoc cs : forall p pre c, last_addr p pre (cs ++ [c]) = addr (pre ++ cs).
Proof.
  induction cs as [|d cs IH]; intros p pre c; simpl; [by rewrite app_nil_r|].
  by rewrite IH, <- app_assoc.
Qed.

Lemma linked_app cs1 : forall p pre c cs2 nxt,
  linked p pre (cs1 ++ c :: cs2) nxt <->
  linked p pre cs1 (addr (pre ++ cs1)) /\ linked (last_addr p pre cs1) (pre ++ cs1) (c :: cs2) nxt.
Proof.
  induction cs1 as [|d cs1 IH]; intros p pre c cs2 nxt; simpl.
  - rewrite app_nil_r. tauto.
  - rewrite IH. simpl. rewrite <- !app_assoc. simpl.
    destruct cs1 as [|e cs1]; simpl; tauto.
Qed.

Lemma linked_pre cs : forall p pre pre' nxt,
  tlen pre = tlen pre' -> linked p pre cs nxt -> linked p pre' cs nxt.
Proof.
  induction cs as [|c cs IH]; intros p pre pre' nxt Ht; simpl; [done|].
  assert (Ht' : tlen (pre ++ [c]) = tlen (pre' ++ [c])) by (rewrite !tlen_app; lia).
  assert (Ha : addr pre = addr pre') by (unfold addr; lia).
  assert (Ha' : addr (pre ++ [c]) = addr (pre' ++ [c])) by (unfold addr; lia).
  rewrite Ha, Ha'. intros (Hs & Hp & Hn & Hl). split_and!; try done. by apply (IH _ (pre ++ [c])).
Qed.

Lemma linked_set_prev cs v p pre nxt : linked p pre cs nxt -> linked v pre (set_prev_head v cs) nxt.
Proof.
  destruct cs as [|c cs]; [done|]. simpl. intros (Hs & _ & Hn & Hl).
  assert (Ht : tlen (pre ++ [mk_raw (rs c) (rn c) v (rl c) (pay c) (rr c)]) = tlen (pre ++ [c]))
    by (rewrite !tlen_app, !tlen_cons; done).
  split_and!; [done|done| |].
  - etrans; [exact Hn|]. destruct cs; [done|]. unfold addr. by rewrite Ht.
  - by apply (linked_pre _ _ (pre ++ [c])).
Qed.

Lemma linked_next p pre c cs nxt :
  linked p pre (c :: cs) nxt -> nxt = 0 -> (rn c = 0 <-> cs = []).
Proof.
  intros (_ & _ & Hn & _) ->. rewrite Hn. pose proof (addr_pos (pre ++ [c])).
  destruct cs; [done|]. split; [lia|done].
Qed.

(** *** find_chunk *)

Lemma find_loop_spec size cs : forall fuel p pre,
  cs <> [] -> linked p pre cs 0 -> (length cs <= fuel)%nat ->
  exists r, find_loop fuel (addr pre) size (of_chunks (pre ++ cs)) = Ok (r, of_chunks (pre ++ cs)) /\
    ((Forall (fun c => rs c <= size) cs /\ r = 0) \/
     exists cs1 c cs2, cs = cs1 ++ c :: cs2 /\ Forall (fun c => rs c <= size) cs1 /\
       size < rs c /\ r = addr (pre ++ cs1)).
Proof.
  induction cs as [|c cs IH]; intros fuel p pre Hne Hl Hf; [done|].
  destruct fuel as [|fuel]; [simpl in Hf; lia|]. cbn [find_loop].
  pose proof Hl as (Hs & _ & Hn & Hl').
  rewrite (bind_ok _ _ _ _ _ (proj1 (size_on _ _ _))), (bind_ok _ _ _ _ _ (proj1 (left_on _ _ _))).
  run (get_right_on pre c cs ltac:(rewrite Hs, Z.mul_comm, Z.div_mul; lia)).
  destruct (Z.ltb_spec size (rs c)) as [Hlt|Hle].
  { exists (addr pre). split; [done|]. right. exists [], c, cs. by rewrite app_nil_r. }
  run (proj1 (next_on _ _ _)).
  destruct cs as [|d cs].
  - rewrite Hn. exists 0. split; [done|]. left. split; [by constructor|done].
  - rewrite Hn, (proj2 (Z.eqb_neq _ 0)) by (pose proof (addr_pos (pre ++ [c])); lia).
    destruct (IH fuel (addr pre) (pre ++ [c])) as (r & Hr & Hcase); [done|done|simpl in *; lia|].
    rewrite <- app_assoc in Hr. exists r. split; [exact Hr|].
    destruct Hcase as [[Hall ->]|(cs1 & e & cs2 & Heq & Hall & Hfit & ->)].
    + left. split; [by constructor|done].
    + right. exists (c :: cs1), e, cs2. rewrite Heq, <- app_assoc. split; [done|]. split; [by constructor|done].
Qed.

(** *** Splitting and merging *)

Tactic Notation "run" uconstr(H) := run H.

Lemma snoc_focus (cs1 : list raw) l cs2 : cs1 ++ l :: cs2 = (cs1 ++ [l]) ++ cs2.
Proof. by rewrite <- app_assoc. Qed.

(** The next chunk's back link, when there is one. *)
Lemma set_prev_next cs1 cs2 nx v :
  (nx = 0 <-> cs2 = []) -> (cs2 <> [] -> nx = addr cs1) ->
  (if nx =? 0 then ret tt else set_prev_chunk_ptr nx v) (of_chunks (cs1 ++ cs2))
    = Ok (tt, of_chunks (cs1 ++ set_prev_head v cs2)).
Proof.
  intros Hz Ha. destruct cs2 as [|c cs2].
  - by rewrite (proj2 Hz eq_refl).
  - rewrite Ha by done. rewrite (proj2 (Z.eqb_neq _ 0)) by (pose proof (addr_pos cs1); lia).
    apply prev_on.
Qed.

Lemma add_next_on cs1 l r cs2 :
  (rn l = 0 <-> cs2 = []) -> (cs2 <> [] -> rn l = addr (cs1 ++ [l; r])) ->
  let l' := mk_raw (rs l) (addr (cs1 ++ [l])) (rp l) (rl l) (pay l) (rr l) in
  let r' := mk_raw (rs r) (rn l) (addr cs1) (rl r) (pay r) (rr r) in
  add_next (addr cs1) (addr (cs1 ++ [l])) (of_chunks (cs1 ++ l :: r :: cs2)) =
    Ok (tt, of_chunks (cs1 ++ l' :: r' :: set_prev_head (addr (cs1 ++ [l])) cs2)).
Proof.
  intros Hz Ha l' r'. unfold add_next. run (proj1 (next_on cs1 l (r :: cs2))).
  rewrite (app_assoc cs1 [l; r] cs2 : cs1 ++ l :: r :: cs2 = _).
  erewrite bind_ok by by apply set_prev_next.
  rewrite <- app_assoc. cbn [app]. rewrite (snoc_focus cs1 l (r :: _)).
  run (proj2 (next_on (cs1 ++ [l]) r (set_prev_head (addr (cs1 ++ [l])) cs2)) (rn l)).
  run (proj2 (prev_on (cs1 ++ [l]) _ (set_prev_head (addr (cs1 ++ [l])) cs2)) (addr cs1)).
  rewrite <- (snoc_focus cs1 l (_ :: _)). apply (proj2 (next_on cs1 l _)).
Qed.

Lemma addr_same cs cs' : tlen cs = tlen cs' -> addr cs = addr cs'.
Proof. unfold addr. lia. Qed.

(** Cutting a chunk in two: the right marker of what is left, then the new
    chunk behind it. *)
Lemma split_on cs1 c cs2 P1 x0 x1 x2 x3 x4 P2 s1 s2 :
  pay c = P1 ++ x0 :: x1 :: x2 :: x3 :: x4 :: P2 ->
  s1 / 8 = Z.of_nat (length P1) -> s2 / 8 = Z.of_nat (length P2) ->
  let c1 := mk_raw (rs c) (rn c) (rp c) (rl c) P1 FREE in
  let c2 := mk_raw s2 0 0 ALLOCATED P2 ALLOCATED in
  (set_right_border_marker (addr cs1) s1 FREE ;;
   make_chunk (addr cs1 + (s1 / 8 + 1)) s2 ALLOCATED) (of_chunks (cs1 ++ c :: cs2)) =
    Ok (addr (cs1 ++ [c1]), of_chunks (cs1 ++ c1 :: c2 :: cs2)).
Proof.
  intros Hp H1 H2 c1 c2. set (c2_0 := mk_raw x1 x2 x3 x4 P2 (rr c)).
  edestruct (cell_at b (flat (cs1 ++ c :: cs2)) hd (addr cs1 + s1 / 8)
               (flat cs1 ++ [rs c; rn c; rp c; rl c] ++ P1) x0) as [_ Hs]; [done| | |].
  { unfold addr, tlen. rewrite !length_app. simpl. lia. }
  { rewrite flat_app. unfold flat at 2. cbn [map concat]. unfold raw_cells at 1. rewrite Hp. cells_eq. }
  unfold set_right_border_marker, of_chunks at 1.
  erewrite bind_ok; [|apply (Hs FREE (flat (cs1 ++ c1 :: c2_0 :: cs2)))].
  2:{ rewrite flat_app. unfold flat at 2. cbn [map concat]. unfold raw_cells at 1 2. cells_eq. }
  fold (of_chunks (cs1 ++ c1 :: c2_0 :: cs2)). rewrite (snoc_focus cs1 c1 (c2_0 :: cs2)), of_chunks_focus.
  replace (addr cs1 + (s1 / 8 + 1)) with (addr (cs1 ++ [c1]) - 4)
    by (rewrite addr_snoc; unfold clen; simpl; lia).
  rewrite (make_chunk_at b hd (flat (cs1 ++ [c1])) (flat cs2) (addr (cs1 ++ [c1])) Hb eq_refl c2_0 s2 ALLOCATED H2).
  by rewrite (snoc_focus cs1 c1 (c2 :: cs2)), (of_chunks_focus (cs1 ++ [c1]) c2).
Qed.

Lemma merge_on cs1 l r cs2 :
  rs l / 8 = Z.of_nat (length (pay l)) -> rs r / 8 = Z.of_nat (length (pay r)) ->
  (rn r = 0 <-> cs2 = []) -> (cs2 <> [] -> rn r = addr (cs1 ++ [l; r])) ->
  let m := mk_raw (u64 (rs l + rs r + METAINFO_SIZE)) (rn r) (rp l) FREE
             (pay l ++ rr l :: rs r :: rn r :: rp r :: rl r :: pay r) FREE in
  merge_chunks (addr cs1) (addr (cs1 ++ [l])) (of_chunks (cs1 ++ l :: r :: cs2)) =
    Ok (tt, of_chunks (cs1 ++ m :: set_prev_head (addr cs1) cs2)).
Proof.
  intros Hl Hr Hz Ha m. unfold merge_chunks. rewrite (snoc_focus cs1 l (r :: cs2)).
  run (proj1 (size_on (cs1 ++ [l]) r cs2)). run (proj2 (right_on (cs1 ++ [l]) r cs2 (rs r) Hr) FREE).
  run (proj1 (next_on (cs1 ++ [l]) _ cs2)). cbn [rs rn rp rl pay rr].
  set (r1 := mk_raw (rs r) (rn r) (rp r) (rl r) (pay r) FREE).
  rewrite (snoc_focus (cs1 ++ [l]) r1 cs2).
  assert (Hsame : addr ((cs1 ++ [l]) ++ [r1]) = addr (cs1 ++ [l; r])).
  { apply addr_same. rewrite <- app_assoc. simpl. by rewrite !tlen_app, !tlen_cons. }
  erewrite bind_ok by (apply set_prev_next; [done|by rewrite Hsame]).
  rewrite <- !app_assoc. cbn [app]. set (cs2' := set_prev_head (addr cs1) cs2).
  run (proj2 (left_on cs1 l (r1 :: cs2')) FREE). run (proj2 (next_on cs1 _ (r1 :: cs2')) (rn r)).
  run (proj1 (size_on cs1 _ (r1 :: cs2'))). cbn [rs rn rp rl pay rr].
  set (l1 := mk_raw (rs l) (rn r) (rp l) FREE (pay l) (rr l)).
  assert (Hsz : get_size (addr (cs1 ++ [l])) (of_chunks (cs1 ++ l1 :: r1 :: cs2'))
                = Ok (rs r, of_chunks (cs1 ++ l1 :: r1 :: cs2'))).
  { replace (addr (cs1 ++ [l])) with (addr (cs1 ++ [l1]))
      by (apply addr_same; by rewrite !tlen_app, !tlen_cons).
    rewrite (snoc_focus cs1 l1 (r1 :: cs2')). exact (proj1 (size_on (cs1 ++ [l1]) r1 cs2')). }
  run Hsz. rewrite (proj2 (size_on cs1 l1 (r1 :: cs2'))). unfold of_chunks. do 3 f_equal.
  rewrite !flat_app. f_equal. unfold flat. cbn [map concat]. unfold raw_cells at 1 2 4. cells_eq.
Qed.

Lemma free_on cs1 c cs2 :
  rs c / 8 = Z.of_nat (length (pay c)) ->
  free_chunk (addr cs1) (of_chunks (cs1 ++ c :: cs2)) =
    Ok (tt, of_chunks (cs1 ++ mk_raw (rs c) (rn c) (rp c) FREE (pay c) FREE :: cs2)).
Proof.
  intros Hs. unfold free_chunk. run (proj2 (left_on cs1 c cs2) FREE).
  run (proj1 (size_on cs1 _ cs2)). by apply right_on.
Qed.
End chain.

(** ** Heaps *)

(** A heap that starts at cell [b] and consists of the chunks [cs]. *)
Record heap_ok (b : Z) (cs : list raw) : Prop := {
  ok_base : 0 < b;
  ok_nonempty : cs <> [];
  ok_linked : linked b 0 [] cs 0;
  ok_small : 8 * tlen cs < 2 ^ 64
}.

Definition heap_of (b : Z) (cs : list raw) : heap := of_chunks b (addr b []) cs.

(** Chunks that agree but for their links. *)
Definition same_content (c d : raw) : Prop :=
  rs c = rs d /\ rl c = rl d /\ pay c = pay d /\ rr c = rr d.

Lemma set_prev_head_same v cs : Forall2 same_content cs (set_prev_head v cs).
Proof.
  assert (Hrefl : forall l, Forall2 same_content l l) by (induction l; by constructor).
  destruct cs as [|c cs]; simpl; by constructor.
Qed.

Lemma set_prev_head_nil v cs : set_prev_head v cs = [] <-> cs = [].
Proof. by destruct cs. Qed.

Lemma set_prev_head_tlen v cs : tlen (set_prev_head v cs) = tlen cs.
Proof. destruct cs as [|c cs]; [done|]. simpl. by rewrite !tlen_cons. Qed.

Lemma div8 n : 8 * n / 8 = n.
Proof. rewrite Z.mul_comm. apply Z.div_mul. lia. Qed.

(** A focus in a heap: the chunk after [cs1]. *)
Lemma heap_ok_focus b cs1 c cs2 :
  heap_ok b (cs1 ++ c :: cs2) ->
  rs c = 8 * Z.of_nat (length (pay c)) /\ rs c / 8 = Z.of_nat (length (pay c)) /\
  rp c = last_addr b 0 [] cs1 /\ (rn c = 0 <-> cs2 = []) /\
  (cs2 <> [] -> rn c = addr b (cs1 ++ [c])) /\ rs c < 2 ^ 64.
Proof.
  intros [Hb _ Hl Hs]. apply linked_app in Hl as [_ Hl]. simpl app in Hl.
  pose proof (linked_next b Hb _ _ _ _ _ Hl eq_refl) as Hz.
  destruct Hl as (Hsz & Hp & Hn & _).
  split_and!; [done| |done|done| |].
  - by rewrite Hsz, div8.
  - rewrite Hn. by destruct cs2.
  - rewrite tlen_app, tlen_cons in Hs. unfold clen in Hs.
    pose proof (tlen_nonneg cs1). pose proof (tlen_nonneg cs2). lia.
Qed.

Lemma heap_ok_app b cs1 c cs2 c' cs2' :
  heap_ok b (cs1 ++ c :: cs2) -> tlen (c' :: cs2') = tlen (c :: cs2) ->
  (linked b (last_addr b 0 [] cs1) cs1 (c :: cs2) 0 -> linked b (last_addr b 0 [] cs1) cs1 (c' :: cs2') 0) ->
  heap_ok b (cs1 ++ c' :: cs2').
Proof.
  intros [Hb Hne Hl Hs] Ht Hk. split; [done| | |].
  - by destruct cs1.
  - apply linked_app in Hl as [Hl1 Hl2]. apply linked_app. split; [exact Hl1|]. by apply Hk.
  - rewrite tlen_app in *. lia.
Qed.

(** Merging two neighbours keeps a heap a heap. *)
Lemma merge_ok b cs1 l r cs2 :
  heap_ok b (cs1 ++ l :: r :: cs2) ->
  exists m cs2', 
    merge_chunks (addr b cs1) (addr b (cs1 ++ [l])) (heap_of b (cs1 ++ l :: r :: cs2)) =
      Ok (tt, heap_of b (cs1 ++ m :: cs2')) /\
    heap_ok b (cs1 ++ m :: cs2') /\ clen m = clen l + clen r /\ rl m = FREE /\ rr m = FREE /\
    Forall2 same_content cs2 cs2'.
Proof.
  intros H. pose proof (ok_base _ _ H) as Hb.
  destruct (heap_ok_focus b cs1 l (r :: cs2) H) as (Hl & Hl8 & _ & _ & _ & _).
  pose proof H as H'. rewrite (snoc_focus cs1 l (r :: cs2)) in H'.
  destruct (heap_ok_focus b (cs1 ++ [l]) r cs2 H') as (Hr & Hr8 & _ & Hz & Hn & _).
  rewrite <- app_assoc in Hn. simpl in Hn.
  pose proof (merge_on b (addr b []) Hb cs1 l r cs2 Hl8 Hr8 Hz Hn) as Hm. cbv zeta in Hm.
  set (m := mk_raw _ _ _ _ _ _) in Hm. exists m, (set_prev_head (addr b cs1) cs2).
  assert (Hlen : clen m = clen l + clen r).
  { unfold clen, m. simpl. rewrite length_app. simpl. lia. }
  split; [done|]. split; [|split_and!; [done|done|done|apply set_prev_head_same]].
  eapply heap_ok_app; [exact H| |].
  - rewrite !tlen_cons, set_prev_head_tlen. lia.
  - intros (_ & Hp & _ & _ & _ & Hrn & Hl2). pose proof (ok_small _ _ H) as Hs.
    rewrite tlen_app, !tlen_cons in Hs. pose proof (tlen_nonneg cs1). pose proof (tlen_nonneg cs2).
    assert (Ht : tlen ((cs1 ++ [l]) ++ [r]) = tlen (cs1 ++ [m])).
    { rewrite !tlen_app, !tlen_cons. change (tlen []) with 0. lia. }
    split_and!; [|done| |].
    + unfold m, METAINFO_SIZE. simpl. rewrite length_app. simpl.
      unfold clen in *. rewrite u64_small; lia.
    + change (rn m) with (rn r). rewrite Hrn. destruct cs2; [done|]. by apply addr_same.
    + apply linked_set_prev with (p := addr b (cs1 ++ [l])). by apply (linked_pre b cs2 _ ((cs1 ++ [l]) ++ [r])).
Qed.

Lemma free_ok b cs1 c cs2 :
  heap_ok b (cs1 ++ c :: cs2) ->
  let c' := mk_raw (rs c) (rn c) (rp c) FREE (pay c) FREE in
  free_chunk (addr b cs1) (heap_of b (cs1 ++ c :: cs2)) = Ok (tt, heap_of b (cs1 ++ c' :: cs2)) /\
  heap_ok b (cs1 ++ c' :: cs2).
Proof.
  intros H c'. pose proof (ok_base _ _ H) as Hb.
  destruct (heap_ok_focus b cs1 c cs2 H) as (_ & Hs8 & _). split; [by apply free_on|].
  apply (heap_ok_app b cs1 c cs2); [done|by rewrite !tlen_cons|].
  assert (Ht : tlen (cs1 ++ [c]) = tlen (cs1 ++ [c'])) by (rewrite !tlen_app, !tlen_cons; done).
  intros (Hs & Hp & Hn & Hl). split_and!; [done|done| |].
  - change (rn c') with (rn c). rewrite Hn. destruct cs2; [done|]. by apply addr_same.
  - by apply (linked_pre b cs2 _ (cs1 ++ [c])).
Qed.

Lemma tlen_length cs : Z.of_nat (length cs) <= tlen cs.
Proof.
  induction cs as [|c cs IH]; [done|]. rewrite tlen_cons. unfold clen. simpl length. lia.
Qed.

Lemma find_chunk_run b cs size :
  heap_ok b cs ->
  exists r, find_chunk (addr b []) size (heap_of b cs) = Ok (r, heap_of b cs) /\
    ((Forall (fun c => rs c <= size) cs /\ r = 0) \/
     exists cs1 c cs2, cs = cs1 ++ c :: cs2 /\ Forall (fun c => rs c <= size) cs1 /\
       size < rs c /\ r = addr b cs1).
Proof.
  intros [Hb Hne Hl _]. unfold find_chunk, gets, bind. cbn [cells heap_of of_chunks].
  apply (find_loop_spec b (addr b []) Hb size cs (length (flat cs)) 0 [] Hne Hl).
  pose proof (tlen_length cs) as Ht. unfold tlen in Ht. lia.
Qed.

(** Cutting [n] cells and their five cells of metadata off a chunk. *)
Lemma split_payload (P : list Z) n :
  (n + 5 <= length P)%nat ->
  exists P1 x0 x1 x2 x3 x4 P2, P = P1 ++ x0 :: x1 :: x2 :: x3 :: x4 :: P2 /\ length P2 = n.
Proof.
  intros Hn. rewrite <- (take_drop (length P - (n + 5)) P).
  assert (Hd : length (drop (length P - (n + 5)) P) = (n + 5)%nat) by (rewrite length_drop; lia).
  destruct (drop _ P) as [|x0 [|x1 [|x2 [|x3 [|x4 P2]]]]]; simpl in Hd; try lia.
  exists (take (length P - (n + 5)) P), x0, x1, x2, x3, x4, P2. split; [done|lia].
Qed.

Lemma first_unique k cs1 : forall ds1 c d cs2 ds2,
  cs1 ++ c :: cs2 = ds1 ++ d :: ds2 ->
  Forall (fun e => rs e <= k) cs1 -> k < rs c -> Forall (fun e => rs e <= k) ds1 -> k < rs d ->
  cs1 = ds1.
Proof.
  induction cs1 as [|e cs1 IH]; intros ds1 c d cs2 ds2 Heq Hc Hkc Hd Hkd; destruct ds1 as [|f ds1]; simpl in Heq.
  - done.
  - injection Heq as -> _. inversion Hd. lia.
  - injection Heq as -> _. inversion Hc. lia.
  - injection Heq as -> Heq. inversion_clear Hc. inversion_clear Hd. f_equal. by eapply IH.
Qed.

(** [c] has been cut into [c1] and the allocated chunk [c2] of [n] cells. *)
Record cut (c : raw) (n : nat) (c1 c2 : raw) : Prop := {
  cut_left : rl c1 = rl c /\ rr c1 = FREE;
  cut_right : rl c2 = ALLOCATED /\ rr c2 = ALLOCATED /\ length (pay c2) = n;
  cut_payload : exists meta, pay c = pay c1 ++ meta ++ pay c2 /\ length meta = 5%nat
}.

(** What [myalloc] does once it has found [chunk]. *)
Definition carve (chunk size : Z) : M heap Z :=
  chunk_size <- get_size chunk ;;
  let old_chunk_new_size := u64 (chunk_size - (size + 40)) in
  set_size chunk old_chunk_new_size ;;
  set_right_border_marker chunk old_chunk_new_size FREE ;;
  new_chunk <- make_chunk (chunk + (old_chunk_new_size / 8 + 1)) size ALLOCATED ;;
  add_next chunk new_chunk ;;
  ret new_chunk.

Lemma carve_ok b cs1 c cs2 n :
  heap_ok b (cs1 ++ c :: cs2) -> 8 * Z.of_nat n + 40 < rs c ->
  exists c1 c2 cs2',
    carve (addr b cs1) (8 * Z.of_nat n) (heap_of b (cs1 ++ c :: cs2)) =
      Ok (addr b (cs1 ++ [c1]), heap_of b (cs1 ++ c1 :: c2 :: cs2')) /\
    heap_ok b (cs1 ++ c1 :: c2 :: cs2') /\ cut c n c1 c2 /\ Forall2 same_content cs2 cs2' /\
    clen c1 + clen c2 = clen c.
Proof.
  intros H Hbig. pose proof (ok_base _ _ H) as Hb.
  destruct (heap_ok_focus b cs1 c cs2 H) as (Hs & Hs8 & _ & Hz & Hn & Hsm).
  unfold carve, heap_of. run (proj1 (size_on b _ Hb cs1 c cs2)).
  destruct (split_payload (pay c) n) as (P1 & x0 & x1 & x2 & x3 & x4 & P2 & Hpay & HP2); [lia|].
  assert (Hlen : length (pay c) = (length P1 + 5 + n)%nat) by (rewrite Hpay, length_app; simpl; lia).
  rewrite u64_small by lia.
  set (s1 := rs c - (8 * Z.of_nat n + 40)). assert (Hs1 : s1 = 8 * Z.of_nat (length P1)) by (unfold s1; lia).
  run (proj2 (size_on b _ Hb cs1 c cs2) s1).
  pose proof (split_on b (addr b []) Hb cs1 (mk_raw s1 (rn c) (rp c) (rl c) (pay c) (rr c)) cs2
    P1 x0 x1 x2 x3 x4 P2 s1 (8 * Z.of_nat n) Hpay ltac:(rewrite Hs1; apply div8)
    ltac:(rewrite HP2; apply div8)) as Hsplit. cbv zeta in Hsplit. cbn [rs rn rp rl pay rr] in Hsplit.
  rewrite <- bind_assoc, (bind_ok _ _ _ _ _ Hsplit).
  set (c1_0 := mk_raw s1 (rn c) (rp c) (rl c) P1 FREE).
  set (c2_0 := mk_raw (8 * Z.of_nat n) 0 0 ALLOCATED P2 ALLOCATED).
  assert (Ht : tlen (cs1 ++ [c1_0; c2_0]) = tlen (cs1 ++ [c])).
  { rewrite !tlen_app, !tlen_cons. unfold clen. simpl. lia. }
  pose proof (add_next_on b (addr b []) Hb cs1 c1_0 c2_0 cs2 Hz
                ltac:(intros E; rewrite (addr_same b _ _ Ht); by apply Hn)) as Hadd.
  cbv zeta in Hadd. run Hadd. cbn [rs rn rp rl pay rr].
  set (c1 := mk_raw (rs c1_0) _ _ _ _ _). set (c2 := mk_raw (rs c2_0) _ _ _ _ _).
  exists c1, c2, (set_prev_head (addr b (cs1 ++ [c1_0])) cs2).
  assert (Ht1 : tlen (cs1 ++ [c1]) = tlen (cs1 ++ [c1_0])) by (by rewrite !tlen_app, !tlen_cons).
  assert (Hcl : clen c1 + clen c2 = clen c) by (unfold clen; simpl; lia).
  split; [unfold ret; by rewrite (addr_same b _ _ Ht1)|]. split; [|split; [|split; [apply set_prev_head_same|done]]].
  - apply (heap_ok_app b cs1 c cs2); [done|rewrite !tlen_cons, set_prev_head_tlen; lia|].
    intros (_ & Hp & Hrn & Hl2).
    assert (Ht2 : tlen ((cs1 ++ [c1]) ++ [c2]) = tlen (cs1 ++ [c])).
    { rewrite !tlen_app, !tlen_cons. change (tlen []) with 0. lia. }
    split_and!; [done|done|by apply addr_same|]. split_and!; [simpl; lia|done| |].
    + change (rn c2) with (rn c). rewrite Hrn. destruct cs2; [done|]. by apply addr_same.
    + rewrite (addr_same b _ _ Ht1). apply linked_set_prev with (p := addr b cs1).
      by apply (linked_pre b cs2 _ (cs1 ++ [c])).
  - split; [done|by split|]. exists [x0; x1; x2; x3; x4]. by split.
Qed.

(** [myalloc] at the first chunk that is large enough. *)
Lemma myalloc_cut b cs1 c cs2 n :
  heap_ok b (cs1 ++ c :: cs2) -> Forall (fun d => rs d <= 8 * Z.of_nat n + 40) cs1 ->
  8 * Z.of_nat n + 40 < rs c ->
  exists c1 c2 cs2',
    myalloc (8 * Z.of_nat n) (heap_of b (cs1 ++ c :: cs2)) =
      Ok (addr b (cs1 ++ [c1]), heap_of b (cs1 ++ c1 :: c2 :: cs2')) /\
    heap_ok b (cs1 ++ c1 :: c2 :: cs2') /\ cut c n c1 c2 /\ Forall2 same_content cs2 cs2' /\
    clen c1 + clen c2 = clen c.
Proof.
  intros H Hfit Hbig. pose proof (ok_base _ _ H) as Hb.
  destruct (heap_ok_focus b cs1 c cs2 H) as (_ & _ & _ & _ & _ & Hsm).
  assert (Hrun : myalloc (8 * Z.of_nat n) (heap_of b (cs1 ++ c :: cs2)) =
                 carve (addr b cs1) (8 * Z.of_nat n) (heap_of b (cs1 ++ c :: cs2))).
  { unfold myalloc, METAINFO_SIZE. rewrite u64_small by lia. unfold gets.
    rewrite (bind_ok _ _ _ (addr b []) (heap_of b (cs1 ++ c :: cs2))) by done.
    destruct (find_chunk_run b _ (8 * Z.of_nat n + 40) H)
      as (r & Hr & [[Hall _]|(ds1 & d & ds2 & Heq & Hds & Hd & ->)]).
    { apply Forall_app in Hall as [_ Hall]. inversion Hall. lia. }
    rewrite <- (first_unique (8 * Z.of_nat n + 40) cs1 ds1 c d cs2 ds2) in Hr by done.
    rewrite (bind_ok _ _ _ _ _ Hr), (proj2 (Z.eqb_neq _ 0)) by (pose proof (addr_pos b Hb cs1); lia). done. }
  rewrite Hrun. by apply carve_ok.
Qed.

(** ** Properties of the allocator *)

(** a region of [n + 5] cells handed to [mysetup] becomes one free chunk of
    [n] payload cells. *)
Theorem mysetup_one_chunk b cs n :
  0 < b -> Z.of_nat (length cs) = n + 5 -> 0 <= n -> 8 * (n + 5) < 2 ^ 64 ->
  exists c, mysetup b (8 * (n + 5)) (mk_heap b cs 0) = Ok (tt, heap_of b [c]) /\
    heap_ok b [c] /\ rs c = 8 * n /\ rl c = FREE /\ rr c = FREE.
Proof.
  intros Hb Hlen Hn Hsm. unfold mysetup, METAINFO_SIZE. rewrite u64_small by lia.
  destruct cs as [|x0 [|x1 [|x2 [|x3 cs]]]]; simpl in Hlen; try lia.
  destruct (exists_last (l := cs)) as (P & x4 & ->); [by intros ->; simpl in *; lia|].
  rewrite length_app in Hlen. simpl in Hlen.
  pose proof (make_chunk_at b 0 [] [] (b + 4) Hb ltac:(simpl; lia) (mk_raw x0 x1 x2 x3 P x4)
    (8 * (n + 5) - 40) FREE) as Hmk. unfold at_chunk, raw_cells in Hmk. simpl in Hmk.
  rewrite !app_nil_r in Hmk. replace (b + 4 - 4) with b in Hmk by lia.
  run (Hmk ltac:(replace (8 * (n + 5) - 40) with (8 * n) by lia; rewrite div8; lia)).
  exists (mk_raw (8 * (n + 5) - 40) 0 0 FREE P FREE). split_and!; [|split|simpl; lia|done|done].
  - unfold set_head, modify, heap_of, of_chunks, flat. simpl. rewrite app_nil_r. unfold raw_cells, addr. simpl.
    do 3 f_equal. change (tlen []) with 0. lia.
  - done.
  - done.
  - simpl. split_and!; [lia|done|done|done].
  - unfold tlen, flat. simpl. rewrite !length_app. simpl. lia.
Qed.

(** C10: [myalloc] of a multiple of eight bytes, on every heap: when no chunk is
    larger than the request and its metadata it returns null and changes
    nothing; otherwise it cuts the request off the end of the first such chunk
    and returns the new chunk.  The heap stays a well-linked sequence of chunks
    over the same cells, and every other chunk keeps its size, markers and
    payload. *)
Theorem myalloc_first_fit b cs n :
  heap_ok b cs -> 8 * Z.of_nat n + 40 < 2 ^ 64 ->
  (Forall (fun c => rs c <= 8 * Z.of_nat n + 40) cs /\
   myalloc (8 * Z.of_nat n) (heap_of b cs) = Ok (0, heap_of b cs)) \/
  exists cs1 c cs2 c1 c2 cs2',
    cs = cs1 ++ c :: cs2 /\ Forall (fun d => rs d <= 8 * Z.of_nat n + 40) cs1 /\
    8 * Z.of_nat n + 40 < rs c /\
    myalloc (8 * Z.of_nat n) (heap_of b cs) =
      Ok (addr b (cs1 ++ [c1]), heap_of b (cs1 ++ c1 :: c2 :: cs2')) /\
    heap_ok b (cs1 ++ c1 :: c2 :: cs2') /\ cut c n c1 c2 /\ Forall2 same_content cs2 cs2' /\
    clen c1 + clen c2 = clen c.
Proof.
  intros H Hsm. destruct (find_chunk_run b cs (8 * Z.of_nat n + 40) H)
    as (r & Hr & [[Hall ->]|(cs1 & c & cs2 & -> & Hall & Hfit & _)]).
  - left. split; [done|]. unfold myalloc, METAINFO_SIZE. rewrite u64_small by lia. unfold gets.
    rewrite (bind_ok _ _ _ (addr b []) (heap_of b cs)) by done. by rewrite (bind_ok _ _ _ _ _ Hr).
  - right. destruct (myalloc_cut b cs1 c cs2 n H Hall Hfit) as (c1 & c2 & cs2' & Hrun).
    by exists cs1, c, cs2, c1, c2, cs2'.
Qed.

(** Both markers of a chunk agree. *)
Definition marked (c : raw) : Prop :=
  rl c = rr c /\ (rl c = FREE \/ rl c = ALLOCATED).

(** What freeing the chunk between [cs1] and [cs2] leaves: one free chunk [m],
    merged with the free neighbours [c] had, between the chunks [A] and [B]
    that remain. *)
Record coalesced (cs1 : list raw) (c : raw) (cs2 A : list raw) (m : raw) (B : list raw) : Prop := {
  co_free : rl m = FREE /\ rr m = FREE;
  co_left : (A = cs1 /\ forall l, last cs1 = Some l -> rl l <> FREE) \/
            (exists l, cs1 = A ++ [l] /\ rl l = FREE);
  co_right : (Forall2 same_content cs2 B /\ forall r, list.head cs2 = Some r -> rl r <> FREE) \/
             (exists r cs2', cs2 = r :: cs2' /\ rl r = FREE /\ Forall2 same_content cs2' B);
  co_size : tlen (A ++ m :: B) = tlen (cs1 ++ c :: cs2)
}.

Lemma same_content_refl cs : Forall2 same_content cs cs.
Proof. induction cs; by constructor. Qed.

Lemma same_content_tlen cs ds : Forall2 same_content cs ds -> tlen cs = tlen ds.
Proof.
  induction 1 as [|c d cs ds (_ & _ & Hp & _) _ IH]; [done|].
  rewrite !tlen_cons, IH. unfold clen. by rewrite Hp.
Qed.

Lemma same_content_trans cs ds es :
  Forall2 same_content cs ds -> Forall2 same_content ds es -> Forall2 same_content cs es.
Proof.
  intros H1. revert es. induction H1 as [|c d cs ds Hc _ IH]; intros es H2; inversion_clear H2 as [|? e ? es' Hd H2'].
  - constructor.
  - constructor; [|by apply IH]. unfold same_content in *. intuition congruence.
Qed.

Section myfree.
Context (b : Z) (cs1 : list raw) (c : raw) (cs2 : list raw).
Hypotheses (H : heap_ok b (cs1 ++ c :: cs2)) (Hm : Forall marked (cs1 ++ c :: cs2)).

(** The four ways [myfree] ends, by the neighbours it merges with. *)

Lemma free_alone :
  (forall l, last cs1 = Some l -> rl l <> FREE) -> (forall r, list.head cs2 = Some r -> rl r <> FREE) ->
  exists A m B, free_chunk (addr b cs1) (heap_of b (cs1 ++ c :: cs2)) = Ok (tt, heap_of b (A ++ m :: B)) /\
    heap_ok b (A ++ m :: B) /\ coalesced cs1 c cs2 A m B.
Proof.
  intros Hl Hr. destruct (free_ok b cs1 c cs2 H) as [Hrun Hok].
  eexists cs1, _, cs2. split; [exact Hrun|]. split; [exact Hok|].
  split; [done|left; by split|left; split; [apply same_content_refl|done]|].
  by rewrite !tlen_app, !tlen_cons.
Qed.

Lemma free_right r cs2' :
  (forall l, last cs1 = Some l -> rl l <> FREE) -> cs2 = r :: cs2' -> rl r = FREE ->
  exists A m B, merge_chunks (addr b cs1) (addr b (cs1 ++ [c])) (heap_of b (cs1 ++ c :: cs2))
      = Ok (tt, heap_of b (A ++ m :: B)) /\
    heap_ok b (A ++ m :: B) /\ coalesced cs1 c cs2 A m B.
Proof.
  intros Hl E Hr. pose proof H as Hh. rewrite E in Hh |- *.
  destruct (merge_ok b cs1 c r cs2' Hh) as (m & B & Hrun & Hok & Hlen & Hml & Hmr & Hsame).
  exists cs1, m, B. split; [done|]. split; [done|].
  split; [done|left; by split|right; by exists r, cs2'|].
  rewrite !tlen_app, !tlen_cons. pose proof (ok_small _ _ Hok).
  pose proof (same_content_tlen _ _ Hsame). lia.
Qed.

Lemma free_left A l :
  cs1 = A ++ [l] -> rl l = FREE -> (forall r, list.head cs2 = Some r -> rl r <> FREE) ->
  exists m B, merge_chunks (addr b A) (addr b cs1) (heap_of b (cs1 ++ c :: cs2))
      = Ok (tt, heap_of b (A ++ m :: B)) /\
    heap_ok b (A ++ m :: B) /\ coalesced cs1 c cs2 A m B.
Proof.
  intros E Hl Hr. pose proof H as Hh. rewrite E in Hh |- *. rewrite <- app_assoc in Hh |- *.
  destruct (merge_ok b A l c cs2 Hh) as (m & B & Hrun & Hok & Hlen & Hml & Hmr & Hsame).
  exists m, B. split; [done|]. split; [done|].
  split; [done|right; by exists l|left; by split|].
  rewrite <- app_assoc. simpl. rewrite !tlen_app, !tlen_cons.
  pose proof (same_content_tlen _ _ Hsame). lia.
Qed.

Lemma free_both A l r cs2' :
  cs1 = A ++ [l] -> rl l = FREE -> cs2 = r :: cs2' -> rl r = FREE ->
  exists m B, (merge_chunks (addr b cs1) (addr b (cs1 ++ [c])) ;; merge_chunks (addr b A) (addr b cs1))
      (heap_of b (cs1 ++ c :: cs2)) = Ok (tt, heap_of b (A ++ m :: B)) /\
    heap_ok b (A ++ m :: B) /\ coalesced cs1 c cs2 A m B.
Proof.
  intros El Hl Er Hr.
  pose proof H as Hh. rewrite Er in Hh |- *.
  destruct (merge_ok b cs1 c r cs2' Hh) as (m1 & B1 & Hrun1 & Hok1 & Hlen1 & _ & _ & Hsame1).
  run Hrun1. clear Hrun1. rewrite El in Hok1 |- *. rewrite <- app_assoc in Hok1 |- *.
  destruct (merge_ok b A l m1 B1 Hok1) as (m & B & Hrun & Hok & Hlen & Hml & Hmr & Hsame).
  exists m, B. split; [done|]. split; [done|].
  split; [done|right; by exists l|right; exists r, cs2'; split_and!; [done|done|by eapply same_content_trans]|].
  rewrite <- app_assoc. simpl. rewrite !tlen_app, !tlen_cons.
  pose proof (same_content_tlen _ _ Hsame). pose proof (same_content_tlen _ _ Hsame1). lia.
Qed.

(** What [myfree] reads of the two neighbours. *)
Lemma next_marker r cs2' :
  cs2 = r :: cs2' ->
  rn c = addr b (cs1 ++ [c]) /\ rn c <> 0 /\
  get_left_border_marker (rn c) (heap_of b (cs1 ++ c :: cs2)) = Ok (rl r, heap_of b (cs1 ++ c :: cs2)).
Proof.
  intros E. pose proof (ok_base _ _ H) as Hb. destruct (heap_ok_focus b cs1 c cs2 H) as (_ & _ & _ & _ & Hn & _).
  assert (Hr : rn c = addr b (cs1 ++ [c])) by (apply Hn; by rewrite E).
  split; [done|]. split; [rewrite Hr; pose proof (addr_pos b Hb (cs1 ++ [c])); lia|].
  rewrite Hr, E, (snoc_focus cs1 c (r :: cs2')). apply (proj1 (left_on b _ Hb (cs1 ++ [c]) r cs2')).
Qed.

Lemma prev_marker A l :
  cs1 = A ++ [l] ->
  rp c = addr b A /\ rp c <> 0 /\
  get_left_border_marker (addr b A) (heap_of b (cs1 ++ c :: cs2)) = Ok (rl l, heap_of b (cs1 ++ c :: cs2)) /\
  get_right_border_marker (addr b A) (heap_of b (cs1 ++ c :: cs2)) = Ok (rl l, heap_of b (cs1 ++ c :: cs2)).
Proof.
  intros E. pose proof (ok_base _ _ H) as Hb. destruct (heap_ok_focus b cs1 c cs2 H) as (_ & _ & Hp & _).
  pose proof H as Hh. rewrite E in Hp, Hh, Hm |- *. rewrite last_addr_snoc in Hp. simpl in Hp.
  rewrite <- app_assoc in Hh, Hm |- *. destruct (heap_ok_focus b A l (c :: cs2) Hh) as (_ & Hl8 & _).
  assert (Hml : rl l = rr l).
  { apply Forall_app in Hm as [_ Hm']. inversion_clear Hm' as [|? ? Hl _]. apply Hl. }
  split; [done|]. split; [rewrite Hp; pose proof (addr_pos b Hb A); lia|].
  split; [apply (proj1 (left_on b _ Hb A l (c :: cs2)))|].
  rewrite Hml. apply (get_right_on b _ Hb A l (c :: cs2) Hl8).
Qed.

(** The tests of [myfree], on a chunk that is allocated. *)
Lemma myfree_run :
  rl c = ALLOCATED ->
  exists A m B, myfree (addr b cs1) (heap_of b (cs1 ++ c :: cs2)) = Ok (tt, heap_of b (A ++ m :: B)) /\
    heap_ok b (A ++ m :: B) /\ coalesced cs1 c cs2 A m B.
Proof.
  intros Hc. pose proof (ok_base _ _ H) as Hb. pose proof (addr_pos b Hb cs1).
  destruct (heap_ok_focus b cs1 c cs2 H) as (_ & Hc8 & Hp & Hz & _ & _).
  assert (Hcm : rr c = ALLOCATED).
  { rewrite <- Hc. apply Forall_app in Hm as [_ Hm']. inversion_clear Hm' as [|? ? Hl _]. symmetry. apply Hl. }
  unfold myfree. rewrite (proj2 (Z.eqb_neq (addr b cs1) 0)) by lia. unfold heap_of at 1.
  rewrite (bind_ok _ _ _ _ _ (get_right_on b _ Hb cs1 c cs2 Hc8)), Hcm.
  change (ALLOCATED =? FREE) with false. cbn match.
  rewrite (bind_ok _ _ _ _ _ (proj1 (left_on b _ Hb cs1 c cs2))), Hc.
  change (ALLOCATED =? FREE) with false. cbn match.
  rewrite (bind_ok _ _ _ _ _ (proj1 (prev_on b _ Hb cs1 c cs2))),
    (bind_ok _ _ _ _ _ (proj1 (next_on b _ Hb cs1 c cs2))).
  fold (heap_of b (cs1 ++ c :: cs2)).
  assert (Hl : cs1 = [] \/ exists A l, cs1 = A ++ [l]).
  { destruct cs1 as [|x xs]; [by left|right]. destruct (exists_last (l := x :: xs)) as (A & l & ?); [done|by exists A, l]. }
  assert (Hr : cs2 = [] \/ exists r cs2', cs2 = r :: cs2') by (destruct cs2; eauto).
  destruct Hl as [El|(A & l & El)], Hr as [Er|(r & cs2' & Er)].
  - rewrite Hp, (proj2 Hz Er), El. cbn [last_addr Z.eqb andb]. rewrite <- El.
    apply free_alone; [by rewrite El|by rewrite Er].
  - destruct (next_marker r cs2' Er) as (Hn & Hn0 & Hmk).
    rewrite (proj2 (Z.eqb_neq (rn c) 0) Hn0), Hp, El. cbn [last_addr Z.eqb andb negb]. rewrite <- El.
    rewrite (bind_ok _ _ _ _ _ Hmk), Hn. destruct (Z.eqb_spec (rl r) FREE) as [Ef|Ef].
    + by apply (free_right r cs2'); [rewrite El| |].
    + apply free_alone; [by rewrite El|]. rewrite Er. by intros ? [= <-].
  - destruct (prev_marker A l El) as (Hpa & Hp0 & _ & Hmk).
    rewrite (proj2 Hz Er), (proj2 (Z.eqb_neq (rp c) 0) Hp0). cbn [Z.eqb andb negb].
    rewrite Hpa, (bind_ok _ _ _ _ _ Hmk). destruct (Z.eqb_spec (rl l) FREE) as [Ef|Ef].
    + exists A. apply (free_left A l); [done|done|by rewrite Er].
    + apply free_alone; [rewrite El, last_snoc; by intros ? [= <-]|by rewrite Er].
  - destruct (next_marker r cs2' Er) as (Hn & Hn0 & Hmkr). destruct (prev_marker A l El) as (Hpa & Hp0 & Hmkl & _).
    rewrite (proj2 (Z.eqb_neq (rn c) 0) Hn0), (proj2 (Z.eqb_neq (rp c) 0) Hp0). cbn [andb negb].
    rewrite Hpa, (bind_ok _ _ _ _ _ Hmkl), (bind_ok _ _ _ _ _ Hmkr), Hn.
    destruct (Z.eqb_spec (rl l) FREE) as [Fl|Fl], (Z.eqb_spec (rl r) FREE) as [Fr|Fr]; cbn [andb negb].
    + exists A. by apply (free_both A l r cs2').
    + exists A. apply (free_left A l); [done|done|rewrite Er; by intros ? [= <-]].
    + apply (free_right r cs2'); [rewrite El, last_snoc; by intros ? [= <-]|done|done].
    + apply free_alone; [rewrite El, last_snoc; by intros ? [= <-]|rewrite Er; by intros ? [= <-]].
Qed.
End myfree.

(** No two neighbours are free. *)
Fixpoint no_adjacent_free (cs : list raw) : Prop :=
  match cs with
  | c :: ((d :: _) as cs') => (rl c <> FREE \/ rl d <> FREE) /\ no_adjacent_free cs'
  | _ => True
  end.

Lemma no_adjacent_free_app A m B :
  no_adjacent_free (A ++ m :: B) <->
  no_adjacent_free A /\ no_adjacent_free B /\
  (forall l, last A = Some l -> rl l <> FREE \/ rl m <> FREE) /\
  (forall r, list.head B = Some r -> rl m <> FREE \/ rl r <> FREE).
Proof.
  induction A as [|a A IH].
  - destruct B as [|d B]; simpl; naive_solver.
  - destruct A as [|a' A].
    + destruct B as [|d B]; simpl; naive_solver.
    + change (no_adjacent_free ((a :: a' :: A) ++ m :: B))
        with ((rl a <> FREE \/ rl a' <> FREE) /\ no_adjacent_free ((a' :: A) ++ m :: B)).
      rewrite IH. change (last (a :: a' :: A)) with (last (a' :: A)). simpl no_adjacent_free. tauto.
Qed.

Lemma no_adjacent_free_same cs ds :
  Forall2 same_content cs ds -> no_adjacent_free cs -> no_adjacent_free ds.
Proof.
  induction 1 as [|c d cs ds (_ & Hl & _) Hcs IH]; [done|].
  destruct Hcs as [|c' d' cs ds (_ & Hl' & _) Hcs]; [done|]. intros [Hadj Hrest].
  split; [congruence|by apply IH].
Qed.

Lemma head_same cs ds :
  Forall2 same_content cs ds -> rl <$> list.head cs = rl <$> list.head ds.
Proof. intros [|c d cs' ds' (_ & Hl & _) _]; [done|]. simpl. by rewrite Hl. Qed.

Lemma coalesced_no_adjacent cs1 c cs2 A m B :
  coalesced cs1 c cs2 A m B -> no_adjacent_free (cs1 ++ c :: cs2) -> no_adjacent_free (A ++ m :: B).
Proof.
  intros [[Hm _] Hl Hr _] Hadj. apply no_adjacent_free_app in Hadj as (H1 & H2 & _ & _).
  apply no_adjacent_free_app.
  assert (HA : no_adjacent_free A /\ forall l, last A = Some l -> rl l <> FREE).
  { destruct Hl as [[-> Hl]|(l & -> & Hl)]; [done|].
    apply (no_adjacent_free_app A l []) in H1 as (HA & _ & Hla & _). split; [done|].
    intros x Hx. destruct (Hla x Hx); done. }
  assert (HB : no_adjacent_free B /\ forall r, list.head B = Some r -> rl r <> FREE).
  { destruct Hr as [[Hs Hr]|(r & cs2' & -> & Hr & Hs)].
    - split; [by eapply no_adjacent_free_same|]. intros r Hrb. pose proof (head_same _ _ Hs) as Hh.
      rewrite Hrb in Hh. destruct (list.head cs2) as [r0|] eqn:E; [|done]. injection Hh as Hh. rewrite <- Hh. by apply Hr.
    - apply (no_adjacent_free_app [] r cs2') in H2 as (_ & H2 & _ & Hhd). split; [by eapply no_adjacent_free_same|].
      intros x Hx. pose proof (head_same _ _ Hs) as Hh. rewrite Hx in Hh.
      destruct (list.head cs2') as [r0|] eqn:E; [|done]. injection Hh as Hh. rewrite <- Hh.
      destruct (Hhd r0 eq_refl); done. }
  destruct HA as [HA1 HA2], HB as [HB1 HB2]. split_and!; [done|done|left; by apply HA2|right; by apply HB2].
Qed.

Lemma marked_same cs ds : Forall2 same_content cs ds -> Forall marked cs -> Forall marked ds.
Proof.
  induction 1 as [|c d cs ds (_ & Hl & _ & Hr) _ IH]; [done|]. rewrite !Forall_cons.
  intros [[H1 H2] Hcs]. split; [|by apply IH]. split; [congruence|]. by rewrite <- Hl.
Qed.

Lemma coalesced_marked cs1 c cs2 A m B :
  coalesced cs1 c cs2 A m B -> Forall marked (cs1 ++ c :: cs2) -> Forall marked (A ++ m :: B).
Proof.
  intros [[Hl Hr] Hleft Hright _]. rewrite !Forall_app, !Forall_cons. intros (H1 & _ & H2). split_and!.
  - destruct Hleft as [[-> _]|(l & -> & _)]; [done|]. by apply Forall_app in H1 as [? _].
  - split; [congruence|by left].
  - destruct Hright as [[Hs _]|(r & cs2' & -> & _ & Hs)]; [by eapply marked_same|].
    apply Forall_cons in H2 as [_ H2]. by eapply marked_same.
Qed.

(** C8: [myfree] of an allocated chunk of a heap whose markers agree frees it
    and merges it with the neighbours that are free: the heap stays a
    well-linked sequence of chunks over the same cells with agreeing markers,
    the chunks that were not merged keep their contents, and if no two
    neighbours were free before, none are after. *)
Theorem myfree_coalesces b cs1 c cs2 :
  heap_ok b (cs1 ++ c :: cs2) -> Forall marked (cs1 ++ c :: cs2) -> rl c = ALLOCATED ->
  exists A m B,
    myfree (addr b cs1) (heap_of b (cs1 ++ c :: cs2)) = Ok (tt, heap_of b (A ++ m :: B)) /\
    heap_ok b (A ++ m :: B) /\ coalesced cs1 c cs2 A m B /\ Forall marked (A ++ m :: B) /\
    (no_adjacent_free (cs1 ++ c :: cs2) -> no_adjacent_free (A ++ m :: B)).
Proof.
  intros H Hm Hc. destruct (myfree_run b cs1 c cs2 H Hm Hc) as (A & m & B & Hrun & Hok & Hco).
  exists A, m, B. split_and!; [done|done|done|by eapply coalesced_marked|by apply coalesced_no_adjacent].
Qed.

(** C9: allocating and freeing again restores the heap: when the chunk that
    [myalloc] cuts is free and the one behind it is not, [myfree] of the result
    gives back a free chunk of the old size between the same chunks. *)
Theorem myalloc_myfree_roundtrip b cs1 c cs2 n :
  heap_ok b (cs1 ++ c :: cs2) -> Forall marked (cs1 ++ c :: cs2) ->
  Forall (fun d => rs d <= 8 * Z.of_nat n + 40) cs1 -> 8 * Z.of_nat n + 40 < rs c ->
  rl c = FREE -> (forall r, list.head cs2 = Some r -> rl r <> FREE) ->
  exists p h m B,
    myalloc (8 * Z.of_nat n) (heap_of b (cs1 ++ c :: cs2)) = Ok (p, h) /\
    myfree p h = Ok (tt, heap_of b (cs1 ++ m :: B)) /\ heap_ok b (cs1 ++ m :: B) /\
    rs m = rs c /\ rl m = FREE /\ rr m = FREE /\ Forall2 same_content cs2 B.
Proof.
  intros H Hm Hfit Hbig Hc Hnext.
  destruct (myalloc_cut b cs1 c cs2 n H Hfit Hbig) as (c1 & c2 & cs2' & Hrun & Hok & Hcut & Hsame & Hlen).
  destruct Hcut as [[Hl1 Hr1] (Hl2 & Hr2 & _) _].
  rewrite Forall_app, Forall_cons in Hm. destruct Hm as (Hm1 & Hmc & Hm2).
  rewrite (snoc_focus cs1 c1 (c2 :: cs2')) in Hok, Hrun.
  destruct (myfree_run b (cs1 ++ [c1]) c2 cs2' Hok) as (A & m & B & Hf & Hok' & Hco); [|done|].
  { rewrite !Forall_app, !Forall_cons. split_and!; [done| |done| |by eapply marked_same].
    - split; [congruence|left; congruence].
    - split; [congruence|by right]. }
  destruct Hco as [[Hml Hmr] Hleft Hright Hsz].
  assert (A = cs1) as ->.
  { destruct Hleft as [[-> Hne]|(l & E & _)].
    - exfalso. apply (Hne c1); [by rewrite last_snoc|congruence].
    - by apply app_inj_tail in E as [-> _]. }
  assert (HB : Forall2 same_content cs2' B).
  { destruct Hright as [[? _]|(r & cs3 & E & Hr & _)]; [done|]. exfalso.
    pose proof (head_same _ _ Hsame) as Hh. rewrite E in Hh. simpl in Hh.
    destruct (list.head cs2) as [r0|] eqn:Eh; [|done]. injection Hh as Hh.
    apply (Hnext r0 eq_refl). congruence. }
  exists (addr b (cs1 ++ [c1])), (heap_of b ((cs1 ++ [c1]) ++ c2 :: cs2')), m, B.
  split_and!; [done|done|done| |done|done|by eapply same_content_trans].
  destruct (heap_ok_focus b cs1 m B Hok') as (Hsm & _). destruct (heap_ok_focus b cs1 c cs2 H) as (Hsc & _).
  pose proof (same_content_tlen _ _ HB). rewrite !tlen_app, !tlen_cons in Hsz. change (tlen []) with 0 in Hsz.
  unfold clen in *. lia.
Qed.

(** [find_chunk] does not look at the markers: on a region of 100 cells,
    after an allocation of 600 bytes a second one of 80 bytes is cut out of the
    first, whose payload then contains the new chunk. *)
Theorem myalloc_splits_allocated :
  exists p1 p2 h1 h2 h,
    mysetup 16 800 (mk_heap 16 (replicate 100 0) 0) = Ok (tt, h) /\
    myalloc 600 h = Ok (p1, h1) /\ myalloc 80 h1 = Ok (p2, h2) /\
    p1 < p2 /\ p2 + 80 / 8 <= p1 + 600 / 8.
Proof.
  do 5 eexists. split; [vm_compute; reflexivity|]. split; [vm_compute; reflexivity|].
  split; [vm_compute; reflexivity|]. split; vm_compute; [reflexivity|discriminate].
Qed.

(** *** Zeroing *)

Lemma zero_loop_run b hd P : forall pre post,
  0 < b ->
  zero_loop (length P) (b + Z.of_nat (length pre)) (mk_heap b (pre ++ P ++ post) hd) =
    Ok (b + Z.of_nat (length pre + length P), mk_heap b (pre ++ replicate (length P) 0 ++ post) hd).
Proof.
  induction P as [|x P IH]; intros pre post Hb.
  - simpl. unfold ret. do 3 f_equal. lia.
  - cbn [length zero_loop app]. destruct (cell_at b (pre ++ x :: P ++ post) hd (b + Z.of_nat (length pre)) pre x (P ++ post)) as [_ Hs];
      [done..|].
    run (Hs 0 _ eq_refl).
    replace (b + Z.of_nat (length pre) + 1) with (b + Z.of_nat (length (pre ++ [0])))
      by (rewrite length_app; simpl; lia).
    rewrite (app_assoc pre [0] (P ++ post) : pre ++ 0 :: P ++ post = _), (IH (pre ++ [0]) post Hb).
    rewrite length_app, <- app_assoc. simpl. do 3 f_equal. lia.
Qed.

(** [mycalloc] of a product that does not overflow and is a multiple of
    eight returns a chunk all of whose cells are zero and changes no other
    chunk's contents. *)
Theorem mycalloc_zeroes b cs1 c cs2 n numitems size :
  heap_ok b (cs1 ++ c :: cs2) -> Forall (fun d => rs d <= 8 * Z.of_nat n + 40) cs1 ->
  8 * Z.of_nat n + 40 < rs c -> numitems * size = 8 * Z.of_nat n ->
  exists c1 c2 cs2',
    mycalloc numitems size (heap_of b (cs1 ++ c :: cs2)) =
      Ok (addr b (cs1 ++ [c1]), heap_of b (cs1 ++ c1 :: c2 :: cs2')) /\
    heap_ok b (cs1 ++ c1 :: c2 :: cs2') /\ pay c2 = replicate n 0 /\
    rl c2 = ALLOCATED /\ rr c2 = ALLOCATED /\ Forall2 same_content cs2 cs2'.
Proof.
  intros H Hfit Hbig Hprod. destruct (heap_ok_focus b cs1 c cs2 H) as (_ & _ & _ & _ & _ & Hsm).
  destruct (myalloc_cut b cs1 c cs2 n H Hfit Hbig) as (c1 & c2 & cs2' & Hrun & Hok & Hcut & Hsame & _).
  pose proof (ok_base _ _ H) as Hb. destruct Hcut as [_ (Hl2 & Hr2 & Hlen) _].
  unfold mycalloc. rewrite Hprod, u64_small by lia. run Hrun.
  rewrite (proj2 (Z.eqb_neq _ 0)) by (pose proof (addr_pos b Hb (cs1 ++ [c1])); lia).
  set (c2' := mk_raw (rs c2) (rn c2) (rp c2) (rl c2) (replicate n 0) (rr c2)).
  assert (Hz : setzero (addr b (cs1 ++ [c1])) (8 * Z.of_nat n) (heap_of b (cs1 ++ c1 :: c2 :: cs2'))
               = Ok (tt, heap_of b (cs1 ++ c1 :: c2' :: cs2'))).
  { unfold setzero. rewrite div8, Z.div_mul, Nat2Z.id by lia.
    replace (8 * Z.of_nat n - Z.of_nat n * 8) with 0 by lia.
    pose proof (zero_loop_run b (addr b []) (pay c2) (flat (cs1 ++ [c1]) ++ [rs c2; rn c2; rp c2; rl c2])
                  (rr c2 :: flat cs2') Hb) as Hzl. rewrite Hlen in Hzl.
    replace (b + Z.of_nat (length (flat (cs1 ++ [c1]) ++ [rs c2; rn c2; rp c2; rl c2]))) with (addr b (cs1 ++ [c1])) in Hzl
      by (unfold addr, tlen; rewrite (length_app (flat (cs1 ++ [c1]))); simpl; lia).
    rewrite !(snoc_focus cs1 c1 (_ :: cs2')). unfold heap_of. rewrite !of_chunks_focus.
    assert (E : forall Q, flat (cs1 ++ [c1]) ++ raw_cells (mk_raw (rs c2) (rn c2) (rp c2) (rl c2) Q (rr c2)) ++ flat cs2'
      = (flat (cs1 ++ [c1]) ++ [rs c2; rn c2; rp c2; rl c2]) ++ Q ++ rr c2 :: flat cs2') by (intros; cells_eq).
    unfold at_chunk, c2'. rewrite (E (replicate n 0)), (E (pay c2) : _ ++ raw_cells c2 ++ _ = _).
    by rewrite (bind_ok _ _ _ _ _ Hzl). }
  run Hz. exists c1, c2', cs2'. split; [done|]. split; [|done].
  rewrite (snoc_focus cs1 c1 (c2 :: cs2')) in Hok. rewrite (snoc_focus cs1 c1 (c2' :: cs2')).
  assert (Hlr : length (replicate n 0) = length (pay c2)) by (by rewrite length_replicate).
  apply (heap_ok_app b (cs1 ++ [c1]) c2 cs2'); [done| |].
  - rewrite !tlen_cons. unfold clen. simpl. rewrite Hlr. done.
  - assert (Ht : tlen ((cs1 ++ [c1]) ++ [c2]) = tlen ((cs1 ++ [c1]) ++ [c2'])).
    { rewrite !tlen_app, !tlen_cons. unfold clen. simpl. by rewrite Hlr. }
    intros (Hs & Hp & Hn & Hlk). split_and!; [by simpl; rewrite Hlr|done| |].
    + change (rn c2') with (rn c2). rewrite Hn. destruct cs2'; [done|]. by apply addr_same.
    + by apply (linked_pre b cs2' _ ((cs1 ++ [c1]) ++ [c2])).
Qed.

(** the last, partial cell: asked to clear the first [k] bytes of a cell,
    [setzero] keeps the cell modulo [2 ^ (64 - 8 * k)]: it clears the [k] most
    significant bytes, which on a little-endian machine are the last ones. *)
Theorem setzero_partial_cell b hd v k :
  0 < b -> 0 < k < 8 ->
  setzero b k (mk_heap b [v] hd) = Ok (tt, mk_heap b [v mod 2 ^ (64 - 8 * k)] hd).
Proof.
  intros Hb Hk. unfold setzero. rewrite (Z.div_small k 8) by lia.
  change (Z.to_nat (0 * 8 / 8)) with 0%nat. replace (k - 0 * 8) with k by lia.
  rewrite (proj2 (Z.eqb_neq k 0)) by lia. cbn [zero_loop]. rewrite (bind_ret_l b).
  edestruct (cell_at b [v] hd b [] v) as [Hl Hs]; [done|simpl; lia|done|].
  run Hl. erewrite Hs by done.
  assert (Hmask : get_offset_mask k = Z.ones (64 - 8 * k)).
  { assert (k = 1 \/ k = 2 \/ k = 3 \/ k = 4 \/ k = 5 \/ k = 6 \/ k = 7) as Hc by lia.
    repeat (destruct Hc as [-> | Hc]; [done|]). by subst. }
  by rewrite Hmask, Z.land_ones by lia.
Qed.

(** ** A concrete heap *)

(** From cell 8 on: a free chunk of nine payload cells and an allocated one of
    two. *)
Definition h_free : raw := mk_raw 72 26 0 FREE (replicate 9 7) FREE.
Definition h_used : raw := mk_raw 16 0 12 ALLOCATED [5; 6] ALLOCATED.
Definition demo : list raw := [h_free; h_used].

Lemma demo_ok : heap_ok 8 demo.
Proof. split; [lia|done| |by vm_compute]. vm_compute. tauto. Qed.

Lemma demo_marked : Forall marked demo.
Proof. repeat constructor; vm_compute; tauto. Qed.

Lemma mysetup_one_chunk_witness :
  exists c, mysetup 8 (8 * (9 + 5)) (mk_heap 8 (replicate 14 3) 0) = Ok (tt, heap_of 8 [c]) /\
    heap_ok 8 [c] /\ rs c = 72 /\ rl c = FREE /\ rr c = FREE.
Proof. apply (mysetup_one_chunk 8 (replicate 14 3) 9); [lia|reflexivity|lia|lia]. Defined.

Lemma myalloc_first_fit_witness :
  (Forall (fun c => rs c <= 8 * Z.of_nat 2 + 40) demo /\
   myalloc (8 * Z.of_nat 2) (heap_of 8 demo) = Ok (0, heap_of 8 demo)) \/
  exists cs1 c cs2 c1 c2 cs2',
    demo = cs1 ++ c :: cs2 /\ Forall (fun d => rs d <= 8 * Z.of_nat 2 + 40) cs1 /\
    8 * Z.of_nat 2 + 40 < rs c /\
    myalloc (8 * Z.of_nat 2) (heap_of 8 demo) =
      Ok (addr 8 (cs1 ++ [c1]), heap_of 8 (cs1 ++ c1 :: c2 :: cs2')) /\
    heap_ok 8 (cs1 ++ c1 :: c2 :: cs2') /\ cut c 2 c1 c2 /\ Forall2 same_content cs2 cs2' /\
    clen c1 + clen c2 = clen c.
Proof. apply (myalloc_first_fit 8 demo 2 demo_ok). reflexivity. Defined.

Lemma myfree_coalesces_witness :
  exists A m B,
    myfree (addr 8 [h_free]) (heap_of 8 demo) = Ok (tt, heap_of 8 (A ++ m :: B)) /\
    heap_ok 8 (A ++ m :: B) /\ coalesced [h_free] h_used [] A m B /\ Forall marked (A ++ m :: B) /\
    (no_adjacent_free demo -> no_adjacent_free (A ++ m :: B)).
Proof.
  exact (myfree_coalesces 8 [h_free] h_used [] demo_ok demo_marked eq_refl).
Defined.

Lemma myalloc_myfree_roundtrip_witness :
  exists p h m B,
    myalloc (8 * Z.of_nat 2) (heap_of 8 demo) = Ok (p, h) /\
    myfree p h = Ok (tt, heap_of 8 ([] ++ m :: B)) /\ heap_ok 8 ([] ++ m :: B) /\
    rs m = 72 /\ rl m = FREE /\ rr m = FREE /\ Forall2 same_content [h_used] B.
Proof.
  apply (myalloc_myfree_roundtrip 8 [] h_free [h_used] 2 demo_ok demo_marked);
    [constructor|reflexivity|reflexivity|]. intros r Hr. injection Hr as <-. discriminate.
Defined.

Lemma mycalloc_zeroes_witness :
  exists c1 c2 cs2',
    mycalloc 2 8 (heap_of 8 demo) = Ok (addr 8 ([] ++ [c1]), heap_of 8 ([] ++ c1 :: c2 :: cs2')) /\
    heap_ok 8 ([] ++ c1 :: c2 :: cs2') /\ pay c2 = [0; 0] /\
    rl c2 = ALLOCATED /\ rr c2 = ALLOCATED /\ Forall2 same_content [h_used] cs2'.
Proof.
  apply (mycalloc_zeroes 8 [] h_free [h_used] 2 2 8 demo_ok);
    [constructor|reflexivity|reflexivity].
Defined.

Lemma setzero_partial_cell_witness :
  setzero 8 1 (mk_heap 8 [255] 0) = Ok (tt, mk_heap 8 [255] 0).
Proof. exact (setzero_partial_cell 8 0 255 1 ltac:(lia) ltac:(lia)). Defined.
