(* ===== verification/MemCache.v ===== *)
(** * MemCache: the slab allocator

    Models [src/mem/mem_cache/]: [block.c], [slab.c], [list.c], [mem_cache.c]
    and their headers.  A slab is one region of memory: its header, then its
    blocks.  The store keeps the slab headers and the block headers by address;
    address [0] is the null pointer.  What [malloc] answers is an argument: null,
    or an address and the number of bytes that may be used there, against which
    the layout of a new slab is checked. *)

From S2P Require Import Prelude CInt Dll.
Open Scope Z_scope.

(** ** Data (block.h, list.h, mem_cache.h) *)

Record block := mk_block { b_size : Z; next_block : Z; slab_ptr : Z }.

(** The three lists of a cache; a slab's [list_ptr] points to one of them. *)
Inductive list_id := LFree | LPartial | LFull.

#[export] Instance list_id_eq_dec : EqDecision list_id.
Proof. solve_decision. Defined.

Record slab := mk_slab {
  s_size : Z;
  s_capacity : Z;
  block_size : Z;
  first_block : Z;
  prev_slab : Z;
  next_slab : Z;
  list_ptr : option list_id;
  raw_data : Z
}.

Record slab_list := mk_list { l_size : Z; l_head : Z }.

Record cache := mk_cache {
  slabs_free : slab_list;
  slabs_partial : slab_list;
  slabs_full : slab_list;
  object_size : Z;
  slab_order : Z;
  slab_objects : Z;
  slab_size : Z;
  slabs : gmap Z slab;
  blocks : gmap Z block
}.

Definition PAGE_SIZE : Z := 4096.
Definition DEFAULT_SIZE : Z := 10.
Definition sizeof_block : Z := 24.
Definition sizeof_slab : Z := 64.

(** ** The store *)

Definition with_slabs (c : cache) (s : gmap Z slab) : cache :=
  mk_cache (slabs_free c) (slabs_partial c) (slabs_full c) (object_size c) (slab_order c)
    (slab_objects c) (slab_size c) s (blocks c).
Definition with_blocks (c : cache) (b : gmap Z block) : cache :=
  mk_cache (slabs_free c) (slabs_partial c) (slabs_full c) (object_size c) (slab_order c)
    (slab_objects c) (slab_size c) (slabs c) b.
Definition get_list (c : cache) (i : list_id) : slab_list :=
  match i with LFree => slabs_free c | LPartial => slabs_partial c | LFull => slabs_full c end.
Definition put_list (c : cache) (i : list_id) (l : slab_list) : cache :=
  match i with
  | LFree => mk_cache l (slabs_partial c) (slabs_full c) (object_size c) (slab_order c)
               (slab_objects c) (slab_size c) (slabs c) (blocks c)
  | LPartial => mk_cache (slabs_free c) l (slabs_full c) (object_size c) (slab_order c)
               (slab_objects c) (slab_size c) (slabs c) (blocks c)
  | LFull => mk_cache (slabs_free c) (slabs_partial c) l (object_size c) (slab_order c)
               (slab_objects c) (slab_size c) (slabs c) (blocks c)
  end.

Definition slab_at (p : Z) : M cache slab :=
  fun c => if p =? 0 then Fault NullDeref
           else match slabs c !! p with Some s => Ok (s, c) | None => Fault Dangling end.
Definition set_slab (p : Z) (s : slab) : M cache unit :=
  _ <- slab_at p ;; modify (fun c => with_slabs c (<[p := s]> (slabs c))).
Definition block_at (p : Z) : M cache block :=
  fun c => if p =? 0 then Fault NullDeref
           else match blocks c !! p with Some b => Ok (b, c) | None => Fault Dangling end.
Definition set_block (p : Z) (b : block) : M cache unit :=
  _ <- block_at p ;; modify (fun c => with_blocks c (<[p := b]> (blocks c))).
Definition set_list (i : list_id) (l : slab_list) : M cache unit :=
  modify (fun c => put_list c i l).

Definition set_links (p prev next : Z) : M cache unit :=
  s <- slab_at p ;;
  set_slab p (mk_slab (s_size s) (s_capacity s) (block_size s) (first_block s) prev next
                (list_ptr s) (raw_data s)).
Definition set_prev_slab (p v : Z) : M cache unit :=
  s <- slab_at p ;; set_links p v (next_slab s).
Definition set_next_slab (p v : Z) : M cache unit :=
  s <- slab_at p ;; set_links p (prev_slab s) v.
Definition set_list_ptr (p : Z) (i : list_id) : M cache unit :=
  s <- slab_at p ;;
  set_slab p (mk_slab (s_size s) (s_capacity s) (block_size s) (first_block s) (prev_slab s)
                (next_slab s) (Some i) (raw_data s)).
Definition set_free_list (p first size : Z) : M cache unit :=
  s <- slab_at p ;;
  set_slab p (mk_slab size (s_capacity s) (block_size s) first (prev_slab s) (next_slab s)
                (list_ptr s) (raw_data s)).
Definition set_next_block (p v : Z) : M cache unit :=
  b <- block_at p ;; set_block p (mk_block (b_size b) v (slab_ptr b)).

(** ** block.c *)

(** [memcpy] of a block header into the region that ends at [limit]. *)
Definition write_block (limit p : Z) (b : block) : M cache unit :=
  if limit <? p + sizeof_block then fail OutOfBounds
  else modify (fun c => with_blocks c (<[p := b]> (blocks c))).

Fixpoint init_blocks (n : nat) (limit slab raw_data_ptr offset prev_block object_size : Z) : M cache unit :=
  match n with
  | O => ret tt
  | S n =>
      let raw_data_ptr := raw_data_ptr + offset in
      write_block limit raw_data_ptr (mk_block object_size 0 slab) ;;
      set_next_block prev_block raw_data_ptr ;;
      init_blocks n limit slab raw_data_ptr offset raw_data_ptr object_size
  end.

Definition init_block_list (limit slab object_size block_cnt : Z) : M cache unit :=
  if slab =? 0 then ret tt
  else
    s <- slab_at slab ;;
    let raw_data_ptr := raw_data s in
    let offset := u64 (object_size + sizeof_block) in
    write_block limit raw_data_ptr (mk_block object_size 0 slab) ;;
    set_free_list slab raw_data_ptr (s_size s) ;;
    init_blocks (Z.to_nat (block_cnt - 1)) limit slab raw_data_ptr offset raw_data_ptr object_size.

Definition alloc_block (slab : Z) : M cache Z :=
  s <- slab_at slab ;;
  if s_capacity s <=? s_size s then ret 0
  else
    let block := first_block s in
    b <- block_at block ;;
    set_free_list slab (next_block b) (u64 (s_size s + 1)) ;;
    set_next_block block 0 ;;
    ret (block + sizeof_block).

Definition free_block (slab target_block : Z) : M cache unit :=
  s <- slab_at slab ;;
  if s_size s =? 0 then ret tt
  else if first_block s =? target_block then ret tt
  else
    set_next_block target_block (first_block s) ;;
    set_free_list slab target_block (u64 (s_size s - 1)).

(** ** slab.c *)

(** The size asked of [malloc]. *)
Definition alloc_slab_bytes (order : Z) : Z := u64 (PAGE_SIZE * order).

(** [free] of the region: its header and the block headers in it. *)
Definition free_slab (slab : Z) : M cache unit :=
  _ <- slab_at slab ;;
  modify (fun c => with_blocks (with_slabs c (delete slab (slabs c)))
                     (filter (fun kb => slab_ptr (snd kb) <> slab) (blocks c))).

Definition slab_is_full (slab : Z) : M cache bool :=
  if slab =? 0 then fail Indeterminate
  else s <- slab_at slab ;; ret (s_capacity s <=? s_size s).

(** [malloc] answers an address and the bytes usable there. *)
Definition create_slab (malloc : Z -> option (Z * Z)) (object_size slab_order slab_objects : Z)
  : M cache Z :=
  match malloc (alloc_slab_bytes slab_order) with
  | None => ret 0
  | Some (p, usable) =>
      if usable <? sizeof_slab then fail OutOfBounds
      else
        modify (fun c => with_slabs c
          (<[p := mk_slab 0 slab_objects object_size 0 0 0 None (p + sizeof_slab)]> (slabs c))) ;;
        init_block_list (p + usable) p object_size slab_objects ;;
        ret p
  end.

(** ** list.c *)

Definition slab_list_init (i : list_id) : M cache unit := set_list i (mk_list 0 0).

Definition add_to_list (i : list_id) (slab : Z) : M cache unit :=
  if slab =? 0 then ret tt
  else
    l <- gets (fun c => get_list c i) ;;
    (if (l_size l =? 0) || (l_head l =? 0) then
       set_list i (mk_list (l_size l) slab) ;;
       set_prev_slab slab 0 ;;
       set_next_slab slab 0
     else
       set_prev_slab slab (l_head l) ;;
       set_next_slab (l_head l) slab ;;
       set_list i (mk_list (l_size l) slab)) ;;
    l <- gets (fun c => get_list c i) ;;
    set_list i (mk_list (u64 (l_size l + 1)) (l_head l)) ;;
    set_list_ptr slab i.

(** A null list is [None]. *)
Definition delete_from_list (i : option list_id) (slab : Z) : M cache unit :=
  match i with
  | None => ret tt
  | Some i =>
      if slab =? 0 then ret tt
      else
        l <- gets (fun c => get_list c i) ;;
        (if (l_head l =? slab) || (l_size l =? 0) then
           h <- slab_at (l_head l) ;;
           set_list i (mk_list (l_size l) (prev_slab h)) ;;
           (if prev_slab h =? 0 then ret tt else set_next_slab (prev_slab h) 0)
         else
           s <- slab_at slab ;;
           (if prev_slab s =? 0 then ret tt else set_next_slab (prev_slab s) (next_slab s)) ;;
           (if next_slab s =? 0 then ret tt else set_prev_slab (next_slab s) (prev_slab s))) ;;
        set_next_slab slab 0 ;;
        set_prev_slab slab 0 ;;
        l <- gets (fun c => get_list c i) ;;
        set_list i (mk_list (u64 (l_size l - 1)) (l_head l))
  end.

Definition slab_reposition (src : option list_id) (dest : list_id) (slab : Z) : M cache unit :=
  delete_from_list src slab ;; add_to_list dest slab.

Fixpoint slab_free_loop (fuel : nat) (i : list_id) (current_slab : Z) : M cache unit :=
  if current_slab =? 0 then ret tt
  else
    match fuel with
    | O => fail NoFuel
    | S fuel =>
        let temp := current_slab in
        s <- slab_at current_slab ;;
        delete_from_list (Some i) temp ;;
        free_slab temp ;;
        slab_free_loop fuel i (prev_slab s)
    end.

Definition slab_list_free (i : list_id) : M cache unit :=
  l <- gets (fun c => get_list c i) ;;
  if l_size l =? 0 then ret tt
  else fuel <- gets (fun c => size (slabs c)) ;; slab_free_loop fuel i (l_head l).

(** ** mem_cache.c *)

Definition calculate_slab_size (slab_order : Z) : outcome Z :=
  if 65 <=? slab_order then Fault Indeterminate
  else
    let exp := if negb (slab_order =? 0) then u64 (Z.shiftl 2 (slab_order - 1)) else 1 in
    Ok (u64 (exp * PAGE_SIZE)).

Fixpoint order_loop (fuel : nat) (base order total_size : Z) : outcome Z :=
  if (u64 (PAGE_SIZE * base) <? total_size) && (order <? 10) then
    match fuel with
    | O => Fault NoFuel
    | S fuel => order_loop fuel (u64 (Z.shiftl base 1)) (order + 1) total_size
    end
  else Ok order.

(** Ten rounds reach the bound on [order]. *)
Definition get_slab_order (object_size default_cnt : Z) : outcome Z :=
  let total_size := u64 (u64 (object_size + sizeof_block) * default_cnt + sizeof_slab) in
  if total_size <=? PAGE_SIZE then Ok 0
  else order_loop 10 2 1 total_size.

Definition calculate_object_cnt (slab_size object_size : Z) : Z :=
  let work_are_size := u64 (slab_size - sizeof_slab) in
  let block_size := u64 (object_size + sizeof_block) in
  if negb (block_size =? 0) then work_are_size / block_size else 0.

Definition cache_setup (object_size : Z) : M cache unit :=
  slab_list_init LFree ;;
  slab_list_init LPartial ;;
  slab_list_init LFull ;;
  order <- lift (get_slab_order object_size DEFAULT_SIZE) ;;
  size <- lift (calculate_slab_size order) ;;
  modify (fun c => mk_cache (slabs_free c) (slabs_partial c) (slabs_full c) object_size order
                     (calculate_object_cnt size object_size) size (slabs c) (blocks c)).

Definition cache_release : M cache unit :=
  slab_list_free LFree ;; slab_list_free LPartial ;; slab_list_free LFull.

Definition cache_alloc (malloc : Z -> option (Z * Z)) : M cache Z :=
  free_size <- gets (fun c => l_size (slabs_free c)) ;;
  if 0 <? free_size then
    slab <- gets (fun c => l_head (slabs_free c)) ;;
    mem <- alloc_block slab ;;
    full <- slab_is_full slab ;;
    (if full : bool then slab_reposition (Some LFree) LFull slab
     else slab_reposition (Some LFree) LPartial slab) ;;
    ret mem
  else
    partial_size <- gets (fun c => l_size (slabs_partial c)) ;;
    slab <- (if partial_size =? 0 then
               c <- gets (fun c => c) ;;
               slab <- create_slab malloc (object_size c) (slab_order c) (slab_objects c) ;;
               add_to_list LPartial slab ;;
               ret slab
             else gets (fun c => l_head (slabs_partial c))) ;;
    mem <- alloc_block slab ;;
    full <- slab_is_full slab ;;
    (if full : bool then slab_reposition (Some LPartial) LFull slab else ret tt) ;;
    ret mem.

Definition cache_free (ptr : Z) : M cache unit :=
  let block := ptr - sizeof_block in
  b <- block_at block ;;
  let slab := slab_ptr b in
  s <- slab_at slab ;;
  let list := list_ptr s in
  free_block slab block ;;
  s <- slab_at slab ;;
  if s_size s =? 0 then slab_reposition list LFree slab
  else slab_reposition list LPartial slab.

Definition cache_shrink : M cache unit := slab_list_free LFree.

(** ** Geometry of a slab *)

Definition total_size (object_size : Z) : Z := (object_size + sizeof_block) * DEFAULT_SIZE + sizeof_slab.

(** The loop finds the least order from [order] on that is large enough, or
    stops at 10. *)
Lemma order_loop_spec total : forall fuel order,
  1 <= order <= 10 -> 10 <= order + Z.of_nat fuel -> total < 2 ^ 63 ->
  exists o, order_loop fuel (2 ^ order) order total = Ok o /\ order <= o <= 10 /\
    (o < 10 -> total <= PAGE_SIZE * 2 ^ o) /\
    (forall k, order <= k < o -> PAGE_SIZE * 2 ^ k < total).
Proof.
  induction fuel as [|fuel IH]; intros order Ho Hf Ht.
  - assert (order = 10) as -> by lia. cbn [order_loop]. rewrite andb_false_r.
    exists 10. split; [done|]. split_and!; intros; lia.
  - cbn [order_loop]. assert (Hpow : 2 ^ order <= 2 ^ 10) by (apply Z.pow_le_mono_r; lia).
    assert (0 < 2 ^ order) by (apply Z.pow_pos_nonneg; lia). change (2 ^ 10) with 1024 in Hpow.
    unfold PAGE_SIZE. rewrite u64_small by lia.
    destruct (Z.ltb_spec (4096 * 2 ^ order) total) as [Hlt|Hge]; cbn [andb].
    + destruct (Z.ltb_spec order 10) as [Hlt10|]; cbn [andb].
      * rewrite Z.shiftl_mul_pow2, u64_small by lia.
        replace (2 ^ order * 2 ^ 1) with (2 ^ (order + 1)) by (rewrite Z.pow_add_r; lia).
        destruct (IH (order + 1)) as (o & Hr & Hb & Hfit & Hmin); [lia|lia|done|].
        exists o. split; [done|]. split; [lia|]. split; [done|]. intros k Hk.
        destruct (decide (k = order)) as [->|]; [done|]. apply Hmin. lia.
      * exists order. split; [done|]. split_and!; intros; lia.
    + exists order. split; [done|]. split_and!; intros; lia.
Qed.

Lemma calculate_slab_size_pow o : 0 <= o <= 10 -> calculate_slab_size o = Ok (PAGE_SIZE * 2 ^ o).
Proof.
  intros Ho. unfold calculate_slab_size. rewrite (proj2 (Z.leb_gt _ _)) by lia.
  assert (0 < 2 ^ o) by (apply Z.pow_pos_nonneg; lia).
  assert (2 ^ o <= 2 ^ 10) by (apply Z.pow_le_mono_r; lia). change (2 ^ 10) with 1024 in *. unfold PAGE_SIZE.
  destruct (Z.eqb_spec o 0) as [->|Hne]; cbn [negb].
  - done.
  - rewrite Z.shiftl_mul_pow2 by lia.
    replace (2 * 2 ^ (o - 1)) with (2 ^ o) by (rewrite <- (Z.pow_succ_r 2 (o - 1)) by lia; f_equal; lia).
    rewrite (u64_small (2 ^ o)), u64_small by lia. f_equal. lia.
Qed.

Lemma get_slab_order_spec obj :
  0 <= obj < 2 ^ 32 ->
  exists o, get_slab_order obj DEFAULT_SIZE = Ok o /\ 0 <= o <= 10 /\
    (o < 10 -> total_size obj <= PAGE_SIZE * 2 ^ o) /\
    (forall k, 0 <= k < o -> PAGE_SIZE * 2 ^ k < total_size obj).
Proof.
  intros Hobj. unfold get_slab_order, total_size, DEFAULT_SIZE, sizeof_block, sizeof_slab.
  rewrite (u64_small (obj + 24)) by lia. rewrite u64_small by lia.
  set (total := (obj + 24) * 10 + 64). assert (Htot : total < 2 ^ 63) by (unfold total; lia).
  unfold PAGE_SIZE at 1. destruct (Z.leb_spec total 4096) as [Hle|Hgt].
  { exists 0. split; [done|]. unfold PAGE_SIZE. split_and!; intros; lia. }
  destruct (order_loop_spec total 10 1) as (o & Hr & Hb & Hfit & Hmin); [lia|lia|done|].
  exists o. split; [exact Hr|]. split; [lia|]. split; [done|]. intros k Hk.
  destruct (decide (k = 0)) as [->|]; [unfold PAGE_SIZE; lia|]. apply Hmin. lia.
Qed.

Lemma object_cnt_bounds S obj :
  0 <= obj < 2 ^ 32 -> sizeof_slab <= S < 2 ^ 63 ->
  let cnt := calculate_object_cnt S obj in
  0 <= cnt /\ sizeof_slab + cnt * (obj + sizeof_block) <= S < sizeof_slab + (cnt + 1) * (obj + sizeof_block).
Proof.
  intros Hobj HS. unfold calculate_object_cnt, sizeof_block, sizeof_slab in *.
  rewrite (u64_small (S - 64)), (u64_small (obj + 24)) by lia.
  rewrite (proj2 (Z.eqb_neq (obj + 24) 0)) by lia. cbn [negb].
  pose proof (Z.mul_div_le (S - 64) (obj + 24) ltac:(lia)).
  pose proof (Z.mul_succ_div_gt (S - 64) (obj + 24) ltac:(lia)).
  pose proof (Z.div_pos (S - 64) (obj + 24)). split; [lia|]. nia.
Qed.

(** ** The blocks of a slab *)

(** [chain bl p l]: the free list that starts at [p] is [l]. *)
Fixpoint chain (bl : gmap Z block) (p : Z) (l : list Z) : Prop :=
  match l with
  | [] => p = 0
  | a :: l => p = a /\ a <> 0 /\ exists b, bl !! a = Some b /\ chain bl (next_block b) l
  end.

Lemma chain_frame bl bl' l : forall p,
  (forall a, a ∈ l -> bl' !! a = bl !! a) -> chain bl p l -> chain bl' p l.
Proof.
  induction l as [|a l IH]; intros p Heq; simpl; [done|].
  intros (-> & Ha & b & Hb & Hc). split; [done|]. split; [done|]. exists b.
  split; [rewrite Heq; [done|set_solver]|]. apply IH; [set_solver|done].
Qed.

(** The addresses [q + off], ..., [q + n * off]. *)
Fixpoint addrs (q off : Z) (n : nat) : list Z :=
  match n with O => [] | S n => (q + off) :: addrs (q + off) off n end.

Lemma addrs_above q off n a : 0 < off -> a ∈ addrs q off n -> q < a.
Proof.
  intros Hoff. revert q. induction n as [|n IH]; intros q; simpl; [by intros ?%elem_of_nil|].
  intros [->|Ha]%elem_of_cons; [lia|]. apply IH in Ha. lia.
Qed.

Lemma addrs_NoDup q off n : 0 < off -> NoDup (addrs q off n).
Proof.
  intros Hoff. revert q. induction n as [|n IH]; intros q; simpl; [constructor|].
  constructor; [|done]. intros Ha. apply addrs_above in Ha; lia.
Qed.

Lemma addrs_length q off n : length (addrs q off n) = n.
Proof. revert q. induction n; intros; simpl; auto. Qed.

Lemma set_next_block_ok c p v b :
  p <> 0 -> blocks c !! p = Some b ->
  set_next_block p v c = Ok (tt, with_blocks c (<[p := mk_block (b_size b) v (slab_ptr b)]> (blocks c))).
Proof.
  intros Hp Hb. unfold set_next_block, set_block, block_at, bind.
  rewrite (proj2 (Z.eqb_neq _ _) Hp), Hb. simpl. by rewrite Hb.
Qed.

(** Blocks of a region that is large enough are linked in address order. *)
Lemma init_blocks_run limit sl off obj : 0 < off -> forall n q c,
  0 < q -> blocks c !! q = Some (mk_block obj 0 sl) -> q + Z.of_nat n * off + 24 <= limit ->
  exists bl, init_blocks n limit sl q off q obj c = Ok (tt, with_blocks c bl) /\
    chain bl q (q :: addrs q off n) /\
    (forall a, a ∈ q :: addrs q off n -> exists nx, bl !! a = Some (mk_block obj nx sl)) /\
    (forall a, ~ (a ∈ q :: addrs q off n) -> bl !! a = blocks c !! a).
Proof.
  intros Hoff. induction n as [|n IH]; intros q c Hq Hb Hlim.
  - exists (blocks c). split; [by destruct c|]. split; [|split; [|done]].
    + simpl. split; [done|]. split; [lia|]. by eexists.
    + intros a ->%list_elem_of_singleton. by eexists.
  - cbn [init_blocks]. unfold write_block, sizeof_block. rewrite (proj2 (Z.ltb_ge limit _)) by nia.
    set (q1 := q + off) in *. set (c1 := with_blocks c (<[q1 := mk_block obj 0 sl]> (blocks c))).
    assert (Hq1 : q1 <> q) by (unfold q1; lia).
    assert (Hb1 : blocks c1 !! q = Some (mk_block obj 0 sl)) by (simpl; by rewrite lookup_insert_ne).
    unfold modify. rewrite (bind_ok _ _ _ tt c1) by done.
    run (set_next_block_ok c1 q q1 _ ltac:(lia) Hb1).
    set (c2 := with_blocks c1 _).
    destruct (IH q1 c2) as (bl & Hrun & Hch & Hin & Hout); [unfold q1; lia| |unfold q1; lia|].
    { simpl. by rewrite lookup_insert_ne, lookup_insert_eq by done. }
    assert (Hnq : ~ (q ∈ q1 :: addrs q1 off n)).
    { intros [Hx|Hx]%elem_of_cons; [lia|]. apply addrs_above in Hx; [unfold q1 in Hx; lia|done]. }
    assert (Hq2 : bl !! q = Some (mk_block obj q1 sl)) by (rewrite Hout by done; apply lookup_insert_eq).
    exists bl. split; [exact Hrun|]. split; [|split].
    + split; [done|]. split; [lia|]. eexists. split; [exact Hq2|exact Hch].
    + intros a [->|Ha]%elem_of_cons; [by eexists|by apply Hin].
    + intros a Ha. rewrite Hout by set_solver. simpl. rewrite !lookup_insert_ne; [done|set_solver|].
      intros ->. apply Ha. simpl. set_solver.
Qed.

(** Past the end of the region the loop writes outside it. *)
Lemma init_blocks_overruns limit sl off obj : 0 < off -> forall n q c,
  0 < q -> is_Some (blocks c !! q) -> (0 < n)%nat -> limit < q + Z.of_nat n * off + 24 ->
  init_blocks n limit sl q off q obj c = Fault OutOfBounds.
Proof.
  intros Hoff. induction n as [|n IH]; intros q c Hq [b Hb] Hn Hlim; [lia|].
  cbn [init_blocks]. unfold write_block, sizeof_block.
  destruct (Z.ltb_spec limit (q + off + 24)) as [|Hge]; [done|].
  unfold modify. rewrite (bind_ok _ _ _ tt (with_blocks c (<[q + off := mk_block obj 0 sl]> (blocks c)))) by done.
  erewrite bind_ok; [|apply (set_next_block_ok _ q _ b); [lia|simpl; rewrite lookup_insert_ne; [done|lia]]].
  apply IH; [lia| |nia|lia]. simpl. rewrite lookup_insert_ne, lookup_insert_eq by lia. done.
Qed.

Lemma slab_at_ok c p s : p <> 0 -> slabs c !! p = Some s -> slab_at p c = Ok (s, c).
Proof. intros Hp Hs. unfold slab_at. by rewrite (proj2 (Z.eqb_neq _ _) Hp), Hs. Qed.

Lemma set_slab_ok c p s s' :
  p <> 0 -> slabs c !! p = Some s -> set_slab p s' c = Ok (tt, with_slabs c (<[p := s']> (slabs c))).
Proof. intros Hp Hs. unfold set_slab. by rewrite (bind_ok _ _ _ _ _ (slab_at_ok _ _ _ Hp Hs)). Qed.

Lemma set_free_list_ok c p s f n :
  p <> 0 -> slabs c !! p = Some s ->
  set_free_list p f n c = Ok (tt, with_slabs c (<[p := mk_slab n (s_capacity s) (block_size s) f
    (prev_slab s) (next_slab s) (list_ptr s) (raw_data s)]> (slabs c))).
Proof.
  intros Hp Hs. unfold set_free_list. run (slab_at_ok _ _ _ Hp Hs).
  by apply (set_slab_ok _ _ s).
Qed.

(** The header and the first block of a new slab, up to the loop. *)
Lemma create_slab_head malloc c obj order cnt p usable :
  malloc (alloc_slab_bytes order) = Some (p, usable) -> 0 < p -> 0 <= obj -> obj + 24 < 2 ^ 64 ->
  88 <= usable ->
  let s := mk_slab 0 cnt obj (p + 64) 0 0 None (p + 64) in
  let c1 := with_slabs (with_blocks c (<[p + 64 := mk_block obj 0 p]> (blocks c))) (<[p := s]> (slabs c)) in
  create_slab malloc obj order cnt c =
    (init_blocks (Z.to_nat (cnt - 1)) (p + usable) p (p + 64) (obj + 24) (p + 64) obj ;; ret p) c1.
Proof.
  intros Hm Hp Hobj Hsmall Hu s c1. unfold create_slab. rewrite Hm. unfold sizeof_slab.
  rewrite (proj2 (Z.ltb_ge usable 64)) by lia. unfold modify.
  set (c0 := with_slabs c (<[p := mk_slab 0 cnt obj 0 0 0 None (p + 64)]> (slabs c))).
  rewrite (bind_ok _ _ _ tt c0) by done. unfold init_block_list.
  rewrite (proj2 (Z.eqb_neq p 0)) by lia.
  rewrite bind_assoc, (bind_ok _ _ _ _ _ (slab_at_ok c0 p _ ltac:(lia) (lookup_insert_eq _ _ _))).
  unfold write_block, sizeof_block, modify. cbn [raw_data s_size].
  rewrite (proj2 (Z.ltb_ge (p + usable) _)), u64_small by lia.
  rewrite bind_assoc. set (c0' := with_blocks c0 (<[p + 64 := mk_block obj 0 p]> (blocks c0))).
  rewrite (bind_ok _ _ _ tt c0') by done. rewrite bind_assoc.
  run (set_free_list_ok c0' p _ (p + 64) 0 ltac:(lia) (lookup_insert_eq _ _ _)).
  f_equal. unfold c0', c0, c1, with_slabs, with_blocks. simpl. f_equal. by rewrite insert_insert_eq.
Qed.

(** A region with room for the header and the blocks becomes a slab whose free
    list holds all of them. *)
Lemma create_slab_run malloc c obj order cnt p usable :
  malloc (alloc_slab_bytes order) = Some (p, usable) -> 0 < p -> 0 <= obj -> obj + 24 < 2 ^ 64 ->
  1 <= cnt -> 64 + cnt * (obj + 24) <= usable ->
  let s := mk_slab 0 cnt obj (p + 64) 0 0 None (p + 64) in
  let bs := (p + 64) :: addrs (p + 64) (obj + 24) (Z.to_nat (cnt - 1)) in
  exists bl, create_slab malloc obj order cnt c =
      Ok (p, with_blocks (with_slabs c (<[p := s]> (slabs c))) bl) /\
    chain bl (p + 64) bs /\ NoDup bs /\ Z.of_nat (length bs) = cnt /\
    (forall a, a ∈ bs -> exists nx, bl !! a = Some (mk_block obj nx p)) /\
    (forall a, ~ (a ∈ bs) -> bl !! a = blocks c !! a).
Proof.
  intros Hm Hp Hobj Hsmall Hcnt Hroom s bs.
  rewrite (create_slab_head malloc c obj order cnt p usable) by (done || nia).
  destruct (init_blocks_run (p + usable) p (obj + 24) obj ltac:(lia) (Z.to_nat (cnt - 1)) (p + 64)
    (with_slabs (with_blocks c (<[p + 64 := mk_block obj 0 p]> (blocks c))) (<[p := s]> (slabs c))))
    as (bl & Hrun & Hch & Hin & Hout); [lia|apply lookup_insert_eq|nia|].
  exists bl. run Hrun. split; [done|]. split; [done|]. split; [|split; [|split; [done|]]].
  - constructor; [|apply addrs_NoDup; lia]. intros Ha. apply addrs_above in Ha; lia.
  - unfold bs. cbn [length]. rewrite addrs_length. lia.
  - intros a Ha. rewrite Hout by done. simpl. rewrite lookup_insert_ne; [done|].
    intros <-. apply Ha. unfold bs. set_solver.
Qed.

(** ** Properties of the layout *)

(** C37: the sizes [cache_setup] chooses, for objects below 4 GiB: the order is
    the least one (at most 10) whose [2 ^ order] pages hold ten objects, the
    slab size is that many pages, and the objects counted fit into it with
    their headers, and are ten at least when the bound 10 is not reached. *)
Theorem slab_geometry obj :
  0 <= obj < 2 ^ 32 ->
  exists o, get_slab_order obj DEFAULT_SIZE = Ok o /\ 0 <= o <= 10 /\
    calculate_slab_size o = Ok (PAGE_SIZE * 2 ^ o) /\
    (o < 10 -> total_size obj <= PAGE_SIZE * 2 ^ o) /\
    (forall k, 0 <= k < o -> PAGE_SIZE * 2 ^ k < total_size obj) /\
    let cnt := calculate_object_cnt (PAGE_SIZE * 2 ^ o) obj in
    sizeof_slab + cnt * (obj + sizeof_block) <= PAGE_SIZE * 2 ^ o /\ (o < 10 -> 10 <= cnt).
Proof.
  intros Hobj. destruct (get_slab_order_spec obj Hobj) as (o & Hr & Hb & Hfit & Hmin).
  exists o. split; [done|]. split; [done|]. split; [by apply calculate_slab_size_pow|].
  split; [done|]. split; [done|].
  assert (1 <= 2 ^ o <= 1024).
  { change 1 with (2 ^ 0). change 1024 with (2 ^ 10). split; apply Z.pow_le_mono_r; lia. }
  destruct (object_cnt_bounds (PAGE_SIZE * 2 ^ o) obj Hobj) as [Hc0 Hc]; [unfold PAGE_SIZE, sizeof_slab; lia|].
  split; [lia|]. intros Ho. specialize (Hfit Ho).
  unfold total_size, DEFAULT_SIZE, sizeof_slab, sizeof_block in *. nia.
Qed.

(** the region a slab is built in is too small: [alloc_slab] asks for
    [order] pages where the layout takes [2 ^ order], so with an allocator that
    answers exactly the bytes asked for, [create_slab] writes past the end of
    the region for every object size whose order is below 10. *)
Theorem create_slab_overruns malloc c obj o p :
  0 <= obj < 2 ^ 32 -> get_slab_order obj DEFAULT_SIZE = Ok o -> o < 10 -> 0 < p ->
  malloc (alloc_slab_bytes o) = Some (p, alloc_slab_bytes o) ->
  create_slab malloc obj o (calculate_object_cnt (PAGE_SIZE * 2 ^ o) obj) c = Fault OutOfBounds.
Proof.
  intros Hobj Hord Ho Hp Hm. destruct (get_slab_order_spec obj Hobj) as (o' & Hr & Hb & Hfit & _).
  rewrite Hord in Hr. injection Hr as <-. specialize (Hfit Ho).
  assert (Hbytes : alloc_slab_bytes o = 4096 * o) by (apply u64_small; unfold PAGE_SIZE; lia).
  destruct (decide (o = 0)) as [->|Hne].
  { unfold create_slab. rewrite Hm, Hbytes. done. }
  assert (Hpow : 2 <= 2 ^ o <= 1024 /\ 2 * o <= 2 ^ o).
  { assert (o = 1 \/ o = 2 \/ o = 3 \/ o = 4 \/ o = 5 \/ o = 6 \/ o = 7 \/ o = 8 \/ o = 9) as Hcase by lia.
    repeat (destruct Hcase as [-> | Hcase]; [by vm_compute|]). subst. by vm_compute. }
  destruct (object_cnt_bounds (PAGE_SIZE * 2 ^ o) obj Hobj) as [Hc0 Hc]; [unfold PAGE_SIZE, sizeof_slab; lia|].
  set (cnt := calculate_object_cnt _ _) in *.
  unfold total_size, DEFAULT_SIZE, PAGE_SIZE, sizeof_slab, sizeof_block in *.
  assert (Hten : 10 <= cnt) by nia.
  rewrite (create_slab_head malloc c obj o cnt p (alloc_slab_bytes o)) by (done || lia).
  apply bind_fault. apply init_blocks_overruns; [lia|lia|simpl; rewrite lookup_insert_eq; by eexists|lia|].
  rewrite Hbytes, Z2Nat.id by lia.
  assert (9 * ((cnt + 1) * (obj + 24)) <= 11 * ((cnt - 1) * (obj + 24))) by nia. lia.
Qed.

(** ** Slab lists *)

Definition relink (s : slab) (prev next : Z) : slab :=
  mk_slab (s_size s) (s_capacity s) (block_size s) (first_block s) prev next (list_ptr s) (raw_data s).

Section links.
Context (c : cache) (p : Z) (s : slab).
Hypotheses (Hp : p <> 0) (Hs : slabs c !! p = Some s).

Lemma set_prev_slab_ok v :
  set_prev_slab p v c = Ok (tt, with_slabs c (<[p := relink s v (next_slab s)]> (slabs c))).
Proof.
  unfold set_prev_slab, set_links. rewrite !(bind_ok _ _ _ _ _ (slab_at_ok _ _ _ Hp Hs)).
  by apply (set_slab_ok _ _ s).
Qed.

Lemma set_next_slab_ok v :
  set_next_slab p v c = Ok (tt, with_slabs c (<[p := relink s (prev_slab s) v]> (slabs c))).
Proof.
  unfold set_next_slab, set_links. rewrite !(bind_ok _ _ _ _ _ (slab_at_ok _ _ _ Hp Hs)).
  by apply (set_slab_ok _ _ s).
Qed.

Lemma set_list_ptr_ok i :
  set_list_ptr p i c = Ok (tt, with_slabs c (<[p := mk_slab (s_size s) (s_capacity s) (block_size s)
    (first_block s) (prev_slab s) (next_slab s) (Some i) (raw_data s)]> (slabs c))).
Proof.
  unfold set_list_ptr. run (slab_at_ok _ _ _ Hp Hs).
  by apply (set_slab_ok _ _ s).
Qed.
End links.

(** From the head on, a slab's successor is its [prev_slab]. *)
Definition slinks (sl : gmap Z slab) (a : Z) : option (Z * Z) :=
  (fun s => (prev_slab s, next_slab s)) <$> sl !! a.

(** [list_rep c i l]: list [i] of the cache holds the slabs [l], head first. *)
Record list_rep (c : cache) (i : list_id) (l : list Z) : Prop := {
  lr_head : l_head (get_list c i) = hdZ 0 l;
  lr_size : l_size (get_list c i) = Z.of_nat (length l);
  lr_dll : dll (slinks (slabs c)) 0 l 0;
  lr_nodup : NoDup l;
  lr_small : Z.of_nat (length l) < 2 ^ 64
}.

Lemma slinks_insert_ne sl a b s : a <> b -> slinks (<[a := s]> sl) b = slinks sl b.
Proof. intros. unfold slinks. by rewrite lookup_insert_ne. Qed.

Lemma slinks_insert_eq sl a s : slinks (<[a := s]> sl) a = Some (prev_slab s, next_slab s).
Proof. unfold slinks. by rewrite lookup_insert_eq. Qed.

Lemma slinks_node sl a x y :
  slinks sl a = Some (x, y) -> exists s, sl !! a = Some s /\ prev_slab s = x /\ next_slab s = y.
Proof. unfold slinks. destruct (sl !! a) as [s|]; [|done]. intros [= <- <-]. by exists s. Qed.

(** What an operation on list [i] around slab [p] leaves alone: the blocks, the
    other lists and all of the other slabs but their links; slabs outside [l]
    keep even these. *)
Record list_frame (i : list_id) (p : Z) (l : list Z) (c c' : cache) : Prop := {
  fr_blocks : blocks c' = blocks c;
  fr_lists : forall j, j <> i -> get_list c' j = get_list c j;
  fr_sizes : object_size c' = object_size c /\ slab_order c' = slab_order c /\
             slab_objects c' = slab_objects c;
  fr_core : forall a, a <> p ->
    (fun s => relink s 0 0) <$> slabs c' !! a = (fun s => relink s 0 0) <$> slabs c !! a;
  fr_outside : forall a, ~ (a ∈ p :: l) -> slabs c' !! a = slabs c !! a
}.

Lemma get_put_list c i j l : get_list (put_list c i l) j = if decide (i = j) then l else get_list c j.
Proof. by destruct i, j. Qed.

Lemma get_with_slabs c sl j : get_list (with_slabs c sl) j = get_list c j.
Proof. by destruct j. Qed.

Lemma slabs_put_list c i l : slabs (put_list c i l) = slabs c.
Proof. by destruct i. Qed.

Lemma blocks_put_list c i l : blocks (put_list c i l) = blocks c.
Proof. by destruct i. Qed.

Lemma put_list_sizes c i l :
  object_size (put_list c i l) = object_size c /\ slab_order (put_list c i l) = slab_order c /\
  slab_objects (put_list c i l) = slab_objects c.
Proof. by destruct i. Qed.

(** The state after an operation on list [i]: its record and the slabs. *)
Definition upd (c : cache) (i : list_id) (l : slab_list) (sl : gmap Z slab) : cache :=
  with_slabs (put_list c i l) sl.

Lemma upd_get c i l sl j : get_list (upd c i l sl) j = if decide (i = j) then l else get_list c j.
Proof. unfold upd. by rewrite get_with_slabs, get_put_list. Qed.

Lemma upd_frame c i p l ls sl :
  (forall a, a <> p -> (fun s => relink s 0 0) <$> sl !! a = (fun s => relink s 0 0) <$> slabs c !! a) ->
  (forall a, ~ (a ∈ p :: l) -> sl !! a = slabs c !! a) ->
  list_frame i p l c (upd c i ls sl).
Proof.
  intros Hcore Hout. split; [by destruct i| | |done|done].
  - intros j Hj. by rewrite upd_get, decide_False.
  - by destruct i.
Qed.

(** The record [add_to_list] leaves at the slab itself. *)
Definition linked_in (s : slab) (prev : Z) (i : list_id) : slab :=
  mk_slab (s_size s) (s_capacity s) (block_size s) (first_block s) prev 0 (Some i) (raw_data s).

(** The primitive steps on states of this form. *)
Section upd.
Context (c : cache) (i : list_id) (ls : slab_list) (sl : gmap Z slab).

Lemma upd_self : c = upd c i (get_list c i) (slabs c).
Proof. by destruct c, i. Qed.

Lemma upd_set_list ls' : set_list i ls' (upd c i ls sl) = Ok (tt, upd c i ls' sl).
Proof. unfold set_list, modify, upd. by destruct i. Qed.

Lemma upd_gets : gets (fun c => get_list c i) (upd c i ls sl) = Ok (ls, upd c i ls sl).
Proof. unfold gets. by rewrite upd_get, decide_True. Qed.

Lemma upd_with_slabs sl' : with_slabs (upd c i ls sl) sl' = upd c i ls sl'.
Proof. by destruct i. Qed.

Lemma upd_slabs : slabs (upd c i ls sl) = sl.
Proof. by destruct i. Qed.

Context (p : Z) (s : slab).
Hypotheses (Hp : p <> 0) (Hs : sl !! p = Some s).

Lemma upd_slab_at : slab_at p (upd c i ls sl) = Ok (s, upd c i ls sl).
Proof. apply slab_at_ok; [done|by rewrite upd_slabs]. Qed.

Lemma upd_set_prev v :
  set_prev_slab p v (upd c i ls sl) = Ok (tt, upd c i ls (<[p := relink s v (next_slab s)]> sl)).
Proof. erewrite set_prev_slab_ok; [|done|by rewrite upd_slabs]. by rewrite upd_with_slabs, upd_slabs. Qed.

Lemma upd_set_next v :
  set_next_slab p v (upd c i ls sl) = Ok (tt, upd c i ls (<[p := relink s (prev_slab s) v]> sl)).
Proof. erewrite set_next_slab_ok; [|done|by rewrite upd_slabs]. by rewrite upd_with_slabs, upd_slabs. Qed.

Lemma upd_set_ptr :
  set_list_ptr p i (upd c i ls sl) = Ok (tt, upd c i ls (<[p := mk_slab (s_size s) (s_capacity s)
    (block_size s) (first_block s) (prev_slab s) (next_slab s) (Some i) (raw_data s)]> sl)).
Proof. erewrite set_list_ptr_ok; [|done|by rewrite upd_slabs]. by rewrite upd_with_slabs, upd_slabs. Qed.
End upd.

Lemma add_to_list_spec c i l p s :
  list_rep c i l -> slabs c !! p = Some s -> p <> 0 -> ~ (p ∈ l) -> next_slab s = 0 ->
  Z.of_nat (length l) + 1 < 2 ^ 64 ->
  exists c', add_to_list i p c = Ok (tt, c') /\ list_rep c' i (p :: l) /\
    slabs c' !! p = Some (linked_in s (hdZ 0 l) i) /\ list_frame i p l c c'.
Proof.
  intros [Hh Hsz Hd Hnd Hsm] Hs Hp Hpl Hnext Hlen.
  enough (Hgo : forall c1, c1 = upd c i (get_list c i) (slabs c) ->
    exists c', add_to_list i p c1 = Ok (tt, c') /\ list_rep c' i (p :: l) /\
      slabs c' !! p = Some (linked_in s (hdZ 0 l) i) /\ list_frame i p l c c') by apply Hgo, upd_self.
  intros c1 ->. unfold add_to_list. rewrite (proj2 (Z.eqb_neq p 0) Hp).
  rewrite (bind_ok _ _ _ _ _ (upd_gets _ _ _ _)), Hsz, Hh.
  destruct l as [|h l].
  - change (_ || _) with true. cbv iota. rewrite bind_assoc, (bind_ok _ _ _ _ _ (upd_set_list _ _ _ _ _)).
    rewrite bind_assoc, (bind_ok _ _ _ _ _ (upd_set_prev _ _ _ _ _ _ Hp Hs 0)).
    rewrite (bind_ok _ _ _ _ _ (upd_set_next _ _ _ _ _ _ Hp (lookup_insert_eq _ _ _) 0)), insert_insert_eq.
    rewrite (bind_ok _ _ _ _ _ (upd_gets _ _ _ _)), (bind_ok _ _ _ _ _ (upd_set_list _ _ _ _ _)).
    rewrite (upd_set_ptr _ _ _ _ _ _ Hp (lookup_insert_eq _ _ _)), insert_insert_eq.
    cbn [s_size s_capacity block_size first_block prev_slab next_slab raw_data relink].
    eexists. split; [done|]. split; [|split].
    + split; rewrite ?upd_get, ?decide_True, ?upd_slabs by done; simpl; try done; [|by constructor].
      split; [done|]. split; [|done]. by rewrite slinks_insert_eq.
    + by rewrite upd_slabs, lookup_insert_eq.
    + apply upd_frame; intros a Ha; rewrite lookup_insert_ne by set_solver; done.
  - pose proof Hd as (Hh0 & Hlh & Hd'). destruct (slinks_node _ _ _ _ Hlh) as (sh & Hsh & Hph & Hnh).
    assert (Hhp : h <> p) by set_solver. pose proof Hnd as [Hhl _]%NoDup_cons.
    cbn [hdZ]. rewrite (proj2 (Z.eqb_neq (Z.of_nat (length (h :: l))) 0)) by (simpl; lia).
    rewrite (proj2 (Z.eqb_neq h 0) Hh0). cbn [orb].
    rewrite bind_assoc, (bind_ok _ _ _ _ _ (upd_set_prev _ _ _ _ _ _ Hp Hs h)).
    rewrite bind_assoc, (bind_ok _ _ _ _ _ (upd_set_next _ _ _ (<[p := _]> (slabs c)) h sh Hh0
      ltac:(by rewrite lookup_insert_ne by done) p)).
    run (upd_set_list _ _ _ _ _).
    rewrite (bind_ok _ _ _ _ _ (upd_gets _ _ _ _)), (bind_ok _ _ _ _ _ (upd_set_list _ _ _ _ _)).
    erewrite upd_set_ptr; [|done|rewrite lookup_insert_ne by done; apply lookup_insert_eq].
    cbn [s_size s_capacity block_size first_block prev_slab next_slab raw_data relink l_size l_head].
    rewrite Hnext, u64_small by (simpl length in *; lia). fold (linked_in s h i).
    eexists. split; [done|]. split; [|split].
    + split; rewrite ?upd_get, ?decide_True, ?upd_slabs by done; simpl l_head; simpl l_size; try done.
      * simpl length. lia.
      * split; [done|]. split; [by rewrite slinks_insert_eq|].
        eapply (dll_set_first _ _ 0 p); [exact Hd| |].
        -- intros b Hb. assert (p <> b /\ h <> b) as [? ?] by (split; intros ->; set_solver).
           by rewrite !slinks_insert_ne by done.
        -- rewrite slinks_insert_ne, slinks_insert_eq by done. by simpl; rewrite Hph.
      * by constructor.
      * simpl length in *. lia.
    + by rewrite upd_slabs, lookup_insert_eq.
    + apply upd_frame; intros a Ha.
      * rewrite (lookup_insert_ne _ p) by done. destruct (decide (a = h)) as [->|Hah].
        -- rewrite lookup_insert_eq, Hsh. done.
        -- rewrite !lookup_insert_ne by done. done.
      * rewrite !lookup_insert_ne by set_solver. done.
Qed.

(** The links of a member of a list. *)
Lemma list_rep_node c i l1 p l2 :
  list_rep c i (l1 ++ p :: l2) ->
  p <> 0 /\ exists s, slabs c !! p = Some s /\ prev_slab s = hdZ 0 l2 /\ next_slab s = lastZ 0 l1.
Proof.
  intros H. pose proof (lr_dll _ _ _ H) as Hd. split.
  - apply dll_nonnull in Hd. apply Forall_app in Hd as [_ Hd]. by inversion Hd.
  - by apply slinks_node, (dll_lookup _ _ _ _ _ _ Hd).
Qed.

(** A neighbour that may be null. *)
Lemma hdZ_nonnull c i l1 p l2 :
  list_rep c i (l1 ++ p :: l2) -> hdZ 0 l2 = 0 <-> l2 = [].
Proof.
  intros H. pose proof (lr_dll _ _ _ H) as Hd. apply dll_nonnull, Forall_app in Hd as [_ Hd].
  destruct l2 as [|b l2]; [done|]. inversion_clear Hd as [|? ? _ Hd']. inversion_clear Hd'. naive_solver.
Qed.

(** The slabs after the neighbours [prev] and [next] of [p] have been joined and
    the links of [p] reset. *)
Definition unlink (sl : gmap Z slab) (p prev next : Z) : gmap Z slab :=
  let sl := if prev =? 0 then sl
            else match sl !! prev with Some s => <[prev := relink s (prev_slab s) next]> sl | None => sl end in
  let sl := if next =? 0 then sl
            else match sl !! next with Some s => <[next := relink s prev (next_slab s)]> sl | None => sl end in
  match sl !! p with Some s => <[p := relink s 0 0]> sl | None => sl end.

Lemma unlink_lookup sl p prev next s a :
  sl !! p = Some s -> prev <> p -> next <> p -> (prev <> 0 -> prev <> next) ->
  (prev <> 0 -> is_Some (sl !! prev)) -> (next <> 0 -> is_Some (sl !! next)) ->
  unlink sl p prev next !! a =
    if decide (a = p) then Some (relink s 0 0)
    else if decide (a = prev /\ prev <> 0) then (fun s => relink s (prev_slab s) next) <$> sl !! a
    else if decide (a = next /\ next <> 0) then (fun s => relink s prev (next_slab s)) <$> sl !! a
    else sl !! a.
Proof.
  intros Hs Hpp Hnp Hpn Hp Hn. unfold unlink.
  set (sl1 := if prev =? 0 then sl else _). set (sl2 := if next =? 0 then sl1 else _).
  assert (H1 : forall b, sl1 !! b = if decide (b = prev /\ prev <> 0)
    then (fun s => relink s (prev_slab s) next) <$> sl !! b else sl !! b).
  { intros b. unfold sl1. destruct (Z.eqb_spec prev 0) as [->|Hz]; [by rewrite decide_False by tauto|].
    destruct (Hp Hz) as [sp Esp]. rewrite Esp. destruct (decide (b = prev)) as [->|Hne].
    - rewrite decide_True by done. by rewrite lookup_insert_eq, Esp.
    - rewrite decide_False by tauto. by rewrite lookup_insert_ne. }
  assert (H2 : forall b, sl2 !! b = if decide (b = next /\ next <> 0)
    then (fun s => relink s prev (next_slab s)) <$> sl1 !! b else sl1 !! b).
  { intros b. unfold sl2. destruct (Z.eqb_spec next 0) as [->|Hz]; [by rewrite decide_False by tauto|].
    destruct (Hn Hz) as [sn Esn]. rewrite (H1 next), decide_False by (intros [-> ?]; by apply Hpn).
    rewrite Esn. destruct (decide (b = next)) as [->|Hne].
    - rewrite decide_True by done. rewrite lookup_insert_eq, H1, decide_False by (intros [-> ?]; by apply Hpn).
      by rewrite Esn.
    - rewrite decide_False by tauto. by rewrite lookup_insert_ne. }
  assert (Hp2 : sl2 !! p = Some s).
  { rewrite H2, decide_False, H1, decide_False by naive_solver. done. }
  rewrite Hp2. destruct (decide (a = p)) as [->|Hap]; [by rewrite lookup_insert_eq|].
  rewrite lookup_insert_ne, H2, H1 by done.
  destruct (decide (a = prev /\ prev <> 0)) as [[-> Hz]|]; [|by destruct (decide _)].
  rewrite decide_False; [done|]. intros [-> _]. by apply Hpn.
Qed.

(** One conditional back or forward link. *)
Lemma upd_if_next c i ls sl q v :
  (q <> 0 -> is_Some (sl !! q)) ->
  (if q =? 0 then ret tt else set_next_slab q v) (upd c i ls sl) =
    Ok (tt, upd c i ls (if q =? 0 then sl
      else match sl !! q with Some s => <[q := relink s (prev_slab s) v]> sl | None => sl end)).
Proof.
  intros Hq. destruct (Z.eqb_spec q 0) as [->|Hz]; [done|]. destruct (Hq Hz) as [s Hs]. rewrite Hs.
  by apply upd_set_next.
Qed.

Lemma upd_if_prev c i ls sl q v :
  (q <> 0 -> is_Some (sl !! q)) ->
  (if q =? 0 then ret tt else set_prev_slab q v) (upd c i ls sl) =
    Ok (tt, upd c i ls (if q =? 0 then sl
      else match sl !! q with Some s => <[q := relink s v (next_slab s)]> sl | None => sl end)).
Proof.
  intros Hq. destruct (Z.eqb_spec q 0) as [->|Hz]; [done|]. destruct (Hq Hz) as [s Hs]. rewrite Hs.
  by apply upd_set_prev.
Qed.

(** The neighbours of a member, as [unlink_lookup] wants them. *)
Lemma list_rep_neighbours c i l1 p l2 :
  list_rep c i (l1 ++ p :: l2) ->
  let prev := hdZ 0 l2 in let next := lastZ 0 l1 in
  prev <> p /\ next <> p /\ (prev <> 0 -> prev <> next) /\
  (prev <> 0 -> is_Some (slabs c !! prev)) /\ (next <> 0 -> is_Some (slabs c !! next)).
Proof.
  intros H prev next. destruct (list_rep_node _ _ _ _ _ H) as (Hp & _).
  pose proof (lr_nodup _ _ _ H) as (_ & Hdisj & Hnd2)%NoDup_app. apply NoDup_cons in Hnd2 as [Hp2 _].
  assert (Hprev : prev = 0 \/ prev ∈ l2) by (unfold prev; destruct l2; [by left|right; apply hdZ_in; done]).
  assert (Hnext : next = 0 \/ next ∈ l1) by (unfold next; destruct l1; [by left|right; by apply lastZ_in]).
  assert (Hmem : forall a, a ∈ l1 ++ p :: l2 -> is_Some (slabs c !! a)).
  { intros a (k1 & k2 & E)%list_elem_of_split. rewrite E in H. destruct (list_rep_node _ _ _ _ _ H) as (_ & s & Hs & _).
    by exists s. }
  split_and!.
  - intros E. destruct Hprev as [?|Hi]; [congruence|]. by rewrite E in Hi.
  - intros E. destruct Hnext as [?|Hi]; [congruence|]. apply (Hdisj p); [by rewrite <- E|set_solver].
  - intros Hz E. destruct Hprev as [?|Hi]; [done|]. destruct Hnext as [?|Hi']; [congruence|].
    apply (Hdisj next Hi'). rewrite <- E. set_solver.
  - intros Hz. destruct Hprev as [?|Hi]; [done|]. apply Hmem. set_solver.
  - intros Hz. destruct Hnext as [?|Hi]; [done|]. apply Hmem. set_solver.
Qed.

Lemma delete_tail c i ls sl p s :
  p <> 0 -> sl !! p = Some s ->
  (set_next_slab p 0 ;; set_prev_slab p 0 ;; l <- gets (fun c => get_list c i) ;;
   set_list i (mk_list (u64 (l_size l - 1)) (l_head l))) (upd c i ls sl) =
    Ok (tt, upd c i (mk_list (u64 (l_size ls - 1)) (l_head ls)) (<[p := relink s 0 0]> sl)).
Proof.
  intros Hp Hs. run (upd_set_next _ _ _ _ _ _ Hp Hs 0).
  rewrite (bind_ok _ _ _ _ _ (upd_set_prev _ _ _ _ _ _ Hp (lookup_insert_eq _ _ _) 0)), insert_insert_eq.
  by rewrite (bind_ok _ _ _ _ _ (upd_gets _ _ _ _)), upd_set_list.
Qed.

Lemma delete_run c i l1 p l2 :
  list_rep c i (l1 ++ p :: l2) ->
  delete_from_list (Some i) p c =
    Ok (tt, upd c i (mk_list (Z.of_nat (length (l1 ++ l2))) (hdZ 0 (l1 ++ l2)))
              (unlink (slabs c) p (hdZ 0 l2) (lastZ 0 l1))).
Proof.
  intros H. destruct (list_rep_node _ _ _ _ _ H) as (Hp & s & Hs & Hprev & Hnext).
  destruct (list_rep_neighbours _ _ _ _ _ H) as (Hpp & Hnp & Hpn & Hpi & Hni).
  pose proof (unlink_lookup (slabs c) p (hdZ 0 l2) (lastZ 0 l1) s p Hs Hpp Hnp Hpn Hpi Hni) as Hup.
  rewrite decide_True in Hup by done.
  pose proof (lr_small _ _ _ H) as Hsm. rewrite length_app in Hsm. simpl in Hsm.
  enough (Hgo : forall c1, c1 = upd c i (get_list c i) (slabs c) -> delete_from_list (Some i) p c1 =
    Ok (tt, upd c i (mk_list (Z.of_nat (length (l1 ++ l2))) (hdZ 0 (l1 ++ l2)))
              (unlink (slabs c) p (hdZ 0 l2) (lastZ 0 l1)))) by apply Hgo, upd_self.
  intros c1 ->. unfold delete_from_list. rewrite (proj2 (Z.eqb_neq p 0) Hp).
  rewrite (bind_ok _ _ _ _ _ (upd_gets _ _ _ _)), (lr_head _ _ _ H), (lr_size _ _ _ H).
  assert (Hlen : u64 (Z.of_nat (length (l1 ++ p :: l2)) - 1) = Z.of_nat (length (l1 ++ l2))).
  { rewrite !length_app. simpl. rewrite u64_small; lia. }
  destruct l1 as [|h l1].
  - cbn [app hdZ lastZ]. rewrite Z.eqb_refl. cbn [orb].
    rewrite bind_assoc, (bind_ok _ _ _ _ _ (upd_slab_at _ _ _ _ _ _ Hp Hs)), Hprev.
    rewrite bind_assoc, (bind_ok _ _ _ _ _ (upd_set_list _ _ _ _ _)).
    run (upd_if_next _ _ _ _ _ 0 Hpi). set (sl1 := if hdZ 0 l2 =? 0 then _ else _).
    assert (Hs1 : sl1 !! p = Some s).
    { unfold sl1. destruct (Z.eqb_spec (hdZ 0 l2) 0); [done|]. destruct (slabs c !! hdZ 0 l2); [|done].
      by rewrite lookup_insert_ne. }
    rewrite (delete_tail _ _ _ _ _ _ Hp Hs1). cbn [l_size l_head app] in *. rewrite Hlen.
    unfold unlink. cbn [lastZ Z.eqb]. fold sl1. by rewrite Hs1.
  - assert (Hne : h <> p).
    { intros ->. pose proof (lr_nodup _ _ _ H) as (_ & Hd & _)%NoDup_app. apply (Hd p); set_solver. }
    cbn [app hdZ]. rewrite (proj2 (Z.eqb_neq h p) Hne), (proj2 (Z.eqb_neq (Z.of_nat _) 0)) by (simpl; lia).
    cbn [orb]. rewrite bind_assoc, (bind_ok _ _ _ _ _ (upd_slab_at _ _ _ _ _ _ Hp Hs)), Hprev, Hnext.
    rewrite bind_assoc, (bind_ok _ _ _ _ _ (upd_if_next _ _ _ _ _ _ Hpi)).
    set (sl1 := if hdZ 0 l2 =? 0 then _ else _). set (nx := lastZ 0 (h :: l1)) in *.
    assert (Hni1 : nx <> 0 -> is_Some (sl1 !! nx)).
    { intros Hz. destruct (Hni Hz) as [sn Hsn]. unfold sl1. destruct (Z.eqb_spec (hdZ 0 l2) 0); [by exists sn|].
      destruct (slabs c !! hdZ 0 l2); [|by exists sn]. rewrite lookup_insert_ne; [by exists sn|].
      intros E. by apply Hpn. }
    run (upd_if_prev _ _ _ _ _ _ Hni1). set (sl2 := if nx =? 0 then _ else _).
    unfold unlink in Hup |- *. fold sl1 in Hup |- *. fold sl2 in Hup |- *.
    destruct (sl2 !! p) as [s2|] eqn:E2.
    + by rewrite (delete_tail _ _ _ _ _ _ Hp E2), (lr_size _ _ _ H), (lr_head _ _ _ H), Hlen.
    + by rewrite E2 in Hup.
Qed.

Lemma delete_from_list_spec c i l1 p l2 :
  list_rep c i (l1 ++ p :: l2) ->
  exists c' s, delete_from_list (Some i) p c = Ok (tt, c') /\ list_rep c' i (l1 ++ l2) /\
    slabs c !! p = Some s /\ slabs c' !! p = Some (relink s 0 0) /\ list_frame i p (l1 ++ l2) c c'.
Proof.
  intros H. destruct (list_rep_node _ _ _ _ _ H) as (Hp & s & Hs & Hprev & Hnext).
  destruct (list_rep_neighbours _ _ _ _ _ H) as (Hpp & Hnp & Hpn & Hpi & Hni).
  pose proof (fun a => unlink_lookup (slabs c) p (hdZ 0 l2) (lastZ 0 l1) s a Hs Hpp Hnp Hpn Hpi Hni) as Hlk.
  eexists _, s. split; [apply (delete_run _ _ _ _ _ H)|].
  pose proof (lr_nodup _ _ _ H) as Hnd. pose proof (lr_dll _ _ _ H) as Hd.
  pose proof (dll_nonnull _ _ _ _ Hd) as Hnn. rewrite Forall_forall in Hnn.
  pose proof Hnd as (Hnd1 & Hdisj & [Hp2 Hnd2]%NoDup_cons)%NoDup_app.
  split; [|split; [done|split]].
  - split; rewrite ?upd_get, ?decide_True, ?upd_slabs by done; try done.
    + apply (dll_delete _ _ 0 l1 p l2 0 Hd).
      * intros l0 t ->. rewrite lastZ_snoc in *. apply NoDup_app in Hnd1 as (_ & Ht0 & _).
        rewrite <- app_assoc in Hd. pose proof (dll_lookup _ 0 l0 t (p :: l2) 0 Hd) as Hlt.
        destruct (slinks_node _ _ _ _ Hlt) as (st & Hst & Hpt & Hnt).
        unfold slinks. split.
        -- assert (Htp : t <> p) by (intros ->; apply (Hdisj p); set_solver).
           assert (Htn : ~ (t = hdZ 0 l2 /\ hdZ 0 l2 <> 0)) by (intros [-> ?]; by apply Hpn).
           assert (Ht1 : t = t /\ t <> 0) by (split; [done|apply Hnn; set_solver]).
           rewrite Hlk, (decide_False _ _ Htp), (decide_False _ _ Htn), (decide_True _ _ Ht1), Hst.
           by simpl; rewrite Hnt.
        -- intros b Hb. rewrite Hlk, !decide_False; [done| | |].
           ++ intros [-> _]. apply (Ht0 t Hb). set_solver.
           ++ intros [-> Hz]. apply (Hdisj (hdZ 0 l2)); [set_solver|]. right. apply hdZ_in. by intros ->.
           ++ intros ->. apply (Hdisj p); set_solver.
      * intros b l0 ->. cbn [hdZ] in *. apply NoDup_cons in Hnd2 as [Hb0 _].
        pose proof (dll_lookup _ 0 (l1 ++ [p]) b l0 0 ltac:(by rewrite <- app_assoc)) as Hlb.
        destruct (slinks_node _ _ _ _ Hlb) as (sb & Hsb & Hpb & Hnb). unfold slinks. split.
        -- assert (Hbp : b <> p) by set_solver.
           assert (Hb1 : b = b /\ b <> 0) by (split; [done|apply Hnn; set_solver]).
           rewrite Hlk, (decide_False _ _ Hbp), (decide_True _ _ Hb1), Hsb. by simpl; rewrite Hpb.
        -- intros x Hx. rewrite Hlk, !decide_False; [done| | |].
           ++ intros [-> Hz]. apply (Hdisj (lastZ 0 l1)); [|set_solver]. apply lastZ_in. by intros ->.
           ++ intros [-> _]. set_solver.
           ++ intros ->. apply Hp2. set_solver.
    + apply NoDup_app. split; [done|]. split; [set_solver|done].
    + pose proof (lr_small _ _ _ H) as Hsm. rewrite !length_app in *. simpl in Hsm. lia.
  - by rewrite upd_slabs, Hlk, decide_True.
  - apply upd_frame; intros a Ha; rewrite Hlk.
    + rewrite decide_False by done. destruct (decide _); [by destruct (slabs c !! a)|].
      destruct (decide _); [by destruct (slabs c !! a)|done].
    + rewrite decide_False by set_solver. rewrite !decide_False; [done| |].
      * intros [-> Hz]. apply Ha. right. apply elem_of_app. left. apply lastZ_in. by intros ->.
      * intros [-> Hz]. apply Ha. right. apply elem_of_app. right. apply hdZ_in. by intros ->.
Qed.

(** ** The cache *)

(** One slab: its free list [fl] and its blocks in use [us] are all its
    blocks. *)
Record slab_ok (bl : gmap Z block) (p : Z) (s : slab) (fl us : list Z) : Prop := {
  so_chain : chain bl (first_block s) fl;
  so_nodup : NoDup (fl ++ us);
  so_size : s_size s = Z.of_nat (length us);
  so_capacity : s_capacity s = Z.of_nat (length fl + length us);
  so_small : s_capacity s < 2 ^ 64;
  so_blocks : forall a, a ∈ fl ++ us <-> exists b, bl !! a = Some b /\ slab_ptr b = p
}.

(** The fill level each list stands for. *)
Definition class (i : list_id) (s : slab) : Prop :=
  match i with
  | LFree => s_size s = 0 /\ 0 < s_capacity s
  | LPartial => 0 < s_size s < s_capacity s
  | LFull => s_size s = s_capacity s /\ 0 < s_capacity s
  end.

(** [cache_ok x c L F U]: the lists of [c] are [L], slab [p] has the free
    blocks [F p] and the blocks in use [U p], and every slab but [x] is on the
    list of its fill level. *)
Record cache_ok (x : option Z) (c : cache) (L : list_id -> list Z) (F U : Z -> list Z) : Prop := {
  co_lists : forall i, list_rep c i (L i);
  co_disj : forall i j p, p ∈ L i -> p ∈ L j -> i = j;
  co_dom : forall p, is_Some (slabs c !! p) -> exists i, p ∈ L i;
  co_slab : forall i p, p ∈ L i -> exists s, slabs c !! p = Some s /\ list_ptr s = Some i /\
    slab_ok (blocks c) p s (F p) (U p) /\ 0 < s_capacity s /\ (Some p <> x -> class i s);
  co_owner : forall a b, blocks c !! a = Some b -> is_Some (slabs c !! slab_ptr b);
  co_nonnull : blocks c !! 0 = None;
  co_room : Z.of_nat (size (slabs c)) + 1 < 2 ^ 64
}.

Lemma slab_ok_frame bl bl' p s s' fl us :
  slab_ok bl p s fl us ->
  first_block s' = first_block s -> s_size s' = s_size s -> s_capacity s' = s_capacity s ->
  (forall a, a ∈ fl -> bl' !! a = bl !! a) ->
  (forall a, (exists b, bl' !! a = Some b /\ slab_ptr b = p) <-> (exists b, bl !! a = Some b /\ slab_ptr b = p)) ->
  slab_ok bl' p s' fl us.
Proof.
  intros [Hc Hnd Hs Hcap Hsm Hb] Hf Hsz Hcp Heq Hbl. split; rewrite ?Hf, ?Hsz, ?Hcp; try done.
  - by eapply chain_frame.
  - intros a. by rewrite Hb, Hbl.
Qed.

Lemma cache_ok_stay c L F U i p s :
  cache_ok (Some p) c L F U -> p ∈ L i -> slabs c !! p = Some s -> class i s -> cache_ok None c L F U.
Proof.
  intros H Hp Hs Hc. destruct H as [Hl Hd Hdom Hslab Ho Hn Hr]. split; try done. intros j q Hq.
  destruct (Hslab j q Hq) as (sq & Hsq & Hlp & Hok & Hcap & Hcl). exists sq. split_and!; try done. intros _.
  destruct (decide (q = p)) as [->|Hne]; [|apply Hcl; congruence].
  assert (j = i) as -> by by eapply Hd. congruence.
Qed.

Lemma member_nonnull x c L F U i p : cache_ok x c L F U -> p ∈ L i -> p <> 0.
Proof.
  intros H Hp. pose proof (lr_dll _ _ _ (co_lists _ _ _ _ _ H i)) as Hnn%dll_nonnull.
  rewrite Forall_forall in Hnn. by apply Hnn.
Qed.

(** Changing the free list of slab [p] and the header of one of its blocks. *)
Lemma cache_ok_update x c L F U i p s s' a b b' fl us :
  x = None \/ x = Some p -> cache_ok x c L F U -> p ∈ L i -> slabs c !! p = Some s -> blocks c !! a = Some b ->
  slab_ptr b = p -> slab_ptr b' = p -> a <> 0 ->
  prev_slab s' = prev_slab s -> next_slab s' = next_slab s -> list_ptr s' = list_ptr s ->
  0 < s_capacity s' -> slab_ok (<[a := b']> (blocks c)) p s' fl us ->
  cache_ok (Some p) (with_blocks (with_slabs c (<[p := s']> (slabs c))) (<[a := b']> (blocks c))) L
    (fun q => if decide (q = p) then fl else F q) (fun q => if decide (q = p) then us else U q).
Proof.
  intros Hx H Hp Hs Hba Hbp Hbp' Ha0 Hprev Hnext Hlp Hcap Hok. destruct H as [Hl Hd Hdom Hslab Ho Hn Hr].
  assert (Hptr : forall q y, (exists b0, <[a := b']> (blocks c) !! y = Some b0 /\ slab_ptr b0 = q) <->
                             (exists b0, blocks c !! y = Some b0 /\ slab_ptr b0 = q)).
  { intros q y. destruct (decide (y = a)) as [->|Hne]; [|by rewrite lookup_insert_ne].
    rewrite lookup_insert_eq, Hba. naive_solver. }
  split; simpl; try done.
  - intros j. destruct (Hl j) as [H1 H2 H3 H4 H5]. split; simpl; try (by destruct j).
    eapply dll_ext; [|exact H3]. intros q Hq. destruct (decide (q = p)) as [->|]; [|by rewrite slinks_insert_ne].
    rewrite slinks_insert_eq. unfold slinks. by rewrite Hs, Hprev, Hnext.
  - intros q. destruct (decide (q = p)) as [->|]; [intros _; by exists i|]. rewrite lookup_insert_ne by done. apply Hdom.
  - intros j q Hq. destruct (decide (q = p)) as [->|Hne].
    + assert (j = i) as -> by by eapply Hd. exists s'. rewrite lookup_insert_eq.
      destruct (Hslab i p Hp) as (s0 & Hs0 & Hl0 & _). split_and!; try done. congruence.
    + destruct (Hslab j q Hq) as (sq & Hsq & Hlq & Hokq & Hcapq & Hclq). exists sq.
      rewrite lookup_insert_ne by done. split_and!; try done.
      * eapply slab_ok_frame; [exact Hokq|done|done|done| |by intros y; apply Hptr].
        intros y Hy. rewrite lookup_insert_ne; [done|]. intros <-.
        destruct (proj1 (so_blocks _ _ _ _ _ Hokq a)) as (b0 & Hb0 & Hs0); [set_solver|]. congruence.
      * intros _. apply Hclq. destruct Hx as [-> | ->]; congruence.
  - intros y by_. destruct (decide (y = a)) as [->|Hne].
    + rewrite lookup_insert_eq. intros [= <-]. rewrite Hbp', lookup_insert_eq. by eexists.
    + rewrite lookup_insert_ne by done. intros Hy%Ho.
      destruct (decide (slab_ptr by_ = p)) as [->|]; [by rewrite lookup_insert_eq|by rewrite lookup_insert_ne].
  - by rewrite lookup_insert_ne.
  - by rewrite map_size_insert_Some by by exists s.
Qed.

(** Taking a block of slab [p]. *)
Lemma alloc_block_ok x c L F U i p a fl :
  x = None \/ x = Some p -> cache_ok x c L F U -> p ∈ L i -> F p = a :: fl ->
  exists c' s s', alloc_block p c = Ok (a + 24, c') /\ slabs c !! p = Some s /\
    slabs c' !! p = Some s' /\ s_size s' = s_size s + 1 /\ s_capacity s' = s_capacity s /\
    cache_ok (Some p) c' L (fun q => if decide (q = p) then fl else F q)
      (fun q => if decide (q = p) then a :: U p else U q).
Proof.
  intros Hx H Hp HF. destruct (co_slab _ _ _ _ _ H i p Hp) as (s & Hs & Hlp & Hok & Hcap & _).
  pose proof (member_nonnull _ _ _ _ _ _ _ H Hp) as Hp0.
  rewrite HF in Hok. destruct Hok as [(Hfirst & Ha0 & b & Hba & Hc) Hnd Hsz Hcp Hsm Hb]. simpl in Hcp.
  assert (Hbp : slab_ptr b = p).
  { destruct (proj1 (Hb a)) as (b' & Hb' & Hsp); [simpl; set_solver|]. congruence. }
  set (s' := mk_slab (s_size s + 1) (s_capacity s) (block_size s) (next_block b) (prev_slab s)
               (next_slab s) (list_ptr s) (raw_data s)).
  set (b' := mk_block (b_size b) 0 p).
  eexists _, s, s'. split; [|split; [done|split; [|split; [done|split; [done|]]]]].
  - unfold alloc_block. run (slab_at_ok _ _ _ Hp0 Hs).
    rewrite (proj2 (Z.leb_gt _ _)) by lia. rewrite Hfirst. unfold bind at 1, block_at at 1.
    rewrite (proj2 (Z.eqb_neq a 0) Ha0), Hba. rewrite u64_small by lia.
    run (set_free_list_ok _ _ _ _ _ Hp0 Hs). fold s'.
    run (set_next_block_ok (with_slabs c _) a 0 b Ha0 Hba). by rewrite Hbp.
  - apply lookup_insert_eq.
  - apply (cache_ok_update x c L F U i p s s' a b b'); try done.
    simpl in Hnd. pose proof Hnd as [Hanot _]%NoDup_cons.
    split; simpl; try lia; [|by rewrite <- Permutation_middle|].
    + eapply chain_frame; [|exact Hc]. intros y Hy. rewrite lookup_insert_ne; [done|]. set_solver.
    + intros y. transitivity (y ∈ (a :: fl) ++ U p); [set_solver|]. rewrite Hb.
      destruct (decide (y = a)) as [->|Hne]; [rewrite lookup_insert_eq, Hba; naive_solver|by rewrite lookup_insert_ne].
Qed.

(** Giving a block back to slab [p]. *)
Lemma free_block_ok c L F U i p a u1 u2 :
  cache_ok None c L F U -> p ∈ L i -> U p = u1 ++ a :: u2 ->
  exists c' s s', free_block p a c = Ok (tt, c') /\ slabs c !! p = Some s /\
    slabs c' !! p = Some s' /\ s_size s' = s_size s - 1 /\ s_capacity s' = s_capacity s /\
    list_ptr s' = list_ptr s /\ 0 < s_size s <= s_capacity s /\
    cache_ok (Some p) c' L (fun q => if decide (q = p) then a :: F p else F q)
      (fun q => if decide (q = p) then u1 ++ u2 else U q).
Proof.
  intros H Hp HU. destruct (co_slab _ _ _ _ _ H i p Hp) as (s & Hs & Hlp & Hok & Hcap & _).
  pose proof (member_nonnull _ _ _ _ _ _ _ H Hp) as Hp0.
  destruct Hok as [Hc Hnd Hsz Hcp Hsm Hb]. rewrite HU in *. rewrite length_app in Hsz, Hcp. simpl in Hsz, Hcp.
  destruct (proj1 (Hb a)) as (b & Hba & Hbp); [set_solver|].
  assert (Ha0 : a <> 0) by (intros ->; by rewrite (co_nonnull _ _ _ _ _ H) in Hba).
  assert (Haf : ~ (a ∈ F p)) by (apply NoDup_app in Hnd as (_ & Hd & _); intros Hi; apply (Hd a Hi); set_solver).
  assert (Hfirst : first_block s <> a).
  { intros E. destruct (F p) as [|f fl]; simpl in Hc; [congruence|]. destruct Hc as (Hf & _). set_solver. }
  set (s' := mk_slab (s_size s - 1) (s_capacity s) (block_size s) a (prev_slab s)
               (next_slab s) (list_ptr s) (raw_data s)).
  set (b' := mk_block (b_size b) (first_block s) p).
  eexists _, s, s'. split; [|split_and!; try done; [|lia|lia|]].
  - unfold free_block. run (slab_at_ok _ _ _ Hp0 Hs).
    rewrite (proj2 (Z.eqb_neq (s_size s) 0)), (proj2 (Z.eqb_neq _ a) Hfirst) by lia.
    rewrite (bind_ok _ _ _ _ _ (set_next_block_ok c a (first_block s) b Ha0 Hba)), Hbp. fold b'.
    rewrite u64_small by lia. by rewrite (set_free_list_ok (with_blocks c _) p s a _ Hp0 Hs).
  - apply lookup_insert_eq.
  - assert (Hperm : (a :: F p) ++ u1 ++ u2 ≡ₚ F p ++ u1 ++ a :: u2).
    { rewrite <- (Permutation_middle u1 u2 a), <- (Permutation_middle (F p) (u1 ++ u2) a). done. }
    change (with_slabs (with_blocks c (<[a:=b']> (blocks c))) (<[p:=s']> (slabs (with_blocks c (<[a:=b']> (blocks c))))))
      with (with_blocks (with_slabs c (<[p := s']> (slabs c))) (<[a := b']> (blocks c))).
    apply (cache_ok_update None c L F U i p s s' a b b'); try done; [by left|].
    split; simpl; rewrite ?length_app; try lia.
    + split; [done|]. split; [done|]. exists b'. rewrite lookup_insert_eq. split; [done|].
      eapply chain_frame; [|exact Hc]. intros y Hy. rewrite lookup_insert_ne; [done|]. by intros ->.
    + change (NoDup ((a :: F p) ++ u1 ++ u2)). by rewrite Hperm.
    + intros y. change (y ∈ (a :: F p) ++ u1 ++ u2 <-> exists b0, <[a:=b']> (blocks c) !! y = Some b0 /\ slab_ptr b0 = p).
      rewrite Hperm, Hb.
      destruct (decide (y = a)) as [->|Hne]; [rewrite lookup_insert_eq, Hba; naive_solver|by rewrite lookup_insert_ne].
Qed.

(** *** Moving a slab between the lists *)

(** All of a slab but its links. *)
Definition same_core (s s' : slab) : Prop := relink s 0 0 = relink s' 0 0.

Lemma frame_slab i p l c c' a s :
  list_frame i p l c c' -> a <> p -> slabs c !! a = Some s ->
  exists s', slabs c' !! a = Some s' /\ same_core s s'.
Proof.
  intros Hf Ha Hs. pose proof (fr_core _ _ _ _ _ Hf a Ha) as Hc. rewrite Hs in Hc.
  destruct (slabs c' !! a) as [s'|]; [|done]. injection Hc as Hc. exists s'. split; [done|].
  unfold same_core, relink. congruence.
Qed.

Lemma frame_slab_inv i p l c c' a :
  list_frame i p l c c' -> a <> p -> is_Some (slabs c' !! a) -> is_Some (slabs c !! a).
Proof.
  intros Hf Ha [s' Hs]. pose proof (fr_core _ _ _ _ _ Hf a Ha) as Hc. rewrite Hs in Hc.
  destruct (slabs c !! a) as [s|]; [by exists s|done].
Qed.

(** A list that shares no slab with the one operated on. *)
Lemma list_rep_frame i p l c c' j lj :
  list_frame i p l c c' -> j <> i -> (forall a, a ∈ lj -> ~ (a ∈ p :: l)) ->
  list_rep c j lj -> list_rep c' j lj.
Proof.
  intros Hf Hj Hdisj [H1 H2 H3 H4 H5]. split; rewrite ?(fr_lists _ _ _ _ _ Hf j Hj); try done.
  eapply dll_ext; [|exact H3]. intros a Ha. unfold slinks. by rewrite (fr_outside _ _ _ _ _ Hf) by by apply Hdisj.
Qed.

Lemma NoDup_dom_length (m : gmap Z slab) l :
  NoDup l -> (forall a, a ∈ l -> is_Some (m !! a)) -> (length l <= size m)%nat.
Proof.
  intros Hnd Hin. rewrite <- size_dom. rewrite <- (size_list_to_set (C := gset Z) l Hnd).
  apply subseteq_size. intros a Ha%elem_of_list_to_set. apply elem_of_dom. by apply Hin.
Qed.

(** The lists after slab [p] went from [i] to the front of [j]. *)
Definition moved (L : list_id -> list Z) (i j : list_id) (p : Z) (rest : list Z) (k : list_id) : list Z :=
  let base := if decide (k = i) then rest else L k in
  if decide (k = j) then p :: base else base.

Lemma moved_in L i j p l1 l2 k q :
  L i = l1 ++ p :: l2 -> q ∈ moved L i j p (l1 ++ l2) k ->
  (q = p /\ k = j) \/ q ∈ L k.
Proof.
  intros HL. unfold moved. destruct (decide (k = j)) as [->|]; destruct (decide _) as [->|]; rewrite ?HL; set_solver.
Qed.

Lemma reposition_run c L F U i j p l1 l2 s x :
  cache_ok x c L F U -> L i = l1 ++ p :: l2 -> slabs c !! p = Some s ->
  exists c' s', slab_reposition (Some i) j p c = Ok (tt, c') /\
    (forall k, list_rep c' k (moved L i j p (l1 ++ l2) k)) /\
    slabs c' !! p = Some s' /\ list_ptr s' = Some j /\
    s_size s' = s_size s /\ s_capacity s' = s_capacity s /\ first_block s' = first_block s /\
    blocks c' = blocks c /\
    (forall a sa, a <> p -> slabs c !! a = Some sa -> exists sa', slabs c' !! a = Some sa' /\ same_core sa sa') /\
    (forall a, a <> p -> is_Some (slabs c' !! a) -> is_Some (slabs c !! a)).
Proof.
  intros H HL Hs. pose proof (co_lists _ _ _ _ _ H i) as Hi. rewrite HL in Hi.
  destruct (delete_from_list_spec c i l1 p l2 Hi) as (c1 & s0 & Hrun1 & Hrep1 & Hs0 & Hp1 & Hf1).
  assert (s0 = s) as -> by congruence.
  pose proof (lr_nodup _ _ _ Hi) as (Hnd1 & Hdisj & [Hp2 Hnd2]%NoDup_cons)%NoDup_app.
  assert (Hother : forall k, k <> i -> forall a, a ∈ L k -> ~ (a ∈ p :: l1 ++ l2)).
  { intros k Hk a Ha Hin. apply Hk. apply (co_disj _ _ _ _ _ H k i a Ha). rewrite HL. set_solver. }
  set (base := fun k => if decide (k = i) then l1 ++ l2 else L k).
  assert (Hbase : forall k, list_rep c1 k (base k)).
  { intros k. unfold base. destruct (decide (k = i)) as [->|Hk]; [done|].
    eapply list_rep_frame; [exact Hf1|done|by apply Hother|apply H]. }
  assert (Hpb : forall k, ~ (p ∈ base k)).
  { intros k. unfold base. destruct (decide (k = i)) as [->|Hk].
    - intros [Hx|Hx]%elem_of_app; [apply (Hdisj p Hx); set_solver|done].
    - intros Hx. apply (Hother k Hk p Hx). set_solver. }
  assert (Hmem : forall k a, a ∈ base k -> is_Some (slabs c !! a)).
  { intros k a Ha. assert (exists k', a ∈ L k') as [k' Hk'].
    { exists k. unfold base in Ha. destruct (decide (k = i)) as [->|]; [|done]. rewrite HL. set_solver. }
    destruct (co_slab _ _ _ _ _ H k' a Hk') as (sa & Hsa & _). by exists sa. }
  pose proof (NoDup_dom_length (slabs c) (base j) (lr_nodup _ _ _ (Hbase j)) (Hmem j)) as Hlen.
  pose proof (co_room _ _ _ _ _ H) as Hroom.
  destruct (add_to_list_spec c1 j (base j) p (relink s 0 0) (Hbase j) Hp1) as (c2 & Hrun2 & Hrep2 & Hsp2 & Hf2);
    [by eapply list_rep_node|apply Hpb|done|lia|].
  exists c2, (linked_in (relink s 0 0) (hdZ 0 (base j)) j).
  split; [unfold slab_reposition; by rewrite (bind_ok _ _ _ _ _ Hrun1)|].
  split; [|split; [done|split_and!; try done]].
  - intros k. unfold moved. fold (base k). destruct (decide (k = j)) as [->|Hk]; [done|].
    eapply list_rep_frame; [exact Hf2|done| |apply Hbase]. intros a Ha [->|Hb]%elem_of_cons; [by apply (Hpb k)|].
    apply Hk. unfold base in Ha, Hb.
    destruct (decide (k = i)) as [->|], (decide (j = i)) as [->|]; try done.
    + apply (co_disj _ _ _ _ _ H i j a); [rewrite HL; set_solver|done].
    + apply (co_disj _ _ _ _ _ H k i a); [done|rewrite HL; set_solver].
    + by apply (co_disj _ _ _ _ _ H k j a).
  - by rewrite (fr_blocks _ _ _ _ _ Hf2), (fr_blocks _ _ _ _ _ Hf1).
  - intros a sa Ha Hsa. destruct (frame_slab _ _ _ _ _ _ _ Hf1 Ha Hsa) as (sa1 & Hsa1 & Hc1).
    destruct (frame_slab _ _ _ _ _ _ _ Hf2 Ha Hsa1) as (sa2 & Hsa2 & Hc2). exists sa2. split; [done|].
    unfold same_core in *. congruence.
  - intros a Ha Hx. eapply frame_slab_inv; [exact Hf1|done|]. by eapply frame_slab_inv.
Qed.

Definition without (p : Z) (l : list Z) : list Z := filter (fun q => q <> p) l.

Lemma without_absent p l : ~ (p ∈ l) -> without p l = l.
Proof.
  induction l as [|q l IH]; intros Hp; [done|]. unfold without. rewrite filter_cons_True by set_solver.
  f_equal. apply IH. set_solver.
Qed.

Lemma without_split p l1 l2 : NoDup (l1 ++ p :: l2) -> without p (l1 ++ p :: l2) = l1 ++ l2.
Proof.
  intros (H1 & Hd & [H2 H3]%NoDup_cons)%NoDup_app. unfold without. rewrite filter_app, filter_cons_False by tauto.
  f_equal; apply without_absent; [|done]. intros Hp. apply (Hd p Hp). set_solver.
Qed.

(** The lists after slab [p] of list [i] was put at the front of [j]. *)
Definition move (L : list_id -> list Z) (i j : list_id) (p : Z) : list_id -> list Z :=
  moved L i j p (without p (L i)).

Lemma reposition_ok x c L F U i j p s :
  x = None \/ x = Some p -> cache_ok x c L F U -> p ∈ L i -> slabs c !! p = Some s -> class j s ->
  exists c', slab_reposition (Some i) j p c = Ok (tt, c') /\ cache_ok None c' (move L i j p) F U /\
    forall q, (exists k, q ∈ move L i j p k) <-> (exists k, q ∈ L k).
Proof.
  intros Hx H (l1 & l2 & HL)%list_elem_of_split Hs Hcl. unfold move.
  assert (without p (L i) = l1 ++ l2) as ->.
  { rewrite HL. apply without_split. rewrite <- HL. apply (lr_nodup _ _ _ (co_lists _ _ _ _ _ H i)). }
  assert (Hpi : p ∈ L i) by (rewrite HL; set_solver).
  destruct (reposition_run c L F U i j p l1 l2 s x H HL Hs)
    as (c' & s' & Hrun & Hreps & Hs' & Hlp & Hsz & Hcap & Hfirst & Hbl & Hother & Hback).
  assert (Hpnot : forall k, p ∈ L k -> k = i) by (intros k Hk; by apply (co_disj _ _ _ _ _ H k i p)).
  assert (Hmv : forall k q, q <> p -> q ∈ moved L i j p (l1 ++ l2) k <-> q ∈ L k).
  { intros k q Hq. unfold moved.
    destruct (decide (k = j)) as [->|]; (destruct (decide _) as [->|]; [rewrite HL|]); set_solver. }
  assert (Hmp : forall k, p ∈ moved L i j p (l1 ++ l2) k -> k = j).
  { intros k. unfold moved. destruct (decide (k = j)); [done|]. destruct (decide (k = i)) as [->|]; [|by intros ?%Hpnot].
    pose proof (lr_nodup _ _ _ (co_lists _ _ _ _ _ H i)) as Hnd. rewrite HL in Hnd.
    apply NoDup_app in Hnd as (_ & Hd & [Hp2 _]%NoDup_cons). intros [Hy|Hy]%elem_of_app; [|done].
    exfalso. apply (Hd p Hy). set_solver. }
  assert (Hpj : p ∈ moved L i j p (l1 ++ l2) j) by (unfold moved; rewrite decide_True by done; set_solver).
  exists c'. split; [done|]. split.
  - split.
    + done.
    + intros k1 k2 q H1 H2. destruct (decide (q = p)) as [->|Hq]; [by rewrite (Hmp _ H1), (Hmp _ H2)|].
      apply Hmv in H1, H2; [|done..]. by apply (co_disj _ _ _ _ _ H k1 k2 q).
    + intros q Hq. destruct (decide (q = p)) as [->|Hne]; [by exists j|].
      destruct (co_dom _ _ _ _ _ H q (Hback q Hne Hq)) as [k Hk]. exists k. by apply Hmv.
    + intros k q Hq. destruct (decide (q = p)) as [->|Hne].
      * rewrite (Hmp _ Hq). exists s'. destruct (co_slab _ _ _ _ _ H i p Hpi) as (s0 & Hs0 & _ & Hok & Hcp & _).
        assert (s0 = s) as -> by congruence. split_and!; [done|done| |lia|].
        -- rewrite Hbl. by eapply slab_ok_frame.
        -- intros _. unfold class in *. by rewrite Hsz, Hcap.
      * apply Hmv in Hq; [|done]. destruct (co_slab _ _ _ _ _ H k q Hq) as (sq & Hsq & Hlq & Hok & Hcp & Hclq).
        destruct (Hother q sq Hne Hsq) as (sq' & Hsq' & Hcore). exists sq'.
        unfold same_core, relink in Hcore. injection Hcore as E1 E2 E3 E4 E5 E6.
        split_and!; [done|congruence| |lia|].
        -- rewrite Hbl. by eapply slab_ok_frame.
        -- intros _. unfold class in *. rewrite <- E1, <- E2. apply Hclq. destruct Hx as [-> | ->]; congruence.
    + intros a b. rewrite Hbl. intros Hb%(co_owner _ _ _ _ _ H). destruct Hb as [sb Hb].
      destruct (decide (slab_ptr b = p)) as [->|Hne]; [by exists s'|].
      destruct (Hother _ sb Hne Hb) as (sb' & Hsb' & _). by exists sb'.
    + rewrite Hbl. apply H.
    + assert (dom (slabs c') = dom (slabs c)) as Hdom.
      { apply set_eq. intros a. rewrite !elem_of_dom. destruct (decide (a = p)) as [->|Hne].
        - split; intros _; by eexists.
        - split; [by apply Hback|]. intros [sa Hsa]. destruct (Hother a sa Hne Hsa) as (? & ? & _). by eexists. }
      rewrite <- (size_dom (slabs c')), Hdom, size_dom. apply H.
  - intros q. destruct (decide (q = p)) as [->|Hne]; [split; intros _; by eexists|].
    split; intros [k Hk]; exists k; by apply Hmv.
Qed.

(** *** A new slab *)

(** What [malloc] must answer for a cache that has to grow: an unused region
    with room for a whole slab. *)
Record region (c : cache) (p usable : Z) : Prop := {
  rg_pos : 0 < p;
  rg_room : sizeof_slab + slab_objects c * (object_size c + sizeof_block) <= usable;
  rg_slab : slabs c !! p = None;
  rg_blocks : forall a, p <= a < p + usable -> blocks c !! a = None
}.

Record geometry (c : cache) : Prop := {
  ge_object : 0 <= object_size c /\ object_size c + sizeof_block < 2 ^ 64;
  ge_count : 1 <= slab_objects c < 2 ^ 64
}.

Lemma addrs_below q off n a : 0 < off -> a ∈ addrs q off n -> a <= q + Z.of_nat n * off.
Proof.
  intros Hoff. revert q. induction n as [|n IH]; intros q; simpl; [by intros ?%elem_of_nil|].
  intros [->|Ha]%elem_of_cons; [nia|]. apply IH in Ha. lia.
Qed.

Lemma with_slabs_rep c k l p s bl :
  list_rep c k l -> ~ (p ∈ l) -> list_rep (with_blocks (with_slabs c (<[p := s]> (slabs c))) bl) k l.
Proof.
  intros [H1 H2 H3 H4 H5] Hp. split; simpl; try (by destruct k).
  eapply dll_ext; [|exact H3]. intros a Ha. rewrite slinks_insert_ne; [done|]. by intros ->.
Qed.

(** [create_slab] and the [add_to_list] that follows it. *)
Lemma create_ok malloc c L F U p usable :
  cache_ok None c L F U -> geometry c -> L LPartial = [] ->
  malloc (alloc_slab_bytes (slab_order c)) = Some (p, usable) -> region c p usable ->
  Z.of_nat (size (slabs c)) + 2 < 2 ^ 64 ->
  exists c1 c2 bs, create_slab malloc (object_size c) (slab_order c) (slab_objects c) c = Ok (p, c1) /\
    add_to_list LPartial p c1 = Ok (tt, c2) /\ Z.of_nat (length bs) = slab_objects c /\
    cache_ok (Some p) c2 (fun k => if decide (k = LPartial) then [p] else L k)
      (fun q => if decide (q = p) then bs else F q) (fun q => if decide (q = p) then [] else U q).
Proof.
  intros H [[Ho1 Ho2] [Hc1 Hc2]] HL Hm [Hp Hroom Hfresh Hfb] Hsize. unfold sizeof_slab, sizeof_block in *.
  destruct (create_slab_run malloc c (object_size c) (slab_order c) (slab_objects c) p usable Hm Hp Ho1 Ho2 Hc1 Hroom)
    as (bl & Hrun & Hch & Hnd & Hlen & Hin & Hout).
  set (s := mk_slab 0 _ _ _ _ _ _ _) in *. set (bs := (p + 64) :: _) in *.
  set (c1 := with_blocks _ bl) in *.
  assert (Hrange : forall a, a ∈ bs -> p <= a < p + usable).
  { unfold bs. intros a [->|Ha]%elem_of_cons; [nia|].
    assert (Hoff : 0 < object_size c + 24) by lia.
    pose proof (addrs_above _ _ _ _ Hoff Ha). pose proof (addrs_below _ _ _ _ Hoff Ha). nia. }
  clearbody bs.
  assert (Hnone : forall a, a ∈ bs -> blocks c !! a = None) by (intros a Ha; by apply Hfb, Hrange).
  assert (Hpl : forall k, ~ (p ∈ L k)).
  { intros k Hk. destruct (co_slab _ _ _ _ _ H k p Hk) as (s0 & Hs0 & _). congruence. }
  assert (Hreps : forall k, list_rep c1 k (L k)) by (intros k; apply with_slabs_rep; [apply H|apply Hpl]).
  destruct (add_to_list_spec c1 LPartial [] p s) as (c2 & Hadd & Hrep & Hsp & Hf);
    [rewrite <- HL; apply Hreps|apply lookup_insert_eq|lia|set_solver|done|done|].
  exists c1, c2, bs. split; [done|]. split; [done|]. split; [done|].
  assert (Hbl2 : blocks c2 = bl) by apply (fr_blocks _ _ _ _ _ Hf).
  assert (Hold : forall a sa, a <> p -> slabs c !! a = Some sa -> slabs c2 !! a = Some sa).
  { intros a sa Ha Hsa. rewrite (fr_outside _ _ _ _ _ Hf) by set_solver. simpl. by rewrite lookup_insert_ne. }
  assert (Hnew : forall a, a <> p -> slabs c2 !! a = slabs c !! a).
  { intros a Ha. rewrite (fr_outside _ _ _ _ _ Hf) by set_solver. simpl. by rewrite lookup_insert_ne. }
  split.
  - intros k. destruct (decide (k = LPartial)) as [->|Hk]; [done|].
    eapply list_rep_frame; [exact Hf|done| |apply Hreps]. intros a Ha [->|?]%elem_of_cons; [by apply (Hpl k)|set_solver].
  - intros k1 k2 q. destruct (decide (k1 = LPartial)) as [->|], (decide (k2 = LPartial)) as [->|]; try done.
    + intros ->%list_elem_of_singleton Hq. by apply Hpl in Hq.
    + intros Hq ->%list_elem_of_singleton. by apply Hpl in Hq.
    + apply H.
  - intros q. destruct (decide (q = p)) as [->|Hq].
    + intros _. exists LPartial. rewrite decide_True by done. set_solver.
    + rewrite Hnew by done. intros Hs. destruct (co_dom _ _ _ _ _ H q Hs) as [k Hk]. exists k.
      destruct (decide (k = LPartial)) as [->|]; [|done]. rewrite HL in Hk. set_solver.
  - intros k q Hq. destruct (decide (q = p)) as [->|Hne].
    + destruct (decide (k = LPartial)) as [->|]; [|by apply Hpl in Hq].
      eexists. split; [exact Hsp|]. split_and!; [done| |simpl; lia|done].
      split; simpl; rewrite ?Hbl2, ?app_nil_r; try done; try lia.
      intros a. split; [intros Ha; destruct (Hin a Ha) as [nx Hnx]; by eexists|].
      intros (b & Hb & Hbp). destruct (decide (a ∈ bs)) as [|Hna]; [done|]. rewrite Hout in Hb by done.
      apply (co_owner _ _ _ _ _ H) in Hb. rewrite Hbp, Hfresh in Hb. by destruct Hb.
    + assert (Hk : q ∈ L k).
      { destruct (decide (k = LPartial)) as [->|]; [|done]. apply list_elem_of_singleton in Hq. congruence. }
      destruct (co_slab _ _ _ _ _ H k q Hk) as (sq & Hsq & Hlq & Hok & Hcp & Hcl).
      exists sq. split; [by apply Hold|]. split_and!; [done| |done|intros _; by apply Hcl].
      rewrite Hbl2. eapply slab_ok_frame; [exact Hok|done|done|done| |].
      * intros a Ha. apply Hout. intros Hb%Hnone.
        destruct (proj1 (so_blocks _ _ _ _ _ Hok a)) as (b & Hb' & _); [set_solver|]. congruence.
      * intros a. destruct (decide (a ∈ bs)) as [Ha|Ha]; [|by rewrite Hout].
        rewrite (Hnone a Ha). destruct (Hin a Ha) as [nx Hnx]. rewrite Hnx. split; [|naive_solver].
        intros (b & [= <-] & Hb). simpl in Hb. congruence.
  - intros a b. rewrite Hbl2. destruct (decide (a ∈ bs)) as [Ha|Ha].
    + destruct (Hin a Ha) as [nx ->]. intros [= <-]. simpl. by eexists.
    + rewrite Hout by done. intros [sb Hb]%(co_owner _ _ _ _ _ H).
      destruct (decide (slab_ptr b = p)) as [E|Hne]; [rewrite E in Hb; congruence|]. exists sb. by apply Hold.
  - rewrite Hbl2, Hout; [apply H|]. intros Hz%Hrange. lia.
  - assert (Hsz : size (slabs c2) = S (size (slabs c))); [|lia].
    assert (Hdom : dom (slabs c2) = {[p]} ∪ dom (slabs c)).
    { apply set_eq. intros a. rewrite elem_of_union, elem_of_singleton, !elem_of_dom.
      destruct (decide (a = p)) as [->|Hne]; [split; [by left|intros _; by eexists]|rewrite Hnew by done; naive_solver]. }
    rewrite <- (size_dom (slabs c2)), Hdom, size_union, size_singleton, size_dom; [done|].
    apply disjoint_singleton_l. by apply not_elem_of_dom.
Qed.

(** *** The contract of the cache *)

(** [A] is the set of block headers whose objects are in use. *)
Definition in_use (L : list_id -> list Z) (U : Z -> list Z) (A : gset Z) : Prop :=
  forall a, a ∈ A <-> exists k p, p ∈ L k /\ a ∈ U p.

Definition cache_rep (c : cache) (A : gset Z) : Prop :=
  exists L F U, cache_ok None c L F U /\ in_use L U A.

Lemma slab_is_full_ok c p s :
  p <> 0 -> slabs c !! p = Some s -> slab_is_full p c = Ok (s_capacity s <=? s_size s, c).
Proof.
  intros Hp Hs. unfold slab_is_full. rewrite (proj2 (Z.eqb_neq p 0) Hp).
  by rewrite (bind_ok _ _ _ _ _ (slab_at_ok _ _ _ Hp Hs)).
Qed.

(** The lists after the first block of slab [p] of list [i] was taken and [fl]
    are left: a slab without free blocks goes to the full ones, one that was
    free to the partial ones, and a partial one stays. *)
Definition alloc_lists (L : list_id -> list Z) (i : list_id) (p : Z) (fl : list Z) : list_id -> list Z :=
  match fl with
  | [] => move L i LFull p
  | _ :: _ => if decide (i = LPartial) then L else move L i LPartial p
  end.

(** The blocks of slab [p] replaced by [l]. *)
Definition at_slab (f : Z -> list Z) (p : Z) (l : list Z) (q : Z) : list Z := if decide (q = p) then l else f q.

(** From a slab with a free block to the end of [cache_alloc]. *)
Lemma finish_alloc x c L F U i p a fl (stay : bool) :
  x = None \/ x = Some p -> cache_ok x c L F U -> p ∈ L i -> F p = a :: fl ->
  (if stay then i = LPartial else i <> LPartial) ->
  exists c',
    (mem <- alloc_block p ;;
     full <- slab_is_full p ;;
     (if full : bool then slab_reposition (Some i) LFull p
      else if stay then ret tt else slab_reposition (Some i) LPartial p) ;;
     ret mem) c = Ok (a + 24, c') /\
    cache_ok None c' (alloc_lists L i p fl) (at_slab F p fl) (at_slab U p (a :: U p)) /\
    forall q, (exists k, q ∈ alloc_lists L i p fl k) <-> (exists k, q ∈ L k).
Proof.
  intros Hx H Hp HF Hstay. pose proof (member_nonnull _ _ _ _ _ _ _ H Hp) as Hp0.
  destruct (co_slab _ _ _ _ _ H i p Hp) as (s0 & Hs0 & _ & Hok & _). rewrite HF in Hok.
  pose proof (so_size _ _ _ _ _ Hok) as Hsz. pose proof (so_capacity _ _ _ _ _ Hok) as Hcp. simpl in Hcp.
  destruct (alloc_block_ok x c L F U i p a fl Hx H Hp HF) as (c1 & s & s1 & Hrun & Hs & Hs1 & Hsz1 & Hcp1 & H1).
  assert (s0 = s) as -> by congruence.
  rewrite (bind_ok _ _ _ _ _ Hrun), (bind_ok _ _ _ _ _ (slab_is_full_ok _ _ _ Hp0 Hs1)).
  fold (at_slab F p fl) in H1. fold (at_slab U p (a :: U p)) in H1.
  assert (Hmove : forall j, class j s1 -> exists c', slab_reposition (Some i) j p c1 = Ok (tt, c') /\
    cache_ok None c' (move L i j p) (at_slab F p fl) (at_slab U p (a :: U p)) /\
    forall q, (exists k, q ∈ move L i j p k) <-> (exists k, q ∈ L k)).
  { intros j Hj. apply (reposition_ok (Some p) c1 L _ _ i j p s1); [by right|done..]. }
  destruct (Z.leb_spec (s_capacity s1) (s_size s1)) as [Hfull|Hpart].
  - destruct fl as [|f fl]; [|simpl in Hcp; lia].
    destruct (Hmove LFull) as (c' & Hr & Hok' & Hmem); [split; lia|].
    exists c'. by rewrite (bind_ok _ _ _ _ _ Hr).
  - destruct fl as [|f fl]; [simpl in Hcp; lia|]. unfold alloc_lists. destruct stay.
    + rewrite decide_True by done. exists c1. split; [done|]. split; [|done]. rewrite Hstay in Hp.
      apply (cache_ok_stay c1 L _ _ LPartial p s1); [done|done|done|]. simpl. lia.
    + rewrite decide_False by done. destruct (Hmove LPartial) as (c' & Hr & Hok' & Hmem); [simpl; lia|].
      exists c'. by rewrite (bind_ok _ _ _ _ _ Hr).
Qed.

(** The block that was taken is new among the blocks in use. *)
Lemma in_use_alloc x c L L' F U A p a fl :
  cache_ok x c L F U -> in_use L U A -> (exists k, p ∈ L k) -> F p = a :: fl ->
  (forall q, (exists k, q ∈ L' k) <-> (exists k, q ∈ L k)) ->
  ~ (a ∈ A) /\ in_use L' (at_slab U p (a :: U p)) ({[a]} ∪ A).
Proof.
  unfold at_slab. intros H HA [i Hp] HF HL. destruct (co_slab _ _ _ _ _ H i p Hp) as (s & _ & _ & Hok & _). rewrite HF in Hok.
  destruct (proj1 (so_blocks _ _ _ _ _ Hok a)) as (b & Hb & Hbp); [simpl; set_solver|].
  pose proof (so_nodup _ _ _ _ _ Hok) as Hnd. split.
  - intros (k & q & Hq & Ha)%HA. destruct (decide (q = p)) as [->|Hne].
    + simpl in Hnd. apply NoDup_cons in Hnd as [Hnot _]. apply Hnot. set_solver.
    + destruct (co_slab _ _ _ _ _ H k q Hq) as (sq & _ & _ & Hokq & _).
      destruct (proj1 (so_blocks _ _ _ _ _ Hokq a)) as (b' & Hb' & Hbq); [set_solver|]. congruence.
  - intros y. rewrite elem_of_union, elem_of_singleton, (HA y). split.
    + intros [->|(k & q & Hq & Hy)].
      * destruct (proj2 (HL p)) as [k Hk]; [by exists i|]. exists k, p. split; [done|].
        rewrite decide_True by done. set_solver.
      * destruct (proj2 (HL q)) as [k' Hk']; [by exists k|]. exists k', q. split; [done|].
        destruct (decide (q = p)) as [->|]; [set_solver|done].
    + intros (k & q & Hq & Hy). destruct (proj1 (HL q)) as [k' Hk']; [by exists k|].
      destruct (decide (q = p)) as [->|]; [|right; by exists k', q].
      apply elem_of_cons in Hy as [->|Hy]; [by left|right; by exists k', p].
Qed.

(** The head of a non-empty list, with what its class says of its free list. *)
Lemma head_free_block c L F U i :
  cache_ok None c L F U -> L i <> [] -> i <> LFull ->
  exists a fl, hdZ 0 (L i) ∈ L i /\ F (hdZ 0 (L i)) = a :: fl.
Proof.
  intros H Hne Hi. pose proof (hdZ_in 0 (L i) Hne) as Hp.
  destruct (co_slab _ _ _ _ _ H i _ Hp) as (s & _ & _ & Hok & _ & Hcl). specialize (Hcl ltac:(done)).
  destruct (F (hdZ 0 (L i))) as [|a fl] eqn:E; [|by exists a, fl]. exfalso.
  pose proof (so_size _ _ _ _ _ Hok). pose proof (so_capacity _ _ _ _ _ Hok) as Hc. simpl in Hc.
  destruct i; simpl in Hcl; [lia|lia|done].
Qed.

Lemma alloc_from x c L F U A i p a fl (stay : bool) :
  x = None \/ x = Some p -> cache_ok x c L F U -> in_use L U A -> p ∈ L i -> F p = a :: fl ->
  (if stay then i = LPartial else i <> LPartial) ->
  exists c',
    (mem <- alloc_block p ;;
     full <- slab_is_full p ;;
     (if full : bool then slab_reposition (Some i) LFull p
      else if stay then ret tt else slab_reposition (Some i) LPartial p) ;;
     ret mem) c = Ok (a + sizeof_block, c') /\ ~ (a ∈ A) /\
    cache_ok None c' (alloc_lists L i p fl) (at_slab F p fl) (at_slab U p (a :: U p)) /\
    in_use (alloc_lists L i p fl) (at_slab U p (a :: U p)) ({[a]} ∪ A).
Proof.
  intros Hx H HA Hp HF Hstay.
  destruct (finish_alloc x c L F U i p a fl stay Hx H Hp HF Hstay) as (c' & Hrun & Hok & Hmem).
  destruct (in_use_alloc _ _ _ _ _ _ A _ a fl H HA ltac:(by exists i) HF Hmem) as [Hnot HA'].
  exists c'. split; [exact Hrun|]. done.
Qed.

(** The block that was given back is no longer among the blocks in use. *)
Lemma in_use_free c L F U A i p a u1 u2 L' :
  cache_ok None c L F U -> in_use L U A -> p ∈ L i -> U p = u1 ++ a :: u2 ->
  (forall q, (exists k, q ∈ L' k) <-> (exists k, q ∈ L k)) ->
  in_use L' (at_slab U p (u1 ++ u2)) (A ∖ {[a]}).
Proof.
  intros H HA Hp HU Hmem. destruct (co_slab _ _ _ _ _ H i p Hp) as (s0 & Hs0 & Hlp & Hok & _). rewrite HU in Hok.
  destruct (proj1 (so_blocks _ _ _ _ _ Hok a)) as (b & Hb & Hbp); [set_solver|].
  intros y. rewrite elem_of_difference, elem_of_singleton, (HA y). unfold at_slab.
  pose proof (so_nodup _ _ _ _ _ Hok) as (_ & _ & (_ & Hd & [Ha2 _]%NoDup_cons)%NoDup_app)%NoDup_app.
  assert (Ha1 : ~ (a ∈ u1)) by (intros Hi; apply (Hd a Hi); set_solver). split.
  - intros [(k & q & Hq & Hy) Hne]. destruct (proj2 (Hmem q)) as [k' Hk']; [by exists k|]. exists k', q.
    split; [done|]. destruct (decide (q = p)) as [->|]; [rewrite HU in Hy; set_solver|done].
  - intros (k & q & Hq & Hy). destruct (proj1 (Hmem q)) as [k' Hk']; [by exists k|].
    destruct (decide (q = p)) as [->|Hne].
    + split; [exists k', p; split; [done|rewrite HU; set_solver]|intros ->; set_solver].
    + split; [by exists k', q|]. intros ->. destruct (co_slab _ _ _ _ _ H k' q Hk') as (sq & _ & _ & Hokq & _).
      destruct (proj1 (so_blocks _ _ _ _ _ Hokq a)) as (b' & Hb' & Hbq); [set_solver|]. congruence.
Qed.

(** A new slab adds no block in use. *)
Lemma in_use_create c L F U A p usable :
  cache_ok None c L F U -> in_use L U A -> L LPartial = [] -> region c p usable ->
  in_use (fun k => if decide (k = LPartial) then [p] else L k) (fun q => if decide (q = p) then [] else U q) A.
Proof.
  intros H HA EP Hreg y. rewrite (HA y). split.
  - intros (k & q & Hq & Hy). assert (Hqp : q <> p).
    { intros ->. destruct (co_slab _ _ _ _ _ H k p Hq) as (s0 & Hs0 & _). by rewrite (rg_slab _ _ _ Hreg) in Hs0. }
    assert (Hk : k <> LPartial) by (intros ->; rewrite EP in Hq; set_solver).
    exists k, q. by rewrite !decide_False.
  - intros (k & q & Hq & Hy). destruct (decide (q = p)); [set_solver|].
    destruct (decide (k = LPartial)); [set_solver|]. by exists k, q.
Qed.

(** The list [cache_alloc] takes a slab from. *)
Definition serving_list (L : list_id -> list Z) : list_id :=
  match L LFree with [] => LPartial | _ :: _ => LFree end.

Lemma cache_alloc_serves malloc c L F U A :
  cache_ok None c L F U -> in_use L U A -> L LFree <> [] \/ L LPartial <> [] ->
  let i := serving_list L in
  let p := hdZ 0 (L i) in
  exists a fl c', F p = a :: fl /\ cache_alloc malloc c = Ok (a + sizeof_block, c') /\ ~ (a ∈ A) /\
    cache_ok None c' (alloc_lists L i p fl) (at_slab F p fl) (at_slab U p (a :: U p)) /\
    in_use (alloc_lists L i p fl) (at_slab U p (a :: U p)) ({[a]} ∪ A).
Proof.
  intros H HA Hany i p. unfold cache_alloc, gets.
  pose proof (lr_size _ _ _ (co_lists _ _ _ _ _ H LFree)) as HsF. simpl in HsF.
  pose proof (lr_head _ _ _ (co_lists _ _ _ _ _ H LFree)) as HhF. simpl in HhF.
  pose proof (lr_size _ _ _ (co_lists _ _ _ _ _ H LPartial)) as HsP. simpl in HsP.
  pose proof (lr_head _ _ _ (co_lists _ _ _ _ _ H LPartial)) as HhP. simpl in HhP.
  rewrite (bind_ok _ _ _ (l_size (slabs_free c)) c) by done. unfold i, serving_list in *.
  destruct (decide (L LFree = [])) as [EF|EF].
  - destruct Hany as [|EP]; [done|]. unfold p. rewrite EF in *. rewrite HsF.
    change (0 <? Z.of_nat (length [])) with false. cbv iota.
    rewrite (bind_ok _ _ _ (l_size (slabs_partial c)) c) by done.
    destruct (head_free_block c L F U LPartial H EP ltac:(done)) as (a & fl & Hin & HF). exists a, fl.
    rewrite HsP, (proj2 (Z.eqb_neq _ 0)) by (destruct (L LPartial); simpl; [done|lia]).
    rewrite (bind_ok _ _ _ (l_head (slabs_partial c)) c), HhP by done.
    destruct (alloc_from None c L F U A LPartial _ a fl true ltac:(by left) H HA Hin HF eq_refl) as (c' & ?).
    by exists c'.
  - unfold p. destruct (L LFree) as [|h l] eqn:EL; [done|]. rewrite <- EL in *.
    destruct (head_free_block c L F U LFree H EF ltac:(done)) as (a & fl & Hin & HF). exists a, fl.
    rewrite HsF, (proj2 (Z.ltb_lt 0 _)) by (rewrite EL; simpl; lia).
    rewrite (bind_ok _ _ _ (l_head (slabs_free c)) c), HhF by done.
    destruct (alloc_from None c L F U A LFree _ a fl false ltac:(by left) H HA Hin HF ltac:(done)) as (c' & ?).
    by exists c'.
Qed.

(** A cache as [cache_setup] leaves its sizes. *)
Definition set_up (c : cache) (o : Z) : Prop :=
  0 <= object_size c < 2 ^ 32 /\ get_slab_order (object_size c) DEFAULT_SIZE = Ok o /\
  slab_order c = o /\ slab_objects c = calculate_object_cnt (PAGE_SIZE * 2 ^ o) (object_size c).

(** Without a free or a partial slab [cache_alloc] makes a new one. *)
Lemma cache_alloc_creates malloc c L F U :
  cache_ok None c L F U -> L LFree = [] -> L LPartial = [] ->
  cache_alloc malloc c =
    (slab <- create_slab malloc (object_size c) (slab_order c) (slab_objects c) ;;
     add_to_list LPartial slab ;;
     mem <- alloc_block slab ;;
     full <- slab_is_full slab ;;
     (if full : bool then slab_reposition (Some LPartial) LFull slab else ret tt) ;;
     ret mem) c.
Proof.
  intros H EF EP. unfold cache_alloc, gets.
  pose proof (lr_size _ _ _ (co_lists _ _ _ _ _ H LFree)) as HsF. simpl in HsF.
  pose proof (lr_size _ _ _ (co_lists _ _ _ _ _ H LPartial)) as HsP. simpl in HsP.
  rewrite (bind_ok _ _ _ (l_size (slabs_free c)) c) by done. rewrite HsF, EF.
  change (0 <? Z.of_nat (length [])) with false. cbv iota.
  rewrite (bind_ok _ _ _ (l_size (slabs_partial c)) c) by done. rewrite HsP, EP.
  change (Z.of_nat (length []) =? 0) with true. cbv iota.
  rewrite bind_assoc, (bind_ok _ _ _ c c), bind_assoc by done.
  apply bind_ext. intros p c1. rewrite bind_assoc. apply bind_ext. intros u c2. done.
Qed.

(** C3: allocation from a cache.  While there is a free or else a partial slab
    the object returned is the first free block of the slab at the head of that
    list; it was not in use, is in use afterwards together with all that were,
    and the slab goes to the full list when this was its last block, to the
    partial list when it was free, and stays otherwise; no other slab changes.
    When there is neither, a cache that [cache_setup] made for objects whose
    slab has an order below 10 gets no object: with a [malloc] that refuses, the
    null slab is read, and with one that answers the bytes it was asked for, the
    new slab is laid out past them. *)
Theorem cache_alloc_fresh malloc c L F U A :
  cache_ok None c L F U -> in_use L U A ->
  (L LFree <> [] \/ L LPartial <> [] ->
   let i := serving_list L in
   let p := hdZ 0 (L i) in
   exists a fl c', F p = a :: fl /\ cache_alloc malloc c = Ok (a + sizeof_block, c') /\ ~ (a ∈ A) /\
     cache_ok None c' (alloc_lists L i p fl) (at_slab F p fl) (at_slab U p (a :: U p)) /\
     in_use (alloc_lists L i p fl) (at_slab U p (a :: U p)) ({[a]} ∪ A)) /\
  (L LFree = [] -> L LPartial = [] -> malloc (alloc_slab_bytes (slab_order c)) = None ->
   cache_alloc malloc c = Fault NullDeref) /\
  (forall o p, L LFree = [] -> L LPartial = [] -> set_up c o -> o < 10 -> 0 < p ->
   malloc (alloc_slab_bytes o) = Some (p, alloc_slab_bytes o) -> cache_alloc malloc c = Fault OutOfBounds).
Proof.
  intros H HA. split; [by apply cache_alloc_serves|]. split.
  - intros EF EP Hm. rewrite (cache_alloc_creates malloc c L F U H EF EP).
    unfold create_slab. by rewrite Hm.
  - intros o p EF EP (Hobj & Hord & Ho & Hcnt) Hlt Hp Hm. rewrite (cache_alloc_creates malloc c L F U H EF EP).
    rewrite Ho, Hcnt. apply bind_fault. by apply (create_slab_overruns malloc c (object_size c) o p).
Qed.

(** a [malloc] that answers an unused region larger than it was asked for,
    with room for the whole slab, lets a cache without free blocks grow: the
    object returned is the first block of the new slab. *)
Theorem cache_alloc_grows malloc c A p usable :
  cache_rep c A -> slabs_free c = mk_list 0 0 -> slabs_partial c = mk_list 0 0 -> geometry c ->
  malloc (alloc_slab_bytes (slab_order c)) = Some (p, usable) -> region c p usable ->
  Z.of_nat (size (slabs c)) + 2 < 2 ^ 64 ->
  exists a c', cache_alloc malloc c = Ok (a + sizeof_block, c') /\ ~ (a ∈ A) /\ cache_rep c' ({[a]} ∪ A).
Proof.
  intros (L & F & U & H & HA) HF HP Hge Hm Hreg Hsize.
  assert (Hnil : forall k, get_list c k = mk_list 0 0 -> L k = []).
  { intros k Hk. pose proof (lr_size _ _ _ (co_lists _ _ _ _ _ H k)) as Hsz. rewrite Hk in Hsz.
    destruct (L k); [done|simpl in Hsz; lia]. }
  pose proof (Hnil LFree HF) as EF. pose proof (Hnil LPartial HP) as EP.
  rewrite (cache_alloc_creates malloc c L F U H EF EP).
  destruct (create_ok malloc c L F U p usable H Hge EP Hm Hreg Hsize) as (c1 & c2 & bs & Hcr & Hadd & Hlen & H2).
  rewrite (bind_ok _ _ _ _ _ Hcr), (bind_ok _ _ _ _ _ Hadd). pose proof (ge_count _ Hge) as Hcnt.
  destruct bs as [|a fl]; [simpl in Hlen; lia|]. exists a.
  destruct (alloc_from _ c2 _ _ _ A LPartial p a fl true ltac:(by right) H2) as (c' & Hr & Hn & Hok & Hu).
  - by apply (in_use_create c L F U A p usable).
  - rewrite decide_True by done. set_solver.
  - by rewrite decide_True.
  - done.
  - exists c'. split; [exact Hr|]. split; [done|]. by eexists _, _, _.
Qed.

(** C4: freeing an object in use: its block becomes the first free one of the
    slab it came from, the slab goes to the front of the free list when no
    other block of it is in use and to the front of the partial list otherwise,
    no other slab changes its list or its blocks, and exactly this object is
    no longer in use. *)
Theorem cache_free_returns c L F U A i p a u1 u2 :
  cache_ok None c L F U -> in_use L U A -> p ∈ L i -> U p = u1 ++ a :: u2 ->
  let L' := move L i (match u1 ++ u2 with [] => LFree | _ :: _ => LPartial end) p in
  exists c', cache_free (a + sizeof_block) c = Ok (tt, c') /\
    cache_ok None c' L' (at_slab F p (a :: F p)) (at_slab U p (u1 ++ u2)) /\
    in_use L' (at_slab U p (u1 ++ u2)) (A ∖ {[a]}).
Proof.
  intros H HA Hp HU L'. pose proof (member_nonnull _ _ _ _ _ _ _ H Hp) as Hp0.
  destruct (co_slab _ _ _ _ _ H i p Hp) as (s0 & Hs0 & Hlp & Hok & _). rewrite HU in Hok.
  destruct (proj1 (so_blocks _ _ _ _ _ Hok a)) as (b & Hb & Hbp); [set_solver|].
  assert (Ha0 : a <> 0) by (intros ->; by rewrite (co_nonnull _ _ _ _ _ H) in Hb).
  unfold cache_free. rewrite Z.add_simpl_r. unfold bind at 1, block_at at 1.
  rewrite (proj2 (Z.eqb_neq a 0) Ha0), Hb, Hbp.
  rewrite (bind_ok _ _ _ _ _ (slab_at_ok _ _ _ Hp0 Hs0)), Hlp.
  destruct (free_block_ok c L F U i p a u1 u2 H Hp HU)
    as (c1 & s & s1 & Hrun & Hs & Hs1 & Hsz & Hcp & Hl1 & Hpos & H1).
  assert (s0 = s) as -> by congruence.
  rewrite (bind_ok _ _ _ _ _ Hrun), (bind_ok _ _ _ _ _ (slab_at_ok _ _ _ Hp0 Hs1)).
  fold (at_slab F p (a :: F p)) in H1. fold (at_slab U p (u1 ++ u2)) in H1.
  assert (Hmove : forall j, class j s1 -> exists c', slab_reposition (Some i) j p c1 = Ok (tt, c') /\
    cache_ok None c' (move L i j p) (at_slab F p (a :: F p)) (at_slab U p (u1 ++ u2)) /\
    in_use (move L i j p) (at_slab U p (u1 ++ u2)) (A ∖ {[a]})).
  { intros j Hj. destruct (reposition_ok (Some p) c1 L _ _ i j p s1 ltac:(by right) H1 Hp Hs1 Hj)
      as (c' & Hr & Hok' & Hmem).
    exists c'. split; [done|]. split; [done|]. by apply (in_use_free c L F U A i p a u1 u2 (move L i j p)). }
  pose proof (so_size _ _ _ _ _ Hok) as Hlen. rewrite length_app in Hlen. simpl in Hlen.
  assert (Hul : s_size s1 = Z.of_nat (length (u1 ++ u2))) by (rewrite length_app; lia).
  unfold L'. destruct (Z.eqb_spec (s_size s1) 0) as [Hz|Hnz]; destruct (u1 ++ u2) as [|u us] eqn:Eu;
    simpl in Hul; try lia; apply Hmove; simpl; lia.
Qed.

(** ** Concrete caches *)

(** What [cache_setup] makes of any cache for objects of 500 bytes. *)
Definition cache0 : cache :=
  mk_cache (mk_list 0 0) (mk_list 0 0) (mk_list 0 0) 500 1 15 8192 ∅ ∅.

Lemma cache0_setup l1 l2 l3 x1 x2 x3 x4 :
  cache_setup 500 (mk_cache l1 l2 l3 x1 x2 x3 x4 ∅ ∅) = Ok (tt, cache0).
Proof. vm_compute. reflexivity. Qed.

Lemma cache0_set_up : set_up cache0 1.
Proof. split; [simpl; lia|]. split; [vm_compute; reflexivity|]. split; [done|vm_compute; reflexivity]. Qed.

Lemma cache0_ok : cache_ok None cache0 (fun _ => []) (fun _ => []) (fun _ => []).
Proof.
  split.
  - intros []; split; simpl; (done || constructor).
  - set_solver.
  - intros p [s Hs]. done.
  - set_solver.
  - intros a b Hb. done.
  - done.
  - done.
Qed.

Lemma cache0_in_use : in_use (fun _ => []) (fun _ => []) ∅.
Proof. intros a. set_solver. Qed.

(** The same cache after a first object, from an allocator that answers two
    pages for one. *)
Definition two_pages : Z -> option (Z * Z) := fun _ => Some (4096, 8192).

Definition cache1 : cache :=
  match cache_alloc two_pages cache0 with Ok (_, c) => c | Fault _ => cache0 end.

Lemma cache1_rep : cache_rep cache1 {[4160]}.
Proof.
  destruct (cache_alloc_grows two_pages cache0 ∅ 4096 8192) as (a & c' & Hr & _ & Hc).
  - exists (fun _ => []), (fun _ => []), (fun _ => []). split; [exact cache0_ok|exact cache0_in_use].
  - done.
  - done.
  - split; simpl; unfold sizeof_block; lia.
  - done.
  - split; [lia|vm_compute; discriminate|reflexivity|reflexivity].
  - vm_compute. reflexivity.
  - assert (a = 4160 /\ c' = cache1) as [-> ->].
    { unfold cache1. rewrite Hr. split; [|done].
      assert (E : cache_alloc two_pages cache0 = Ok (4184, cache1)) by (vm_compute; reflexivity).
      rewrite E in Hr. injection Hr as Hr _. unfold sizeof_block in Hr. lia. }
    by rewrite union_empty_r_L in Hc.
Qed.

Lemma slab_geometry_witness :
  exists o, get_slab_order 500 DEFAULT_SIZE = Ok o /\ 0 <= o <= 10 /\
    calculate_slab_size o = Ok (PAGE_SIZE * 2 ^ o) /\
    (o < 10 -> total_size 500 <= PAGE_SIZE * 2 ^ o) /\
    (forall k, 0 <= k < o -> PAGE_SIZE * 2 ^ k < total_size 500) /\
    let cnt := calculate_object_cnt (PAGE_SIZE * 2 ^ o) 500 in
    sizeof_slab + cnt * (500 + sizeof_block) <= PAGE_SIZE * 2 ^ o /\ (o < 10 -> 10 <= cnt).
Proof. exact (slab_geometry 500 ltac:(lia)). Defined.

Lemma create_slab_overruns_witness :
  create_slab (fun n => Some (1000, n)) 500 1 (calculate_object_cnt (PAGE_SIZE * 2 ^ 1) 500) cache0
    = Fault OutOfBounds.
Proof.
  apply (create_slab_overruns (fun n => Some (1000, n)) cache0 500 1 1000);
    [lia|vm_compute; reflexivity|lia|lia|reflexivity].
Defined.

(** The second object comes from the slab of the first; the empty cache cannot
    grow. *)
Lemma cache_alloc_fresh_witness :
  (exists a c', cache_alloc (fun _ => None) cache1 = Ok (a + sizeof_block, c') /\
     ~ (a ∈ ({[4160]} : gset Z)) /\ cache_rep c' ({[a]} ∪ {[4160]})) /\
  cache_alloc (fun _ => None) cache0 = Fault NullDeref /\
  cache_alloc (fun n => Some (4096, n)) cache0 = Fault OutOfBounds.
Proof.
  split; [|split].
  - destruct cache1_rep as (L & F & U & H & HA).
    destruct (cache_alloc_fresh (fun _ => None) cache1 L F U {[4160]} H HA) as (H1 & _ & _).
    destruct H1 as (a & fl & c' & _ & Hr & Hn & Hok & Hu).
    + right. intros E. pose proof (lr_size _ _ _ (co_lists _ _ _ _ _ H LPartial)) as Hs.
      rewrite E in Hs. vm_compute in Hs. discriminate.
    + exists a, c'. split; [exact Hr|]. split; [exact Hn|]. eexists _, _, _. split; [exact Hok|exact Hu].
  - apply (cache_alloc_fresh (fun _ => None) cache0 _ _ _ ∅ cache0_ok cache0_in_use); reflexivity.
  - apply (cache_alloc_fresh (fun n => Some (4096, n)) cache0 _ _ _ ∅ cache0_ok cache0_in_use) with (o := 1) (p := 4096);
      [reflexivity|reflexivity|exact cache0_set_up|lia|lia|reflexivity].
Defined.

Lemma cache_free_returns_witness :
  exists c', cache_free (4160 + sizeof_block) cache1 = Ok (tt, c') /\ cache_rep c' ({[4160]} ∖ {[4160]}).
Proof.
  destruct cache1_rep as (L & F & U & H & HA).
  destruct (proj1 (HA 4160) (elem_of_singleton_2 _ _ eq_refl)) as (i & p & Hp & Hu).
  destruct (list_elem_of_split _ _ Hu) as (u1 & u2 & HU).
  destruct (cache_free_returns cache1 L F U {[4160]} i p 4160 u1 u2 H HA Hp HU) as (c' & Hr & Hok & Hu').
  exists c'. split; [exact Hr|]. eexists _, _, _. split; [exact Hok|exact Hu'].
Defined.
