(* ===== verification/Vector.v ===== *)
(** * Vector: the growable array of src/src/utils/collections/vector

    [vector.c] keeps elements of a caller-given size in one heap block, grows
    the block through [realloc] and offers locked variants of its operations;
    [number_interface.c] and [string_interface.c] store integers, doubles and
    string pointers in it.

    The heap has the vector structures and the byte blocks as two maps from
    addresses.  A byte of a block is [None] while nothing was written to it.
    Which of the next allocation requests the system refuses is the list
    [oom] of the state.  The structure is 184 bytes on the LP64 ABI, with
    [data], [size], [capacity], [rwlock], [realloc_process] and [lock_init]
    at offsets 0, 8, 16, 24, 80 and 176; [clear] writes over it bytewise. *)

From S2P Require Import Prelude CInt CString.
From Stdlib Require Import SpecFloat.
Open Scope Z_scope.

Definition NO_ERR : Z := 0.
Definition ALLOC_ERR : Z := 1.
Definition REALLOC_ERR : Z := 2.
Definition NULL_PTR_ERR : Z := 3.
Definition OUT_OF_BOUND_ERR : Z := 4.
Definition LOCK_INIT_ERR : Z := 5.
Definition MUTEX_INIT_ERR : Z := 6.
Definition COND_INIT_ERR : Z := 7.
Definition ZERO_SIZE_VECTOR : Z := 8.
Definition NO_EL : Z := -1.
Definition REALLOC_TRIES : nat := 10.

Abbreviation bytes := (list (option Z)).

(** The lock is [Some 0] when free, [Some n] with [n] readers, [Some (-1)]
    with a writer, [None] when it is not a valid lock object. *)
Record vector := {
  data : Z;
  size : Z;
  capacity : Z;
  rwlock : option Z;
  realloc_process : bool;
  mtx : bool;
  cond : bool;
  lock_init : bool
}.

Record mem := {
  vecs : gmap Z vector;
  blocks : gmap Z bytes;
  next : Z;
  oom : list bool
}.

(** ** The C library *)

Definition set_vecs (f : gmap Z vector -> gmap Z vector) (m : mem) : mem :=
  {| vecs := f m.(vecs); blocks := m.(blocks); next := m.(next); oom := m.(oom) |}.
Definition set_blocks (f : gmap Z bytes -> gmap Z bytes) (m : mem) : mem :=
  {| vecs := m.(vecs); blocks := f m.(blocks); next := m.(next); oom := m.(oom) |}.

(** One request: refused, or a fresh address. *)
Definition alloc : M mem (option Z) := fun m =>
  match m.(oom) with
  | true :: rest =>
      Ok (None, {| vecs := m.(vecs); blocks := m.(blocks); next := m.(next); oom := rest |})
  | l =>
      Ok (Some m.(next),
          {| vecs := m.(vecs); blocks := m.(blocks); next := m.(next) + 16; oom := tail l |})
  end.

Definition malloc (n : Z) : M mem Z :=
  r <- alloc;;
  match r with
  | None => ret 0
  | Some p => modify (set_blocks <[p := replicate (Z.to_nat n) None]>);; ret p
  end.

(** [free(p)] and the lookup every access starts with. *)
Definition block_at (p : Z) : M mem bytes :=
  if p =? 0 then fail NullDeref
  else b <- gets (fun m => m.(blocks) !! p);; lift (of_option Dangling b).

Definition free (p : Z) : M mem unit :=
  if p =? 0 then ret tt else block_at p;; modify (set_blocks (delete p)).

(** [realloc(p, n)]: a request for zero bytes releases the block and returns
    NULL; a refused one leaves it alone; otherwise the block moves. *)
Definition realloc (p n : Z) : M mem Z :=
  if p =? 0 then malloc n
  else
    b <- block_at p;;
    if n =? 0 then modify (set_blocks (delete p));; ret 0
    else
      r <- alloc;;
      match r with
      | None => ret 0
      | Some q =>
          modify (set_blocks (fun bs =>
            <[q := take (Z.to_nat n) (b ++ replicate (Z.to_nat n) None)]> (delete p bs)));;
          ret q
      end.

(** Reading and writing [n] bytes at [p + off]. *)
Definition read_mem (p off n : Z) : M mem bytes :=
  b <- block_at p;;
  if (0 <=? off) && (off + n <=? Z.of_nat (length b))
  then ret (take (Z.to_nat n) (drop (Z.to_nat off) b)) else fail OutOfBounds.

Definition splice (b : bytes) (off : nat) (src : bytes) : bytes :=
  take off b ++ src ++ drop (off + length src) b.

Definition write_mem (p off : Z) (src : bytes) : M mem unit :=
  b <- block_at p;;
  if (0 <=? off) && (off + Z.of_nat (length src) <=? Z.of_nat (length b))
  then modify (set_blocks <[p := splice b (Z.to_nat off) src]>) else fail OutOfBounds.

(** The first [n] bytes of a caller's object. *)
Definition read_object (o : bytes) (n : Z) : outcome bytes :=
  if n <=? Z.of_nat (length o) then Ok (take (Z.to_nat n) o) else Fault OutOfBounds.

(** Storing into a caller's buffer. *)
Definition fill (buf : option bytes) (src : bytes) : outcome (option bytes) :=
  match buf with
  | None => Fault NullDeref
  | Some b =>
      if Z.of_nat (length src) <=? Z.of_nat (length b)
      then Ok (Some (splice b 0 src)) else Fault OutOfBounds
  end.

Definition vec_at (inst : Z) : M mem vector :=
  if inst =? 0 then fail NullDeref
  else v <- gets (fun m => m.(vecs) !! inst);; lift (of_option Dangling v).

Definition put (inst : Z) (v : vector) : M mem unit := modify (set_vecs <[inst := v]>).

Definition with_size (n : Z) (v : vector) : vector :=
  {| data := v.(data); size := n; capacity := v.(capacity); rwlock := v.(rwlock);
     realloc_process := v.(realloc_process); mtx := v.(mtx); cond := v.(cond);
     lock_init := v.(lock_init) |}.
Definition with_data (d c : Z) (v : vector) : vector :=
  {| data := d; size := v.(size); capacity := c; rwlock := v.(rwlock);
     realloc_process := v.(realloc_process); mtx := v.(mtx); cond := v.(cond);
     lock_init := v.(lock_init) |}.
Definition with_lock (l : option Z) (v : vector) : vector :=
  {| data := v.(data); size := v.(size); capacity := v.(capacity); rwlock := l;
     realloc_process := v.(realloc_process); mtx := v.(mtx); cond := v.(cond);
     lock_init := v.(lock_init) |}.
Definition with_realloc (b : bool) (v : vector) : vector :=
  {| data := v.(data); size := v.(size); capacity := v.(capacity); rwlock := v.(rwlock);
     realloc_process := b; mtx := v.(mtx); cond := v.(cond); lock_init := v.(lock_init) |}.
Definition with_sync (m c i : bool) (v : vector) : vector :=
  {| data := v.(data); size := v.(size); capacity := v.(capacity); rwlock := v.(rwlock);
     realloc_process := v.(realloc_process); mtx := m; cond := c; lock_init := i |}.

(** ** Double arithmetic of the growth factor *)

Definition b64 (z : Z) : spec_float := binary_normalize 53 1024 z 0 false.

(** Conversion of a finite non-negative double to [size_t]. *)
Definition trunc (f : spec_float) : Z :=
  match f with
  | S754_finite false m e =>
      if 0 <=? e then Z.pos m * 2 ^ e else Z.pos m / 2 ^ (- e)
  | _ => 0
  end.

Definition REALLOC_COEFFICIENT (c : Z) : spec_float :=
  SFadd 53 1024 (SFdiv 53 1024 (b64 1024) (SFadd 53 1024 (b64 c) (b64 128))) (b64 1).

Definition new_capacity (c : Z) : Z :=
  u64 (trunc (SFmul 53 1024 (b64 c) (REALLOC_COEFFICIENT c))).

(** ** vector.c *)

Definition is_full (v : vector) : bool := v.(capacity) <=? v.(size).
Definition is_out_range (v : vector) (index : Z) : bool := v.(size) <=? index.

Definition resize (inst type_size : Z) : M mem Z :=
  v <- vec_at inst;;
  let nc := new_capacity v.(capacity) in
  new_data <- realloc v.(data) (u64 (nc * type_size));;
  if new_data =? 0 then ret REALLOC_ERR
  else put inst (with_data new_data nc v);; ret NO_ERR.

Definition vector_init (cap data_type_size : Z) : M mem (Z * option Z) :=
  let allocated_bytes := u64 (cap * data_type_size) in
  r <- alloc;;
  match r with
  | None => ret (ALLOC_ERR, None)
  | Some new_vector =>
      d <- malloc allocated_bytes;;
      if d =? 0 then ret (ALLOC_ERR, None)
      else
        write_mem d 0 (replicate (Z.to_nat allocated_bytes) (Some 0));;
        put new_vector {| data := d; size := 0; capacity := cap; rwlock := None;
                          realloc_process := false; mtx := false; cond := false;
                          lock_init := false |};;
        ret (NO_ERR, Some new_vector)
  end.

Definition vector_destroy (inst : Z) : M mem Z :=
  if inst =? 0 then ret NULL_PTR_ERR
  else
    v <- vec_at inst;;
    free v.(data);;
    modify (set_vecs (delete inst));;
    ret NO_ERR.

(** [rw], [mx] and [cv] are what the three pthread initialisers return. *)
Definition vector_multithread_init (rw mx cv cap data_type_size : Z)
    : M mem (Z * option Z) :=
  r <- vector_init cap data_type_size;;
  match r with
  | (init_res, Some p) =>
      v <- vec_at p;;
      if negb (rw =? 0) then ret (LOCK_INIT_ERR, Some p)
      else
        put p (with_lock (Some 0) v);;
        if negb (mx =? 0) then ret (MUTEX_INIT_ERR, Some p)
        else
          put p (with_sync true false false (with_lock (Some 0) v));;
          if negb (cv =? 0) then ret (COND_INIT_ERR, Some p)
          else
            put p (with_sync true true true (with_lock (Some 0) v));;
            ret (init_res, Some p)
  | (init_res, None) => ret (init_res, None)
  end.

(** Destroying a lock that is not initialised, or is held, is undefined. *)
Definition vector_multithread_destroy (inst : Z) : M mem Z :=
  if inst =? 0 then ret NULL_PTR_ERR
  else
    v <- vec_at inst;;
    match v.(rwlock), v.(mtx), v.(cond) with
    | Some 0, true, true => vector_destroy inst
    | _, _, _ => fail Indeterminate
    end.

(** [memset(inst, 0, n)] on the structure: the low [k] bytes of a field at
    offset [o] go when [o + k] is within [n]. *)
Definition zero_low (off n z : Z) : Z :=
  if n <=? off then z else z / 2 ^ (8 * (n - off)) * 2 ^ (8 * (n - off)).

Definition memset_struct (n : Z) (v : vector) : vector :=
  {| data := zero_low 0 n v.(data);
     size := zero_low 8 n v.(size);
     capacity := zero_low 16 n v.(capacity);
     rwlock := if 24 <? n then None else v.(rwlock);
     realloc_process := if 80 <? n then false else v.(realloc_process);
     mtx := if 88 <? n then false else v.(mtx);
     cond := if 128 <? n then false else v.(cond);
     lock_init := if 176 <? n then false else v.(lock_init) |}.

Definition clear (inst el_type_size : Z) : M mem Z :=
  if inst =? 0 then ret NULL_PTR_ERR
  else
    v <- vec_at inst;;
    let n := u64 (v.(size) * el_type_size) in
    if 184 <? n then fail OutOfBounds
    else put inst (with_size 0 (memset_struct n v));; ret NO_ERR.

(** The [while] loop over [resize] with the counter [tries]: [tries] is
    how many more failures are tolerated. *)
Fixpoint resize_loop (tries : nat) (inst el_type_size : Z) : M mem unit :=
  r <- resize inst el_type_size;;
  if r =? NO_ERR then ret tt
  else match tries with
       | O => ret tt
       | S tries => resize_loop tries inst el_type_size
       end.

Definition add (inst : Z) (el : option bytes) (el_type_size : Z) : M mem Z :=
  match el with
  | Some e =>
      if inst =? 0 then ret NULL_PTR_ERR
      else
        v <- vec_at inst;;
        (if is_full v then
           put inst (with_realloc true v);;
           resize_loop REALLOC_TRIES inst el_type_size;;
           v <- vec_at inst;;
           put inst (with_realloc false v)
         else ret tt);;
        v <- vec_at inst;;
        src <- lift (read_object e el_type_size);;
        write_mem v.(data) (u64 (v.(size) * el_type_size)) src;;
        put inst (with_size (u64 (v.(size) + 1)) v);;
        ret NO_ERR
  | None => ret NULL_PTR_ERR
  end.

Definition get (inst index el_type_size : Z) (value : option bytes)
    : M mem (Z * option bytes) :=
  if inst =? 0 then ret (NULL_PTR_ERR, value)
  else
    v <- vec_at inst;;
    if v.(size) =? 0 then ret (ZERO_SIZE_VECTOR, value)
    else if is_out_range v index then ret (OUT_OF_BOUND_ERR, value)
    else
      src <- read_mem v.(data) (u64 (index * el_type_size)) el_type_size;;
      value <- lift (fill value src);;
      ret (NO_ERR, value).

Definition set (inst index el_type_size : Z) (el : option bytes) : M mem Z :=
  match el with
  | Some e =>
      if inst =? 0 then ret NULL_PTR_ERR
      else
        v <- vec_at inst;;
        if is_out_range v index then ret OUT_OF_BOUND_ERR
        else
          src <- lift (read_object e el_type_size);;
          write_mem v.(data) (u64 (index * el_type_size)) src;;
          ret NO_ERR
  | None => ret NULL_PTR_ERR
  end.

Definition top (inst el_type_size : Z) (value : option bytes)
    : M mem (Z * option bytes) :=
  if inst =? 0 then ret (NULL_PTR_ERR, value)
  else
    v <- vec_at inst;;
    if v.(size) =? 0 then ret (ZERO_SIZE_VECTOR, value)
    else get inst (v.(size) - 1) el_type_size value.

Definition pop (inst el_type_size : Z) (value : option bytes)
    : M mem (Z * option bytes) :=
  if inst =? 0 then ret (NULL_PTR_ERR, value)
  else
    v <- vec_at inst;;
    if v.(size) =? 0 then ret (ZERO_SIZE_VECTOR, value)
    else
      r <- top inst el_type_size value;;
      (if r.1 =? NO_ERR then
         v <- vec_at inst;; put inst (with_size (u64 (v.(size) - 1)) v)
       else ret tt);;
      ret r.

(** ** The locked variants *)

Definition rdlock (inst : Z) : M mem unit :=
  v <- vec_at inst;;
  match v.(rwlock) with
  | None => fail Indeterminate
  | Some n => if n <? 0 then fail Blocked else put inst (with_lock (Some (n + 1)) v)
  end.

Definition wrlock (inst : Z) : M mem unit :=
  v <- vec_at inst;;
  match v.(rwlock) with
  | None => fail Indeterminate
  | Some n => if n =? 0 then put inst (with_lock (Some (-1)) v) else fail Blocked
  end.

Definition unlock (inst : Z) : M mem unit :=
  v <- vec_at inst;;
  match v.(rwlock) with
  | None => fail Indeterminate
  | Some n =>
      if n =? 0 then fail Indeterminate
      else put inst (with_lock (Some (if n <? 0 then 0 else n - 1)) v)
  end.

(** [while (inst->realloc_process) sched_yield();] *)
Definition await_realloc (inst : Z) : M mem unit :=
  v <- vec_at inst;; if v.(realloc_process) then fail Blocked else ret tt.

(** The function has no return statement, so it has no value to use. *)
Definition clear_multithread (inst el_type_size : Z) : M mem unit :=
  if inst =? 0 then ret tt
  else
    rdlock inst;; await_realloc inst;; unlock inst;;
    wrlock inst;; clear inst el_type_size;; unlock inst.

Definition add_multithread (inst : Z) (el : option bytes) (el_type_size : Z) : M mem Z :=
  if (inst =? 0) || bool_decide (el = None) then ret NULL_PTR_ERR
  else
    v <- vec_at inst;;
    if negb v.(lock_init) then ret LOCK_INIT_ERR
    else
      rdlock inst;; await_realloc inst;; unlock inst;;
      wrlock inst;;
      res <- add inst el el_type_size;;
      unlock inst;;
      ret res.

Definition get_multithread (inst index el_type_size : Z) (value : option bytes)
    : M mem (Z * option bytes) :=
  if (inst =? 0) || bool_decide (value = None) then ret (NULL_PTR_ERR, value)
  else
    v <- vec_at inst;;
    if negb v.(lock_init) then ret (LOCK_INIT_ERR, value)
    else
      rdlock inst;; await_realloc inst;;
      res <- get inst index el_type_size value;;
      unlock inst;;
      ret res.

Definition set_multithread (inst index el_type_size : Z) (el : option bytes) : M mem Z :=
  if (inst =? 0) || bool_decide (el = None) then ret NULL_PTR_ERR
  else
    v <- vec_at inst;;
    if negb v.(lock_init) then ret LOCK_INIT_ERR
    else
      wrlock inst;; await_realloc inst;;
      res <- set inst index el_type_size el;;
      unlock inst;;
      ret res.

Definition top_multithread (inst el_type_size : Z) (value : option bytes)
    : M mem (Z * option bytes) :=
  if inst =? 0 then ret (NULL_PTR_ERR, value)
  else
    v <- vec_at inst;;
    if v.(size) =? 0 then ret (ZERO_SIZE_VECTOR, value)
    else get_multithread inst (v.(size) - 1) el_type_size value.

Definition pop_multithread (inst el_type_size : Z) (value : option bytes)
    : M mem (Z * option bytes) :=
  if inst =? 0 then ret (NULL_PTR_ERR, value)
  else
    v <- vec_at inst;;
    if v.(size) =? 0 then ret (ZERO_SIZE_VECTOR, value)
    else
      r <- top_multithread inst el_type_size value;;
      (if r.1 =? NO_ERR then
         v <- vec_at inst;; put inst (with_size (u64 (v.(size) - 1)) v)
       else ret tt);;
      ret r.

(** [pop_multithread] as the steps other threads can run between: the size
    test of [pop_multithread], that of [top_multithread], the reading of the
    index, the locked [get_multithread], and the load and the store of
    [inst->size -= 1], which no lock protects. *)
Inductive pop_pc :=
| PopTest
| TopTest
| TopIndex
| TopGet (index : Z)
| PopLoad (r : Z * option bytes)
| PopStore (r : Z * option bytes) (n : Z)
| PopDone (r : Z * option bytes).

Definition pop_step (inst el_type_size : Z) (value : option bytes) (pc : pop_pc)
    : M mem pop_pc :=
  match pc with
  | PopTest =>
      if inst =? 0 then ret (PopDone (NULL_PTR_ERR, value))
      else
        v <- vec_at inst;;
        ret (if v.(size) =? 0 then PopDone (ZERO_SIZE_VECTOR, value) else TopTest)
  | TopTest =>
      v <- vec_at inst;;
      ret (if v.(size) =? 0 then PopDone (ZERO_SIZE_VECTOR, value) else TopIndex)
  | TopIndex => v <- vec_at inst;; ret (TopGet (u64 (v.(size) - 1)))
  | TopGet index =>
      r <- get_multithread inst index el_type_size value;;
      ret (if r.1 =? NO_ERR then PopLoad r else PopDone r)
  | PopLoad r => v <- vec_at inst;; ret (PopStore r v.(size))
  | PopStore r n =>
      v <- vec_at inst;; put inst (with_size (u64 (n - 1)) v);; ret (PopDone r)
  | PopDone r => ret (PopDone r)
  end.

(** Two threads in [pop_multithread] on one vector; the schedule says whose
    step is next. *)
Fixpoint pop_threads (inst el_type_size : Z) (buf1 buf2 : option bytes)
    (schedule : list bool) (pcs : pop_pc * pop_pc) : M mem (pop_pc * pop_pc) :=
  match schedule with
  | [] => ret pcs
  | true :: schedule =>
      pc <- pop_step inst el_type_size buf1 pcs.1;;
      pop_threads inst el_type_size buf1 buf2 schedule (pc, pcs.2)
  | false :: schedule =>
      pc <- pop_step inst el_type_size buf2 pcs.2;;
      pop_threads inst el_type_size buf1 buf2 schedule (pcs.1, pc)
  end.

(** ** number_interface.c *)

Definition object (n : nat) (z : Z) : bytes := map Some (le_bytes n z).

(** The value of an 8-byte buffer, if all of it was written. *)
Definition value_of (b : option bytes) : outcome Z :=
  match b with
  | Some b => of_option Indeterminate (of_le <$> mapM id b)
  | None => Fault NullDeref
  end.

Definition num_buff : option bytes := Some (replicate 8 None).

Definition int_vector_init (cap : Z) : M mem (Z * option Z) := vector_init cap 8.
Definition int_vector_destroy (inst : Z) : M mem Z := vector_destroy inst.
Definition int_vector_multithread_init (rw mx cv cap : Z) : M mem (Z * option Z) :=
  vector_multithread_init rw mx cv cap 8.
Definition int_vector_multithread_destroy (inst : Z) : M mem Z :=
  vector_multithread_destroy inst.
Definition double_vector_init (cap : Z) : M mem (Z * option Z) := vector_init cap 8.
Definition double_vector_destroy (inst : Z) : M mem Z := vector_destroy inst.

(** [int num = el;] is an object of four bytes. *)
Definition add_int (inst el : Z) (multithread_flag : bool) : M mem Z :=
  let num := object 4 (i32 el) in
  if negb multithread_flag then add inst (Some num) 8 else add_multithread inst (Some num) 8.

Definition set_int (inst index el : Z) (multithread_flag : bool) : M mem Z :=
  let num := object 4 (i32 el) in
  if negb multithread_flag then set inst index 8 (Some num)
  else set_multithread inst index 8 (Some num).

(** The common tail of the readers: [NO_EL] on an error code, else the
    buffer as an [int64_t]. *)
Definition int_result (r : Z * option bytes) : M mem Z :=
  if negb (r.1 =? NO_ERR) then ret NO_EL
  else z <- lift (value_of r.2);; ret (i64 z).

Definition get_int (inst index : Z) (multithread_flag : bool) : M mem Z :=
  r <- (if negb multithread_flag then get inst index 8 num_buff
        else get_multithread inst index 8 num_buff);;
  int_result r.

(** [top_int] and [pop_int] return [uint8_t]. *)
Definition top_int (inst : Z) (multithread_flag : bool) : M mem Z :=
  r <- (if negb multithread_flag then top inst 8 num_buff
        else top_multithread inst 8 num_buff);;
  z <- int_result r;; ret (u8 z).

Definition pop_int (inst : Z) (multithread_flag : bool) : M mem Z :=
  r <- (if negb multithread_flag then pop inst 8 num_buff
        else pop_multithread inst 8 num_buff);;
  z <- int_result r;; ret (u8 z).

(** A double is its 64-bit pattern; [NO_EL] becomes the double -1.0. *)
Definition NO_EL_double : Z := 0xBFF0000000000000.

Definition add_double (inst el : Z) : M mem Z := add inst (Some (object 8 el)) 8.

Definition get_double (inst index : Z) : M mem Z :=
  r <- get inst index 8 num_buff;;
  if negb (r.1 =? NO_ERR) then ret NO_EL_double else lift (value_of r.2).

(** ** string_interface.c *)

Definition str_vector_init (cap : Z) : M mem (Z * option Z) := vector_init cap 8.

(** [copy_str] does not test what [malloc] returns. *)
Definition copy_str (str : cstr) : M mem Z :=
  let str_len := strlen str in
  new_str <- malloc (str_len + 1);;
  write_mem new_str 0 (map Some str);;
  write_mem new_str str_len [Some 0];;
  ret new_str.

Definition add_string (inst : Z) (el : cstr) : M mem Z :=
  stored_str <- copy_str el;;
  add inst (Some (object 8 stored_str)) 8.

(** The parameter [str_res] is assigned, not what it points to: the caller
    learns the code only. *)
Definition get_string (inst index : Z) : M mem Z :=
  r <- get inst index 8 (Some (replicate 8 None));;
  if negb (r.1 =? NO_ERR) then ret (u8 NO_EL) else ret NO_ERR.

(** The loop frees a pointer nothing was assigned to. *)
Definition str_vector_destroy (inst : Z) : M mem Z :=
  if inst =? 0 then ret NULL_PTR_ERR
  else
    v <- vec_at inst;;
    if 0 <? v.(size) then get_string inst 0;; fail Indeterminate
    else vector_destroy inst.

(** ** What a vector stands for *)

(** Every address in use was handed out before [next]. *)
Definition mem_wf (m : mem) : Prop :=
  0 < m.(next) /\
  (forall q, is_Some (m.(blocks) !! q) -> q < m.(next)) /\
  (forall q, is_Some (m.(vecs) !! q) -> q < m.(next)).

(** The vector at [p] holds the elements [l], each of [ts] bytes, at the front
    of a block of [capacity] elements. *)
Record vec_rep (m : mem) (p ts : Z) (v : vector) (l : list (list Z)) : Prop := {
  rep_wf : mem_wf m;
  rep_ptr : p <> 0;
  rep_vec : m.(vecs) !! p = Some v;
  rep_ts : 0 < ts;
  rep_size : v.(size) = Z.of_nat (length l);
  rep_cap : v.(size) <= v.(capacity);
  rep_width : v.(capacity) * ts < 2 ^ 64;
  rep_elems : Forall (fun e => Z.of_nat (length e) = ts) l;
  rep_data : v.(data) <> 0;
  rep_block : exists rest,
    m.(blocks) !! v.(data) = Some (map Some (concat l) ++ rest) /\
    Z.of_nat (length (concat l) + length rest) = v.(capacity) * ts
}.

(** ** Accesses that succeed *)

Lemma length_concat_uniform (l : list (list Z)) ts :
  Forall (fun e => Z.of_nat (length e) = ts) l ->
  Z.of_nat (length (concat l)) = Z.of_nat (length l) * ts.
Proof.
  induction 1 as [|e l He _ IH]; [done|]. cbn [concat length].
  rewrite length_app. lia.
Qed.

Lemma splice_at (a c d src : bytes) :
  length c = length src -> splice (a ++ c ++ d) (length a) src = a ++ src ++ d.
Proof.
  intros Hc. unfold splice. rewrite take_app_length, drop_app, <- Hc.
  replace (length a + length c - length a)%nat with (length c) by lia.
  rewrite drop_ge by lia. by rewrite drop_app_length.
Qed.

Lemma vec_at_run m p v : p <> 0 -> m.(vecs) !! p = Some v -> vec_at p m = Ok (v, m).
Proof.
  intros Hp Hv. unfold vec_at. zcmp; [done|]. unfold bind, gets, lift. by rewrite Hv.
Qed.

Lemma block_at_run m p b : p <> 0 -> m.(blocks) !! p = Some b -> block_at p m = Ok (b, m).
Proof.
  intros Hp Hb. unfold block_at. zcmp; [done|]. unfold bind, gets, lift. by rewrite Hb.
Qed.

Lemma put_run m p v : put p v m = Ok (tt, set_vecs <[p := v]> m).
Proof. done. Qed.

Lemma write_mem_run m p off src a c d :
  p <> 0 -> m.(blocks) !! p = Some (a ++ c ++ d) ->
  length c = length src -> off = Z.of_nat (length a) ->
  write_mem p off src m = Ok (tt, set_blocks <[p := a ++ src ++ d]> m).
Proof.
  intros Hp Hb Hc ->. unfold write_mem.
  rewrite (bind_ok _ _ _ _ _ (block_at_run _ _ _ Hp Hb)), !length_app, Hc.
  zcmp; try lia; cbn [andb].
  rewrite Nat2Z.id. unfold modify. by rewrite splice_at.
Qed.

Lemma write_mem_beyond m p off src b :
  p <> 0 -> m.(blocks) !! p = Some b ->
  Z.of_nat (length b) < off + Z.of_nat (length src) ->
  write_mem p off src m = Fault OutOfBounds.
Proof.
  intros Hp Hb Hlen. unfold write_mem.
  run (block_at_run _ _ _ Hp Hb).
  zcmp; try lia; done.
Qed.

Lemma read_mem_run m p off n a c d :
  p <> 0 -> m.(blocks) !! p = Some (a ++ c ++ d) ->
  n = Z.of_nat (length c) -> off = Z.of_nat (length a) ->
  read_mem p off n m = Ok (c, m).
Proof.
  intros Hp Hb -> ->. unfold read_mem.
  rewrite (bind_ok _ _ _ _ _ (block_at_run _ _ _ Hp Hb)), !length_app.
  zcmp; try lia; cbn [andb].
  by rewrite !Nat2Z.id, drop_app_length, take_app_length.
Qed.

Lemma read_object_all o ts : Z.of_nat (length o) = ts -> read_object o ts = Ok o.
Proof.
  intros <-. unfold read_object. rewrite Nat2Z.id, take_ge by lia. by rewrite Z.leb_refl.
Qed.

(** ** Growth *)

(** The parts of the structure that neither growth nor a write touches. *)
Definition same_sync (v v' : vector) : Prop :=
  v'.(rwlock) = v.(rwlock) /\ v'.(lock_init) = v.(lock_init) /\
  v'.(mtx) = v.(mtx) /\ v'.(cond) = v.(cond).

Lemma new_capacity_range :
  forallb (fun c => c <? new_capacity c) (map Z.of_nat (seq 1 5000)) = true.
Proof. vm_compute. reflexivity. Qed.

(** The double arithmetic of the growth factor gains at least one element for
    every capacity that is not zero; computed for all up to 5000. *)
Lemma new_capacity_grows c : 1 <= c <= 5000 -> c < new_capacity c.
Proof.
  intros Hc. pose proof new_capacity_range as H. rewrite forallb_forall in H.
  apply Z.ltb_lt, H, in_map_iff. exists (Z.to_nat c). split; [lia|].
  apply in_seq. lia.
Qed.

Definition growable (v : vector) (ts : Z) : Prop :=
  v.(capacity) < new_capacity v.(capacity) /\ new_capacity v.(capacity) * ts < 2 ^ 64.

(** The state in which a refused request was consumed. *)
Definition refuse (m : mem) : mem :=
  {| vecs := m.(vecs); blocks := m.(blocks); next := m.(next); oom := tail m.(oom) |}.

(** The state after the block [b] of [v] has moved. *)
Definition grown (m : mem) (p ts : Z) (v : vector) (b : bytes) : mem :=
  let nc := new_capacity v.(capacity) in
  let n := Z.to_nat (nc * ts) in
  {| vecs := <[p := with_data m.(next) nc v]> m.(vecs);
     blocks := <[m.(next) := take n (b ++ replicate n None)]> (delete v.(data) m.(blocks));
     next := m.(next) + 16; oom := tail m.(oom) |}.

Lemma new_capacity_nonneg c : 0 <= new_capacity c.
Proof. apply u64_range. Qed.

Lemma resize_step m p ts v l :
  vec_rep m p ts v l -> growable v ts ->
  exists b, m.(blocks) !! v.(data) = Some b /\
  resize p ts m =
    match head m.(oom) with
    | Some true => Ok (REALLOC_ERR, refuse m)
    | _ => Ok (NO_ERR, grown m p ts v b)
    end.
Proof.
  intros [Hwf Hp Hv Hts Hs Hc Hw He Hd (rest & Hb & Hl)] [Hg1 Hg2].
  eexists. split; [exact Hb|]. unfold resize.
  run (vec_at_run _ _ _ Hp Hv). unfold realloc.
  pose proof (new_capacity_nonneg v.(capacity)) as Hnn.
  rewrite (u64_small (new_capacity _ * ts)) by nia.
  destruct (Z.eqb_spec v.(data) 0) as [?|_]; [done|].
  rewrite bind_assoc, (bind_ok _ _ _ _ _ (block_at_run _ _ _ Hd Hb)).
  destruct (Z.eqb_spec (new_capacity v.(capacity) * ts) 0) as [?|_]; [nia|].
  destruct Hwf as [Hn _]. unfold bind, alloc, modify, ret.
  destruct m.(oom) as [|[] o] eqn:Ho; simpl.
  all: try (destruct (Z.eqb_spec m.(next) 0); [lia|]).
  all: unfold refuse, grown, put, modify; simpl; by rewrite Ho.
Qed.

Lemma refuse_rep m p ts v l : vec_rep m p ts v l -> vec_rep (refuse m) p ts v l.
Proof. intros []. by split. Qed.

Lemma grown_rep m p ts v l b :
  vec_rep m p ts v l -> growable v ts -> m.(blocks) !! v.(data) = Some b ->
  vec_rep (grown m p ts v b) p ts (with_data m.(next) (new_capacity v.(capacity)) v) l.
Proof.
  intros [[Hn [Hbk Hvc]] Hp Hv Hts Hs Hc Hw He Hd (rest & Hb & Hl)] [Hg1 Hg2] Hb'.
  simplify_eq. pose proof (length_concat_uniform _ _ He) as Hcl.
  split; simpl; [|done|by rewrite lookup_insert_eq|done|done|lia|done|done|lia|].
  - split_and!; [simpl; lia| |]; simpl; intros q [x Hq].
    + destruct (decide (q = m.(next))) as [->|]; [lia|].
      rewrite lookup_insert_ne, lookup_delete_Some in Hq by done.
      destruct Hq as [_ Hq]. specialize (Hbk q (mk_is_Some _ _ Hq)). lia.
    + destruct (decide (q = p)) as [->|].
      * specialize (Hvc p (mk_is_Some _ _ Hv)). lia.
      * rewrite lookup_insert_ne in Hq by done. specialize (Hvc q (mk_is_Some _ _ Hq)). lia.
  - set (n := Z.to_nat (new_capacity v.(capacity) * ts)).
    assert (n = (length (concat l) + (n - length (concat l)))%nat) as Hsplit by nia.
    eexists. rewrite lookup_insert_eq. split.
    + f_equal. rewrite <- app_assoc.
      rewrite take_app, length_map, take_ge by (rewrite length_map; lia). reflexivity.
    + rewrite length_take, !length_app, length_replicate. nia.
Qed.

(** At most [tries] refusals are survived. *)
Lemma resize_loop_grows k m p ts v l tries o :
  vec_rep m p ts v l -> growable v ts ->
  m.(oom) = replicate k true ++ o -> head o <> Some true -> (k <= tries)%nat ->
  exists m' v', resize_loop tries p ts m = Ok (tt, m') /\ vec_rep m' p ts v' l /\
    v'.(capacity) = new_capacity v.(capacity) /\ v'.(size) = v.(size) /\
    m'.(oom) = tail o /\ m.(next) <= v'.(data) /\ m.(next) <= m'.(next) /\
    same_sync v v' /\
    (forall q, q <> p -> m'.(vecs) !! q = m.(vecs) !! q) /\
    (forall q, q <> v.(data) -> q < m.(next) -> m'.(blocks) !! q = m.(blocks) !! q).
Proof.
  revert m tries. induction k as [|k IH]; intros m tries Hr Hg Ho Hh Hk.
  - destruct (resize_step _ _ _ _ _ Hr Hg) as (b & Hb & Hres). simpl in Ho.
    rewrite Ho in Hres. destruct (head o) as [[]|] eqn:Eh; [done| |].
    all: eexists _, _; split_and!;
      [ destruct tries; simpl; rewrite (bind_ok _ _ _ _ _ Hres); reflexivity
      | by apply grown_rep | done | done | simpl; by rewrite Ho
      | simpl; lia | simpl; lia | done | | ].
    all: intros q Hq; simpl; first [by rewrite lookup_insert_ne|intros Hlt].
    all: by rewrite lookup_insert_ne, lookup_delete_ne by (done || lia).
  - destruct tries as [|tries]; [lia|].
    destruct (resize_step _ _ _ _ _ Hr Hg) as (b & Hb & Hres). rewrite Ho in Hres.
    simpl in Hres.
    destruct (IH (refuse m) tries (refuse_rep _ _ _ _ _ Hr) Hg ltac:(simpl; by rewrite Ho)
                Hh ltac:(lia)) as (m' & v' & Hloop & Hrest).
    exists m', v'. split; [|exact Hrest].
    cbn [resize_loop]. run Hres. exact Hloop.
Qed.

(** One refusal more, and the vector is as it was. *)
Lemma resize_loop_gives_up m p ts v l tries o :
  vec_rep m p ts v l -> growable v ts -> m.(oom) = replicate (S tries) true ++ o ->
  exists m', resize_loop tries p ts m = Ok (tt, m') /\ vec_rep m' p ts v l.
Proof.
  revert m. induction tries as [|tries IH]; intros m Hr Hg Ho.
  all: destruct (resize_step _ _ _ _ _ Hr Hg) as (b & Hb & Hres); rewrite Ho in Hres;
    cbn [resize_loop]; run Hres.
  - eexists. split; [reflexivity|by apply refuse_rep].
  - apply IH; [by apply refuse_rep|done|]. simpl. by rewrite Ho.
Qed.

(** ** Operations on a represented vector *)

Lemma mem_wf_update m p d (v v' : vector) (b b' : bytes) :
  mem_wf m -> m.(vecs) !! p = Some v -> m.(blocks) !! d = Some b ->
  mem_wf (set_vecs <[p := v']> (set_blocks <[d := b']> m)).
Proof.
  intros (Hn & Hbk & Hvc) Hv Hb. split_and!; [done| |]; simpl; intros q Hq.
  - apply Hbk. destruct (decide (q = d)) as [->|]; [eauto|].
    by rewrite lookup_insert_ne in Hq.
  - apply Hvc. destruct (decide (q = p)) as [->|]; [eauto|].
    by rewrite lookup_insert_ne in Hq.
Qed.

(** The locks and the flags play no part in what is represented. *)
Lemma rep_fields m p ts v v' l :
  vec_rep m p ts v l ->
  v'.(data) = v.(data) -> v'.(size) = v.(size) -> v'.(capacity) = v.(capacity) ->
  vec_rep (set_vecs <[p := v']> m) p ts v' l.
Proof.
  intros [[Hn [Hbk Hvc]] Hp Hv Hts Hs Hc Hw He Hd Hblk] E1 E2 E3.
  split; rewrite ?E1, ?E2, ?E3; try done; [|apply lookup_insert_eq].
  split_and!; [done|done|]. simpl. intros q Hq. apply Hvc.
  destruct (decide (q = p)) as [->|]; [eauto|]. by rewrite lookup_insert_ne in Hq.
Qed.

Definition same_elsewhere (p d : Z) (m m' : mem) : Prop :=
  (forall q, q <> p -> m'.(vecs) !! q = m.(vecs) !! q) /\
  (forall q, q <> d -> q < m.(next) -> m'.(blocks) !! q = m.(blocks) !! q).

(** The write that [add] ends with, when there is room. *)
Lemma append_run m p ts v l e :
  vec_rep m p ts v l -> v.(size) < v.(capacity) -> Z.of_nat (length e) = ts ->
  exists m' v',
    (v <- vec_at p;;
     src <- lift (read_object (map Some e) ts);;
     write_mem v.(data) (u64 (v.(size) * ts)) src;;
     put p (with_size (u64 (v.(size) + 1)) v);;
     ret NO_ERR) m = Ok (NO_ERR, m') /\
    vec_rep m' p ts v' (l ++ [e]) /\ same_elsewhere p v.(data) m m' /\
    same_sync v v' /\ v'.(realloc_process) = v.(realloc_process).
Proof.
  intros [Hwf Hp Hv Hts Hs Hc Hw He Hd (rest & Hb & Hl)] Hroom Hlen.
  pose proof (length_concat_uniform _ _ He) as Hcl.
  assert (Z.of_nat (length l) * ts + ts <= v.(capacity) * ts) as Hfit by nia.
  assert (length e <= length rest)%nat as Hrest by lia.
  rewrite <- (take_drop (length e) rest) in Hb.
  exists (set_vecs <[p := with_size (u64 (v.(size) + 1)) v]>
           (set_blocks <[v.(data) := map Some (concat l) ++ map Some e ++ drop (length e) rest]> m)).
  exists (with_size (u64 (v.(size) + 1)) v). split_and!; [| |split|done|done].
  - run (vec_at_run _ _ _ Hp Hv).
    rewrite read_object_all, bind_lift by (by rewrite length_map).
    rewrite u64_small by nia.
    run (write_mem_run _ _ _ (map Some e) _ _ _ Hd Hb
               ltac:(rewrite length_map, length_take; lia)
               ltac:(rewrite length_map, Hcl, <- Hs; reflexivity)).
    done.
  - split; simpl; rewrite ?u64_small by nia; try done.
    + by eapply mem_wf_update.
    + apply lookup_insert_eq.
    + rewrite length_app. simpl. lia.
    + lia.
    + apply Forall_app. by split; [|apply Forall_singleton].
    + exists (drop (length e) rest). rewrite lookup_insert_eq, concat_app. simpl.
      rewrite app_nil_r, map_app, <- app_assoc. split; [done|].
      rewrite length_app, length_drop. nia.
  - intros q Hq. simpl. by rewrite lookup_insert_ne.
  - intros q Hq _. simpl. by rewrite lookup_insert_ne.
Qed.

Lemma add_run m p ts v l e k o :
  vec_rep m p ts v l -> Z.of_nat (length e) = ts ->
  (v.(size) = v.(capacity) ->
     growable v ts /\ m.(oom) = replicate k true ++ o /\ head o <> Some true /\ (k <= 10)%nat) ->
  exists m' v',
    add p (Some (map Some e)) ts m = Ok (NO_ERR, m') /\
    vec_rep m' p ts v' (l ++ [e]) /\ same_elsewhere p v.(data) m m' /\
    same_sync v v' /\ (v.(realloc_process) = false -> v'.(realloc_process) = false).
Proof.
  intros Hr Hlen Hfull. pose proof Hr as [_ Hp Hv _ _ Hc _ _ _ _].
  unfold add. destruct (Z.eqb_spec p 0) as [?|_]; [done|].
  run (vec_at_run _ _ _ Hp Hv). unfold is_full.
  destruct (Z.leb_spec v.(capacity) v.(size)) as [Hge|Hlt].
  - destruct Hfull as (Hg & Ho & Hh & Hk); [lia|].
    pose proof (rep_fields _ _ _ _ (with_realloc true v) _ Hr eq_refl eq_refl eq_refl) as Hr1.
    destruct (resize_loop_grows k _ p ts _ l REALLOC_TRIES o Hr1 Hg Ho Hh Hk)
      as (m2 & v2 & Hloop & Hr2 & Hcap & Hsz & _ & Hnd & Hnx & Hsync & Hfv & Hfb).
    pose proof (rep_fields _ _ _ _ (with_realloc false v2) _ Hr2 eq_refl eq_refl eq_refl) as Hr3.
    destruct (append_run _ _ _ _ _ _ Hr3 ltac:(simpl; rewrite Hcap, Hsz; destruct Hg; simpl; lia)
                Hlen) as (m' & v' & Hrun & Hr' & [Hgv Hgb] & Hsy & Hrp).
    exists m', v'. split_and!; [|done|split| |by rewrite Hrp].
    + rewrite bind_assoc, (bind_ok _ _ _ _ _ (put_run _ _ _)), bind_assoc.
      rewrite (bind_ok _ _ _ _ _ Hloop), bind_assoc.
      run (vec_at_run _ _ _ Hp (rep_vec _ _ _ _ _ Hr2)).
      run (put_run _ _ _). exact Hrun.
    + intros q Hq. rewrite Hgv by done. simpl. rewrite lookup_insert_ne by done.
      rewrite Hfv by done. simpl. by rewrite lookup_insert_ne.
    + intros q Hq Hlt. simpl in Hnd, Hnx. rewrite Hgb; simpl; [by apply Hfb|lia|lia].
    + unfold same_sync in *. simpl in *. intuition congruence.
  - destruct (append_run _ _ _ _ _ _ Hr Hlt Hlen) as (m' & v' & Hrun & Hr' & Hsame & Hsy & Hrp).
    exists m', v'. split_and!; [done|done|done|done|]. congruence.
Qed.

(** Where the element at an index lies. *)
Lemma rep_split m p ts v l i e :
  vec_rep m p ts v l -> l !! i = Some e ->
  exists rest,
    m.(blocks) !! v.(data) =
      Some (map Some (concat (take i l)) ++ map Some e ++
            map Some (concat (drop (S i) l)) ++ rest) /\
    Z.of_nat (length (map Some (concat (take i l)))) = Z.of_nat i * ts /\
    Z.of_nat (length (concat l) + length rest) = v.(capacity) * ts /\
    Z.of_nat (length (map Some e)) = ts /\ 0 <= Z.of_nat i * ts < 2 ^ 64.
Proof.
  intros [Hwf Hp Hv Hts Hs Hc Hw He Hd (rest & Hb & Hl)] Hi.
  pose proof (lookup_lt_Some _ _ _ Hi) as Hlt.
  exists rest. split_and!; [| |done| |lia|nia].
  - rewrite Hb. f_equal. rewrite <- (take_drop_middle l i e) at 1 by done.
    rewrite concat_app. simpl. by rewrite !map_app, <- !app_assoc.
  - rewrite length_map, (length_concat_uniform _ ts) by by apply Forall_take.
    rewrite length_take. nia.
  - rewrite length_map. by apply (Forall_lookup_1 _ _ _ _ He Hi).
Qed.

Lemma fill_all buf src : length buf = length src -> fill (Some buf) src = Ok (Some src).
Proof.
  intros Hlen. unfold fill, splice. zcmp; [|lia]. simpl.
  by rewrite drop_ge, app_nil_r by lia.
Qed.

Lemma get_run m p ts v l i e buf :
  vec_rep m p ts v l -> l !! i = Some e -> Z.of_nat (length buf) = ts ->
  get p (Z.of_nat i) ts (Some buf) m = Ok ((NO_ERR, Some (map Some e)), m).
Proof.
  intros Hr Hi Hbuf. pose proof (lookup_lt_Some _ _ _ Hi) as Hlt.
  destruct (rep_split _ _ _ _ _ _ _ Hr Hi) as (rest & Hb & Ha & _ & Hle & Hw).
  destruct Hr as [_ Hp Hv _ Hs _ _ _ Hd _]. unfold get, is_out_range.
  destruct (Z.eqb_spec p 0) as [?|_]; [done|].
  run (vec_at_run _ _ _ Hp Hv).
  destruct (Z.eqb_spec v.(size) 0) as [?|_]; [lia|].
  destruct (Z.leb_spec v.(size) (Z.of_nat i)) as [?|_]; [lia|].
  rewrite u64_small by done.
  run (read_mem_run _ _ _ _ _ _ _ Hd Hb (eq_sym Hle) (eq_sym Ha)).
  by rewrite fill_all by lia.
Qed.

Lemma set_run m p ts v l i e0 e :
  vec_rep m p ts v l -> l !! i = Some e0 -> Z.of_nat (length e) = ts ->
  exists m', set p (Z.of_nat i) ts (Some (map Some e)) m = Ok (NO_ERR, m') /\
    vec_rep m' p ts v (<[i := e]> l) /\ same_elsewhere p v.(data) m m'.
Proof.
  intros Hr Hi Hlen. pose proof (lookup_lt_Some _ _ _ Hi) as Hlt.
  destruct (rep_split _ _ _ _ _ _ _ Hr Hi) as (rest & Hb & Ha & Htot & Hle & Hw).
  destruct Hr as [Hwf Hp Hv Hts Hs Hc Hcw He Hd _].
  eexists. split_and!; [| |split].
  - unfold set, is_out_range. destruct (Z.eqb_spec p 0) as [?|_]; [done|].
    run (vec_at_run _ _ _ Hp Hv).
    destruct (Z.leb_spec v.(size) (Z.of_nat i)) as [?|_]; [lia|].
    rewrite read_object_all, bind_lift by (by rewrite length_map).
    rewrite u64_small by done.
    run (write_mem_run _ _ _ (map Some e) _ _ _ Hd Hb
               ltac:(rewrite !length_map in *; lia) (eq_sym Ha)). reflexivity.
  - assert (Forall (fun e => Z.of_nat (length e) = ts) (<[i:=e]> l)) as He'
      by by apply Forall_insert.
    split; try done.
    + eapply (mem_wf_update m p v.(data) v v) in Hwf; [|done|done].
      unfold set_vecs in Hwf. simpl in Hwf. rewrite insert_id in Hwf by done. exact Hwf.
    + by rewrite length_insert.
    + exists rest. simpl. rewrite lookup_insert_eq. split.
      * f_equal. rewrite (insert_take_drop l i e) by done.
        rewrite concat_app. simpl. by rewrite !map_app, <- !app_assoc.
      * pose proof (length_concat_uniform _ _ He). pose proof (length_concat_uniform _ _ He').
        rewrite length_insert in *. lia.
  - done.
  - intros q Hq _. simpl. by rewrite lookup_insert_ne.
Qed.

Lemma top_run m p ts v l e buf :
  vec_rep m p ts v (l ++ [e]) -> Z.of_nat (length buf) = ts ->
  top p ts (Some buf) m = Ok ((NO_ERR, Some (map Some e)), m).
Proof.
  intros Hr Hbuf. pose proof (rep_size _ _ _ _ _ Hr) as Hs. rewrite length_app in Hs.
  simpl in Hs. unfold top. destruct (Z.eqb_spec p 0) as [->|Hp]; [by destruct Hr|].
  run (vec_at_run _ _ _ Hp (rep_vec _ _ _ _ _ Hr)).
  destruct (Z.eqb_spec v.(size) 0) as [?|_]; [lia|].
  replace (v.(size) - 1) with (Z.of_nat (length l)) by lia.
  apply (get_run _ _ _ _ _ _ _ _ Hr); [|done]. by apply list_lookup_middle.
Qed.

Lemma shrink_rep m p ts v l e :
  vec_rep m p ts v (l ++ [e]) ->
  vec_rep (set_vecs <[p := with_size (u64 (v.(size) - 1)) v]> m) p ts
    (with_size (u64 (v.(size) - 1)) v) l.
Proof.
  intros [(Hn & Hbk & Hvc) Hp Hv Hts Hs Hc Hw He Hd (rest & Hb & Hl)].
  rewrite length_app in Hs. simpl in Hs. apply Forall_app in He as [He _].
  split; simpl; rewrite ?u64_small by nia; try done; try lia.
  - split_and!; [done|done|]. simpl. intros q Hq. apply Hvc.
    destruct (decide (q = p)) as [->|]; [eauto|]. by rewrite lookup_insert_ne in Hq.
  - apply lookup_insert_eq.
  - rewrite concat_app, map_app, <- app_assoc in Hb. eexists. split; [exact Hb|].
    rewrite concat_app in Hl. rewrite !length_app in *. rewrite length_map. lia.
Qed.

Lemma pop_run m p ts v l e buf :
  vec_rep m p ts v (l ++ [e]) -> Z.of_nat (length buf) = ts ->
  exists m' v', pop p ts (Some buf) m = Ok ((NO_ERR, Some (map Some e)), m') /\
    vec_rep m' p ts v' l /\ same_elsewhere p v.(data) m m' /\ v'.(capacity) = v.(capacity).
Proof.
  intros Hr Hbuf. pose proof (rep_size _ _ _ _ _ Hr) as Hs. rewrite length_app in Hs.
  simpl in Hs. pose proof (rep_ptr _ _ _ _ _ Hr) as Hp.
  pose proof (vec_at_run _ _ _ Hp (rep_vec _ _ _ _ _ Hr)) as Hat.
  eexists _, _. split_and!; [|by eapply shrink_rep|split|].
  - unfold pop. destruct (Z.eqb_spec p 0) as [?|_]; [done|].
    run Hat.
    destruct (Z.eqb_spec v.(size) 0) as [?|_]; [lia|].
    run (top_run _ _ _ _ _ _ _ Hr Hbuf).
    cbn [fst]. rewrite Z.eqb_refl, bind_assoc, (bind_ok _ _ _ _ _ Hat). reflexivity.
  - intros q Hq. simpl. by rewrite lookup_insert_ne.
  - done.
  - done.
Qed.

(** ** Locked operations *)

Definition unlocked (v : vector) : Prop :=
  v.(lock_init) = true /\ v.(rwlock) = Some 0 /\ v.(realloc_process) = false.

Lemma set_vecs_twice m p v v' :
  set_vecs <[p := v']> (set_vecs <[p := v]> m) = set_vecs <[p := v']> m.
Proof. unfold set_vecs. simpl. by rewrite insert_insert_eq. Qed.

Lemma set_vecs_same m p v : m.(vecs) !! p = Some v -> set_vecs <[p := v]> m = m.
Proof. intros Hv. unfold set_vecs. rewrite insert_id by done. by destruct m. Qed.

Lemma with_lock_same v : v.(rwlock) = Some 0 -> with_lock (Some 0) v = v.
Proof. intros Hl. unfold with_lock. rewrite <- Hl. by destruct v. Qed.

Section locks.
Context (m : mem) (p : Z) (v : vector).
Hypothesis Hp : p <> 0.
Hypothesis Hv : m.(vecs) !! p = Some v.

Let at_p : vec_at p m = Ok (v, m).
Proof. by apply vec_at_run. Qed.

Lemma rdlock_run n :
  v.(rwlock) = Some n -> 0 <= n ->
  rdlock p m = Ok (tt, set_vecs <[p := with_lock (Some (n + 1)) v]> m).
Proof.
  intros Hl Hn. unfold rdlock. rewrite (bind_ok _ _ _ _ _ at_p), Hl. zcmp; [lia|done].
Qed.

Lemma wrlock_run :
  v.(rwlock) = Some 0 ->
  wrlock p m = Ok (tt, set_vecs <[p := with_lock (Some (-1)) v]> m).
Proof. intros Hl. unfold wrlock. by rewrite (bind_ok _ _ _ _ _ at_p), Hl. Qed.

Lemma unlock_run n :
  v.(rwlock) = Some n -> n = 1 \/ n = -1 ->
  unlock p m = Ok (tt, set_vecs <[p := with_lock (Some 0) v]> m).
Proof.
  intros Hl Hn. unfold unlock. rewrite (bind_ok _ _ _ _ _ at_p), Hl.
  by destruct Hn as [-> | ->].
Qed.

Lemma await_realloc_run : v.(realloc_process) = false -> await_realloc p m = Ok (tt, m).
Proof. intros Hf. unfold await_realloc. by rewrite (bind_ok _ _ _ _ _ at_p), Hf. Qed.
End locks.

(** Taking and dropping the read lock leaves the memory as it was. *)
Lemma read_section m p v {A} (body : M mem A) a :
  p <> 0 -> m.(vecs) !! p = Some v -> unlocked v ->
  let m1 := set_vecs <[p := with_lock (Some 1) v]> m in
  body m1 = Ok (a, m1) ->
  (rdlock p;; await_realloc p;; r <- body;; unlock p;; ret r) m = Ok (a, m).
Proof.
  intros Hp Hv (Hi & Hl & Hf) m1 Hbody.
  run (rdlock_run _ _ _ Hp Hv 0 Hl ltac:(lia)).
  assert (m1.(vecs) !! p = Some (with_lock (Some 1) v)) as Hv1 by apply lookup_insert_eq.
  run (await_realloc_run _ _ _ Hp Hv1 Hf).
  run Hbody.
  run (unlock_run _ _ _ Hp Hv1 1 eq_refl ltac:(lia)).
  unfold ret, m1. rewrite set_vecs_twice. do 2 f_equal.
  change (with_lock (Some 0) (with_lock (Some 1) v)) with (with_lock (Some 0) v).
  by rewrite with_lock_same, set_vecs_same.
Qed.

Lemma get_multithread_run m p ts v l i e buf :
  vec_rep m p ts v l -> unlocked v -> l !! i = Some e -> Z.of_nat (length buf) = ts ->
  get_multithread p (Z.of_nat i) ts (Some buf) m = Ok ((NO_ERR, Some (map Some e)), m).
Proof.
  intros Hr Hu Hi Hbuf. pose proof Hr as [_ Hp Hv _ _ _ _ _ _ _].
  unfold get_multithread. destruct (Z.eqb_spec p 0) as [?|_]; [done|].
  rewrite bool_decide_eq_false_2 by done. cbn [orb].
  run (vec_at_run _ _ _ Hp Hv).
  rewrite (proj1 Hu). cbn [negb]. apply (read_section _ _ v); [done|done|done|].
  eapply get_run; [|done|done].
  by apply (rep_fields _ _ _ _ (with_lock (Some 1) v) _ Hr).
Qed.

Lemma add_multithread_run m p ts v l e k o :
  vec_rep m p ts v l -> unlocked v -> Z.of_nat (length e) = ts ->
  (v.(size) = v.(capacity) ->
     growable v ts /\ m.(oom) = replicate k true ++ o /\ head o <> Some true /\ (k <= 10)%nat) ->
  exists m' v',
    add_multithread p (Some (map Some e)) ts m = Ok (NO_ERR, m') /\
    vec_rep m' p ts v' (l ++ [e]) /\ unlocked v' /\ same_elsewhere p v.(data) m m'.
Proof.
  intros Hr Hu Hlen Hfull. pose proof Hr as [_ Hp Hv _ _ _ _ _ _ _].
  pose proof (rep_fields _ _ _ _ (with_lock (Some (-1)) v) _ Hr eq_refl eq_refl eq_refl) as Hr1.
  destruct (add_run _ _ _ _ _ _ k o Hr1 Hlen Hfull)
    as (m1 & v1 & Hadd & Hr' & [Hsv Hsb] & (Hl1 & Hi1 & _) & Hf1).
  exists (set_vecs <[p := with_lock (Some 0) v1]> m1), (with_lock (Some 0) v1).
  destruct Hu as (Hi & Hl & Hf).
  split_and!; [|by eapply rep_fields| |split].
  - unfold add_multithread. destruct (Z.eqb_spec p 0) as [?|_]; [done|].
    rewrite bool_decide_eq_false_2 by done. cbn [orb].
    rewrite (bind_ok _ _ _ _ _ (vec_at_run _ _ _ Hp Hv)), Hi. cbn [negb].
    pose proof (read_section m p v (ret tt) tt Hp Hv (conj Hi (conj Hl Hf)) eq_refl) as Hrd.
    apply bind_inv in Hrd as ([] & ma & E1 & Hrd).
    apply bind_inv in Hrd as ([] & mb & E2 & Hrd). autorewrite with c_monad in Hrd.
    apply bind_inv in Hrd as ([] & mc & E3 & Hrd).
    rewrite (bind_ok _ _ _ _ _ E1), (bind_ok _ _ _ _ _ E2), (bind_ok _ _ _ _ _ E3).
    injection Hrd as ->.
    rewrite (bind_ok _ _ _ _ _ (wrlock_run _ _ _ Hp Hv Hl)), (bind_ok _ _ _ _ _ Hadd).
    by rewrite (bind_ok _ _ _ _ _ (unlock_run _ _ _ Hp (rep_vec _ _ _ _ _ Hr') (-1) Hl1
                 ltac:(lia))).
  - split_and!; simpl; [by rewrite Hi1|done|by apply Hf1].
  - intros q Hq. simpl. rewrite lookup_insert_ne, Hsv by done. simpl.
    by rewrite lookup_insert_ne.
  - intros q Hq Hlt. simpl. by apply Hsb.
Qed.

(** One thread alone, step by step. *)
Lemma pop_alone_run m p ts v l e buf :
  vec_rep m p ts v (l ++ [e]) -> unlocked v -> Z.of_nat (length buf) = ts ->
  let m' := set_vecs <[p := with_size (u64 (v.(size) - 1)) v]> m in
  pop_multithread p ts (Some buf) m = Ok ((NO_ERR, Some (map Some e)), m').
Proof.
  intros Hr Hu Hbuf m'. pose proof Hr as [_ Hp Hv _ Hs _ _ _ _ _].
  rewrite length_app in Hs. simpl in Hs.
  unfold pop_multithread, top_multithread. destruct (Z.eqb_spec p 0) as [?|_]; [done|].
  pose proof (vec_at_run _ _ _ Hp Hv) as Hat. run Hat.
  destruct (Z.eqb_spec v.(size) 0) as [?|_]; [lia|].
  rewrite bind_assoc, (bind_ok _ _ _ _ _ Hat).
  destruct (Z.eqb_spec v.(size) 0) as [?|_]; [lia|].
  replace (v.(size) - 1) with (Z.of_nat (length l)) in * by lia.
  run (get_multithread_run _ _ _ _ _ _ _ _ Hr Hu
             (list_lookup_middle l [] e (length l) eq_refl) Hbuf).
  cbn [fst]. rewrite Z.eqb_refl, bind_assoc, (bind_ok _ _ _ _ _ Hat).
  done.
Qed.

(** The first four steps: the element is read, nothing has changed. *)
Lemma pop_read_steps m p ts v l e buf :
  vec_rep m p ts v (l ++ [e]) -> unlocked v -> Z.of_nat (length buf) = ts ->
  pop_step p ts (Some buf) PopTest m = Ok (TopTest, m) /\
  pop_step p ts (Some buf) TopTest m = Ok (TopIndex, m) /\
  pop_step p ts (Some buf) TopIndex m = Ok (TopGet (Z.of_nat (length l)), m) /\
  pop_step p ts (Some buf) (TopGet (Z.of_nat (length l))) m =
    Ok (PopLoad (NO_ERR, Some (map Some e)), m).
Proof.
  intros Hr Hu Hbuf. pose proof Hr as [_ Hp Hv Hts Hs Hc Hw _ _ _].
  rewrite length_app in Hs. simpl in Hs.
  pose proof (vec_at_run _ _ _ Hp Hv) as Hat. cbn [pop_step].
  destruct (Z.eqb_spec p 0) as [?|_]; [done|].
  rewrite !(bind_ok _ _ _ _ _ Hat).
  destruct (Z.eqb_spec v.(size) 0) as [?|_]; [lia|].
  run (get_multithread_run _ _ _ _ _ _ _ _ Hr Hu
             (list_lookup_middle l [] e (length l) eq_refl) Hbuf).
  split_and!; [done|done| |done]. unfold ret. rewrite u64_small by nia.
  do 3 f_equal. lia.
Qed.

(** The last two, with any state in between. *)
Lemma pop_load_step m p ts v buf r :
  p <> 0 -> m.(vecs) !! p = Some v ->
  pop_step p ts buf (PopLoad r) m = Ok (PopStore r v.(size), m) /\
  forall n, pop_step p ts buf (PopStore r n) m =
    Ok (PopDone r, set_vecs <[p := with_size (u64 (n - 1)) v]> m).
Proof.
  intros Hp Hv. pose proof (vec_at_run _ _ _ Hp Hv) as Hat. cbn [pop_step].
  split; [|intros n]; by rewrite (bind_ok _ _ _ _ _ Hat).
Qed.

Lemma pop_threads_step p ts buf1 buf2 sched pcs m who pc m' :
  pop_step p ts (if who : bool then buf1 else buf2) (if who then pcs.1 else pcs.2) m
    = Ok (pc, m') ->
  pop_threads p ts buf1 buf2 (who :: sched) pcs m =
  pop_threads p ts buf1 buf2 sched (if who then (pc, pcs.2) else (pcs.1, pc)) m'.
Proof. intros Hs. cbn [pop_threads]. destruct who; by rewrite (bind_ok _ _ _ _ _ Hs). Qed.

Lemma alloc_run m :
  head m.(oom) <> Some true ->
  alloc m = Ok (Some m.(next),
    {| vecs := m.(vecs); blocks := m.(blocks); next := m.(next) + 16; oom := tail m.(oom) |}).
Proof. unfold alloc. by destruct m.(oom) as [|[] o]. Qed.

Lemma malloc_run m n :
  head m.(oom) <> Some true ->
  malloc n m = Ok (m.(next),
    {| vecs := m.(vecs); blocks := <[m.(next) := replicate (Z.to_nat n) None]> m.(blocks);
       next := m.(next) + 16; oom := tail m.(oom) |}).
Proof. intros Ho. unfold malloc. by rewrite (bind_ok _ _ _ _ _ (alloc_run _ Ho)). Qed.

Lemma vector_init_run m cap ts :
  mem_wf m -> 0 < ts -> 0 <= cap -> cap * ts < 2 ^ 64 ->
  head m.(oom) <> Some true -> head (tail m.(oom)) <> Some true ->
  exists m' v, vector_init cap ts m = Ok ((NO_ERR, Some m.(next)), m') /\
    vec_rep m' m.(next) ts v [] /\ v.(capacity) = cap /\ v.(lock_init) = false /\
    same_elsewhere m.(next) (m.(next) + 16) m m'.
Proof.
  intros (Hn & Hbk & Hvc) Hts Hcap Hw Ho1 Ho2.
  eexists _, {| data := m.(next) + 16; size := 0; capacity := cap; rwlock := None;
                realloc_process := false; mtx := false; cond := false; lock_init := false |}.
  split_and!.
  - unfold vector_init. run (alloc_run _ Ho1).
    run (malloc_run {| oom := tail m.(oom) |} _ Ho2). cbn [next].
    destruct (Z.eqb_spec (m.(next) + 16) 0) as [?|_]; [lia|].
    rewrite u64_small by nia.
    erewrite bind_ok; [reflexivity|].
    apply (write_mem_run _ _ _ _ [] (replicate (Z.to_nat (cap * ts)) None) []);
      [lia| |by rewrite !length_replicate|done].
    rewrite app_nil_r. apply lookup_insert_eq.
  - split; cbn [data size capacity set_vecs set_blocks vecs blocks next length concat map];
      try (done || lia).
    + split_and!; simpl; [lia| |]; intros q Hq.
      * destruct (decide (q = m.(next) + 16)) as [->|]; [lia|].
        rewrite !lookup_insert_ne in Hq by done. specialize (Hbk q Hq). lia.
      * destruct (decide (q = m.(next))) as [->|]; [lia|].
        rewrite lookup_insert_ne in Hq by done. specialize (Hvc q Hq). lia.
    + apply lookup_insert_eq.
    + exists (replicate (Z.to_nat (cap * ts)) (Some 0)).
      rewrite lookup_insert_eq, app_nil_r. split; [done|]. rewrite length_replicate. lia.
  - done.
  - done.
  - split; simpl; intros q Hq; [by rewrite lookup_insert_ne|].
    intros _. by rewrite !lookup_insert_ne.
Qed.

(** ** Interfaces *)

Lemma value_of_object z : 0 <= z < 2 ^ 64 -> value_of (Some (object 8 z)) = Ok z.
Proof.
  intros Hz. unfold value_of, object.
  assert (forall xs : list Z, mapM id (map Some xs) = Some xs) as Hm.
  { induction xs as [|x xs IH]; [done|]. simpl. by rewrite IH. }
  rewrite Hm. change (Ok (of_le (le_bytes 8 z)) = Ok z).
  by rewrite of_le_bytes, Z.mod_small.
Qed.

Lemma length_object n z : length (object n z) = n.
Proof. unfold object. by rewrite length_map, length_le_bytes. Qed.

Lemma read_object_short o n : Z.of_nat (length o) < n -> read_object o n = Fault OutOfBounds.
Proof. intros Hlen. unfold read_object. zcmp; [lia|done]. Qed.

Lemma zero_low_all off z n : 0 <= z < 2 ^ 64 -> off + 8 <= n -> zero_low off n z = 0.
Proof.
  intros Hz Hn. unfold zero_low. zcmp; [lia|].
  rewrite Z.div_small; [lia|]. split; [lia|].
  apply (Z.lt_le_trans _ (2 ^ 64)); [lia|]. apply Z.pow_le_mono_r; lia.
Qed.

Lemma get_beyond m p ts v l i value :
  vec_rep m p ts v l -> v.(size) <= i ->
  get p i ts value m =
    Ok ((if v.(size) =? 0 then ZERO_SIZE_VECTOR else OUT_OF_BOUND_ERR, value), m).
Proof.
  intros [_ Hp Hv _ _ _ _ _ _ _] Hi. unfold get, is_out_range.
  destruct (Z.eqb_spec p 0) as [?|_]; [done|].
  run (vec_at_run _ _ _ Hp Hv).
  destruct (Z.leb_spec v.(size) i) as [_|?]; [|lia]. by destruct (v.(size) =? 0).
Qed.

(** [realloc] to no bytes releases the block and answers NULL; the second
    attempt reallocates the same block. *)
Lemma add_capacity_0 m p ts v l e :
  vec_rep m p ts v l -> v.(capacity) = 0 -> add p e ts m = match e with None => Ok (NULL_PTR_ERR, m) | Some _ => Fault Dangling end.
Proof.
  intros [_ Hp Hv Hts Hs Hc _ _ Hd (rest & Hb & _)] H0. unfold add, is_full. destruct e as [e|]; [|done].
  destruct (Z.eqb_spec p 0) as [?|_]; [done|]. run (vec_at_run _ _ _ Hp Hv).
  destruct (Z.leb_spec v.(capacity) v.(size)) as [_|?]; [|lia].
  rewrite bind_assoc, (bind_ok _ _ _ _ _ (put_run _ _ _)), bind_assoc.
  apply bind_fault. unfold REALLOC_TRIES. cbn [resize_loop].
  set (m1 := set_vecs <[p := with_realloc true v]> m).
  assert (Hv1 : vecs m1 !! p = Some (with_realloc true v)) by (simpl; by rewrite lookup_insert_eq).
  assert (Hz : u64 (new_capacity (capacity (with_realloc true v)) * ts) = 0)
    by (simpl; rewrite H0; by vm_compute).
  assert (Hr1 : resize p ts m1 = Ok (REALLOC_ERR, set_blocks (delete v.(data)) m1)).
  { unfold resize. run (vec_at_run _ _ _ Hp Hv1). unfold realloc. rewrite Hz.
    change (data (with_realloc true v)) with v.(data). rewrite (proj2 (Z.eqb_neq _ _) Hd).
    rewrite bind_assoc. by run (block_at_run m1 _ _ Hd Hb). }
  set (m2 := set_blocks (delete v.(data)) m1) in Hr1.
  assert (Hv2 : vecs m2 !! p = Some (with_realloc true v)) by exact Hv1.
  assert (Hr2 : resize p ts m2 = Fault Dangling).
  { unfold resize. run (vec_at_run _ _ _ Hp Hv2). unfold realloc. change (data (with_realloc true v)) with v.(data). rewrite (proj2 (Z.eqb_neq _ _) Hd).
    apply bind_fault, bind_fault. unfold block_at. rewrite (proj2 (Z.eqb_neq _ _) Hd).
    unfold bind, gets, lift. simpl. by rewrite lookup_delete_eq. }
  run Hr1. change (REALLOC_ERR =? NO_ERR) with false. cbv iota. by apply bind_fault.
Qed.

(** ** Properties *)

(** C12: [add] appends.  On a vector that represents [l] and has room for one
    more element it returns [NO_ERR] and leaves a vector that represents [l]
    followed by the element.  So it does on a full one whose block has to grow,
    when the growth factor gains an element at all (it does for capacities from
    1 to 5000) and the new block is below 2^64 bytes, and it survives up to ten
    refused reallocations.  No other vector and no other block changes.  On a
    vector of capacity 0 the block is released by a reallocation to no bytes,
    and the next attempt uses it. *)
Theorem add_appends m p ts v l e k o :
  vec_rep m p ts v l -> Z.of_nat (length e) = ts ->
  (v.(size) < v.(capacity) \/
     (growable v ts /\ m.(oom) = replicate k true ++ o /\ head o <> Some true /\ (k <= 10)%nat) ->
   exists m' v',
     add p (Some (map Some e)) ts m = Ok (NO_ERR, m') /\
     vec_rep m' p ts v' (l ++ [e]) /\ same_elsewhere p v.(data) m m') /\
  (1 <= v.(capacity) <= 5000 -> new_capacity v.(capacity) * ts < 2 ^ 64 -> growable v ts) /\
  (v.(capacity) = 0 -> add p (Some (map Some e)) ts m = Fault Dangling).
Proof.
  intros Hr Hlen. split; [|split].
  - intros Hfull. destruct (add_run _ _ _ _ _ _ k o Hr Hlen) as (m' & v' & H1 & H2 & H3 & _).
    { intros Hs. destruct Hfull as [|?]; [lia|done]. }
    by exists m', v'.
  - intros Hc Hw. split; [by apply new_capacity_grows|done].
  - by apply (add_capacity_0 m p ts v l).
Qed.

(** When all eleven attempts to grow are refused, [add] does not stop:
    it writes the element past the end of the block. *)
Theorem add_unresized_overruns m p ts v l e o :
  vec_rep m p ts v l -> Z.of_nat (length e) = ts -> v.(size) = v.(capacity) ->
  growable v ts -> m.(oom) = replicate 11 true ++ o ->
  add p (Some (map Some e)) ts m = Fault OutOfBounds.
Proof.
  intros Hr Hlen Hsz Hg Ho. pose proof Hr as [_ Hp Hv _ _ Hc _ _ _ _].
  unfold add, is_full. destruct (Z.eqb_spec p 0) as [?|_]; [done|].
  run (vec_at_run _ _ _ Hp Hv).
  destruct (Z.leb_spec v.(capacity) v.(size)) as [_|?]; [|lia].
  pose proof (rep_fields _ _ _ _ (with_realloc true v) _ Hr eq_refl eq_refl eq_refl) as Hr1.
  destruct (resize_loop_gives_up _ _ _ _ _ REALLOC_TRIES o Hr1 Hg Ho) as (m2 & Hloop & Hr2).
  pose proof (rep_fields _ _ _ _ (with_realloc false v) _ Hr2 eq_refl eq_refl eq_refl) as Hr3.
  rewrite bind_assoc, (bind_ok _ _ _ _ _ (put_run _ _ _)), bind_assoc.
  rewrite (bind_ok _ _ _ _ _ Hloop), bind_assoc.
  run (vec_at_run _ _ _ Hp (rep_vec _ _ _ _ _ Hr2)).
  run (put_run _ _ _).
  run (vec_at_run _ _ _ Hp (rep_vec _ _ _ _ _ Hr3)).
  rewrite read_object_all, bind_lift by (by rewrite length_map).
  destruct Hr3 as [_ _ _ Hts Hs _ Hw He Hd (rest & Hb & Hl)].
  simpl in Hs, Hw, Hd, Hb, Hl. apply bind_fault. simpl.
  rewrite u64_small by nia. eapply write_mem_beyond; [done|exact Hb|].
  rewrite length_app, !length_map. nia.
Qed.

(** Indexing.  Within the represented list [get] delivers the element and
    changes nothing, and [set] replaces exactly that element; beyond it both
    return their error code and change nothing, [get] telling an empty vector
    from an index out of range. *)
Theorem vector_indexing m p ts v l i buf e :
  vec_rep m p ts v l -> Z.of_nat (length buf) = ts -> Z.of_nat (length e) = ts ->
  match l !! i with
  | Some e0 =>
      get p (Z.of_nat i) ts (Some buf) m = Ok ((NO_ERR, Some (map Some e0)), m) /\
      exists m', set p (Z.of_nat i) ts (Some (map Some e)) m = Ok (NO_ERR, m') /\
        vec_rep m' p ts v (<[i := e]> l) /\ same_elsewhere p v.(data) m m'
  | None =>
      get p (Z.of_nat i) ts (Some buf) m =
        Ok ((if bool_decide (l = []) then ZERO_SIZE_VECTOR else OUT_OF_BOUND_ERR, Some buf), m) /\
      set p (Z.of_nat i) ts (Some (map Some e)) m = Ok (OUT_OF_BOUND_ERR, m)
  end.
Proof.
  intros Hr Hbuf Hlen. destruct (l !! i) as [e0|] eqn:Hi.
  - split; [by eapply get_run|by eapply set_run].
  - apply lookup_ge_None in Hi. pose proof Hr as [_ Hp Hv _ Hs _ _ _ _ _].
    split.
    + rewrite (get_beyond _ _ _ _ _ _ _ Hr) by lia. rewrite Hs.
      by destruct l; [rewrite bool_decide_eq_true_2|rewrite bool_decide_eq_false_2].
    + unfold set, is_out_range. destruct (Z.eqb_spec p 0) as [?|_]; [done|].
      run (vec_at_run _ _ _ Hp Hv).
      by destruct (Z.leb_spec v.(size) (Z.of_nat i)) as [_|?]; [|lia].
Qed.

(** [pop] undoes [add]: after appending an element, [pop] delivers it and
    the vector represents the list it represented before; on an empty vector
    [pop] and [top] report it and change nothing. *)
Theorem add_pop_roundtrip m p ts v l e buf :
  vec_rep m p ts v l -> Z.of_nat (length e) = ts -> Z.of_nat (length buf) = ts ->
  (v.(size) = v.(capacity) -> growable v ts /\ head m.(oom) <> Some true) ->
  (exists m1 m2 v2,
     add p (Some (map Some e)) ts m = Ok (NO_ERR, m1) /\
     pop p ts (Some buf) m1 = Ok ((NO_ERR, Some (map Some e)), m2) /\
     vec_rep m2 p ts v2 l) /\
  (l = [] ->
     pop p ts (Some buf) m = Ok ((ZERO_SIZE_VECTOR, Some buf), m) /\
     top p ts (Some buf) m = Ok ((ZERO_SIZE_VECTOR, Some buf), m)).
Proof.
  intros Hr Hlen Hbuf Hfull. split.
  - destruct (add_run _ _ _ _ _ _ 0 m.(oom) Hr Hlen) as (m1 & v1 & Hadd & Hr1 & _).
    { intros E. destruct (Hfull E). simpl. split_and!; try done; lia. }
    destruct (pop_run _ _ _ _ _ _ _ Hr1 Hbuf) as (m2 & v2 & Hpop & Hr2 & _).
    by exists m1, m2, v2.
  - intros ->. pose proof Hr as [_ Hp Hv _ Hs _ _ _ _ _]. simpl in Hs.
    unfold pop, top. destruct (Z.eqb_spec p 0) as [?|_]; [done|].
    by rewrite !(bind_ok _ _ _ _ _ (vec_at_run _ _ _ Hp Hv)), Hs.
Qed.

(** [vector_init] either returns a vector that represents the empty list,
    with the requested capacity and disturbing nothing else, or, when one of
    its two allocations is refused, returns [ALLOC_ERR] and leaves every
    vector and every block as it was. *)
Theorem vector_init_exact m cap ts :
  mem_wf m -> 0 < ts -> 0 <= cap -> cap * ts < 2 ^ 64 ->
  exists m', 
  if bool_decide (head m.(oom) = Some true \/ head (tail m.(oom)) = Some true)
  then vector_init cap ts m = Ok ((ALLOC_ERR, None), m') /\
       m'.(vecs) = m.(vecs) /\ m'.(blocks) = m.(blocks)
  else exists v, vector_init cap ts m = Ok ((NO_ERR, Some m.(next)), m') /\
       vec_rep m' m.(next) ts v [] /\ v.(capacity) = cap /\ v.(lock_init) = false /\
       same_elsewhere m.(next) (m.(next) + 16) m m'.
Proof.
  intros Hwf Hts Hcap Hw. case_bool_decide as Ho.
  - unfold vector_init, malloc, bind, alloc.
    destruct m.(oom) as [|[] [|[] o]]; simpl in Ho.
    all: try (destruct Ho; discriminate). all: by eexists.
  - destruct (vector_init_run m cap ts) as (m' & v & H); try done; [naive_solver..|].
    by exists m', v.
Qed.

(** [clear] zeroes the first bytes of the vector structure instead of the
    elements: from eight bytes of elements on the data pointer is lost while
    its block stays allocated, and beyond the 184 bytes of the structure the
    write is out of bounds. *)
Theorem clear_loses_data m p ts v l :
  vec_rep m p ts v l -> 0 <= v.(data) < 2 ^ 64 -> 8 <= v.(size) * ts ->
  if v.(size) * ts <=? 184
  then exists m' v', clear p ts m = Ok (NO_ERR, m') /\ m'.(blocks) = m.(blocks) /\
    m'.(vecs) !! p = Some v' /\ v'.(size) = 0 /\ v'.(data) = 0
  else clear p ts m = Fault OutOfBounds.
Proof.
  intros Hr Hd Hn. pose proof Hr as [_ Hp Hv Hts Hs Hc Hw _ _ _].
  unfold clear. destruct (Z.eqb_spec p 0) as [?|_]; [done|].
  rewrite (bind_ok _ _ _ _ _ (vec_at_run _ _ _ Hp Hv)), u64_small by nia.
  destruct (Z.leb_spec (v.(size) * ts) 184), (Z.ltb_spec 184 (v.(size) * ts)); try lia; [|done].
  eexists _, _. split_and!; [reflexivity|done|apply lookup_insert_eq|done|].
  by apply zero_low_all.
Qed.

(** With its lock free, [add_multithread] appends as [add] does and frees
    the lock again; before the lock was initialised it refuses. *)
Theorem add_multithread_appends m p ts v l e :
  vec_rep m p ts v l -> Z.of_nat (length e) = ts ->
  (v.(size) = v.(capacity) -> growable v ts /\ head m.(oom) <> Some true) ->
  (unlocked v -> exists m' v',
     add_multithread p (Some (map Some e)) ts m = Ok (NO_ERR, m') /\
     vec_rep m' p ts v' (l ++ [e]) /\ unlocked v' /\ same_elsewhere p v.(data) m m') /\
  (v.(lock_init) = false ->
     add_multithread p (Some (map Some e)) ts m = Ok (LOCK_INIT_ERR, m)).
Proof.
  intros Hr Hlen Hfull. split.
  - intros Hu. apply (add_multithread_run _ _ _ _ _ _ 0 m.(oom) Hr Hu Hlen).
    intros E. destruct (Hfull E). simpl. split_and!; try done; lia.
  - intros Hi. pose proof Hr as [_ Hp Hv _ _ _ _ _ _ _].
    unfold add_multithread. destruct (Z.eqb_spec p 0) as [?|_]; [done|].
    rewrite bool_decide_eq_false_2 by done. cbn [orb].
    by rewrite (bind_ok _ _ _ _ _ (vec_at_run _ _ _ Hp Hv)), Hi.
Qed.

(** [pop_multithread] is not atomic.  Run alone it removes the last
    element; but two threads whose reads both come before their decrements
    are both given the last element, while the vector loses two. *)
Theorem pop_multithread_race m p ts v l e1 e2 buf1 buf2 :
  vec_rep m p ts v (l ++ [e1] ++ [e2]) -> unlocked v ->
  Z.of_nat (length buf1) = ts -> Z.of_nat (length buf2) = ts ->
  let got := (NO_ERR, Some (map Some e2)) in
  (exists m1 v1, pop_multithread p ts (Some buf1) m = Ok (got, m1) /\
     vec_rep m1 p ts v1 (l ++ [e1])) /\
  (exists m2 v2,
     pop_threads p ts (Some buf1) (Some buf2)
       [true; true; true; true; false; false; false; false; true; true; false; false]
       (PopTest, PopTest) m = Ok ((PopDone got, PopDone got), m2) /\
     vec_rep m2 p ts v2 l).
Proof.
  intros Hr Hu H1 H2 got. rewrite app_assoc in Hr. split.
  - eexists _, _. split; [by eapply pop_alone_run|by eapply shrink_rep].
  - pose proof (shrink_rep _ _ _ _ _ _ Hr) as Hr1. pose proof (shrink_rep _ _ _ _ _ _ Hr1) as Hr2.
    pose proof (rep_ptr _ _ _ _ _ Hr) as Hp. pose proof (rep_vec _ _ _ _ _ Hr) as Hv.
    pose proof (rep_vec _ _ _ _ _ Hr1) as Hv1.
    destruct (pop_read_steps _ _ _ _ _ _ _ Hr Hu H1) as (A1 & A2 & A3 & A4).
    destruct (pop_read_steps _ _ _ _ _ _ _ Hr Hu H2) as (B1 & B2 & B3 & B4).
    destruct (pop_load_step _ p ts _ (Some buf1) got Hp Hv) as [A5 A6].
    destruct (pop_load_step _ p ts _ (Some buf2) got Hp Hv1) as [B5 B6].
    eexists _, _. split; [|exact Hr2].
    erewrite !pop_threads_step by
      first [exact A1|exact A2|exact A3|exact A4|exact B1|exact B2|exact B3|exact B4
            |exact A5|apply A6|exact B5|apply B6].
    reflexivity.
Qed.

(** [add_int] and [set_int] hand the eight-byte store a four-byte object,
    so every call that reaches the copy reads past it. *)
Theorem int_interface_overreads m p v l el i :
  vec_rep m p 8 v l -> v.(size) < v.(capacity) ->
  add_int p el false m = Fault OutOfBounds /\
  (Z.of_nat i < v.(size) -> set_int p (Z.of_nat i) el false m = Fault OutOfBounds).
Proof.
  intros Hr Hlt. pose proof Hr as [_ Hp Hv _ _ _ _ _ _ _].
  unfold add_int, set_int. cbn [negb]. unfold add, set, is_full, is_out_range.
  destruct (Z.eqb_spec p 0) as [?|_]; [done|].
  rewrite !(bind_ok _ _ _ _ _ (vec_at_run _ _ _ Hp Hv)).
  rewrite read_object_short by (rewrite length_object; lia).
  destruct (Z.leb_spec v.(capacity) v.(size)) as [?|_]; [lia|]. split.
  - autorewrite with c_monad. by run (vec_at_run _ _ _ Hp Hv).
  - intros Hi. destruct (Z.leb_spec v.(size) (Z.of_nat i)) as [?|_]; [lia|done].
Qed.

(** A double added with [add_double] is what [get_double] returns at its
    index, bit for bit, and an index past the end gives [-1.0]. *)
Theorem double_roundtrip m p v l d :
  vec_rep m p 8 v l -> v.(size) < v.(capacity) -> 0 <= d < 2 ^ 64 ->
  get_double p v.(size) m = Ok (NO_EL_double, m) /\
  exists m', add_double p d m = Ok (NO_ERR, m') /\ get_double p v.(size) m' = Ok (d, m').
Proof.
  intros Hr Hlt Hd. pose proof Hr as [_ Hp Hv _ Hs _ _ _ _ _]. split.
  - unfold get_double. run (get_beyond _ _ _ _ _ _ _ Hr (Z.le_refl _)).
    by destruct (v.(size) =? 0).
  - destruct (append_run m p 8 v l (le_bytes 8 d) Hr Hlt (f_equal _ (length_le_bytes 8 d)))
      as (m' & v' & Hrun & Hr' & _).
    exists m'. split.
    + unfold add_double, add, is_full. destruct (Z.eqb_spec p 0) as [?|_]; [done|].
      run (vec_at_run _ _ _ Hp Hv).
      destruct (Z.leb_spec v.(capacity) v.(size)) as [?|_]; [lia|]. exact Hrun.
    + unfold get_double. rewrite Hs.
      run (get_run _ _ _ _ _ _ (le_bytes 8 d) (replicate 8 None) Hr'
                 (list_lookup_middle l [] _ _ eq_refl) eq_refl).
      change (lift (value_of (Some (object 8 d))) m' = Ok (d, m')).
      by rewrite (value_of_object d Hd).
Qed.

(** ** Witnesses *)

(** A vector at address 16 over a block at address 32 with room for [slack]
    more elements. *)
Definition sample_vec (l : list (list Z)) (slack : Z) (locks : bool) : vector :=
  {| data := 32; size := Z.of_nat (length l); capacity := Z.of_nat (length l) + slack;
     rwlock := if locks then Some 0 else None; realloc_process := false; mtx := locks;
     cond := locks; lock_init := locks |}.

Definition sample (ts : Z) (l : list (list Z)) (slack : Z) (locks : bool) (o : list bool) : mem :=
  {| vecs := {[16 := sample_vec l slack locks]};
     blocks := {[32 := map Some (concat l) ++ replicate (Z.to_nat (slack * ts)) None]};
     next := 48; oom := o |}.

Lemma sample_rep ts l slack locks o :
  0 < ts -> Forall (fun e => Z.of_nat (length e) = ts) l -> 0 <= slack ->
  (Z.of_nat (length l) + slack) * ts < 2 ^ 64 ->
  vec_rep (sample ts l slack locks o) 16 ts (sample_vec l slack locks) l.
Proof.
  intros Hts He Hsl Hw. split; try done; try (simpl; lia).
  - split_and!; simpl; [lia| |]; intros q [x [<- _]%lookup_singleton_Some]; lia.
  - exists (replicate (Z.to_nat (slack * ts)) None). simpl. split; [done|].
    rewrite length_replicate, Nat2Z.inj_add, (length_concat_uniform l ts He). nia.
Qed.

Ltac sample := apply sample_rep; [lia|repeat constructor|lia|simpl; lia].

Lemma add_appends_witness :
  (exists m' v',
    add 16 (Some (map Some [9])) 1 (sample 1 [[7]] 0 false (replicate 10 true)) = Ok (NO_ERR, m') /\
    vec_rep m' 16 1 v' ([[7]] ++ [[9]]) /\
    same_elsewhere 16 32 (sample 1 [[7]] 0 false (replicate 10 true)) m') /\
  add 16 (Some (map Some [9])) 1 (sample 1 [] 0 false []) = Fault Dangling.
Proof.
  split.
  - apply (add_appends _ 16 1 (sample_vec [[7]] 0 false) [[7]] [9] 10 []); [sample|done|].
    right. split_and!; [split; vm_compute; reflexivity|done|done|lia].
  - apply (add_appends _ 16 1 (sample_vec [] 0 false) [] [9] 0 []); [sample|done|done].
Defined.

Lemma add_unresized_overruns_witness :
  add 16 (Some (map Some [9])) 1 (sample 1 [[7]] 0 false (replicate 11 true)) = Fault OutOfBounds.
Proof.
  apply (add_unresized_overruns _ 16 1 (sample_vec [[7]] 0 false) [[7]] [9] []);
    [sample|done|done|split; vm_compute; reflexivity|done].
Defined.

Lemma vector_indexing_witness :
  get 16 1 1 (Some [None]) (sample 1 [[7]; [8]] 0 false []) =
    Ok ((NO_ERR, Some [Some 8]), sample 1 [[7]; [8]] 0 false []) /\
  exists m', set 16 1 1 (Some [Some 5]) (sample 1 [[7]; [8]] 0 false []) = Ok (NO_ERR, m') /\
    vec_rep m' 16 1 (sample_vec [[7]; [8]] 0 false) [[7]; [5]] /\
    same_elsewhere 16 32 (sample 1 [[7]; [8]] 0 false []) m'.
Proof.
  refine (vector_indexing (sample 1 [[7]; [8]] 0 false []) 16 1
            (sample_vec [[7]; [8]] 0 false) [[7]; [8]] 1 [None] [5] _ eq_refl eq_refl).
  sample.
Defined.

Lemma add_pop_roundtrip_witness :
  exists m1 m2 v2,
    add 16 (Some (map Some [9])) 1 (sample 1 [[7]] 1 false []) = Ok (NO_ERR, m1) /\
    pop 16 1 (Some [None]) m1 = Ok ((NO_ERR, Some [Some 9]), m2) /\
    vec_rep m2 16 1 v2 [[7]].
Proof.
  apply (add_pop_roundtrip (sample 1 [[7]] 1 false []) 16 1 (sample_vec [[7]] 1 false)
           [[7]] [9] [None]); [sample|done|done|simpl; lia].
Defined.

Lemma vector_init_exact_witness :
  exists m' v, vector_init 3 4 (sample 1 [[7]] 1 false []) = Ok ((NO_ERR, Some 48), m') /\
    vec_rep m' 48 4 v [] /\ v.(capacity) = 3.
Proof.
  destruct (vector_init_exact (sample 1 [[7]] 1 false []) 3 4) as (m' & v & H1 & H2 & H3 & _);
    [|lia|lia|lia|by exists m', v].
  apply (rep_wf _ 16 1 (sample_vec [[7]] 1 false) [[7]]). sample.
Defined.

Lemma clear_loses_data_witness :
  exists m' v', clear 16 4 (sample 4 [[1; 2; 3; 4]; [5; 6; 7; 8]] 0 false []) = Ok (NO_ERR, m') /\
    m'.(blocks) = {[32 := map Some [1; 2; 3; 4; 5; 6; 7; 8]]} /\
    m'.(vecs) !! 16 = Some v' /\ v'.(size) = 0 /\ v'.(data) = 0.
Proof.
  apply (clear_loses_data (sample 4 [[1; 2; 3; 4]; [5; 6; 7; 8]] 0 false []) 16 4
           (sample_vec [[1; 2; 3; 4]; [5; 6; 7; 8]] 0 false) [[1; 2; 3; 4]; [5; 6; 7; 8]]);
    [sample|simpl; lia|simpl; lia].
Defined.

Lemma add_multithread_appends_witness :
  exists m' v',
    add_multithread 16 (Some (map Some [9])) 1 (sample 1 [[7]] 1 true []) = Ok (NO_ERR, m') /\
    vec_rep m' 16 1 v' ([[7]] ++ [[9]]) /\ unlocked v' /\
    same_elsewhere 16 32 (sample 1 [[7]] 1 true []) m'.
Proof.
  apply (add_multithread_appends (sample 1 [[7]] 1 true []) 16 1 (sample_vec [[7]] 1 true)
           [[7]] [9]); [sample|done|simpl; lia|done].
Defined.

Lemma pop_multithread_race_witness :
  exists m2 v2,
    pop_threads 16 1 (Some [None]) (Some [None])
      [true; true; true; true; false; false; false; false; true; true; false; false]
      (PopTest, PopTest) (sample 1 [[7]; [8]] 0 true []) =
      Ok ((PopDone (NO_ERR, Some [Some 8]), PopDone (NO_ERR, Some [Some 8])), m2) /\
    vec_rep m2 16 1 v2 [].
Proof.
  apply (pop_multithread_race (sample 1 [[7]; [8]] 0 true []) 16 1
           (sample_vec [[7]; [8]] 0 true) [] [7] [8] [None] [None]);
    [sample|done|done|done].
Defined.

Lemma int_interface_overreads_witness :
  add_int 16 5 false (sample 8 [] 2 false []) = Fault OutOfBounds.
Proof.
  apply (int_interface_overreads (sample 8 [] 2 false []) 16 (sample_vec [] 2 false) [] 5 0);
    [sample|simpl; lia].
Defined.

Lemma double_roundtrip_witness :
  exists m', add_double 16 0x3FF8000000000000 (sample 8 [] 2 false []) = Ok (NO_ERR, m') /\
    get_double 16 0 m' = Ok (0x3FF8000000000000, m').
Proof.
  apply (double_roundtrip (sample 8 [] 2 false []) 16 (sample_vec [] 2 false) []);
    [sample|simpl; lia|lia].
Defined.
