(* ===== verification/SortList.v ===== *)
(** * SortList: the list of lines that a thread keeps sorted

    Models src/src/pthreads-problems/problem-3/solution.c: the doubly linked
    list of lines, and the bubble sort that relinks its nodes inside the
    critical section of [bubble_sort_mt].  The store maps the addresses of the
    allocated nodes to their contents; [lst] is the variable [list] of [main],
    which both threads reach through its address. *)

From S2P Require Import Prelude CInt CString Dll.
From Stdlib Require Import Sorting.Sorted.
Open Scope Z_scope.

(** ** Data *)

(** A line is [None] where its copy could not be allocated. *)
Record Node := mk_node { line : option cstr; next : Z; prev : Z }.

Record lstate := mk_l { nodes : gmap Z Node; lst : Z }.

Definition with_nodes (f : gmap Z Node -> gmap Z Node) (s : lstate) : lstate :=
  mk_l (f (nodes s)) (lst s).

Definition node_at (p : Z) : M lstate Node :=
  fun s => if p =? 0 then Fault NullDeref
           else match nodes s !! p with Some n => Ok (n, s) | None => Fault Dangling end.

Definition set_next (p v : Z) : M lstate unit :=
  node_at p;; modify (with_nodes (alter (fun n => mk_node (line n) v (prev n)) p)).
Definition set_prev (p v : Z) : M lstate unit :=
  node_at p;; modify (with_nodes (alter (fun n => mk_node (line n) (next n) v) p)).
Definition set_lst (p : Z) : M lstate unit := modify (fun s => mk_l (nodes s) p).

Definition free (p : Z) : M lstate unit :=
  if p =? 0 then ret tt else node_at p;; modify (with_nodes (delete p)).

(** ** The list *)

(** [copy_ok]: whether the [malloc] of the copy succeeds. *)
Definition cpy_str (copy_ok : bool) (old_str : option cstr) : Z * option cstr :=
  match old_str with
  | None => (0, None)
  | Some s => if copy_ok then (0, Some s) else (1, None)
  end.

(** [addr]: the answer of the [malloc] of the node.  What [cpy_str] returns is
    not looked at. *)
Definition new_node (addr : Z) (copy_ok : bool) (val : option cstr) : M lstate Z :=
  if addr =? 0 then ret 1
  else
    modify (with_nodes <[addr := mk_node (snd (cpy_str copy_ok val)) 0 0]>);;
    ret 0.

Definition add_to_head (addr : Z) (copy_ok : bool) (val : option cstr) : M lstate Z :=
  res <- new_node addr copy_ok val;;
  if negb (res =? 0) then ret 1
  else
    list <- gets lst;;
    (if list =? 0 then set_lst addr
     else
       l <- node_at list;;
       set_next addr (next l);;
       set_prev addr list;;
       set_next list addr);;
    ret 0.

(** [cur = list; while (cur->next != NULL) cur = cur->next;] *)
Fixpoint last_node (fuel : nat) (cur : Z) : M lstate Z :=
  n <- node_at cur;;
  if next n =? 0 then ret cur
  else match fuel with
       | O => fail NoFuel
       | S fuel => last_node fuel (next n)
       end.

Definition add_to_tail (addr : Z) (copy_ok : bool) (val : option cstr) : M lstate Z :=
  res <- new_node addr copy_ok val;;
  if negb (res =? 0) then ret 1
  else
    list <- gets lst;;
    (if list =? 0 then set_lst addr
     else
       fuel <- gets (fun s => size (nodes s));;
       cur <- last_node fuel list;;
       set_next cur addr;;
       set_prev addr cur);;
    ret 0.

Definition create_list (addr : Z) (copy_ok : bool) : M lstate Z :=
  add_to_head addr copy_ok (Some (bytes_of "start_list_ptr")).

Fixpoint free_loop (fuel : nat) (list : Z) : M lstate unit :=
  if list =? 0 then ret tt
  else match fuel with
       | O => fail NoFuel
       | S fuel => n <- node_at list;; free list;; free_loop fuel (next n)
       end.

Definition list_free (list : Z) : M lstate Z :=
  if list =? 0 then ret 1
  else
    fuel <- gets (fun s => size (nodes s));;
    free_loop fuel list;;
    ret 0.

Fixpoint print_loop (fuel : nat) (cur : Z) : M lstate (list (option cstr)) :=
  if cur =? 0 then ret []
  else match fuel with
       | O => fail NoFuel
       | S fuel =>
           n <- node_at cur;;
           rest <- print_loop fuel (next n);;
           ret (line n :: rest)
       end.

(** The lines printed: the first node is taken for a list head and skipped. *)
Definition print_list (head : Z) : M lstate (Z * list (option cstr)) :=
  if head =? 0 then ret (1, [])
  else
    n <- node_at head;;
    if next n =? 0 then ret (1, [])
    else
      fuel <- gets (fun s => size (nodes s));;
      out <- print_loop fuel (next n);;
      ret (0, out).

(** ** Sorting *)

(** The arguments are addresses of local variables, so never null. *)
Definition swap (l_node r_node : Z) : M lstate Z :=
  r <- node_at r_node;;
  set_next l_node (next r);;
  r <- node_at r_node;;
  (if next r =? 0 then ret tt else set_prev (next r) l_node);;
  l <- node_at l_node;;
  (if prev l =? 0 then ret tt else set_next (prev l) r_node);;
  l <- node_at l_node;;
  set_prev r_node (prev l);;
  set_prev l_node r_node;;
  set_next r_node l_node;;
  ret 0.

Definition line_cmp (a b : option cstr) : outcome Z :=
  match a, b with
  | Some a, Some b => Ok (strcmp a b)
  | _, _ => Fault NullDeref
  end.

(** The inner loop: the node it stops at, and whether it swapped. *)
Fixpoint pass (fuel : nat) (current end_ : Z) (is_swapped : bool) : M lstate (Z * bool) :=
  n <- node_at current;;
  if next n =? end_ then ret (current, is_swapped)
  else
    match fuel with
    | O => fail NoFuel
    | S fuel =>
        nn <- node_at (next n);;
        c <- lift (line_cmp (line n) (line nn));;
        if 0 <? c then
          let next_node := next n in
          list <- gets lst;;
          (if current =? list then set_lst next_node else ret tt);;
          swap current next_node;;
          m <- node_at next_node;;
          pass fuel (next m) end_ true
        else pass fuel (next n) end_ is_swapped
    end.

(** The [do] loop; a round leaves the largest line of its range at its end. *)
Fixpoint sort_rounds (fuel : nat) (end_ : Z) : M lstate unit :=
  match fuel with
  | O => fail NoFuel
  | S fuel =>
      list <- gets lst;;
      k <- gets (fun s => size (nodes s));;
      r <- pass k list end_ false;;
      if snd r : bool then sort_rounds fuel (fst r) else ret tt
  end.

(** The critical section of [bubble_sort_mt], entered once the list is known
    to have two nodes. *)
Definition bubble_sort : M lstate unit :=
  k <- gets (fun s => size (nodes s));; sort_rounds (S k) 0.

(** One line of [read_lines], without its newline: [None] ends the loop. *)
Definition read_lines_step (addr : Z) (copy_ok : bool) (cur_line : cstr)
    : M lstate (option (Z * list (option cstr))) :=
  if strcmp cur_line (bytes_of "c_exit") =? 0 then ret None
  else if strcmp cur_line (bytes_of "c_print") =? 0 then
    list <- gets lst;; r <- print_list list;; ret (Some r)
  else
    res <- add_to_tail addr copy_ok (Some cur_line);; ret (Some (res, [])).

(** ** Links *)

Definition links (ns : gmap Z Node) (a : Z) : option (Z * Z) :=
  (fun n => (next n, prev n)) <$> ns !! a.

Definition line_at (s : lstate) (a : Z) : option (option cstr) := line <$> nodes s !! a.

Definition upd_next (p v : Z) : lstate -> lstate :=
  with_nodes (alter (fun n => mk_node (line n) v (prev n)) p).
Definition upd_prev (p v : Z) : lstate -> lstate :=
  with_nodes (alter (fun n => mk_node (line n) (next n) v) p).

(** The node at [x] has successor [n] and predecessor [p]. *)
Definition lk (s : lstate) (x n p : Z) : Prop := x <> 0 /\ links (nodes s) x = Some (n, p).

Lemma node_at_run s x n p :
  lk s x n p -> exists c, node_at x s = Ok (mk_node c n p, s) /\ line_at s x = Some c.
Proof.
  intros [Hx Hl]. unfold links in Hl. destruct (nodes s !! x) as [[c n' p']|] eqn:E; [|done].
  simpl in Hl. simplify_eq. exists c. unfold node_at, line_at.
  by rewrite (proj2 (Z.eqb_neq _ _) Hx), E.
Qed.

Lemma set_next_run s x n p v : lk s x n p -> set_next x v s = Ok (tt, upd_next x v s).
Proof.
  intros H. destruct (node_at_run _ _ _ _ H) as (c & Hn & _). unfold set_next. by run Hn.
Qed.

Lemma set_prev_run s x n p v : lk s x n p -> set_prev x v s = Ok (tt, upd_prev x v s).
Proof.
  intros H. destruct (node_at_run _ _ _ _ H) as (c & Hn & _). unfold set_prev. by run Hn.
Qed.

Lemma lk_next_eq s x n p v : lk s x n p -> lk (upd_next x v s) x v p.
Proof.
  intros [Hx Hl]. split; [done|]. unfold links in *. simpl. rewrite lookup_alter_eq.
  destruct (nodes s !! x); [|done]. simpl in *. by simplify_eq.
Qed.

Lemma lk_prev_eq s x n p v : lk s x n p -> lk (upd_prev x v s) x n v.
Proof.
  intros [Hx Hl]. split; [done|]. unfold links in *. simpl. rewrite lookup_alter_eq.
  destruct (nodes s !! x); [|done]. simpl in *. by simplify_eq.
Qed.

Lemma links_next_ne s x v y :
  y <> x -> links (nodes (upd_next x v s)) y = links (nodes s) y.
Proof. intros Hy. unfold links. simpl. by rewrite lookup_alter_ne. Qed.

Lemma links_prev_ne s x v y :
  y <> x -> links (nodes (upd_prev x v s)) y = links (nodes s) y.
Proof. intros Hy. unfold links. simpl. by rewrite lookup_alter_ne. Qed.

Lemma lk_next_ne s x v y n p : y <> x -> lk s y n p -> lk (upd_next x v s) y n p.
Proof. intros Hy [? ?]. split; [done|]. by rewrite links_next_ne. Qed.

Lemma lk_prev_ne s x v y n p : y <> x -> lk s y n p -> lk (upd_prev x v s) y n p.
Proof. intros Hy [? ?]. split; [done|]. by rewrite links_prev_ne. Qed.

(** [s'] has the nodes and lines of [s], whatever their links. *)
Definition same_lines (s s' : lstate) : Prop :=
  size (nodes s') = size (nodes s) /\ forall a, line_at s' a = line_at s a.

#[export] Instance same_lines_preorder : PreOrder same_lines.
Proof.
  split.
  - by intros s.
  - intros s1 s2 s3 [H1 H1'] [H2 H2']. split; [congruence|]. intros a. by rewrite H2', H1'.
Qed.

Lemma same_lines_alter s f p :
  (forall n, line (f n) = line n) -> same_lines s (with_nodes (alter f p) s).
Proof.
  intros Hf. split.
  - simpl. rewrite <- !size_dom. by rewrite dom_alter_L.
  - intros a. unfold line_at. simpl. destruct (decide (a = p)) as [->|Hne].
    + rewrite lookup_alter_eq. destruct (nodes s !! p); [|done]. simpl. by rewrite Hf.
    + by rewrite lookup_alter_ne.
Qed.

Lemma same_lines_next s x v : same_lines s (upd_next x v s).
Proof. by apply same_lines_alter. Qed.

Lemma same_lines_prev s x v : same_lines s (upd_prev x v s).
Proof. by apply same_lines_alter. Qed.

Create HintDb links_db.
#[export] Hint Resolve lk_next_eq lk_prev_eq lk_next_ne lk_prev_ne : links_db.

(** ** Exchanging two neighbours *)

Definition chain (s : lstate) (l : list Z) : Prop := dll (links (nodes s)) 0 l 0 /\ NoDup l.

Lemma chain_lk s l1 a l2 : chain s (l1 ++ a :: l2) -> lk s a (hdZ 0 l2) (lastZ 0 l1).
Proof.
  intros [Hd _]. split; [|by apply (dll_lookup _ _ _ _ _ _ Hd)].
  apply dll_nonnull in Hd. rewrite Forall_app, Forall_cons in Hd. tauto.
Qed.

(** The links that [swap] leaves. *)
Lemma swap_run s a b n p :
  a <> b -> n <> a -> n <> b -> p <> a -> p <> b -> (n = p -> n = 0) ->
  lk s a b p -> lk s b n a ->
  (n <> 0 -> exists n', lk s n n' b) -> (p <> 0 -> exists p', lk s p a p') ->
  exists s', swap a b s = Ok (0, s') /\ lst s' = lst s /\ same_lines s s' /\
    lk s' a n b /\ lk s' b a p /\
    (forall n', lk s n n' b -> lk s' n n' a) /\ (forall p', lk s p a p' -> lk s' p b p') /\
    (forall x, x <> a -> x <> b -> x <> n -> x <> p -> links (nodes s') x = links (nodes s) x).
Proof.
  intros Hab Hna Hnb Hpa Hpb Hnp Ha Hb Hn Hp.
  set (s1 := upd_next a n s). set (s2 := if n =? 0 then s1 else upd_prev n a s1).
  set (s3 := if p =? 0 then s2 else upd_next p b s2).
  set (s4 := upd_prev b p s3). set (s5 := upd_prev a b s4). exists (upd_next b a s5).
  assert (lk s1 a n p) as Ha1 by eauto with links_db.
  assert (lk s1 b n a) as Hb1 by eauto with links_db.
  assert (lk s2 a n p) as Ha2 by (unfold s2; destruct (n =? 0); eauto with links_db).
  assert (lk s2 b n a) as Hb2 by (unfold s2; destruct (n =? 0); eauto with links_db).
  assert (lk s3 a n p) as Ha3 by (unfold s3; destruct (p =? 0); eauto with links_db).
  assert (lk s3 b n a) as Hb3 by (unfold s3; destruct (p =? 0); eauto with links_db).
  assert (lk s4 a n p) as Ha4 by eauto with links_db.
  assert (lk s4 b n p) as Hb4 by eauto with links_db.
  assert (lk s5 a n b) as Ha5 by eauto with links_db.
  assert (lk s5 b n p) as Hb5 by eauto with links_db.
  split_and!.
  - unfold swap. destruct (node_at_run _ _ _ _ Hb) as (cb & Eb & _). run Eb.
    run (set_next_run _ _ _ _ _ Ha).
    destruct (node_at_run _ _ _ _ Hb1) as (cb1 & Eb1 & _). run Eb1. cbn [next].
    assert ((if n =? 0 then ret tt else set_prev n a) s1 = Ok (tt, s2)) as E2.
    { unfold s2. destruct (Z.eqb_spec n 0) as [|Hn0]; [done|]. destruct (Hn Hn0) as [n' Hn'].
      apply (set_prev_run _ _ n' b). eauto with links_db. }
    run E2. destruct (node_at_run _ _ _ _ Ha2) as (ca & Ea & _). run Ea. cbn [prev].
    assert ((if p =? 0 then ret tt else set_next p b) s2 = Ok (tt, s3)) as E3.
    { unfold s3. destruct (Z.eqb_spec p 0) as [|Hp0]; [done|]. destruct (Hp Hp0) as [p' Hp'].
      apply (set_next_run _ _ a p'). unfold s2. destruct (Z.eqb_spec n 0); [eauto with links_db|].
      apply lk_prev_ne; [intros ->; by apply Hp0, Hnp|]. eauto with links_db. }
    run E3. destruct (node_at_run _ _ _ _ Ha3) as (ca3 & Ea3 & _). run Ea3. cbn [prev].
    run (set_prev_run _ _ _ _ _ Hb3). run (set_prev_run _ _ _ _ _ Ha4).
    by run (set_next_run _ _ _ _ _ Hb5).
  - unfold s5, s4, s3, s2, s1. by destruct (n =? 0), (p =? 0).
  - assert (same_lines s1 s2) by (unfold s2; destruct (n =? 0); [done|apply same_lines_prev]).
    assert (same_lines s2 s3) by (unfold s3; destruct (p =? 0); [done|apply same_lines_next]).
    etrans; [apply (same_lines_next s a n)|]. etrans; [eassumption|]. etrans; [eassumption|].
    etrans; [apply (same_lines_prev s3 b p)|]. etrans; [apply (same_lines_prev s4 a b)|].
    apply same_lines_next.
  - eauto with links_db.
  - eauto with links_db.
  - intros n' Hn'. pose proof (proj1 Hn') as Hn0.
    assert (lk s2 n n' a) by (unfold s2; rewrite (proj2 (Z.eqb_neq _ _) Hn0); eauto with links_db).
    assert (lk s3 n n' a).
    { unfold s3. destruct (p =? 0); [done|]. apply lk_next_ne; [intros ->; by apply Hn0, Hnp|done]. }
    eauto with links_db.
  - intros p' Hp'. pose proof (proj1 Hp') as Hp0.
    assert (lk s2 p a p').
    { unfold s2. destruct (n =? 0); [eauto with links_db|].
      apply lk_prev_ne; [intros ->; by apply Hp0, Hnp|]. eauto with links_db. }
    assert (lk s3 p b p') by (unfold s3; rewrite (proj2 (Z.eqb_neq _ _) Hp0); eauto with links_db).
    eauto with links_db.
  - intros x H1 H2 H3 H4. unfold s5, s4. rewrite links_next_ne, !links_prev_ne by done.
    unfold s3, s2, s1. destruct (n =? 0), (p =? 0); rewrite ?links_next_ne, ?links_prev_ne, ?links_next_ne by done; done.
Qed.

Lemma hdZ_notin l x : x <> 0 -> ~ (x ∈ l) -> hdZ 0 l <> x.
Proof. intros Hx Hl <-. destruct l; [done|]. apply Hl. simpl. set_solver. Qed.

Lemma lastZ_notin l x : x <> 0 -> ~ (x ∈ l) -> lastZ 0 l <> x.
Proof.
  intros Hx Hl E. destruct (decide (l = [])) as [->|Hne]; [by simpl in E|].
  apply Hl. rewrite <- E. by apply lastZ_in.
Qed.

Lemma swap_chain s l1 a b l2 :
  chain s (l1 ++ a :: b :: l2) ->
  exists s', swap a b s = Ok (0, s') /\ lst s' = lst s /\ same_lines s s' /\
    chain s' (l1 ++ b :: a :: l2).
Proof.
  intros Hc. pose proof Hc as [Hd Hnd].
  pose proof (chain_lk _ _ _ _ Hc) as Ha. cbn [hdZ] in Ha.
  pose proof (chain_lk s (l1 ++ [a]) b l2) as Hb. rewrite <- app_assoc, lastZ_snoc in Hb.
  specialize (Hb Hc). pose proof (proj1 Ha) as Ha0. pose proof (proj1 Hb) as Hb0.
  apply NoDup_app in Hnd as (Hn1 & H12 & Hn2).
  apply NoDup_cons in Hn2 as [Hab Hn2]. apply NoDup_cons in Hn2 as [Hb2 Hn2].
  assert (~ (a ∈ l2)) as Ha2 by set_solver. assert (a <> b) as Hne by set_solver.
  assert (~ (a ∈ l1)) as Ha1 by (intros H; apply (H12 a H); set_solver).
  assert (~ (b ∈ l1)) as Hb1 by (intros H; apply (H12 b H); set_solver).
  destruct (swap_run s a b (hdZ 0 l2) (lastZ 0 l1)) as
    (s' & Hrun & Hlst & Hsame & Ha' & Hb' & Hn' & Hp' & Hfr); try done.
  - by apply hdZ_notin.
  - by apply hdZ_notin.
  - by apply lastZ_notin.
  - by apply lastZ_notin.
  - destruct l2 as [|q l2]; [done|]. simpl. intros E. exfalso.
    destruct (decide (l1 = [])) as [->|Hne1].
    + simpl in E. apply dll_nonnull in Hd. rewrite E in Hd. simpl in Hd.
      rewrite !Forall_cons in Hd. tauto.
    + apply (H12 (lastZ 0 l1)); [by apply lastZ_in|]. rewrite <- E. set_solver.
  - intros Hq. destruct l2 as [|q l2]; [done|]. exists (hdZ 0 l2). simpl.
    pose proof (chain_lk s (l1 ++ [a; b]) q l2) as Hl. rewrite <- app_assoc in Hl.
    specialize (Hl Hc). by rewrite (lastZ_app _ l1 [a; b]) in Hl.
  - intros Ht. destruct (decide (l1 = [])) as [->|Hne1]; [done|].
    destruct (exists_last Hne1) as (l0 & t & ->). exists (lastZ 0 l0). rewrite lastZ_snoc.
    rewrite <- app_assoc in Hc. by apply (chain_lk s l0 t (a :: b :: l2)).
  - exists s'. split_and!; try done. split.
    + eapply dll_swap; [exact Hd|apply Ha'|apply Hb'| |].
      * intros l0 t ->. rewrite lastZ_snoc in *. rewrite <- app_assoc in Hc.
        split; [by apply Hp', (chain_lk s l0 t (a :: b :: l2))|].
        intros x Hx. apply NoDup_app in Hn1 as (_ & Hn1 & _).
        apply Hfr; [set_solver|set_solver| |intros ->; apply (Hn1 _ Hx); set_solver].
        intros ->. destruct l2 as [|q l2].
        -- apply dll_nonnull in Hd. rewrite !Forall_app in Hd. destruct Hd as [[Hd _] _].
           rewrite Forall_forall in Hd. by apply (Hd 0).
        -- apply (H12 q); [set_solver|set_solver].
      * intros q l0 ->. split.
        -- apply Hn'. pose proof (chain_lk s (l1 ++ [a; b]) q l0) as Hl.
           rewrite <- app_assoc, lastZ_app in Hl. exact (Hl Hc).
        -- intros x Hx. apply NoDup_cons in Hn2 as [Hn2 _].
           apply Hfr; [set_solver|set_solver|simpl; set_solver|].
           intros ->. destruct (decide (l1 = [])) as [->|Hne1].
           ++ simpl in Hx. apply dll_nonnull in Hd. rewrite Forall_forall in Hd.
              apply (Hd 0); [set_solver|done].
           ++ apply (H12 (lastZ 0 l1)); [by apply lastZ_in|set_solver].
    + rewrite (Permutation_swap a b l2). by destruct Hc.
Qed.

(** ** The rounds of the sort *)

Definition key (s : lstate) (a : Z) : cstr :=
  match line_at s a with Some (Some c) => c | _ => [] end.

(** Every node of [l] has a line. *)
Definition lined (s : lstate) (l : list Z) : Prop :=
  Forall (fun a => exists c, line_at s a = Some (Some c) /\ is_cstr c) l.

Definition leq (s : lstate) (a b : Z) : Prop := strcmp (key s a) (key s b) <= 0.

Lemma lined_key s l a : lined s l -> a ∈ l -> line_at s a = Some (Some (key s a)) /\ is_cstr (key s a).
Proof.
  intros Hl Ha. apply (proj1 (Forall_forall _ _) Hl) in Ha as (c & Hc & Hcs). unfold key. by rewrite Hc.
Qed.

Lemma same_key s s' a : same_lines s s' -> key s' a = key s a.
Proof. intros [_ H]. unfold key. by rewrite H. Qed.

Lemma same_lined s s' l : same_lines s s' -> lined s l -> lined s' l.
Proof. intros [_ H] Hl. eapply Forall_impl; [exact Hl|]. intros a (c & Hc). exists c. by rewrite H. Qed.

Lemma leq_trans s l a b c :
  lined s l -> a ∈ l -> b ∈ l -> c ∈ l -> leq s a b -> leq s b c -> leq s a c.
Proof.
  intros Hl Ha Hb Hc. unfold leq. apply strcmp_trans; by eapply lined_key.
Qed.

Lemma same_leq s s' a b : same_lines s s' -> leq s' a b <-> leq s a b.
Proof. intros H. unfold leq. by rewrite !(same_key s s') by done. Qed.

Definition rep (s : lstate) (l : list Z) : Prop := chain s l /\ lst s = hdZ 0 l /\ lined s l.

(** The same without the lines. *)
Definition linked (s : lstate) (l : list Z) : Prop := chain s l /\ lst s = hdZ 0 l.

Lemma rep_length s l : chain s l -> (length l <= size (nodes s))%nat.
Proof.
  intros [Hd Hnd]. rewrite <- size_dom, <- (size_list_to_set (C := gset Z) l Hnd).
  apply subseteq_size. intros a Ha. apply elem_of_list_to_set, list_elem_of_split in Ha as (l1 & l2 & ->).
  apply (dll_lookup _ _ _ _ _ _) in Hd. unfold links in Hd. apply elem_of_dom.
  by destruct (nodes s !! a).
Qed.

(** The head of the list moves when its first node is swapped. *)
Lemma move_head s pre cur y rest :
  linked s (pre ++ cur :: y :: rest) ->
  (list <- gets lst;; (if cur =? list then set_lst y else ret tt)) s =
  Ok (tt, mk_l (nodes s) (hdZ y pre)).
Proof.
  intros [[_ Hnd] Hl]. unfold bind, gets. rewrite Hl. destruct pre as [|x pre]; simpl.
  - by rewrite Z.eqb_refl.
  - destruct (Z.eqb_spec cur x) as [->|_]; [|by destruct s; simpl in *; subst].
    apply NoDup_cons in Hnd as [Hnd _]. set_solver.
Qed.

(** A step that swaps. *)
Lemma swap_step_linked s pre cur y rest :
  linked s (pre ++ cur :: y :: rest) ->
  exists s', (forall A (k : M lstate A),
      (list <- gets lst;; (if cur =? list then set_lst y else ret tt);; swap cur y;; k) s = k s') /\
    linked s' (pre ++ y :: cur :: rest) /\ same_lines s s'.
Proof.
  intros Hr. pose proof (move_head _ _ _ _ _ Hr) as Hm. destruct Hr as (Hc & Hl).
  destruct (swap_chain (mk_l (nodes s) (hdZ y pre)) pre cur y rest Hc)
    as (s' & Hs & Hl' & Hsame & Hc').
  exists s'. split_and!.
  - intros A k. unfold bind, gets in *.
    destruct (if cur =? lst s then set_lst y s else ret tt s) as [[[] s1]|] eqn:E.
    + destruct (cur =? lst s); rewrite E in Hm |- *; injection Hm as ->; by rewrite Hs.
    + destruct (cur =? lst s); rewrite E in Hm; discriminate.
  - split; [done|]. rewrite Hl'; simpl; by destruct pre.
  - exact Hsame.
Qed.

Lemma swap_step s pre cur y rest :
  rep s (pre ++ cur :: y :: rest) ->
  exists s', (forall A (k : M lstate A),
      (list <- gets lst;; (if cur =? list then set_lst y else ret tt);; swap cur y;; k) s = k s') /\
    rep s' (pre ++ y :: cur :: rest) /\ same_lines s s'.
Proof.
  intros (Hc & Hl & Hln).
  destruct (swap_step_linked s pre cur y rest (conj Hc Hl)) as (s' & Hs & [Hc' Hl'] & Hsame).
  exists s'. split_and!; [done| |done]. split; [done|]. split; [done|].
  eapply same_lined in Hln; [|exact Hsame]. unfold lined. by rewrite (Permutation_swap cur y rest).
Qed.

Lemma rep_node s pre cur rest :
  rep s (pre ++ cur :: rest) ->
  node_at cur s = Ok (mk_node (Some (key s cur)) (hdZ 0 rest) (lastZ 0 pre), s) /\
  is_cstr (key s cur).
Proof.
  intros (Hc & _ & Hl). destruct (node_at_run _ _ _ _ (chain_lk _ _ _ _ Hc)) as (c & Hn & Hline).
  destruct (lined_key _ _ cur Hl ltac:(set_solver)) as [Hk Hs]. rewrite Hline in Hk.
  injection Hk as ->. done.
Qed.

(** What a round leaves behind: [last], where it stopped, holds the largest
    line of the range; without a swap the range was in order already. *)
Record passed (s s' : lstate) (pre : list Z) (cur : Z) (mid suf : list Z) (sw : bool)
    (r : Z * bool) (pre' : list Z) : Prop := {
  passed_rep : rep s' (pre' ++ fst r :: suf);
  passed_same : same_lines s s';
  passed_perm : pre' ++ [fst r] ≡ₚ pre ++ cur :: mid;
  passed_max : Forall (fun x => leq s x (fst r)) pre';
  passed_sorted : snd r = false -> pre' ++ [fst r] = pre ++ cur :: mid /\ Sorted (leq s) (cur :: mid);
  passed_one : mid = [] -> snd r = sw;
  passed_sw : sw = true -> snd r = true
}.

Lemma pass_spec mid : forall fuel s pre cur suf sw,
  rep s (pre ++ cur :: mid ++ suf) -> (length mid <= fuel)%nat ->
  Forall (fun x => leq s x cur) pre ->
  exists s' r pre', pass fuel cur (hdZ 0 suf) sw s = Ok (r, s') /\
    passed s s' pre cur mid suf sw r pre'.
Proof.
  induction mid as [|y mid IH]; intros fuel s pre cur suf sw Hr Hf Hpre.
  - destruct (rep_node _ _ _ _ Hr) as [Hn _]. exists s, (cur, sw), pre. split.
    + destruct fuel; simpl; run Hn; cbn [next app]; by rewrite Z.eqb_refl.
    + split; try done. intros _. by repeat constructor.
  - destruct fuel as [|fuel]; [simpl in Hf; lia|]. simpl in Hf.
    destruct (rep_node _ _ _ _ Hr) as [Hn Hcs].
    pose proof Hr as Hr1. replace (pre ++ cur :: (y :: mid) ++ suf)
      with ((pre ++ [cur]) ++ y :: mid ++ suf) in Hr1 by by rewrite <- app_assoc.
    destruct (rep_node _ _ _ _ Hr1) as [Hy Hys]. pose proof Hr1 as ([Hd Hnd] & _ & Hln).
    assert (y <> hdZ 0 suf) as Hend.
    { apply NoDup_app in Hnd as (_ & _ & Hnd). apply NoDup_cons in Hnd as [Hnd _].
      apply dll_nonnull, Forall_app in Hd as [_ Hd]. apply Forall_cons in Hd as [Hd _].
      intros E. symmetry in E. revert E. apply hdZ_notin; [done|set_solver]. }
    cbn [pass]. run Hn. cbn [next hdZ app]. rewrite (proj2 (Z.eqb_neq _ _) Hend).
    run Hy. cbn [line line_cmp]. autorewrite with c_monad.
    destruct (Z.ltb_spec 0 (strcmp (key s cur) (key s y))) as [Hgt|Hle].
    + destruct (swap_step s pre cur y (mid ++ suf) Hr) as (s1 & Hrun & Hr2 & Hsame). rewrite Hrun.
      destruct (rep_node _ _ _ _ Hr2) as [Hy1 _]. run Hy1. cbn [next hdZ].
      assert (leq s y cur) as Hyc by (by apply strcmp_total).
      replace (pre ++ y :: cur :: mid ++ suf) with ((pre ++ [y]) ++ cur :: mid ++ suf) in Hr2
        by by rewrite <- app_assoc.
      destruct (IH fuel s1 (pre ++ [y]) cur suf true Hr2 ltac:(lia)) as (s' & r & pre' & Hp & [P1 P2 P3 P4 P5 P6 P7]).
      { apply Forall_app. split; [|by apply Forall_singleton, (same_leq s s1)].
        eapply Forall_impl; [exact Hpre|]. intros x. by apply (same_leq s s1). }
      exists s', r, pre'. split; [exact Hp|]. split; try done.
      * by etrans.
      * rewrite P3, <- app_assoc. simpl. by rewrite (Permutation_swap cur y mid).
      * eapply Forall_impl; [exact P4|]. intros x. by apply (same_leq s s1).
      * intros E. by rewrite P7 in E.
      * intros _. by apply P7.
    + destruct (IH fuel s (pre ++ [cur]) y suf sw Hr1 ltac:(lia)) as (s' & r & pre' & Hp & [P1 P2 P3 P4 P5 P6 P7]).
      { apply Forall_app. split; [|by apply Forall_singleton].
        apply Forall_forall. intros x Hx. apply (leq_trans s _ x cur y Hln); try set_solver.
        by apply (proj1 (Forall_forall _ _) Hpre). }
      exists s', r, pre'. split; [exact Hp|]. split; try done.
      * by rewrite P3, <- app_assoc.
      * intros E. destruct (P5 E) as [-> Hs]. rewrite <- app_assoc. split; [done|].
        constructor; [done|]. by constructor.
Qed.

Lemma strongly_sorted_app {A} (R : A -> A -> Prop) l1 l2 :
  StronglySorted R l1 -> StronglySorted R l2 -> (forall x y, x ∈ l1 -> y ∈ l2 -> R x y) ->
  StronglySorted R (l1 ++ l2).
Proof.
  intros H1 H2 H. induction H1 as [|a l1 Hs IH Ha]; [done|]. simpl. constructor.
  - apply IH. set_solver.
  - apply Forall_app. split; [done|]. apply Forall_forall. intros y. apply H. set_solver.
Qed.

Lemma same_lines_sym s s' : same_lines s s' -> same_lines s' s.
Proof. intros [H1 H2]. split; [done|]. intros a. by rewrite H2. Qed.

Lemma sorted_same s s' l : same_lines s s' -> StronglySorted (leq s) l -> StronglySorted (leq s') l.
Proof.
  intros H Hs. induction Hs as [|a l Hs IH Ha]; constructor; [done|].
  eapply Forall_impl; [exact Ha|]. intros b. by apply (same_leq s s').
Qed.

(** Order between neighbours is order: [strcmp] is transitive on lines. *)
Lemma sorted_strong s l suf :
  lined s (l ++ suf) -> Sorted (leq s) l -> StronglySorted (leq s) l.
Proof.
  intros [Hl _]%Forall_app. induction l as [|a l IH]; intros Hs; constructor.
  - apply IH; [by inversion Hl|by inversion Hs].
  - apply Sorted_inv in Hs as [Hs Ha]. pose proof Hl as Hl0. apply Forall_cons in Hl as [_ Hl].
    specialize (IH Hl Hs). destruct Ha as [|b l Hab]; [done|]. constructor; [done|].
    apply StronglySorted_inv in IH as [_ IH]. apply Forall_forall. intros c Hc.
    apply (leq_trans s _ a b c Hl0); [set_solver..|].
    by apply (proj1 (Forall_forall _ _) IH).
Qed.

Lemma sort_rounds_spec fuel : forall s l suf,
  rep s (l ++ suf) -> l <> [] -> (length l <= fuel)%nat ->
  StronglySorted (leq s) suf -> (forall x y, x ∈ l -> y ∈ suf -> leq s x y) ->
  exists s' l', sort_rounds fuel (hdZ 0 suf) s = Ok (tt, s') /\ rep s' l' /\
    same_lines s s' /\ l' ≡ₚ l ++ suf /\ StronglySorted (leq s) l'.
Proof.
  induction fuel as [|fuel IH]; intros s l suf Hr Hne Hf Hsuf Hle; [destruct l; [done|simpl in Hf; lia]|].
  destruct l as [|cur mid]; [done|]. simpl in Hf. pose proof Hr as (Hc & Hl & Hln).
  pose proof (rep_length _ _ Hc) as Hk. simpl in Hk. rewrite length_app in Hk.
  destruct (pass_spec mid (size (nodes s)) s [] cur suf false Hr ltac:(lia) ltac:(constructor))
    as (s1 & r & pre' & Hp & [P1 P2 P3 P4 P5 P6 P7]).
  cbn [sort_rounds]. unfold bind at 1, gets at 1. unfold bind at 1, gets at 1.
  rewrite Hl. cbn [hdZ app]. run Hp. destruct r as [last sw]. simpl in *. destruct sw.
  - destruct (IH s1 pre' (last :: suf)) as (s' & l' & Hrun & Hr' & Hsame & Hperm & Hsort).
    + done.
    + intros ->. assert (length (cur :: mid) = 1%nat) as Hlen by (by rewrite <- P3).
      destruct mid; [by specialize (P6 eq_refl)|done].
    + apply Permutation_length in P3. rewrite length_app in P3. simpl in P3. lia.
    + constructor.
      * eapply sorted_same; [exact P2|done].
      * apply Forall_forall. intros y Hy. apply (same_leq s s1 _ _ P2), Hle; [|done].
        rewrite <- P3. set_solver.
    + intros x y Hx [->|Hy]%elem_of_cons; apply (same_leq s s1 _ _ P2).
      * by apply (proj1 (Forall_forall _ _) P4).
      * apply Hle; [|done]. rewrite <- P3. set_solver.
    + exists s', l'. split_and!; try done.
      * by etrans.
      * rewrite Hperm. change (last :: suf) with ([last] ++ suf). by rewrite app_assoc, P3.
      * eapply sorted_same; [|exact Hsort]. by apply same_lines_sym.
  - destruct (P5 eq_refl) as [E Hs]. exists s1, (cur :: mid ++ suf). split_and!; try done.
    + replace (cur :: mid ++ suf) with (pre' ++ last :: suf); [done|].
      change (cur :: mid ++ suf) with ((cur :: mid) ++ suf). by rewrite <- E, <- app_assoc.
    + change (cur :: mid ++ suf) with ((cur :: mid) ++ suf).
      apply strongly_sorted_app; [|done|done]. by apply (sorted_strong s (cur :: mid) suf Hln).
Qed.

(** ** Growing and releasing the list *)

Lemma last_node_run fuel : forall s pre cur mid,
  chain s (pre ++ cur :: mid) -> (length mid <= fuel)%nat ->
  last_node fuel cur s = Ok (lastZ cur mid, s).
Proof.
  induction fuel as [|fuel IH]; intros s pre cur mid Hc Hf.
  all: destruct (node_at_run _ _ _ _ (chain_lk _ _ _ _ Hc)) as (c & Hn & _).
  all: cbn [last_node]; run Hn; destruct mid as [|y mid]; [done|simpl in Hf].
  - lia.
  - cbn [next hdZ lastZ]. replace (pre ++ cur :: y :: mid) with ((pre ++ [cur]) ++ y :: mid) in Hc
      by by rewrite <- app_assoc.
    rewrite (proj2 (Z.eqb_neq _ _) (proj1 (chain_lk _ _ _ _ Hc))).
    apply (IH s (pre ++ [cur])); [done|lia].
Qed.

Lemma new_node_run addr s val :
  addr <> 0 ->
  new_node addr true (Some val) s = Ok (0, with_nodes <[addr := mk_node (Some val) 0 0]> s).
Proof. intros Ha. unfold new_node. by rewrite (proj2 (Z.eqb_neq _ _) Ha). Qed.

(** Linking a fresh node behind the last one. *)
Lemma link_tail s l t addr val :
  chain s (l ++ [t]) -> addr <> 0 -> nodes s !! addr = None ->
  let s1 := with_nodes <[addr := mk_node (Some val) 0 0]> s in
  exists s2, (set_next t addr;; set_prev addr t) s1 = Ok (tt, s2) /\
    chain s2 (l ++ [t; addr]) /\ lst s2 = lst s /\ line_at s2 addr = Some (Some val) /\
    (forall a, a <> addr -> line_at s2 a = line_at s a).
Proof.
  intros Hc Ha Hfresh s1. pose proof Hc as [Hd Hnd]. pose proof (chain_lk _ _ _ _ Hc) as Ht.
  simpl in Ht. assert (~ (addr ∈ l ++ [t])) as Hnew.
  { intros (l1 & l2 & E)%list_elem_of_split. rewrite E in Hd. apply dll_lookup in Hd.
    unfold links in Hd. by rewrite Hfresh in Hd. }
  assert (t <> addr) as Hta by set_solver.
  assert (lk s1 t 0 (lastZ 0 l)) as Ht1.
  { destruct Ht as [Ht0 Ht]. split; [done|]. unfold links in *. simpl. by rewrite lookup_insert_ne. }
  assert (lk s1 addr 0 0) as Ha1.
  { split; [done|]. unfold links. simpl. by rewrite lookup_insert_eq. }
  assert (lk (upd_next t addr s1) addr 0 0) as Ha2 by eauto with links_db.
  exists (upd_prev addr t (upd_next t addr s1)).
  pose proof (same_lines_next s1 t addr) as S1. pose proof (same_lines_prev (upd_next t addr s1) addr t) as S2.
  split_and!.
  - run (set_next_run _ _ _ _ _ Ht1). by rewrite (set_prev_run _ _ _ _ _ Ha2).
  - split.
    + replace (l ++ [t; addr]) with ((l ++ [t]) ++ [addr]) by by rewrite <- app_assoc.
      apply dll_app. split.
      * eapply dll_set_last; [exact Hd| |].
        -- intros x Hx. apply NoDup_app in Hnd as (_ & Hnd & _).
           rewrite links_prev_ne, links_next_ne by set_solver. unfold links. simpl.
           rewrite lookup_insert_ne by set_solver. done.
        -- apply (lk_prev_ne _ _ _ _ _ _ Hta (lk_next_eq _ _ _ _ _ Ht1)).
      * rewrite lastZ_snoc. split; [done|]. split; [|done]. apply (lk_prev_eq _ _ _ _ _ Ha2).
    + replace (l ++ [t; addr]) with ((l ++ [t]) ++ [addr]) by by rewrite <- app_assoc.
      apply NoDup_app. split_and!; [done| |apply NoDup_singleton]. set_solver.
  - done.
  - rewrite (proj2 S2), (proj2 S1). unfold line_at, s1. simpl. by rewrite lookup_insert_eq.
  - intros a Hne. rewrite (proj2 S2), (proj2 S1). unfold line_at, s1. simpl.
    by rewrite lookup_insert_ne.
Qed.

Lemma free_loop_run fuel : forall s l,
  chain s l -> (length l <= fuel)%nat ->
  exists s', free_loop fuel (hdZ 0 l) s = Ok (tt, s') /\
    (forall a, a ∈ l -> nodes s' !! a = None) /\ (forall a, ~ (a ∈ l) -> nodes s' !! a = nodes s !! a).
Proof.
  (* the nodes are released from the head on; their links are read first *)
  intros s l [Hd Hnd]. revert s Hd fuel. enough (Hgen : forall p fuel s,
    dll (links (nodes s)) p l 0 -> (length l <= fuel)%nat ->
    exists s', free_loop fuel (hdZ 0 l) s = Ok (tt, s') /\
      (forall a, a ∈ l -> nodes s' !! a = None) /\ (forall a, ~ (a ∈ l) -> nodes s' !! a = nodes s !! a)).
  { intros s Hd fuel Hf. exact (Hgen 0 fuel s Hd Hf). }
  induction l as [|a l IH]; intros p fuel s Hd Hf.
  - exists s. split_and!; [by destruct fuel|set_solver|done].
  - destruct fuel as [|fuel]; [simpl in Hf; lia|]. apply NoDup_cons in Hnd as [Hnin Hnd].
    destruct Hd as (Ha & Hl & Hd). destruct (node_at_run s a _ _ (conj Ha Hl)) as (c & Hn & _).
    destruct (IH Hnd a fuel (with_nodes (delete a) s)) as (s' & Hrun & H1 & H2).
    { eapply dll_ext; [|exact Hd]. intros x Hx. unfold links. simpl.
      rewrite lookup_delete_ne by set_solver. done. }
    { simpl in Hf. lia. }
    exists s'. split_and!.
    + cbn [free_loop hdZ]. rewrite (proj2 (Z.eqb_neq _ _) Ha). run Hn.
      unfold free. rewrite (proj2 (Z.eqb_neq _ _) Ha), bind_assoc. run Hn. exact Hrun.
    + intros x [->|Hx]%elem_of_cons; [|by apply H1]. rewrite H2 by done. apply lookup_delete_eq.
    + intros x Hx. rewrite H2 by set_solver. simpl. apply lookup_delete_ne. set_solver.
Qed.

Lemma print_loop_run fuel : forall s pre l,
  rep s (pre ++ l) -> (length l <= fuel)%nat ->
  print_loop fuel (hdZ 0 l) s = Ok (map (fun a => Some (key s a)) l, s).
Proof.
  induction fuel as [|fuel IH]; intros s pre l Hr Hf; (destruct l as [|a l]; [done|simpl in Hf; try lia]).
  destruct (rep_node _ _ _ _ Hr) as [Hn _].
  pose proof Hr as (Hc & _). cbn [print_loop hdZ].
  rewrite (proj2 (Z.eqb_neq _ _) (proj1 (chain_lk _ _ _ _ Hc))). run Hn. cbn [next].
  replace (pre ++ a :: l) with ((pre ++ [a]) ++ l) in Hr by by rewrite <- app_assoc.
  run (IH s (pre ++ [a]) l Hr ltac:(lia)). done.
Qed.

(** ** Properties *)

Definition lines (s : lstate) (l : list Z) : list cstr := map (key s) l.

(** C14: one run of the sorting thread's critical section, on any list with at
    least one node, ends; the list is then properly linked both ways, starts
    at [list], and holds exactly the lines it held before, in the order of
    [strcmp]. *)
Theorem bubble_sort_sorts s l :
  rep s l -> l <> [] ->
  exists s' l', bubble_sort s = Ok (tt, s') /\ rep s' l' /\
    lines s' l' ≡ₚ lines s l /\
    StronglySorted (fun a b => strcmp a b <= 0) (lines s' l').
Proof.
  intros Hr Hne. pose proof (rep_length s l (proj1 Hr)) as Hk.
  destruct (sort_rounds_spec (S (size (nodes s))) s l [])
    as (s' & l' & Hrun & Hr' & Hsame & Hperm & Hsort);
    [by rewrite app_nil_r|done|lia|constructor|set_solver|].
  exists s', l'. split_and!; [exact Hrun|done| |]; unfold lines.
  - rewrite (map_ext _ _ (fun a => same_key s s' a Hsame)). rewrite app_nil_r in Hperm.
    by apply Permutation_map.
  - rewrite (map_ext _ _ (fun a => same_key s s' a Hsame)).
    clear Hperm Hr'. induction Hsort as [|a l' Hs IH Ha]; simpl; constructor; [done|].
    by apply Forall_map.
Qed.

(** [add_to_tail] appends: on an empty list and on any other, given the
    memory, the list then holds its old lines followed by the new one; without
    memory for the node it returns 1 and changes nothing. *)
Theorem add_to_tail_appends s l addr val :
  rep s l -> addr <> 0 -> nodes s !! addr = None -> is_cstr val ->
  (exists s', add_to_tail addr true (Some val) s = Ok (0, s') /\
     rep s' (l ++ [addr]) /\ lines s' (l ++ [addr]) = lines s l ++ [val] /\
     dom (nodes s') = {[addr]} ∪ dom (nodes s)) /\
  add_to_tail 0 true (Some val) s = Ok (1, s).
Proof.
  intros (Hc & Hl & Hln) Ha Hfresh Hval. split; [|done].
  unfold add_to_tail. run (new_node_run _ s val Ha). cbn [Z.eqb negb].
  unfold bind at 1, gets at 1. cbn [lst with_nodes]. rewrite Hl.
  destruct (decide (l = [])) as [->|Hne].
  - eexists. split; [reflexivity|]. cbn [app hdZ].
    split; [split; [|split; [done|]]|split; [|simpl; by rewrite dom_insert_L]].
    + split; [|apply NoDup_singleton]. split; [done|]. split; [|done].
      unfold links. simpl. by rewrite lookup_insert_eq.
    + constructor; [|constructor]. exists val. split; [|done].
      unfold line_at. simpl. by rewrite lookup_insert_eq.
    + unfold lines, key, line_at. simpl. by rewrite lookup_insert_eq.
  - destruct (exists_last Hne) as (l0 & t & ->).
    destruct (link_tail s l0 t addr val Hc Ha Hfresh) as (s2 & Hlink & Hc2 & Hl2 & Hv & Hsame).
    assert (chain (with_nodes <[addr := mk_node (Some val) 0 0]> s) (l0 ++ [t])) as Hc1.
    { split; [|by destruct Hc]. eapply dll_ext; [|apply Hc]. intros x (l1 & l2 & E)%list_elem_of_split.
      destruct Hc as [Hd _]. rewrite E in Hd. apply dll_lookup in Hd. unfold links in *. simpl.
      rewrite lookup_insert_ne; [done|]. intros ->. by rewrite Hfresh in Hd. }
    assert (exists h r, l0 ++ [t] = h :: r /\ lastZ h r = t) as (h & r & E & Hlast).
    { destruct l0 as [|h l0]; [by exists t, []|]. exists h, (l0 ++ [t]). by rewrite lastZ_snoc. }
    exists s2. split_and!.
    + rewrite E in Hc1 |- *. cbn [hdZ].
      rewrite (proj2 (Z.eqb_neq _ _) (proj1 (chain_lk _ [] h r Hc1))), bind_assoc.
      unfold bind at 1, gets at 1.
      pose proof (rep_length _ _ Hc1) as Hk. cbn [length] in Hk.
      rewrite bind_assoc. run (last_node_run _ _ [] h r Hc1 (Nat.lt_le_incl _ _ Hk)).
      rewrite Hlast. by run Hlink.
    + split; [by rewrite <- app_assoc|]. split; [rewrite Hl2, Hl, E; done|].
      apply Forall_app. split; [|apply Forall_singleton; by exists val].
      apply Forall_forall. intros x Hx. destruct (lined_key _ _ _ Hln Hx) as [Hk Hcs].
      exists (key s x). rewrite Hsame; [done|]. intros ->. unfold line_at in Hk.
      by rewrite Hfresh in Hk.
    + unfold lines. rewrite map_app. f_equal; [|simpl; unfold key; by rewrite Hv].
      apply map_ext_in. intros x Hx%list_elem_of_In. unfold key. rewrite Hsame; [done|].
      intros ->. destruct (lined_key _ _ _ Hln Hx) as [Hk _]. unfold line_at in Hk.
      by rewrite Hfresh in Hk.
    + apply set_eq. intros x. rewrite elem_of_union, elem_of_singleton, !elem_of_dom.
      rewrite <- !(fmap_is_Some line). fold (line_at s2 x) (line_at s x).
      destruct (decide (x = addr)) as [->|Hx]; [rewrite Hv; naive_solver|]. rewrite Hsame by done. naive_solver.
Qed.

(** [print_list] shows every line but the first, which it takes for a list
    head that the program never creates; [list_free] then releases every node
    of the list. *)
Theorem print_and_free s l :
  rep s l -> (1 < length l)%nat ->
  print_list (lst s) s = Ok ((0, map Some (tail (lines s l))), s) /\
  exists s', list_free (lst s) s = Ok (0, s') /\ forall a, a ∈ l -> nodes s' !! a = None.
Proof.
  intros Hr Hlen. pose proof Hr as (Hc & Hl & _). pose proof (rep_length _ _ Hc) as Hk.
  destruct l as [|h [|y l]]; [simpl in Hlen; lia..|]. rewrite Hl. cbn [hdZ].
  pose proof (proj1 (chain_lk s [] h (y :: l) Hc)) as Hh.
  pose proof (proj1 (chain_lk s [h] y l Hc)) as Hy.
  unfold print_list, list_free. rewrite (proj2 (Z.eqb_neq _ _) Hh). split.
  - destruct (rep_node s [] h (y :: l) Hr) as [Hn _]. run Hn. cbn [next hdZ].
    rewrite (proj2 (Z.eqb_neq _ _) Hy). unfold bind at 1, gets at 1.
    simpl in Hk. run (print_loop_run (size (nodes s)) s [h] (y :: l) Hr ltac:(simpl; lia)).
    unfold lines. simpl. by rewrite map_map.
  - unfold bind at 1, gets at 1.
    destruct (free_loop_run (size (nodes s)) s (h :: y :: l) Hc Hk) as (s' & Hrun & Hfree & _).
    exists s'. split; [|done]. by run Hrun.
Qed.

(** ** Witnesses *)

(** Two lines in the wrong order. *)
Definition two_lines : lstate :=
  mk_l {[ 16 := mk_node (Some [98]) 32 0; 32 := mk_node (Some [97]) 0 16 ]} 16.

Lemma two_lines_rep : rep two_lines [16; 32].
Proof.
  split; [split|split].
  - vm_compute. by repeat split.
  - apply NoDup_cons. split; [set_solver|apply NoDup_singleton].
  - done.
  - repeat constructor; eexists; (split; [vm_compute; reflexivity|]); repeat constructor; lia.
Qed.

Lemma bubble_sort_sorts_witness :
  exists s' l', bubble_sort two_lines = Ok (tt, s') /\ rep s' l' /\
    lines s' l' ≡ₚ [[98]; [97]] /\
    StronglySorted (fun a b => strcmp a b <= 0) (lines s' l').
Proof. apply (bubble_sort_sorts two_lines [16; 32]); [exact two_lines_rep|done]. Defined.

Lemma add_to_tail_appends_witness :
  exists s', add_to_tail 48 true (Some [99]) two_lines = Ok (0, s') /\
    rep s' [16; 32; 48] /\ lines s' [16; 32; 48] = [[98]; [97]; [99]] /\
    dom (nodes s') = {[48]} ∪ dom (nodes two_lines).
Proof.
  apply (add_to_tail_appends two_lines [16; 32] 48 [99]);
    [exact two_lines_rep|done|done|repeat constructor; lia].
Defined.

Lemma print_and_free_witness :
  print_list 16 two_lines = Ok ((0, [Some [97]]), two_lines) /\
  exists s', list_free 16 two_lines = Ok (0, s') /\ forall a, a ∈ [16; 32] -> nodes s' !! a = None.
Proof. apply (print_and_free two_lines [16; 32]); [exact two_lines_rep|simpl; lia]. Defined.
