(* ===== verification/SortMutex.v ===== *)
(** * SortMutex: the sorted list with one mutex

    Models src/src/pthreads-problems/problem-3/solution_only_mutex.c, a variant
    of the sorted list of lines (SortList) that prints from the first node and
    ends: [main], which reads lines, and the sorting thread, step by step, with
    the mutex they share.  The functions whose text is that of solution.c are
    taken from SortList. *)

From S2P Require Import Prelude CInt CString Dll SortList.
From Stdlib Require Import Sorting.Sorted.
Open Scope Z_scope.

(** ** The list *)

Definition add_to_head (addr : Z) (copy_ok : bool) (val : option cstr) : M lstate Z :=
  res <- new_node addr copy_ok val;;
  if negb (res =? 0) then ret 1
  else
    list <- gets lst;;
    (if list =? 0 then set_lst addr
     else
       set_next addr list;;
       set_prev list addr;;
       set_lst addr);;
    ret 0.

(** A null pointer for %s is undefined. *)
Fixpoint print_loop (fuel : nat) (cur : Z) : M lstate (list cstr) :=
  if cur =? 0 then ret []
  else match fuel with
       | O => fail NoFuel
       | S fuel =>
           n <- node_at cur;;
           l <- lift (of_option NullDeref (line n));;
           rest <- print_loop fuel (next n);;
           ret (l :: rest)
       end.

Definition print_list (head : Z) : M lstate (Z * list cstr) :=
  if head =? 0 then ret (1, [])
  else
    fuel <- gets (fun s => size (nodes s));;
    out <- print_loop fuel head;;
    ret (0, out).

(** The nodes must be neighbours. *)
Definition swap (l_node r_node : Z) : M lstate Z :=
  l <- node_at l_node;;
  if negb (next l =? r_node) then ret 1 else SortList.swap l_node r_node.

Fixpoint pass (fuel : nat) (current end_ : Z) (is_swapped : bool) : M lstate (Z * bool) :=
  n <- node_at current;;
  if next n =? end_ then ret (current, is_swapped)
  else
    match fuel with
    | O => fail NoFuel
    | S fuel =>
        nn <- node_at (next n);;
        c <- lift (line_cmp (line n) (line nn));;
        if 0 <? c then
          let next_node := next n in
          list <- gets lst;;
          (if current =? list then set_lst next_node else ret tt);;
          swap current next_node;;
          m <- node_at next_node;;
          pass fuel (next m) end_ true
        else pass fuel (next n) end_ is_swapped
    end.

Fixpoint sort_rounds (fuel : nat) (end_ : Z) : M lstate unit :=
  match fuel with
  | O => fail NoFuel
  | S fuel =>
      list <- gets lst;;
      k <- gets (fun s => size (nodes s));;
      r <- pass k list end_ false;;
      if snd r : bool then sort_rounds fuel (fst r) else ret tt
  end.

Definition bubble_sort : M lstate unit :=
  k <- gets (fun s => size (nodes s));; sort_rounds (S k) 0.

(** The list and the copies of the lines that [cpy_str] has allocated; a copy
    belongs to one node and goes by its address. *)
Definition store : Type := lstate * gset Z.

Definition on_list {A} (m : M lstate A) : M store A :=
  fun s => let? (a, h) := m (fst s) in Ok (a, (h, snd s)).

(** [free(temp->line)]. *)
Definition free_line (temp : Z) (l : option cstr) : M store unit :=
  match l with
  | None => ret tt
  | Some _ => fun s =>
      if decide (temp ∈ snd s) then Ok (tt, (fst s, snd s ∖ {[ temp ]})) else Fault Dangling
  end.

Fixpoint free_loop (fuel : nat) (list : Z) : M store unit :=
  if list =? 0 then ret tt
  else match fuel with
       | O => fail NoFuel
       | S fuel =>
           n <- on_list (node_at list);;
           free_line list (line n);;
           on_list (free list);;
           free_loop fuel (next n)
       end.

Definition list_free (list : Z) : M store Z :=
  if list =? 0 then ret 1
  else
    fuel <- gets (fun s => size (nodes (fst s)));;
    free_loop fuel list;;
    ret 0.

(** ** What the operations do *)

Lemma swap_adjacent s a b n :
  node_at a s = Ok (n, s) -> next n = b -> swap a b s = SortList.swap a b s.
Proof. intros Hn Hb. unfold swap. run Hn. by rewrite Hb, Z.eqb_refl. Qed.

Lemma node_at_nodes p s n s' :
  node_at p s = Ok (n, s') -> s' = s /\ forall s1, nodes s1 = nodes s -> node_at p s1 = Ok (n, s1).
Proof.
  unfold node_at. destruct (p =? 0); [done|]. destruct (nodes s !! p) eqn:E; [|done].
  intros H. simplify_eq. split; [done|]. intros s1 ->. by rewrite E.
Qed.

(** The test of the new [swap] is always passed. *)
Lemma pass_same fuel : forall current end_ sw s,
  pass fuel current end_ sw s = SortList.pass fuel current end_ sw s.
Proof.
  induction fuel as [|fuel IH]; intros current end_ sw s; [done|]. cbn [pass SortList.pass].
  destruct (node_at current s) as [[n s1]|] eqn:Hn; [|by rewrite !(bind_fault _ _ _ _ Hn)].
  destruct (node_at_nodes _ _ _ _ Hn) as [-> Hn1]. run Hn. symmetry. run Hn. symmetry.
  destruct (next n =? end_); [done|].
  destruct (node_at (next n) s) as [[nn s1]|] eqn:Hnn; [|by rewrite !(bind_fault _ _ _ _ Hnn)].
  destruct (node_at_nodes _ _ _ _ Hnn) as [-> _]. run Hnn. symmetry. run Hnn. symmetry.
  destruct (line_cmp (line n) (line nn)) as [c|]; [|done]. rewrite !bind_lift.
  destruct (0 <? c); [|apply IH].
  set (s2 := if current =? lst s then mk_l (nodes s) (next n) else s).
  assert (Hset : (if current =? lst s then set_lst (next n) else ret tt) s = Ok (tt, s2))
    by (unfold s2; by destruct (current =? lst s)).
  rewrite !(bind_ok (gets lst) _ s (lst s) s eq_refl). run Hset. symmetry. run Hset. symmetry.
  unfold bind at 1. rewrite (swap_adjacent s2 current (next n) n);
    [|apply Hn1; unfold s2; by destruct (current =? lst s)|done].
  symmetry. unfold bind at 1. destruct (SortList.swap current (next n) s2) as [[r s3]|]; [|done].
  symmetry. apply bind_ext. intros m s4. apply IH.
Qed.

Lemma sort_rounds_same fuel : forall end_ s, sort_rounds fuel end_ s = SortList.sort_rounds fuel end_ s.
Proof.
  induction fuel as [|fuel IH]; intros end_ s; [done|]. cbn [sort_rounds SortList.sort_rounds].
  apply bind_ext. intros h s1. apply bind_ext. intros k s2. unfold bind. rewrite pass_same.
  destruct (SortList.pass k h end_ false s2) as [[r s3]|]; [|done]. destruct (snd r); [apply IH|done].
Qed.

(** The nodes are those of [l], linked in this order from [list] on. *)
Definition holds (s : lstate) (l : list Z) : Prop := rep s l /\ dom (nodes s) = list_to_set l.

Lemma same_lines_dom s s' : same_lines s s' -> dom (nodes s') = dom (nodes s).
Proof.
  intros [_ H]. apply set_eq. intros a. rewrite !elem_of_dom. specialize (H a). unfold line_at in H.
  destruct (nodes s !! a), (nodes s' !! a); simpl in H; split; intros [? ?]; naive_solver.
Qed.

Lemma bubble_sort_holds s l :
  holds s l -> l <> [] ->
  exists s' l', bubble_sort s = Ok (tt, s') /\ holds s' l' /\ l' ≡ₚ l /\
    lines s' l' ≡ₚ lines s l /\ same_lines s s' /\
    StronglySorted (fun a b => strcmp a b <= 0) (lines s' l').
Proof.
  intros [Hr Hdom] Hne. pose proof (rep_length s l (proj1 Hr)) as Hk.
  destruct (sort_rounds_spec (S (size (nodes s))) s l [])
    as (s' & l' & Hrun & Hr' & Hsame & Hperm & Hsort);
    [by rewrite app_nil_r|done|lia|constructor|set_solver|]. rewrite app_nil_r in Hperm.
  exists s', l'. split_and!.
  - unfold bubble_sort. rewrite (bind_ok (gets _) _ s _ s eq_refl). by rewrite sort_rounds_same.
  - split; [done|]. rewrite (same_lines_dom _ _ Hsame), Hdom. by rewrite Hperm.
  - done.
  - unfold lines. rewrite (map_ext _ _ (fun a => same_key s s' a Hsame)). by apply Permutation_map.
  - done.
  - unfold lines. rewrite (map_ext _ _ (fun a => same_key s s' a Hsame)).
    clear Hperm Hr'. induction Hsort as [|a l' Hs IH Ha]; simpl; constructor; [done|]. by apply Forall_map.
Qed.

Lemma holds_fresh s l a : holds s l -> nodes s !! a = None <-> ~ (a ∈ l).
Proof. intros [_ Hd]. by rewrite <- not_elem_of_dom, Hd, elem_of_list_to_set. Qed.

(** A fresh node changes neither the links nor the lines of the others. *)
Lemma key_insert s a n x : x <> a -> key (with_nodes <[a := n]> s) x = key s x.
Proof. intros Hx. unfold key, line_at. simpl. by rewrite lookup_insert_ne. Qed.

(** *** Nodes whose line is NULL *)

(** The line of a node, [None] when its copy was refused. *)
Definition text (s : lstate) (a : Z) : option cstr :=
  match line_at s a with Some c => c | None => None end.
Definition texts (s : lstate) (l : list Z) : list (option cstr) := map (text s) l.

(** [holds] with nodes that may have no line. *)
Record kept (s : lstate) (l : list Z) : Prop := {
  kept_linked : linked s l;
  kept_texts : Forall (from_option is_cstr True) (texts s l);
  kept_dom : dom (nodes s) = list_to_set l
}.

Lemma same_text s s' a : same_lines s s' -> text s' a = text s a.
Proof. intros [_ H]. unfold text. by rewrite H. Qed.

Lemma holds_kept s l : holds s l -> kept s l /\ texts s l = map Some (lines s l).
Proof.
  intros [(Hc & Hl & Hln) Hd].
  assert (Ht : texts s l = map Some (lines s l)).
  { unfold texts, lines. rewrite map_map. apply map_ext_in. intros a Ha%list_elem_of_In.
    destruct (lined_key _ _ _ Hln Ha) as [Hk _]. unfold text. by rewrite Hk. }
  split; [|done]. split; [done| |done]. rewrite Ht, Forall_map. unfold lines. rewrite Forall_map.
  apply Forall_forall. intros a Ha. simpl. by apply (lined_key s l).
Qed.

Lemma kept_holds s l : kept s l -> ~ (None ∈ texts s l) -> holds s l.
Proof.
  intros [[Hc Hl] Ht Hd] Hn. split; [|done]. split; [done|]. split; [done|].
  apply Forall_forall. intros a Ha. unfold texts in *.
  assert (Hin : text s a ∈ map (text s) l) by (by apply list_elem_of_fmap_2).
  apply (proj1 (Forall_forall _ _) Ht) in Hin as Hcs. unfold text in *.
  destruct (line_at s a) as [[c|]|]; [by exists c|done..].
Qed.

Lemma kept_node s pre a l :
  linked s (pre ++ a :: l) ->
  a <> 0 /\ node_at a s = Ok (mk_node (text s a) (hdZ 0 l) (lastZ 0 pre), s).
Proof.
  intros [Hc _]. pose proof (chain_lk _ _ _ _ Hc) as Hlk. split; [apply Hlk|].
  destruct (node_at_run _ _ _ _ Hlk) as (c & Hn & Hl). unfold text. by rewrite Hl.
Qed.

Lemma kept_add_head s l addr val s' :
  kept s l -> addr <> 0 -> ~ (addr ∈ l) -> from_option is_cstr True val ->
  same_lines (with_nodes <[addr := mk_node val 0 0]> s) s' ->
  chain s' (addr :: l) -> lst s' = addr ->
  kept s' (addr :: l) /\ texts s' (addr :: l) = val :: texts s l /\
  forall x, text s' x = if decide (x = addr) then val else text s x.
Proof.
  intros [_ Ht Hdom] Ha Hnew Hval Hsame Hc' Hl'.
  assert (Htx : forall x, text s' x = if decide (x = addr) then val else text s x).
  { intros x. rewrite (same_text _ _ x Hsame). unfold text, line_at. simpl. case_decide as Hx.
    - rewrite Hx. by rewrite lookup_insert_eq.
    - by rewrite lookup_insert_ne. }
  assert (Hts : texts s' (addr :: l) = val :: texts s l).
  { unfold texts. simpl. rewrite Htx, decide_True by done. f_equal.
    apply map_ext_in. intros x Hx%list_elem_of_In. rewrite Htx, decide_False; [done|]. by intros ->. }
  split; [|done]. split; [done|rewrite Hts; by constructor|].
  rewrite (same_lines_dom _ _ Hsame). simpl. rewrite dom_insert_L, Hdom. done.
Qed.

Lemma add_to_head_kept s l addr copy_ok val :
  kept s l -> addr <> 0 -> ~ (addr ∈ l) -> is_cstr val ->
  exists s', add_to_head addr copy_ok (Some val) s = Ok (0, s') /\
    kept s' (addr :: l) /\ texts s' (addr :: l) = (if copy_ok then Some val else None) :: texts s l /\
    forall x, text s' x = if decide (x = addr) then if copy_ok then Some val else None else text s x.
Proof.
  intros Hh Ha Hnew Hval. pose proof Hh as [[Hc Hl] Hln Hdom].
  set (o := if copy_ok then Some val else None).
  assert (Ho : snd (cpy_str copy_ok (Some val)) = o) by (by destruct copy_ok).
  assert (Hos : from_option is_cstr True o) by (by destruct copy_ok).
  set (s1 := with_nodes <[addr := mk_node o 0 0]> s).
  assert (Hnew1 : new_node addr copy_ok (Some val) s = Ok (0, s1)).
  { unfold new_node. by rewrite (proj2 (Z.eqb_neq _ _) Ha), Ho. }
  unfold add_to_head. run Hnew1. cbn [Z.eqb negb].
  rewrite (bind_ok (gets lst) _ s1 (lst s) s1 eq_refl). rewrite Hl.
  assert (Ha1 : lk s1 addr 0 0) by (split; [done|]; unfold links; simpl; by rewrite lookup_insert_eq).
  destruct l as [|h l].
  - eexists. split; [reflexivity|]. apply (kept_add_head s [] addr o); try done.
    split; [|apply NoDup_singleton]. split; [done|]. split; [|done]. apply Ha1.
  - cbn [hdZ]. pose proof (chain_lk s [] h l Hc) as Hh0. simpl in Hh0.
    rewrite (proj2 (Z.eqb_neq _ _) (proj1 Hh0)).
    assert (Hne : h <> addr) by set_solver.
    assert (Hh1 : lk s1 h (hdZ 0 l) 0).
    { destruct Hh0 as [H0 H1]. split; [done|]. unfold links in *. simpl. by rewrite lookup_insert_ne. }
    assert (Hh2 : lk (upd_next addr h s1) h (hdZ 0 l) 0) by eauto with links_db.
    rewrite bind_assoc. run (set_next_run _ _ _ _ h Ha1).
    rewrite bind_assoc. run (set_prev_run _ _ _ _ addr Hh2).
    eexists. split; [reflexivity|].
    apply (kept_add_head s (h :: l) addr o); try done.
    + etrans; [apply (same_lines_next s1 addr h)|]. apply same_lines_prev.
    + destruct Hc as [Hd Hnd]. split; [|by apply NoDup_cons].
      change (dll (links (nodes (upd_prev h addr (upd_next addr h s1)))) 0 (addr :: h :: l) 0).
      split; [done|]. split.
      * rewrite links_prev_ne by done. apply (lk_next_eq _ _ _ _ h Ha1).
      * eapply dll_set_first; [exact Hd| |apply (lk_prev_eq _ _ _ _ addr Hh2)].
        intros b Hb. apply NoDup_cons in Hnd as [Hnd _].
        rewrite links_prev_ne, links_next_ne by set_solver.
        unfold links. simpl. rewrite lookup_insert_ne by set_solver. done.
Qed.

Lemma add_to_head_holds s l addr val :
  holds s l -> addr <> 0 -> ~ (addr ∈ l) -> is_cstr val ->
  exists s', add_to_head addr true (Some val) s = Ok (0, s') /\
    holds s' (addr :: l) /\ lines s' (addr :: l) = val :: lines s l.
Proof.
  intros Hh Ha Hnew Hval. destruct (holds_kept _ _ Hh) as [Hk Ht].
  destruct (add_to_head_kept s l addr true val Hk Ha Hnew Hval) as (s' & Hrun & Hk' & Ht' & _).
  exists s'. split; [done|]. rewrite Ht in Ht'.
  assert (Hh' : holds s' (addr :: l)).
  { apply kept_holds; [done|]. rewrite Ht'. intros [?|Hin]%elem_of_cons; [done|].
    by apply list_elem_of_fmap in Hin as (? & ? & _). }
  split; [done|]. destruct (holds_kept _ _ Hh') as [_ E]. rewrite Ht' in E.
  apply (inj (map Some)). by rewrite <- E.
Qed.

Lemma print_loop_kept fuel : forall s pre l,
  linked s (pre ++ l) -> (length l <= fuel)%nat ->
  print_loop fuel (hdZ 0 l) s =
    match mapM id (texts s l) with Some out => Ok (out, s) | None => Fault NullDeref end.
Proof.
  induction fuel as [|fuel IH]; intros s pre l Hl Hf; (destruct l as [|a l]; [done|simpl in Hf; try lia]).
  destruct (kept_node _ _ _ _ Hl) as [Ha Hn]. cbn [print_loop hdZ].
  rewrite (proj2 (Z.eqb_neq _ _) Ha). run Hn. cbn [next line].
  replace (pre ++ a :: l) with ((pre ++ [a]) ++ l) in Hl by by rewrite <- app_assoc.
  unfold texts. cbn [map mapM id]. destruct (text s a) as [c|]; [|done]. simpl. autorewrite with c_monad.
  unfold bind. rewrite (IH s (pre ++ [a]) l Hl ltac:(lia)). unfold texts. by destruct (mapM id (map (text s) l)).
Qed.

Lemma mapM_id_spec {A} (l : list (option A)) :
  match mapM id l with Some out => l = map Some out | None => None ∈ l end.
Proof.
  induction l as [|[x|] l IH]; simpl; [done| |by left].
  destruct (mapM id l); simpl; [by rewrite IH|by right].
Qed.

Lemma print_list_kept s l :
  kept s l ->
  (None ∈ texts s l /\ print_list (lst s) s = Fault NullDeref) \/
  exists r, holds s l /\ print_list (lst s) s = Ok ((r, lines s l), s).
Proof.
  intros Hk. pose proof (mapM_id_spec (texts s l)) as Hm.
  pose proof (print_loop_kept (size (nodes s)) s [] l (kept_linked _ _ Hk)
    (rep_length _ _ (proj1 (kept_linked _ _ Hk)))) as Hp.
  assert (Hrun : print_list (lst s) s =
    if lst s =? 0 then Ok ((1, []), s)
    else let? (out, s) := print_loop (size (nodes s)) (lst s) s in Ok ((0, out), s)).
  { unfold print_list. by destruct (lst s =? 0). }
  pose proof Hk as [[Hc Hl] _ _]. rewrite Hl in Hrun |- *.
  destruct (mapM id (texts s l)) as [out|] eqn:E.
  - right. assert (Hh : holds s l).
    { apply kept_holds; [done|]. rewrite Hm. intros (? & ? & _)%list_elem_of_fmap. done. }
    assert (out = lines s l) as -> by (apply (inj (map Some)); rewrite <- Hm; by apply holds_kept).
    rewrite Hrun, Hp. destruct l as [|h l]; [by exists 1|]. cbn [hdZ].
    rewrite (proj2 (Z.eqb_neq _ _) (proj1 (chain_lk s [] h l Hc))). by exists 0.
  - left. split; [done|]. destruct l as [|h l]; [by apply not_elem_of_nil in Hm|]. rewrite Hrun, Hp.
    cbn [hdZ]. by rewrite (proj2 (Z.eqb_neq _ _) (proj1 (chain_lk s [] h l Hc))).
Qed.

(** The first round compares every node of the list. *)
Lemma pass_null fuel : forall s pre cur l sw,
  linked s (pre ++ cur :: l) -> l <> [] -> None ∈ texts s (cur :: l) -> (length l <= fuel)%nat ->
  SortList.pass fuel cur 0 sw s = Fault NullDeref.
Proof.
  induction fuel as [|fuel IH]; intros s pre cur l sw Hl Hne Hnull Hf;
    (destruct l as [|y l]; [done|]); simpl in Hf; [lia|].
  destruct (kept_node _ _ _ _ Hl) as [_ Hn]. cbn [SortList.pass]. run Hn. cbn [next hdZ line].
  pose proof Hl as Hl1. replace (pre ++ cur :: y :: l) with ((pre ++ [cur]) ++ y :: l) in Hl1
    by by rewrite <- app_assoc.
  destruct (kept_node _ _ _ _ Hl1) as [Hy0 Hy]. rewrite (proj2 (Z.eqb_neq _ _) Hy0). run Hy. cbn [line].
  destruct (text s cur) as [a|] eqn:Ea; [|done]. destruct (text s y) as [b|] eqn:Eb; [|done].
  assert (Hrest : None ∈ texts s l).
  { unfold texts in *. simpl in Hnull. rewrite Ea, Eb in Hnull. set_solver. }
  assert (Hl0 : l <> []) by (intros ->; by apply not_elem_of_nil in Hrest).
  cbn [line_cmp]. autorewrite with c_monad. destruct (0 <? strcmp a b).
  - destruct (swap_step_linked s pre cur y l Hl) as (s1 & Hrun & Hl2 & Hsame). rewrite Hrun.
    destruct (kept_node _ _ _ _ Hl2) as [_ Hy1]. run Hy1. cbn [next hdZ].
    replace (pre ++ y :: cur :: l) with ((pre ++ [y]) ++ cur :: l) in Hl2 by by rewrite <- app_assoc.
    apply (IH s1 (pre ++ [y]) cur l true Hl2 Hl0); [|lia]. unfold texts in *. simpl. right.
    by rewrite (map_ext _ _ (fun x => same_text s s1 x Hsame)).
  - apply (IH s (pre ++ [cur]) y l sw Hl1 Hl0); [|lia]. unfold texts in *. simpl. by right.
Qed.

Lemma bubble_sort_null s l :
  kept s l -> (2 <= length l)%nat -> None ∈ texts s l -> bubble_sort s = Fault NullDeref.
Proof.
  intros [[Hc Hl] _ _] Hlen Hnull. unfold bubble_sort. rewrite (bind_ok (gets _) _ s _ s eq_refl).
  rewrite sort_rounds_same. cbn [SortList.sort_rounds].
  rewrite (bind_ok (gets _) _ s _ s eq_refl), (bind_ok (gets _) _ s _ s eq_refl). rewrite Hl.
  destruct l as [|h l]; [simpl in Hlen; lia|]. cbn [hdZ]. apply bind_fault.
  apply (pass_null _ s [] h l); [by split|by destruct l; simpl in Hlen; [lia|]|done|].
  pose proof (rep_length _ _ Hc) as Hk. simpl in Hk. lia.
Qed.

(** Exactly the copies of the nodes that have a line are allocated. *)
Definition copies_of (s : lstate) (strs : gset Z) : Prop :=
  forall a, a ∈ strs <-> is_Some (text s a).

Lemma text_fresh s a : nodes s !! a = None -> text s a = None.
Proof. intros H. unfold text, line_at. by rewrite H. Qed.

Lemma free_loop_kept fuel : forall s strs p l,
  dll (links (nodes s)) p l 0 -> NoDup l -> dom (nodes s) = list_to_set l -> copies_of s strs ->
  (length l <= fuel)%nat ->
  exists s', free_loop fuel (hdZ 0 l) (s, strs) = Ok (tt, (s', ∅)) /\ nodes s' = ∅.
Proof.
  induction fuel as [|fuel IH]; intros s strs p l Hd Hnd Hdom Hco Hf;
    (destruct l as [|a l]; [|simpl in Hf; try lia]).
  1,2: apply dom_empty_inv_L in Hdom; exists s; split; [|done];
    (replace strs with (∅ : gset Z); [done|]; apply set_eq; intros a; rewrite (Hco a), text_fresh;
     [split; [set_solver|by intros [? ?]]|by rewrite Hdom]).
  destruct Hd as (Ha & Hl & Hd). apply NoDup_cons in Hnd as [Hnin Hnd].
  destruct (node_at_run s a _ _ (conj Ha Hl)) as (c & Hn & Hline).
  assert (Htext : text s a = c) by (unfold text; by rewrite Hline).
  cbn [free_loop hdZ]. rewrite (proj2 (Z.eqb_neq _ _) Ha).
  assert (Hon : on_list (node_at a) (s, strs) = Ok (mk_node c (hdZ 0 l) p, (s, strs)))
    by (unfold on_list; simpl; by rewrite Hn).
  run Hon. cbn [line next].
  assert (Hfl : free_line a c (s, strs) = Ok (tt, (s, strs ∖ {[ a ]}))).
  { destruct c as [c|]; simpl.
    - rewrite decide_True; [done|]. apply Hco. by rewrite Htext.
    - assert (~ (a ∈ strs)) by (rewrite (Hco a), Htext; by intros [? ?]).
      unfold ret. do 3 f_equal. set_solver. }
  run Hfl.
  assert (Hfr : on_list (free a) (s, strs ∖ {[ a ]}) = Ok (tt, (with_nodes (delete a) s, strs ∖ {[ a ]}))).
  { unfold on_list, free. simpl. rewrite (proj2 (Z.eqb_neq _ _) Ha). by rewrite (bind_ok _ _ _ _ _ Hn). }
  run Hfr. apply (IH _ _ a); try done.
  - eapply dll_ext; [|exact Hd]. intros x Hx. unfold links. simpl. rewrite lookup_delete_ne; [done|]. by intros ->.
  - simpl. rewrite dom_delete_L, Hdom. simpl. set_solver.
  - intros x. unfold text, line_at. simpl. destruct (decide (x = a)) as [->|Hx].
    + rewrite lookup_delete_eq. simpl. split; [set_solver|by intros [? ?]].
    + rewrite lookup_delete_ne by done. rewrite elem_of_difference, (Hco x). unfold text, line_at. set_solver.
  - lia.
Qed.

Lemma list_free_kept s l strs :
  kept s l -> copies_of s strs ->
  exists r s', list_free (lst s) (s, strs) = Ok (r, (s', ∅)) /\ nodes s' = ∅.
Proof.
  intros [[Hc Hl] _ Hdom] Hco. pose proof (rep_length _ _ Hc) as Hk. destruct Hc as [Hd Hnd].
  destruct (free_loop_kept (size (nodes s)) s strs 0 l Hd Hnd Hdom Hco Hk) as (s' & Hrun & Hn).
  unfold list_free. rewrite Hl. destruct l as [|h l].
  - exists 1, s'. split; [|done]. destruct (size (nodes s)); simpl in Hrun; injection Hrun as <- ->; done.
  - cbn [hdZ] in *. destruct Hd as (Hh & _). rewrite (proj2 (Z.eqb_neq _ _) Hh).
    rewrite (bind_ok (gets _) _ _ _ _ eq_refl). exists 0, s'. split; [by run Hrun|done].
Qed.

(** ** The threads *)

(** [read_lines] and the end of [main]. *)
Inductive mpc :=
| MRead      (* fgets *)
| MLock      (* pthread_mutex_lock *)
| MWork      (* print_list or add_to_head *)
| MUnlock    (* pthread_mutex_unlock *)
| MStop      (* stop_sort_thread = true *)
| MJoin      (* pthread_join *)
| MFree      (* list_free *)
| MDone.

(** [bubble_sort_mt]. *)
Inductive spc :=
| STest      (* while (!stop_sort_thread) *)
| SWait      (* while (fewer than two nodes) sleep(1) *)
| SLock      (* pthread_mutex_lock *)
| SSort      (* the do loop *)
| SUnlock    (* pthread_mutex_unlock *)
| SEnd.

#[export] Instance mpc_eq_dec : EqDecision mpc.
Proof. solve_decision. Defined.
#[export] Instance spc_eq_dec : EqDecision spc.
Proof. solve_decision. Defined.

Inductive tid := Main | Sorter.
#[export] Instance tid_eq_dec : EqDecision tid.
Proof. solve_decision. Defined.

(** What the list went through; [AddedNull]: a node whose copy of the line was
    refused. *)
Inductive event := Added (l : cstr) | AddedNull | Printed (out : list (option cstr)).

(** A line that [fgets] will read, without the newline: [addr] and [copy_ok] are
    the answers of [malloc] should a node be made for it. *)
Record line_in := mk_in { cur_line : cstr; addr : Z; copy_ok : bool }.

Record config := mk_c {
  heap : lstate;
  strs : gset Z;
  owner : option tid;
  stop_sort_thread : bool;
  input : list line_in;
  at_main : mpc;
  at_sort : spc;
  events : list event
}.

Definition main_to (c : config) (p : mpc) : config :=
  mk_c (heap c) (strs c) (owner c) (stop_sort_thread c) (input c) p (at_sort c) (events c).
Definition sort_to (c : config) (p : spc) : config :=
  mk_c (heap c) (strs c) (owner c) (stop_sort_thread c) (input c) (at_main c) p (events c).
Definition with_owner (c : config) (o : option tid) : config :=
  mk_c (heap c) (strs c) o (stop_sort_thread c) (input c) (at_main c) (at_sort c) (events c).
Definition with_store (c : config) (s : store) : config :=
  mk_c (fst s) (snd s) (owner c) (stop_sort_thread c) (input c) (at_main c) (at_sort c) (events c).
Definition with_stop (c : config) : config :=
  mk_c (heap c) (strs c) (owner c) true (input c) (at_main c) (at_sort c) (events c).

(** The body of [read_lines] between lock and unlock, for a line. *)
Definition work (i : line_in) : M store (list event) :=
  if strcmp (cur_line i) [] =? 0 then
    list <- gets (fun s => lst (fst s));;
    r <- on_list (print_list list);;
    ret [Printed (map Some (snd r))]
  else
    res <- on_list (add_to_head (addr i) (copy_ok i) (Some (cur_line i)));;
    if negb (res =? 0) then ret []
    else if copy_ok i then
      modify (fun s => (fst s, snd s ∪ {[ addr i ]}));; ret [Added (cur_line i)]
    else ret [AddedNull].

Definition exec_main (c : config) : outcome (option config) :=
  match at_main c with
  | MRead =>
      match input c with
      | [] => Ok (Some (main_to c MStop))
      | i :: _ =>
          Ok (Some (main_to c (if strcmp (cur_line i) (bytes_of "c_exit") =? 0 then MStop else MLock)))
      end
  | MLock =>
      match owner c with
      | None => Ok (Some (with_owner (main_to c MWork) (Some Main)))
      | Some _ => Ok None
      end
  | MWork =>
      match input c with
      | [] => Fault Indeterminate
      | i :: rest =>
          let? (evs, s) := work i (heap c, strs c) in
          Ok (Some (mk_c (fst s) (snd s) (owner c) (stop_sort_thread c) rest MUnlock (at_sort c) (events c ++ evs)))
      end
  | MUnlock => Ok (Some (with_owner (main_to c MRead) None))
  | MStop => Ok (Some (with_stop (main_to c MJoin)))
  | MJoin => if decide (at_sort c = SEnd) then Ok (Some (main_to c MFree)) else Ok None
  | MFree =>
      let? (_, s) := list_free (lst (heap c)) (heap c, strs c) in
      Ok (Some (with_store (main_to c MDone) s))
  | MDone => Ok None
  end.

(** A thread that sleeps and tests again does not move. *)
Definition exec_sort (c : config) : outcome (option config) :=
  match at_sort c with
  | STest => Ok (Some (sort_to c (if stop_sort_thread c then SEnd else SWait)))
  | SWait =>
      let list := lst (heap c) in
      if list =? 0 then Ok None
      else
        let? (n, _) := node_at list (heap c) in
        Ok (if next n =? 0 then None else Some (sort_to c SLock))
  | SLock =>
      match owner c with
      | None => Ok (Some (with_owner (sort_to c SSort) (Some Sorter)))
      | Some _ => Ok None
      end
  | SSort =>
      let? (_, h) := bubble_sort (heap c) in
      Ok (Some (with_store (sort_to c SUnlock) (h, strs c)))
  | SUnlock => Ok (Some (with_owner (sort_to c STest) None))
  | SEnd => Ok None
  end.

Definition exec (t : tid) : config -> outcome (option config) :=
  match t with Main => exec_main | Sorter => exec_sort end.

Definition step (c c' : config) : Prop := exists t, exec t c = Ok (Some c').

Definition initial (input : list line_in) : config :=
  mk_c (mk_l ∅ 0) ∅ None false input MRead STest [].

(** *** Invariant *)

(** The lines of the nodes that were added. *)
Definition put (evs : list event) : list (option cstr) :=
  omap (fun e => match e with Added l => Some (Some l) | AddedNull => Some None | Printed _ => None end) evs.

(** Every print shows the lines added before it, in some order. *)
Definition prints_all (evs : list event) : Prop :=
  forall e1 out e2, evs = e1 ++ Printed out :: e2 -> out ≡ₚ put e1.

(** The step in which a thread reads the line of every node: the sorter
    compares them, [main] prints them. *)
Definition reads_lines (t : tid) (c : config) : bool :=
  match t with
  | Main => bool_decide (at_main c = MWork) &&
            match input c with i :: _ => strcmp (cur_line i) [] =? 0 | [] => false end
  | Sorter => bool_decide (at_sort c = SSort)
  end.

(** One of them is NULL. *)
Definition reads_null (t : tid) (c : config) : bool :=
  reads_lines t c && bool_decide (None ∈ put (events c)).

Definition main_locked (p : mpc) : bool := match p with MWork | MUnlock => true | _ => false end.
Definition sort_locked (p : spc) : bool := match p with SSort | SUnlock => true | _ => false end.
Definition sort_ready (p : spc) : bool := match p with SLock | SSort | SUnlock => true | _ => false end.
Definition main_over (p : mpc) : bool := match p with MJoin | MFree | MDone => true | _ => false end.
Definition reading (p : mpc) : bool := match p with MLock | MWork => true | _ => false end.

(** The lines end with a NUL, and the addresses [malloc] will answer are not
    in use. *)
Definition input_ok (input : list line_in) (l : list Z) : Prop :=
  Forall (fun i => is_cstr (cur_line i)) input /\
  NoDup (filter (fun a => a <> 0) (addr <$> input)) /\
  forall a, a ∈ addr <$> input -> ~ (a ∈ l).

Record list_inv (c : config) (l : list Z) : Prop := {
  li_kept : kept (heap c) l;
  li_strs : copies_of (heap c) (strs c);
  li_texts : texts (heap c) l ≡ₚ put (events c);
  li_input : input_ok (input c) l;
  li_ready : sort_ready (at_sort c) = true -> (2 <= length l)%nat;
  li_sorted : at_sort c = SUnlock -> ~ (None ∈ put (events c)) /\
    StronglySorted (fun a b => strcmp a b <= 0) (lines (heap c) l)
}.

Record inv (c : config) : Prop := {
  inv_list : at_main c <> MDone -> exists l, list_inv c l;
  inv_prints : prints_all (events c);
  inv_owner : owner c = if main_locked (at_main c) then Some Main
                        else if sort_locked (at_sort c) then Some Sorter else None;
  inv_excl : main_locked (at_main c) = true -> sort_locked (at_sort c) = false;
  inv_stop : stop_sort_thread c = main_over (at_main c);
  inv_join : at_main c = MFree \/ at_main c = MDone -> at_sort c = SEnd;
  inv_freed : at_main c = MDone -> nodes (heap c) = ∅ /\ strs c = ∅;
  inv_reading : reading (at_main c) = true -> input c <> []
}.

Lemma put_app e1 e2 : put (e1 ++ e2) = put e1 ++ put e2.
Proof. apply omap_app. Qed.

Lemma prints_all_app evs evs' :
  prints_all evs ->
  (forall out, evs' = [Printed out] -> out ≡ₚ put evs) -> (length evs' <= 1)%nat ->
  prints_all (evs ++ evs').
Proof.
  intros H H' Hlen e1 out e2 E. destruct evs' as [|e [|? ?]]; [|clear Hlen|simpl in Hlen; lia].
  - rewrite app_nil_r in E. by eapply H.
  - destruct e2 as [|e' e2 _] using rev_ind.
    + apply app_inj_tail in E as [-> ->]. by apply H'.
    + rewrite app_comm_cons, app_assoc in E. apply app_inj_tail in E as [-> _]. by eapply H.
Qed.

Lemma input_ok_rest i rest l :
  input_ok (i :: rest) l ->
  is_cstr (cur_line i) /\ ~ (addr i ∈ l) /\ input_ok rest l /\
  (addr i <> 0 -> input_ok rest (addr i :: l)).
Proof.
  intros ([Hcs Hcs']%Forall_cons & Hnd & Hfr). csimpl in Hnd. csimpl in Hfr.
  assert (Hnd' : NoDup (filter (fun a => a <> 0) (addr <$> rest))).
  { rewrite filter_cons in Hnd. by case_decide; [apply NoDup_cons in Hnd as [_ ?]|]. }
  split; [done|]. split; [apply Hfr; by left|]. split.
  - split; [done|]. split; [done|]. intros a Ha. apply Hfr. by right.
  - intros Ha0. split; [done|]. split; [done|]. intros a Ha [->|Hal]%elem_of_cons.
    + rewrite filter_cons_True in Hnd by done. apply NoDup_cons in Hnd as [Hnd _].
      apply Hnd, list_elem_of_filter. done.
    + eapply Hfr; [|done]. by right.
Qed.

(** Adding the first line of the input. *)
Lemma work_adds i rest c l :
  list_inv c l -> input c = i :: rest -> sort_locked (at_sort c) = false -> (strcmp (cur_line i) [] =? 0) = false ->
  exists evs s l', work i (heap c, strs c) = Ok (evs, s) /\
    (length evs <= 1)%nat /\ (forall out, evs <> [Printed out]) /\
    list_inv (mk_c (fst s) (snd s) (owner c) (stop_sort_thread c) rest MUnlock (at_sort c) (events c ++ evs)) l'.
Proof.
  intros [Hk Hco Ht Hin Hrd Hso] Ein Hs E0. rewrite Ein in Hin.
  destruct (input_ok_rest _ _ _ Hin) as (Hcs & Hfr & Hrest & Hrest').
  assert (Hns : at_sort c <> SUnlock) by (intros E; by rewrite E in Hs).
  unfold work. rewrite E0. destruct (Z.eq_dec (addr i) 0) as [Ha|Ha].
  { eexists [], _, l. split; [unfold on_list, add_to_head, new_node; by rewrite Ha|].
    split; [simpl; lia|]. split; [done|].
    split; cbn [heap strs input at_sort events fst snd]; try done. by rewrite app_nil_r. }
  destruct (add_to_head_kept (heap c) l (addr i) (copy_ok i) (cur_line i) Hk Ha Hfr Hcs) as (h & Hadd & Hk' & Ht' & Htx).
  assert (Hon : on_list (add_to_head (addr i) (copy_ok i) (Some (cur_line i))) (heap c, strs c) = Ok (0, (h, strs c)))
    by (unfold on_list; simpl; by rewrite Hadd).
  run Hon. cbn [Z.eqb negb].
  assert (Hco' : copies_of h (if copy_ok i then strs c ∪ {[ addr i ]} else strs c)).
  { intros x. rewrite Htx. case_decide as Hx; [subst x|].
    - destruct (copy_ok i); [by set_solver|]. rewrite (Hco (addr i)), text_fresh; [done|].
      apply not_elem_of_dom. rewrite (kept_dom _ _ Hk). by rewrite elem_of_list_to_set.
    - rewrite <- (Hco x). destruct (copy_ok i); set_solver. }
  exists [if copy_ok i then Added (cur_line i) else AddedNull],
    (h, if copy_ok i then strs c ∪ {[ addr i ]} else strs c), (addr i :: l).
  split; [by destruct (copy_ok i)|]. split; [simpl; lia|]. split; [by destruct (copy_ok i)|].
  split; cbn [heap strs input at_sort events fst snd]; try done.
  - rewrite Ht', put_app. destruct (copy_ok i); simpl; by rewrite <- Permutation_cons_append, Ht.
  - by apply Hrest'.
  - intros H. specialize (Hrd H). simpl. lia.
Qed.

Lemma work_ok i rest c l :
  list_inv c l -> input c = i :: rest -> sort_locked (at_sort c) = false ->
  if (strcmp (cur_line i) [] =? 0) && bool_decide (None ∈ put (events c))
  then work i (heap c, strs c) = Fault NullDeref
  else exists evs s l', work i (heap c, strs c) = Ok (evs, s) /\
    (length evs <= 1)%nat /\ (forall out, evs = [Printed out] -> out ≡ₚ put (events c)) /\
    list_inv (mk_c (fst s) (snd s) (owner c) (stop_sort_thread c) rest MUnlock (at_sort c) (events c ++ evs)) l'.
Proof.
  intros Hi Ein Hs. destruct (strcmp (cur_line i) [] =? 0) eqn:E0; simpl.
  - pose proof Hi as [Hk Hco Ht Hin Hrd Hso]. rewrite Ein in Hin.
    destruct (input_ok_rest _ _ _ Hin) as (_ & _ & Hrest & _).
    unfold work. rewrite E0. rewrite (bind_ok (gets _) _ _ _ _ eq_refl). cbn [fst].
    destruct (print_list_kept _ _ Hk) as [[Hnull Hp]|(r & Hh & Hp)].
    + rewrite bool_decide_eq_true_2 by (by rewrite <- Ht). apply bind_fault. unfold on_list. simpl. by rewrite Hp.
    + destruct (holds_kept _ _ Hh) as [_ E]. rewrite E in Ht.
      rewrite bool_decide_eq_false_2
        by (rewrite <- Ht; intros (? & ? & _)%list_elem_of_fmap; done).
      eexists _, _, l. unfold bind, on_list. simpl. rewrite Hp. simpl. split; [done|].
      split; [simpl; lia|]. split; [intros out [= <-]; done|].
      split; cbn [heap strs input at_sort events fst snd]; rewrite ?put_app, ?app_nil_r; try done. by rewrite E.
  - destruct (work_adds i rest c l Hi Ein Hs E0) as (evs & s & l' & H1 & H2 & H3 & H4).
    exists evs, s, l'. split; [done|]. split; [done|]. split; [|done]. intros out E. by destruct (H3 out).
Qed.

Lemma list_inv_to c l o st m p :
  list_inv c l ->
  (sort_ready p = true -> (2 <= length l)%nat) ->
  (p = SUnlock -> ~ (None ∈ put (events c)) /\
     StronglySorted (fun a b => strcmp a b <= 0) (lines (heap c) l)) ->
  list_inv (mk_c (heap c) (strs c) o st (input c) m p (events c)) l.
Proof. intros [? ? ? ? ? ?] Hp Hs. by split. Qed.

Lemma inv_exec_main c :
  inv c -> if reads_null Main c then exec_main c = Fault NullDeref
           else exists r, exec_main c = Ok r /\ forall c', r = Some c' -> inv c'.
Proof.
  intros [Hl Hp Ho Hx Hst Hj Hf Hr]. unfold exec_main, reads_null, reads_lines.
  destruct (at_main c) eqn:Hm; simpl in *.
  - destruct (Hl ltac:(done)) as [l Hi].
    assert (H : forall p, p = MStop \/ p = MLock /\ input c <> [] -> inv (main_to c p)).
    { intros p Hp'. split; simpl; try done.
      - intros _. exists l. apply (list_inv_to c); [done|apply Hi..].
      - by destruct Hp' as [-> | [-> _]].
      - by destruct Hp' as [-> | [-> _]].
      - rewrite Hst. by destruct Hp' as [-> | [-> _]].
      - destruct Hp' as [-> | [-> _]]; naive_solver.
      - by destruct Hp' as [-> | [-> _]].
      - by destruct Hp' as [-> | [-> ?]]. }
    destruct (input c) as [|i rest] eqn:Hin; eexists; (split; [done|]); intros c' [= <-].
    + apply H. by left.
    + apply H. destruct (strcmp _ _ =? 0); [by left|by right].
  - destruct (owner c) eqn:How; [by exists None|]. eexists. split; [done|]. intros c' [= <-].
    destruct (Hl ltac:(done)) as [l Hi]. split; simpl; try done.
    + intros _. exists l. apply (list_inv_to c l); [done|apply Hi..].
    + intros _. by destruct (sort_locked (at_sort c)).
    + naive_solver.
  - destruct (Hl ltac:(done)) as [l Hi].
    destruct (input c) as [|i rest] eqn:Hin; [by destruct (Hr eq_refl)|].
    pose proof (work_ok i rest c l Hi Hin (Hx eq_refl)) as Hw. destruct (_ && _); [by rewrite Hw|].
    destruct Hw as (evs & s & l' & -> & H1 & H2 & H3). simpl. eexists. split; [done|]. intros c' [= <-]. split; simpl; try done.
    + intros _. by exists l'.
    + by apply prints_all_app.
    + naive_solver.
  - eexists. split; [done|]. intros c' [= <-]. destruct (Hl ltac:(done)) as [l Hi].
    split; simpl; try done.
    + intros _. exists l. apply (list_inv_to c); [done|apply Hi..].
    + by rewrite Hx.
    + naive_solver.
  - eexists. split; [done|]. intros c' [= <-]. destruct (Hl ltac:(done)) as [l Hi].
    split; simpl; try done.
    + intros _. exists l. apply (list_inv_to c); [done|apply Hi..].
    + naive_solver.
  - destruct (decide (at_sort c = SEnd)) as [He|]; [|by exists None].
    eexists. split; [done|]. intros c' [= <-]. destruct (Hl ltac:(done)) as [l Hi].
    split; simpl; try done. intros _. exists l. apply (list_inv_to c); [done|apply Hi..].
  - destruct (Hl ltac:(done)) as [l [Hk Hco _ _ _ _]].
    destruct (list_free_kept _ _ _ Hk Hco) as (r & h & -> & Hn). simpl. eexists. split; [done|].
    intros c' [= <-]. split; simpl; try done. intros _. apply Hj. by left.
  - by exists None.
Qed.

Lemma inv_exec_sort c :
  inv c -> if reads_null Sorter c then exec_sort c = Fault NullDeref
           else exists r, exec_sort c = Ok r /\ forall c', r = Some c' -> inv c'.
Proof.
  intros [Hl Hp Ho Hx Hst Hj Hf Hr]. unfold exec_sort, reads_null, reads_lines.
  assert (Hend : at_sort c <> SEnd -> exists l, list_inv c l).
  { intros Hs. apply Hl. intros Hm. apply Hs, Hj. by right. }
  destruct (at_sort c) eqn:Hs; simpl in *.
  - eexists. split; [done|]. intros c' [= <-]. split; simpl; try done.
    + intros Hm. destruct (Hl Hm) as [l Hi]. exists l. apply (list_inv_to c); [done|..]; by destruct (stop_sort_thread c).
    + by destruct (stop_sort_thread c).
    + by destruct (stop_sort_thread c).
    + intros Hm. by specialize (Hj Hm).
  - destruct (Hend ltac:(done)) as [l Hi]. pose proof Hi as [[Hlk _ _] _ _ _ _ _].
    rewrite (proj2 Hlk). destruct l as [|h l]; [by exists None|]. cbn [hdZ].
    destruct (kept_node _ [] h l Hlk) as [Hh ->]. rewrite (proj2 (Z.eqb_neq _ _) Hh). simpl.
    destruct l as [|y l]; [by exists None|]. simpl.
    rewrite (proj2 (Z.eqb_neq _ _) (proj1 (kept_node _ [h] y l Hlk))).
    eexists. split; [done|]. intros c' [= <-]. split; simpl; try done.
    + intros _. exists (h :: y :: l). apply (list_inv_to c); [done|simpl; lia|done].
    + intros Hm. by specialize (Hj Hm).
  - destruct (owner c) eqn:How; [by exists None|]. eexists. split; [done|]. intros c' [= <-].
    destruct (Hend ltac:(done)) as [l Hi].
    assert (Hfree : main_locked (at_main c) = false) by (by destruct (main_locked (at_main c))).
    split; simpl; try done.
    + intros _. exists l. apply (list_inv_to c); [done|intros _; apply Hi; by rewrite Hs|done].
    + by rewrite Hfree.
    + by rewrite Hfree.
    + intros Hm. by specialize (Hj Hm).
  - destruct (Hend ltac:(done)) as [l [Hk Hco Ht Hin Hrd _]]. rewrite Hs in Hrd. specialize (Hrd eq_refl).
    case_bool_decide as Hnull; [rewrite (bubble_sort_null _ l); [done..|by rewrite Ht]|].
    assert (Hh : holds (heap c) l) by (apply kept_holds; [done|by rewrite Ht]).
    destruct (bubble_sort_holds _ _ Hh) as (h & l' & -> & Hh' & Hperm & Hlines & Hsame & Hsort);
      [by destruct l; simpl in Hrd; [lia|]|].
    simpl. eexists. split; [done|]. intros c' [= <-].
    destruct (holds_kept _ _ Hh) as [_ E]. destruct (holds_kept _ _ Hh') as [Hk' E'].
    split; simpl; try done.
    + intros _. exists l'. split; cbn [heap strs input at_sort events fst snd]; try done.
      * intros a. simpl. by rewrite (same_text _ _ a Hsame), (Hco a).
      * simpl. rewrite E', Hlines, <- E. done.
      * destruct Hin as (? & ? & Hfr). split; [done|]. split; [done|]. intros a Ha. rewrite Hperm. by apply Hfr.
      * intros _. by rewrite Hperm.
    + intros Hm. by specialize (Hj Hm).
    + intros Hm. specialize (Hj (or_intror Hm)). done.
  - eexists. split; [done|]. intros c' [= <-].
    assert (Hfree : main_locked (at_main c) = false)
      by (destruct (main_locked (at_main c)); [by specialize (Hx eq_refl)|done]).
    split; simpl; try done.
    + intros Hm. destruct (Hl Hm) as [l Hi]. exists l. by apply (list_inv_to c).
    + by rewrite Hfree.
    + intros Hm. by specialize (Hj Hm).
  - by exists None.
Qed.

Lemma inv_exec t c :
  inv c -> if reads_null t c then exec t c = Fault NullDeref
           else exists r, exec t c = Ok r /\ forall c', r = Some c' -> inv c'.
Proof. destruct t; [apply inv_exec_main|apply inv_exec_sort]. Qed.

Lemma mutex_inv_initial input :
  input_ok input [] -> inv (initial input).
Proof.
  intros Hin. split; simpl; try done.
  - intros _. exists []. split; simpl; try done.
    + split; [|constructor|by apply set_eq]. split; [split; [done|apply NoDup_nil; done]|done].
    + intros a. rewrite text_fresh by done. split; [set_solver|by intros [? ?]].
  - by intros [|] ? ?.
  - naive_solver.
Qed.

Lemma inv_reachable input c :
  input_ok input [] -> rtc step (initial input) c -> inv c.
Proof.
  intros Hin. apply (rtc_ind_r (fun c => inv c)); [by apply mutex_inv_initial|].
  intros c1 c2 _ [t Ht] Hi. pose proof (inv_exec t c1 Hi) as H.
  destruct (reads_null t c1); [congruence|]. destruct H as (r & Hr & H). apply H. congruence.
Qed.

(** *** The end of the program *)

Definition is_exit (l : cstr) : bool := strcmp l (bytes_of "c_exit") =? 0.

(** The lines of the nodes that the input puts into the list. *)
Fixpoint entered (input : list line_in) : list (option cstr) :=
  match input with
  | [] => []
  | i :: rest =>
      if is_exit (cur_line i) then []
      else if (strcmp (cur_line i) [] =? 0) || (addr i =? 0) then entered rest
      else (if copy_ok i then Some (cur_line i) else None) :: entered rest
  end.

Definition head_exit (input : list line_in) : bool :=
  match input with i :: _ => is_exit (cur_line i) | [] => true end.

Record progress (input0 : list line_in) (c : config) : Prop := {
  pr_total : put (events c) ++ entered (input c) = entered input0;
  pr_reading : reading (at_main c) = true -> head_exit (input c) = false;
  pr_over : at_main c = MStop \/ main_over (at_main c) = true -> entered (input c) = []
}.

Lemma entered_head_exit input : head_exit input = true -> entered input = [].
Proof. destruct input as [|i rest]; [done|]. simpl. by intros ->. Qed.

Lemma work_events i s evs s' :
  work i s = Ok (evs, s') ->
  put evs = if (strcmp (cur_line i) [] =? 0) || (addr i =? 0) then []
            else [if copy_ok i then Some (cur_line i) else None].
Proof.
  unfold work. destruct (strcmp (cur_line i) [] =? 0); simpl; intros H.
  - apply bind_inv in H as (l & s1 & _ & H). apply bind_inv in H as (r & s2 & _ & [= <- <-]). done.
  - apply bind_inv in H as (res & s1 & Ha & H). unfold on_list in Ha.
    destruct (add_to_head _ _ _ (fst s)) as [[res' h]|] eqn:E; [|done]. injection Ha as -> <-.
    unfold add_to_head, new_node in E. destruct (addr i =? 0); simpl in E.
    + injection E as <- <-. simpl in H. by injection H as <- <-.
    + assert (res = 0) as -> by (binds; simpl in *; by binds).
      simpl in H. destruct (copy_ok i); by injection H as <- <-.
Qed.

Lemma progress_exec input0 t c c' :
  progress input0 c -> exec t c = Ok (Some c') -> progress input0 c'.
Proof.
  intros [Ht Hr Ho] He. destruct t; simpl in He.
  - unfold exec_main in He. destruct (at_main c) eqn:Hm; simpl in *.
    + destruct (input c) as [|i rest] eqn:Hin; simplify_eq.
      * split; simpl; rewrite ?Hin; naive_solver.
      * fold (is_exit (cur_line i)). destruct (is_exit (cur_line i)) eqn:El; split; simpl in *; rewrite ?Hin; simpl; rewrite ?El; try done.
        -- by rewrite El in Ht.
        -- by rewrite El in Ht.
        -- naive_solver.
    + destruct (owner c); simplify_eq. split; simpl; try done; naive_solver.
    + destruct (input c) as [|i rest] eqn:Hin; [done|].
      destruct (work i (heap c, strs c)) as [[evs h]|] eqn:Hw; simpl in He; simplify_eq.
      specialize (Hr eq_refl). simpl in Hr. split; simpl; try done; [|naive_solver].
      rewrite put_app, (work_events _ _ _ _ Hw). simpl in Ht. rewrite Hr in Ht.
      destruct ((strcmp _ [] =? 0) || (addr i =? 0)); [by rewrite app_nil_r|]. by rewrite <- app_assoc.
    + simplify_eq. split; simpl; try done. naive_solver.
    + simplify_eq. split; simpl; try done. intros _. apply Ho. by left.
    + destruct (decide _); simplify_eq. split; simpl; try done. intros _. apply Ho. by right.
    + destruct (list_free _ _) as [[? ?]|]; simpl in He; simplify_eq. split; simpl; try done.
      intros _. apply Ho. by right.
    + done.
  - assert (input c' = input c /\ events c' = events c /\ at_main c' = at_main c) as (E1 & E2 & E3).
    { unfold exec_sort in He. destruct (at_sort c).
      - by simplify_eq.
      - destruct (_ =? 0); [done|]. destruct (node_at _ _) as [[n ?]|]; [|done]. simpl in He.
        by destruct (next n =? 0); simplify_eq.
      - by destruct (owner c); simplify_eq.
      - destruct (bubble_sort _) as [[? ?]|]; simpl in He; by simplify_eq.
      - by simplify_eq.
      - done. }
    by split; rewrite ?E1, ?E2, ?E3.
Qed.

Lemma progress_reachable input0 c : rtc step (initial input0) c -> progress input0 c.
Proof.
  apply (rtc_ind_r (fun c => progress input0 c)).
  - split; simpl; try done. naive_solver.
  - intros c1 c2 _ [t Ht] Hp. by eapply progress_exec.
Qed.

Lemma reads_null_entered input0 t c :
  rtc step (initial input0) c -> reads_null t c = true -> None ∈ entered input0.
Proof.
  intros Hc [_ Hn%bool_decide_eq_true]%andb_true_iff.
  rewrite <- (pr_total _ _ (progress_reachable _ _ Hc)). apply elem_of_app. by left.
Qed.

(** C15: Whatever the two threads' interleaving: the two are never both between
    lock and unlock; the list always holds one node for every line entered so
    far, none lost and none twice, and its links go both ways; exactly the
    nodes whose copy of the line was made own an allocated copy; every print
    shows all lines; when the sorting thread unlocks the lines are in order;
    and when [main] ends all nodes and all copies have been freed.  No step
    uses a null or a freed pointer, but for one case: [new_node] ignores that a
    copy was refused, and with such a node in the list sorting it, or printing
    it, dereferences NULL; this takes an input line whose copy is refused. *)
Theorem mutex_list_safe input c :
  input_ok input [] -> rtc step (initial input) c ->
  (forall t, if reads_null t c then exec t c = Fault NullDeref /\ None ∈ entered input
             else exists r, exec t c = Ok r) /\
  ~ (main_locked (at_main c) = true /\ sort_locked (at_sort c) = true) /\
  prints_all (events c) /\
  (at_main c <> MDone ->
     exists l, kept (heap c) l /\ texts (heap c) l ≡ₚ put (events c) /\ copies_of (heap c) (strs c) /\
       (at_sort c = SUnlock -> ~ (None ∈ put (events c)) /\
          StronglySorted (fun a b => strcmp a b <= 0) (lines (heap c) l))) /\
  (at_main c = MDone -> nodes (heap c) = ∅ /\ strs c = ∅).
Proof.
  intros Hin Hreach. pose proof (inv_reachable _ _ Hin Hreach) as Hi. split.
  { intros t. pose proof (inv_exec t c Hi) as H. destruct (reads_null t c) eqn:Hn.
    - split; [done|]. by eapply reads_null_entered.
    - destruct H as (r & Hr & _). by exists r. }
  destruct Hi as [Hl Hp Ho Hx Hst Hj Hf Hr]. split; [intros [H1 H2]; by rewrite Hx in H2|].
  split; [done|]. split; [|done]. intros Hm. destruct (Hl Hm) as [l [H1 H2 H3 _ _ H4]]. by exists l.
Qed.

(** [main] reads on while the sorting thread is outside its critical section. *)
Definition main_rank (c : config) : nat :=
  (4 * length (input c) +
   match at_main c with MUnlock => 4 | MRead => 3 | MLock => 2 | MWork | MStop => 1 | _ => 0 end)%nat.

Lemma main_moves c :
  inv c -> reads_null Main c = false -> sort_locked (at_sort c) = false -> main_over (at_main c) = false ->
  exists c', exec_main c = Ok (Some c') /\ at_sort c' = at_sort c /\ (main_rank c' < main_rank c)%nat.
Proof.
  intros Hi Hnn Hs Hm. pose proof (inv_exec_main c Hi) as Hr. rewrite Hnn in Hr.
  destruct Hr as (r & Hr & _). destruct Hi as [_ _ Ho _ _ _ _ Hrd].
  unfold exec_main, main_rank in *. destruct (at_main c) eqn:Em; try done; simpl in *.
  - destruct (input c) as [|i rest] eqn:Hin; eexists; (split; [done|]); (split; [done|]);
      simpl; rewrite ?Hin; simpl; [lia|]. destruct (_ =? 0); simpl; lia.
  - rewrite Ho, Hs. eexists. split; [done|]. split; [done|]. simpl. lia.
  - destruct (input c) as [|i rest] eqn:Hin; [by destruct (Hrd eq_refl)|].
    destruct (work i (heap c, strs c)) as [[evs h]|]; [|done]. simpl. eexists. split; [done|]. split; [done|].
    simpl. lia.
  - eexists. split; [done|]. split; [done|]. simpl. lia.
  - eexists. split; [done|]. split; [done|]. simpl. lia.
Qed.

(** Once [main] waits for it, the sorting thread makes its last round. *)
Definition sort_rank (p : spc) : nat :=
  match p with SWait => 5 | SLock => 4 | SSort => 3 | SUnlock => 2 | STest => 1 | SEnd => 0 end.

Lemma sort_moves c l :
  inv c -> reads_null Sorter c = false -> list_inv c l -> (2 <= length l)%nat -> at_main c = MJoin -> at_sort c <> SEnd ->
  exists c', exec_sort c = Ok (Some c') /\ at_main c' = MJoin /\
    (sort_rank (at_sort c') < sort_rank (at_sort c))%nat /\ events c' = events c.
Proof.
  intros Hi Hnn Hli Hlen Hm Hs. pose proof (inv_exec_sort c Hi) as Hr. rewrite Hnn in Hr. destruct Hr as (r & Hr & _).
  destruct Hi as [_ _ Ho _ Hst _ _ _]. rewrite Hm in Ho, Hst. unfold exec_sort in *.
  destruct (at_sort c) eqn:Es; try done; simpl in *.
  - rewrite Hst. eexists. split_and!; [done|done|simpl; lia|done].
  - destruct Hli as [[Hlk _ _] _ _ _ _ _]. rewrite (proj2 Hlk) in *.
    destruct l as [|h [|y l]]; [simpl in Hlen; lia..|]. cbn [hdZ] in *.
    destruct (kept_node _ [] h (y :: l) Hlk) as [Hh ->]. rewrite (proj2 (Z.eqb_neq _ _) Hh). simpl.
    rewrite (proj2 (Z.eqb_neq _ _) (proj1 (kept_node _ [h] y l Hlk))).
    eexists. split_and!; [done|done|simpl; lia|done].
  - rewrite Ho. eexists. split_and!; [done|done|simpl; lia|done].
  - destruct (bubble_sort (heap c)) as [[u h]|]; [|done]. simpl.
    eexists. split_and!; [done|done|simpl; lia|done].
  - eexists. split_and!; [done|done|simpl; lia|done].
Qed.

Lemma step_reach input0 c t c' :
  rtc step (initial input0) c -> exec t c = Ok (Some c') -> rtc step (initial input0) c'.
Proof. intros H He. eapply rtc_r; [exact H|]. by exists t. Qed.

Lemma no_null input0 t c :
  ~ (None ∈ entered input0) -> rtc step (initial input0) c -> reads_null t c = false.
Proof. intros Hn Hc. apply not_true_iff_false. intros E. by eapply Hn, reads_null_entered. Qed.

(** The sorting thread leaves its critical section. *)
Lemma sort_leaves input0 c :
  input_ok input0 [] -> ~ (None ∈ entered input0) -> rtc step (initial input0) c ->
  exists c', rtc step c c' /\ sort_locked (at_sort c') = false.
Proof.
  intros Hin Hnull Hc. assert (Hun : forall c, at_sort c = SUnlock ->
    exists c', rtc step c c' /\ sort_locked (at_sort c') = false).
  { intros c0 E. eexists. split; [apply rtc_once; exists Sorter; simpl; unfold exec_sort; by rewrite E|done]. }
  pose proof (inv_reachable _ _ Hin Hc) as Hi.
  destruct (at_sort c) eqn:E; try (exists c; by rewrite E); [|by apply Hun].
  pose proof (inv_exec_sort c Hi) as Hr. rewrite (no_null _ _ _ Hnull Hc) in Hr. destruct Hr as (r & Hr & _).
  unfold exec_sort in Hr. rewrite E in Hr.
  destruct (bubble_sort (heap c)) as [[u h]|] eqn:Eb; [|done]. simpl in Hr.
  destruct (Hun (with_store (sort_to c SUnlock) (h, strs c)) eq_refl) as (c' & Hc' & Hl).
  exists c'. split; [|done]. eapply rtc_l; [|exact Hc']. exists Sorter. simpl. unfold exec_sort.
  by rewrite E, Eb.
Qed.

Lemma main_stops input0 c :
  input_ok input0 [] -> ~ (None ∈ entered input0) -> rtc step (initial input0) c -> sort_locked (at_sort c) = false ->
  exists c', rtc step c c' /\ main_over (at_main c') = true.
Proof.
  intros Hin Hnull. remember (main_rank c) as n eqn:En. revert c En.
  induction (lt_wf n) as [n _ IH]. intros c -> Hc Hs. destruct (main_over (at_main c)) eqn:Em; [by exists c|].
  destruct (main_moves c (inv_reachable _ _ Hin Hc) (no_null _ _ _ Hnull Hc) Hs Em) as (c1 & He & Hs1 & Hlt).
  destruct (IH _ Hlt c1 eq_refl) as (c' & Hc' & Hm'); [by eapply (step_reach _ _ Main)|by rewrite Hs1|].
  exists c'. split; [|done]. eapply rtc_l; [|exact Hc']. by exists Main.
Qed.

Lemma list_inv_count input0 c l :
  progress input0 c -> list_inv c l -> main_over (at_main c) = true -> length l = length (entered input0).
Proof.
  intros [Ht _ Ho] [_ _ Hl _ _ _] Hm. rewrite Ho, app_nil_r in Ht by (by right).
  rewrite <- Ht, <- (Permutation_length Hl). unfold texts. by rewrite length_map.
Qed.

Lemma sort_stops input0 c :
  input_ok input0 [] -> ~ (None ∈ entered input0) -> (2 <= length (entered input0))%nat ->
  rtc step (initial input0) c -> at_main c = MJoin ->
  exists c', rtc step c c' /\ at_main c' = MJoin /\ at_sort c' = SEnd.
Proof.
  intros Hin Hnull Hn. remember (sort_rank (at_sort c)) as n eqn:En. revert c En.
  induction (lt_wf n) as [n _ IH]. intros c -> Hc Hm.
  destruct (decide (at_sort c = SEnd)) as [Hs|Hs]; [by exists c|].
  pose proof (inv_reachable _ _ Hin Hc) as Hi.
  destruct (inv_list c Hi) as [l Hli]; [by rewrite Hm|].
  pose proof (list_inv_count _ _ _ (progress_reachable _ _ Hc) Hli) as Hlen. rewrite Hm in Hlen.
  destruct (sort_moves c l Hi (no_null _ _ _ Hnull Hc) Hli) as (c1 & He & Hm1 & Hlt & _); [rewrite Hlen; [lia|done]|done|done|].
  destruct (IH _ Hlt c1 eq_refl) as (c' & Hc' & ?); [by eapply (step_reach _ _ Sorter)|done|].
  exists c'. split; [|done]. eapply rtc_l; [|exact Hc']. by exists Sorter.
Qed.

(** The sorting thread does not leave the test for two nodes while the list
    has fewer. *)
Lemma waits_stuck input0 c c' :
  input_ok input0 [] -> (length (entered input0) < 2)%nat -> rtc step (initial input0) c ->
  at_sort c = SWait -> rtc step c c' -> at_sort c' = SWait.
Proof.
  intros Hin Hn Hc Hw Hcc. revert Hcc. apply (rtc_ind_r (fun c' => at_sort c' = SWait)); [done|].
  intros c1 c2 H1 [t He] Hw1. assert (Hr : rtc step (initial input0) c1) by (by etrans).
  destruct t; simpl in He.
  - unfold exec_main in He. destruct (at_main c1); repeat case_match; simplify_eq; try done.
    + destruct (work _ _) as [[? ?]|]; simpl in He; by simplify_eq.
    + destruct (list_free _ _) as [[? ?]|]; simpl in He; by simplify_eq.
  - unfold exec_sort in He. rewrite Hw1 in He.
    pose proof (inv_reachable _ _ Hin Hr) as Hi. destruct (inv_list c1 Hi) as [l Hli].
    { intros Hm. destruct Hi as [_ _ _ _ _ Hj _ _]. rewrite Hj in Hw1 by (by right). done. }
    assert (Hlen : (length l < 2)%nat).
    { destruct (progress_reachable _ _ Hr) as [Ht _ _]. destruct Hli as [_ _ Hl _ _ _].
      apply Permutation_length in Hl. unfold texts in Hl. rewrite length_map in Hl.
      rewrite Hl. rewrite <- Ht, length_app in Hn. lia. }
    destruct Hli as [[Hlk _ _] _ _ _ _ _]. rewrite (proj2 Hlk) in He.
    destruct l as [|h [|y l]]; [done| |simpl in Hlen; lia]. cbn [hdZ] in He.
    destruct (kept_node _ [] h [] Hlk) as [Hh E]. rewrite (proj2 (Z.eqb_neq _ _) Hh), E in He. done.
Qed.

(** C36: After two lines or more, none of whose copies is refused, the program
    can end from every state it reaches, with all nodes and all copies of the
    lines freed; after fewer, once the sorting thread has begun to wait for two
    nodes it waits for ever, and so does [main], which joins it. *)
Theorem mutex_list_ends input c :
  input_ok input [] -> rtc step (initial input) c ->
  (~ (None ∈ entered input) -> (2 <= length (entered input))%nat ->
     exists c', rtc step c c' /\ at_main c' = MDone /\ nodes (heap c') = ∅ /\ strs c' = ∅) /\
  ((length (entered input) < 2)%nat -> at_sort c = SWait ->
     forall c', rtc step c c' -> at_main c' <> MDone).
Proof.
  intros Hin Hc. split.
  - intros Hnull Hn. destruct (sort_leaves _ _ Hin Hnull Hc) as (c1 & H1 & Hs1).
    destruct (main_stops input c1 Hin Hnull) as (c2 & H2 & Hm2); [by etrans|done|].
    assert (Hc2 : rtc step (initial input) c2) by (etrans; [exact Hc|by etrans]).
    assert (exists c3, rtc step c2 c3 /\ (at_main c3 = MFree \/ at_main c3 = MDone)) as (c3 & H3 & Hm3).
    { destruct (at_main c2) eqn:Em; try done; [|exists c2; split; [apply rtc_refl|by auto]..].
      destruct (sort_stops input c2 Hin Hnull Hn Hc2 Em) as (c' & H' & Hm' & Hs'). eexists. split.
      - eapply rtc_r; [exact H'|]. exists Main. simpl. unfold exec_main. rewrite Hm'. by rewrite decide_True.
      - by left. }
    assert (Hc3 : rtc step (initial input) c3) by (by etrans).
    assert (exists c4, rtc step c3 c4 /\ at_main c4 = MDone) as (c4 & H4 & Hm4).
    { destruct Hm3 as [Em|Em]; [|by exists c3].
      pose proof (inv_exec_main c3 (inv_reachable _ _ Hin Hc3)) as Hr. rewrite (no_null _ _ _ Hnull Hc3) in Hr.
      destruct Hr as (r & Hr & _). pose proof Hr as Hr'.
      unfold exec_main in Hr. rewrite Em in Hr. destruct (list_free _ _) as [[? h]|]; [|done].
      simpl in Hr. simplify_eq. eexists. split; [apply rtc_once; by exists Main|done]. }
    exists c4. split; [etrans; [exact H1|]; etrans; [exact H2|]; by etrans|]. split; [done|].
    apply (inv_freed c4); [|done]. apply (inv_reachable input); [done|]. by etrans.
  - intros Hn Hw c' Hcc Hm. pose proof (waits_stuck _ _ _ Hin Hn Hc Hw Hcc) as Hw'.
    rewrite (inv_join c') in Hw'; [done| |by right]. apply (inv_reachable input); [done|]. by etrans.
Qed.

(** *** Witnesses *)

(** The threads take turns as [ts] says. *)
Fixpoint run (ts : list tid) (c : config) : outcome config :=
  match ts with
  | [] => Ok c
  | t :: ts =>
      let? r := exec t c in
      match r with Some c => run ts c | None => Fault Blocked end
  end.

Lemma run_reach ts : forall c c', run ts c = Ok c' -> rtc step c c'.
Proof.
  induction ts as [|t ts IH]; intros c c' H; simpl in H; [by simplify_eq|].
  destruct (exec t c) as [[c1|]|] eqn:E; try done. simpl in H. eapply rtc_l; [by exists t|by apply IH].
Qed.

Definition two_lines : list line_in :=
  [mk_in (bytes_of "b") 16 true; mk_in (bytes_of "c") 32 true; mk_in [] 0 true; mk_in (bytes_of "c_exit") 0 true].

Lemma two_lines_ok : input_ok two_lines [].
Proof.
  split; [|split].
  - repeat constructor; simpl; lia.
  - apply (bool_decide_unpack _). vm_compute. done.
  - set_solver.
Qed.

(** Both lines entered, sorted and printed. *)
Definition turns : list tid :=
  [Main; Main; Main; Main; Sorter; Main; Main; Main; Main; Sorter; Sorter; Main; Sorter; Sorter; Main; Main].

Definition printed : config :=
  match run turns (initial two_lines) with Ok c => c | Fault _ => initial [] end.

Lemma printed_reach : rtc step (initial two_lines) printed.
Proof. apply (run_reach turns). vm_compute. reflexivity. Qed.

(** The copy of the second line is refused; the sorting thread takes the lock. *)
Definition null_line : list line_in := [mk_in (bytes_of "b") 16 true; mk_in (bytes_of "c") 32 false].

Definition null_turns : list tid :=
  [Main; Main; Main; Main; Sorter; Main; Main; Main; Main; Sorter; Sorter].

Definition sorting_null : config :=
  match run null_turns (initial null_line) with Ok c => c | Fault _ => initial [] end.

Lemma mutex_list_safe_witness :
  (events printed = [Added (bytes_of "b"); Added (bytes_of "c"); Printed [Some (bytes_of "b"); Some (bytes_of "c")]] /\
   prints_all (events printed) /\ exists l, kept (heap printed) l /\ texts (heap printed) l ≡ₚ put (events printed)) /\
  exec Sorter sorting_null = Fault NullDeref.
Proof.
  split.
  - destruct (mutex_list_safe two_lines printed two_lines_ok printed_reach) as (_ & _ & Hp & Hl & _).
    split; [vm_compute; reflexivity|]. split; [exact Hp|].
    destruct Hl as (l & H1 & H2 & _); [vm_compute; discriminate|]. by exists l.
  - refine (proj1 (proj1 (mutex_list_safe null_line sorting_null _ _) Sorter)).
    + split; [|split].
      * repeat constructor; simpl; lia.
      * apply (bool_decide_unpack _). vm_compute. done.
      * set_solver.
    + apply (run_reach null_turns). vm_compute. reflexivity.
Defined.

Lemma mutex_list_ends_witness :
  (exists c', rtc step printed c' /\ at_main c' = MDone /\ nodes (heap c') = ∅ /\ strs c' = ∅) /\
  forall c c', run [Sorter] (initial []) = Ok c -> rtc step c c' -> at_main c' <> MDone.
Proof.
  split.
  - apply (mutex_list_ends two_lines printed two_lines_ok printed_reach).
    + apply (bool_decide_unpack _). vm_compute. done.
    + vm_compute. lia.
  - intros c c' Hr. apply (mutex_list_ends [] c).
    + split; [constructor|]. split; [constructor|set_solver].
    + exact (run_reach _ _ _ Hr).
    + simpl. lia.
    + vm_compute in Hr. by injection Hr as <-.
Defined.
