(* ===== verification/SortCond.v ===== *)
(** * SortCond: the sorted list with a mutex and a condition variable

    Models the two threads of src/src/pthreads-problems/problem-3/solution.c
    over the list of SortList: [main], which reads lines, and the sorting
    thread, with the mutex, the flag [cond_predicate] and the condition
    variable they share.  A call on the list between lock and unlock is one
    step, and so is the test of the sorting thread, which it makes without the
    mutex.  The copies of the lines are taken to be made; SortMutex has what a
    refused one leads to. *)

From S2P Require Import Prelude CInt CString Dll SortList SortMutex.
From Stdlib Require Import Sorting.Sorted.
Open Scope Z_scope.

Inductive mpc :=
| MRead      (* fgets, strcspn, the test for c_exit *)
| MLock      (* pthread_mutex_lock *)
| MTest      (* while (cond_predicate == 1); cond_predicate = 1 *)
| MBlocked   (* pthread_cond_wait *)
| MWork      (* print_list or add_to_tail *)
| MSignal    (* cond_predicate = 0; pthread_cond_signal *)
| MUnlock    (* pthread_mutex_unlock *)
| MDestroy   (* pthread_mutex_destroy, pthread_cond_destroy *)
| MFree      (* list_free *)
| MReturn    (* return res *)
| MDone.

Inductive spc :=
| SWait      (* while (fewer than two nodes) sleep(1) *)
| SLock      (* pthread_mutex_lock *)
| STest      (* while (cond_predicate == 1); cond_predicate = 1 *)
| SBlocked   (* pthread_cond_wait *)
| SSort      (* the do loop *)
| SSignal    (* cond_predicate = 0; pthread_cond_signal *)
| SUnlock.   (* pthread_mutex_unlock; sleep(5) *)

#[export] Instance mpc_eq_dec : EqDecision mpc.
Proof. solve_decision. Defined.
#[export] Instance spc_eq_dec : EqDecision spc.
Proof. solve_decision. Defined.

(** [cur_line] is [None] before the first line is read, [input] what [fgets]
    will read, without the newlines, and [count] the lines worked on so far. *)
Record config := mk_c {
  heap : lstate;
  owner : option tid;
  cond_predicate : bool;
  input : list cstr;
  cur_line : option cstr;
  count : nat;
  at_main : mpc;
  at_sort : spc;
  events : list event
}.

Definition main_to (c : config) (p : mpc) : config :=
  mk_c (heap c) (owner c) (cond_predicate c) (input c) (cur_line c) (count c) p (at_sort c) (events c).
Definition sort_to (c : config) (p : spc) : config :=
  mk_c (heap c) (owner c) (cond_predicate c) (input c) (cur_line c) (count c) (at_main c) p (events c).
Definition with_owner (c : config) (o : option tid) : config :=
  mk_c (heap c) o (cond_predicate c) (input c) (cur_line c) (count c) (at_main c) (at_sort c) (events c).
Definition with_heap (c : config) (h : lstate) : config :=
  mk_c h (owner c) (cond_predicate c) (input c) (cur_line c) (count c) (at_main c) (at_sort c) (events c).
Definition with_pred (c : config) (b : bool) : config :=
  mk_c (heap c) (owner c) b (input c) (cur_line c) (count c) (at_main c) (at_sort c) (events c).

(** [pthread_cond_signal]: the other thread, if it waits, goes on to take the
    mutex again. *)
Definition signal_main (c : config) : config :=
  if decide (at_main c = MBlocked) then main_to c MLock else c.
Definition signal_sort (c : config) : config :=
  if decide (at_sort c = SBlocked) then sort_to c SLock else c.

(** The body of [read_lines] with the flag set. *)
Definition work (line : cstr) (addr : Z) (h : lstate) : outcome (list event * lstate) :=
  if strcmp line (bytes_of "c_print") =? 0 then
    let? (r, h) := SortList.print_list (lst h) h in Ok ([Printed (snd r)], h)
  else
    let? (res, h) := SortList.add_to_tail addr true (Some line) h in
    Ok (if res =? 0 then [Added line] else [], h).

Section threads.

(** The answer of [malloc] to the request for a node in the [k]th round. *)
Context (malloc : nat -> Z).

(** At the end of the input [fgets] leaves [cur_line] as it is, which the code
    does not look at. *)
Definition exec_main (c : config) : outcome (option config) :=
  match at_main c with
  | MRead =>
      let '(line, rest) :=
        match input c with [] => (cur_line c, []) | l :: rest => (Some l, rest) end in
      let? l := of_option Indeterminate line in
      Ok (Some (mk_c (heap c) (owner c) (cond_predicate c) rest line (count c)
                     (if is_exit l then MDestroy else MLock) (at_sort c) (events c)))
  | MLock =>
      match owner c with
      | None => Ok (Some (with_owner (main_to c MTest) (Some Main)))
      | Some _ => Ok None
      end
  | MTest =>
      Ok (Some (if cond_predicate c then with_owner (main_to c MBlocked) None
                else with_pred (main_to c MWork) true))
  | MBlocked => Ok None
  | MWork =>
      let? l := of_option Indeterminate (cur_line c) in
      let? (evs, h) := work l (malloc (count c)) (heap c) in
      Ok (Some (mk_c h (owner c) (cond_predicate c) (input c) (cur_line c) (S (count c))
                     MSignal (at_sort c) (events c ++ evs)))
  | MSignal => Ok (Some (signal_sort (with_pred (main_to c MUnlock) false)))
  | MUnlock => Ok (Some (with_owner (main_to c MRead) None))
  | MDestroy =>
      (* a mutex that is locked must not be destroyed *)
      match owner c with
      | None => Ok (Some (main_to c MFree))
      | Some _ => Fault Indeterminate
      end
  | MFree => let? (_, h) := SortList.list_free (lst (heap c)) (heap c) in Ok (Some (with_heap (main_to c MReturn) h))
  | MReturn => Ok (Some (main_to c MDone))
  | MDone => Ok None
  end.

(** The return of [main] ends the process. *)
Definition exec_sort (c : config) : outcome (option config) :=
  if decide (at_main c = MDone) then Ok None
  else
    match at_sort c with
    | SWait =>
        let list := lst (heap c) in
        if list =? 0 then Ok None
        else
          let? (n, _) := node_at list (heap c) in
          Ok (if next n =? 0 then None else Some (sort_to c SLock))
    | SLock =>
        match owner c with
        | None => Ok (Some (with_owner (sort_to c STest) (Some Sorter)))
        | Some _ => Ok None
        end
    | STest =>
        Ok (Some (if cond_predicate c then with_owner (sort_to c SBlocked) None
                  else with_pred (sort_to c SSort) true))
    | SBlocked => Ok None
    | SSort => let? (_, h) := SortList.bubble_sort (heap c) in Ok (Some (with_heap (sort_to c SSignal) h))
    | SSignal => Ok (Some (signal_main (with_pred (sort_to c SUnlock) false)))
    | SUnlock => Ok (Some (with_owner (sort_to c SWait) None))
    end.

Definition exec (t : tid) : config -> outcome (option config) :=
  match t with Main => exec_main | Sorter => exec_sort end.

Definition step (c c' : config) : Prop := exists t, exec t c = Ok (Some c').

Definition initial (input : list cstr) : config :=
  mk_c (mk_l ∅ 0) None false input None 0 MRead SWait [].

(** ** Calls on the list *)

Lemma bubble_sort_same s : SortMutex.bubble_sort s = SortList.bubble_sort s.
Proof.
  unfold SortMutex.bubble_sort, SortList.bubble_sort. apply bind_ext. intros k s1. apply sort_rounds_same.
Qed.

(** [print_list] shows every line but the first. *)
Lemma print_list_rest s l :
  holds s l ->
  exists r first ls, SortList.print_list (lst s) s = Ok ((r, map Some ls), s) /\
    lines s l = first ++ ls /\ (length first <= 1)%nat.
Proof.
  intros [Hr _]. destruct (decide (1 < length l)%nat) as [Hlen|Hlen].
  - destruct (print_and_free s l Hr Hlen) as [-> _]. destruct l as [|h l]; [simpl in Hlen; lia|].
    exists 0, [key s h], (lines s l). done.
  - pose proof Hr as (Hc & Hl & _). unfold SortList.print_list. rewrite Hl.
    destruct l as [|h [|y l]]; [exists 1, [], []; split_and!; [done|done|simpl; lia]| |simpl in Hlen; lia]. cbn [hdZ].
    rewrite (proj2 (Z.eqb_neq _ _) (proj1 (chain_lk s [] h [] Hc))).
    destruct (rep_node s [] h [] Hr) as [Hn _]. run Hn.
    by exists 1, [key s h], [].
Qed.

Lemma add_to_tail_holds s l addr val :
  holds s l -> addr <> 0 -> ~ (addr ∈ l) -> is_cstr val ->
  exists s', SortList.add_to_tail addr true (Some val) s = Ok (0, s') /\
    holds s' (l ++ [addr]) /\ lines s' (l ++ [addr]) = lines s l ++ [val].
Proof.
  intros Hh Ha Hnew Hval. pose proof Hh as [Hr Hd].
  destruct (add_to_tail_appends s l addr val Hr Ha) as [(s' & Hs & Hr' & Hl & Hd') _];
    [by apply (holds_fresh s l)|done|].
  exists s'. split; [done|]. split; [|done]. split; [done|]. rewrite Hd', Hd, list_to_set_app_L. set_solver.
Qed.

(** ** Invariant *)

Definition main_locked (p : mpc) : bool :=
  match p with MTest | MWork | MSignal | MUnlock => true | _ => false end.
Definition sort_locked (p : spc) : bool :=
  match p with STest | SSort | SSignal | SUnlock => true | _ => false end.
Definition main_busy (p : mpc) : bool := match p with MWork | MSignal => true | _ => false end.
Definition sort_busy (p : spc) : bool := match p with SSort | SSignal => true | _ => false end.

(** [main] has left its loop. *)
Definition main_over (p : mpc) : bool :=
  match p with MDestroy | MFree | MReturn | MDone => true | _ => false end.

Definition sort_done (p : spc) : bool := match p with SSignal | SUnlock => true | _ => false end.

Definition added (evs : list event) : list cstr :=
  omap (fun e => match e with Added l => Some l | _ => None end) evs.

Lemma added_app e1 e2 : added (e1 ++ e2) = added e1 ++ added e2.
Proof. apply omap_app. Qed.

(** Every print shows the lines added before it but one. *)
Definition prints_but_one (evs : list event) : Prop :=
  forall e1 out e2, evs = e1 ++ Printed out :: e2 ->
    exists first ls, out = map Some ls /\ added e1 ≡ₚ first ++ ls /\ (length first <= 1)%nat.

Record list_inv (c : config) (l : list Z) : Prop := {
  li_holds : holds (heap c) l;
  li_lines : lines (heap c) l ≡ₚ added (events c);
  li_old : forall a, a ∈ l -> exists k, (k < count c)%nat /\ malloc k = a;
  li_ready : at_sort c <> SWait -> (2 <= length l)%nat;
  li_sorted : sort_done (at_sort c) = true -> StronglySorted (fun a b => strcmp a b <= 0) (lines (heap c) l)
}.

Record inv (c : config) : Prop := {
  inv_list : exists l, list_inv c l;
  inv_prints : prints_but_one (events c);
  inv_owner : owner c = if main_locked (at_main c) then Some Main
                        else if sort_locked (at_sort c) then Some Sorter else None;
  inv_excl : main_locked (at_main c) = true -> sort_locked (at_sort c) = false;
  inv_pred : cond_predicate c = main_busy (at_main c) || sort_busy (at_sort c);
  inv_awake : at_main c <> MBlocked /\ at_sort c <> SBlocked;
  inv_line : Forall is_cstr (input c) /\ (forall l, cur_line c = Some l -> is_cstr l) /\
             (input c = [] \/ at_main c <> MRead -> is_Some (cur_line c))
}.

Hypothesis malloc_fresh : forall i j, malloc i = malloc j -> malloc i <> 0 -> i = j.

Lemma prints_but_one_app evs evs' :
  prints_but_one evs ->
  (forall out, evs' = [Printed out] ->
     exists first ls, out = map Some ls /\ added evs ≡ₚ first ++ ls /\ (length first <= 1)%nat) ->
  (length evs' <= 1)%nat -> prints_but_one (evs ++ evs').
Proof.
  intros H H' Hlen e1 out e2 E. destruct evs' as [|e [|? ?]]; [|clear Hlen|simpl in Hlen; lia].
  - rewrite app_nil_r in E. by eapply H.
  - destruct e2 as [|e' e2 _] using rev_ind.
    + apply app_inj_tail in E as [-> ->]. by apply H'.
    + rewrite app_comm_cons, app_assoc in E. apply app_inj_tail in E as [-> _]. by eapply H.
Qed.

Lemma cond_work_ok line c l :
  list_inv c l -> is_cstr line -> sort_locked (at_sort c) = false ->
  exists evs h l', work line (malloc (count c)) (heap c) = Ok (evs, h) /\
    (length evs <= 1)%nat /\
    (forall out, evs = [Printed out] ->
       exists first ls, out = map Some ls /\ added (events c) ≡ₚ first ++ ls /\ (length first <= 1)%nat) /\
    list_inv (mk_c h (owner c) (cond_predicate c) (input c) (cur_line c) (S (count c)) MSignal
                   (at_sort c) (events c ++ evs)) l'.
Proof.
  intros [Hh Hl Hold Hrd Hso] Hcs Hs.
  assert (Hold' : forall a, a ∈ l -> exists k, (k < S (count c))%nat /\ malloc k = a).
  { intros a Ha. destruct (Hold a Ha) as (k & ? & ?). exists k. split; [lia|done]. }
  unfold work. destruct (strcmp line _ =? 0).
  - destruct (print_list_rest _ _ Hh) as (r & first & ls & Hp & Hfl & Hlen). rewrite Hp. simpl.
    eexists _, _, l. split; [done|]. split; [simpl; lia|]. split.
    + intros out [= <-]. exists first, ls. by rewrite <- Hl, Hfl.
    + split; simpl; try done. by rewrite added_app, app_nil_r.
  - destruct (Z.eq_dec (malloc (count c)) 0) as [Ha|Ha].
    + rewrite Ha. eexists [], _, l. split; [done|]. split; [simpl; lia|]. split; [done|].
      split; cbn [heap count at_sort events]; try done. by rewrite app_nil_r.
    + destruct (add_to_tail_holds _ l (malloc (count c)) line Hh Ha) as (h & Hadd & Hh' & Hl'); [|done|].
      { intros Hin. destruct (Hold _ Hin) as (k & Hk & E). apply malloc_fresh in E; [lia|congruence]. }
      rewrite Hadd. simpl. eexists _, h, (l ++ [malloc (count c)]). split; [done|]. split; [simpl; lia|].
      split; [done|]. split; cbn [heap count at_sort events]; try done.
      * by rewrite Hl', added_app, Hl.
      * intros a [Hal| ->%list_elem_of_singleton]%elem_of_app; [by apply Hold'|]. exists (count c). split; [lia|done].
      * intros H. specialize (Hrd H). rewrite length_app. lia.
      * intros H. exfalso. by destruct (at_sort c).
Qed.

Lemma cond_list_inv_to c l o b i cl m p :
  list_inv c l ->
  (p <> SWait -> (2 <= length l)%nat) ->
  (sort_done p = true -> StronglySorted (fun a b => strcmp a b <= 0) (lines (heap c) l)) ->
  list_inv (mk_c (heap c) o b i cl (count c) m p (events c)) l.
Proof. intros [? ? ? ? ?] Hp Hs. by split. Qed.

Lemma cond_inv_exec_main c :
  inv c -> main_over (at_main c) = false ->
  exists r, exec_main c = Ok r /\ forall c', r = Some c' -> inv c'.
Proof.
  intros [[l Hi] Hp Ho Hx Hpr [Hw1 Hw2] (Hin & Hcl & Hsome)] Hover. unfold exec_main.
  assert (Hto : forall o b i cl m, list_inv (mk_c (heap c) o b i cl (count c) m (at_sort c) (events c)) l)
    by (intros; apply cond_list_inv_to; [done|apply Hi..]).
  destruct (at_main c) eqn:Hm; try done; simpl in *.
  - assert (exists line rest, match input c with [] => (cur_line c, []) | l :: rest => (Some l, rest) end = (Some line, rest)
      /\ is_cstr line /\ Forall is_cstr rest) as (line & rest & -> & Hl & Hrest).
    { destruct (input c) as [|l0 rest]; [destruct (Hsome (or_introl eq_refl)) as [l0 E]; rewrite E; naive_solver|].
      apply Forall_cons in Hin as [? ?]. by exists l0, rest. }
    simpl. eexists. split; [done|]. intros c' [= <-]. split; simpl.
    + exists l; apply Hto.
    + done.
    + by destruct (is_exit line).
    + by destruct (is_exit line).
    + by destruct (is_exit line).
    + by destruct (is_exit line).
    + naive_solver.
  - destruct (owner c) eqn:How; [by exists None|]. eexists. split; [done|]. intros c' [= <-].
    split; simpl; try done; [exists l; apply Hto|by destruct (sort_locked (at_sort c))|naive_solver].
  - specialize (Hx eq_refl). assert (sort_busy (at_sort c) = false) as Hb by (by destruct (at_sort c)).
    rewrite Hpr, Hb. eexists. split; [done|]. intros c' [= <-]. split; simpl; try done; [exists l; apply Hto|naive_solver].
  - destruct Hsome as [line Hline]; [by right|]. rewrite Hline. simpl.
    destruct (cond_work_ok line c l Hi (Hcl _ Hline) (Hx eq_refl)) as (evs & h & l' & -> & H1 & H2 & H3).
    simpl. eexists. split; [done|]. intros c' [= <-]. rewrite Hline in *. split; simpl; try done.
    + by exists l'.
    + by apply prints_but_one_app.
  - eexists. split; [done|]. intros c' [= <-]. unfold signal_sort. simpl. rewrite decide_False by done.
    specialize (Hx eq_refl). split; simpl; try done; [exists l; apply Hto|by destruct (at_sort c)|naive_solver].
  - eexists. split; [done|]. intros c' [= <-]. split; simpl; try done; [exists l; apply Hto|by rewrite Hx|naive_solver].
Qed.

Lemma cond_inv_exec_sort c :
  inv c -> main_over (at_main c) = false \/ at_main c = MDestroy \/ at_main c = MFree ->
  exists r, exec_sort c = Ok r /\ forall c', r = Some c' -> inv c'.
Proof.
  intros [[l Hi] Hp Ho Hx Hpr [Hw1 Hw2] Hin] Hover. unfold exec_sort.
  rewrite decide_False by (intros E; rewrite E in Hover; by destruct Hover as [?|[?|?]]). pose proof Hi as [Hh Hli Hold Hrd Hso].
  assert (Hfree : sort_locked (at_sort c) = true -> main_locked (at_main c) = false).
  { intros H. destruct (main_locked (at_main c)); [|done]. by rewrite Hx in H. }
  assert (Hidle : main_locked (at_main c) = false -> main_busy (at_main c) = false) by (by destruct (at_main c)).
  destruct (at_sort c) eqn:Hs; try done; simpl in *.
  - pose proof Hh as [Hrep _]. pose proof Hrep as (Hc & Hlst & _). rewrite Hlst.
    destruct l as [|h l]; [by exists None|]. cbn [hdZ].
    rewrite (proj2 (Z.eqb_neq _ _) (proj1 (chain_lk _ [] h l Hc))).
    destruct (rep_node _ [] h l Hrep) as [-> _]. simpl.
    destruct l as [|y l]; [by exists None|]. simpl.
    rewrite (proj2 (Z.eqb_neq _ _) (proj1 (chain_lk _ [h] y l Hc))).
    eexists. split; [done|]. intros c' [= <-]. split; simpl; try done.
    exists (h :: y :: l). apply (cond_list_inv_to c); [done|simpl; lia|done].
  - destruct (owner c) eqn:How; [by exists None|]. eexists. split; [done|]. intros c' [= <-].
    assert (main_locked (at_main c) = false) as Hml by (by destruct (main_locked (at_main c))).
    split; simpl; try done; [|by rewrite Hml..].
    exists l. apply (cond_list_inv_to c); [done|intros _; by apply Hrd|done].
  - specialize (Hfree eq_refl). rewrite Hpr, Hidle by done. simpl. eexists. split; [done|]. intros c' [= <-].
    split; simpl; try done; [|by rewrite Hidle].
    exists l. apply (cond_list_inv_to c); [done|intros _; by apply Hrd|done].
  - destruct (bubble_sort_holds _ _ Hh) as (h & l' & Hb & Hh' & Hperm & Hlines & _ & Hsort);
      [intros ->; specialize (Hrd ltac:(done)); simpl in Hrd; lia|].
    rewrite bubble_sort_same in Hb. rewrite Hb. simpl. eexists. split; [done|]. intros c' [= <-].
    split; simpl; try done.
    exists l'. split; cbn [heap count at_sort events]; try done.
    + by rewrite Hlines.
    + intros a Ha. rewrite Hperm in Ha. by apply Hold.
    + intros _. rewrite Hperm. by apply Hrd.
  - specialize (Hfree eq_refl). eexists. split; [done|]. intros c' [= <-]. unfold signal_main. simpl.
    rewrite decide_False by done. split; simpl; try done; [|by rewrite Hidle].
    exists l. apply (cond_list_inv_to c); [done|intros _; by apply Hrd|intros _; by apply Hso].
  - specialize (Hfree eq_refl). eexists. split; [done|]. intros c' [= <-].
    split; simpl; try done; [|by rewrite Hfree]. exists l. by apply (cond_list_inv_to c).
Qed.

Lemma free_loop_lst fuel : forall p s u s', SortList.free_loop fuel p s = Ok (u, s') -> lst s' = lst s.
Proof.
  induction fuel as [|fuel IH]; intros p s u s'; simpl.
  - destruct (p =? 0); [by intros [= _ <-]|done].
  - destruct (p =? 0) eqn:Ep; [by intros [= _ <-]|]. unfold free. rewrite Ep. unfold bind, node_at. rewrite Ep.
    destruct (nodes s !! p) eqn:E; [|done]. rewrite E. unfold modify. intros H. by apply IH in H.
Qed.

Lemma list_free_holds s l :
  holds s l -> exists r s', SortList.list_free (lst s) s = Ok (r, s') /\ nodes s' = ∅.
Proof.
  intros [Hr Hdom]. pose proof Hr as (Hc & Hl & _). unfold SortList.list_free. rewrite Hl.
  destruct l as [|h l].
  { exists 1, s. split; [done|]. by apply dom_empty_iff_L. }
  cbn [hdZ]. rewrite (proj2 (Z.eqb_neq _ _) (proj1 (chain_lk s [] h l Hc))).
  rewrite (bind_ok (gets _) _ s _ s eq_refl).
  destruct (free_loop_run (size (nodes s)) s (h :: l) Hc (rep_length _ _ Hc)) as (s' & Hrun & H1 & H2).
  exists 0, s'. split; [by run Hrun|]. apply map_empty. intros a.
  destruct (decide (a ∈ h :: l)) as [Ha|Ha]; [by apply H1|]. rewrite H2 by done.
  apply not_elem_of_dom. rewrite Hdom. by rewrite elem_of_list_to_set.
Qed.

Lemma list_free_keeps s l :
  holds s l -> exists r s', SortList.list_free (lst s) s = Ok (r, s') /\ nodes s' = ∅ /\ lst s' = lst s.
Proof.
  intros Hh. destruct (list_free_holds _ _ Hh) as (r & s' & Hf & Hn). exists r, s'. split_and!; try done.
  unfold SortList.list_free in Hf. destruct (lst s =? 0); [by injection Hf as _ <-|].
  rewrite (bind_ok (gets _) _ s _ s eq_refl) in Hf. apply bind_inv in Hf as (u & s1 & Hf & [= _ <-]).
  by eapply free_loop_lst.
Qed.

(** Once [main] has freed the list there is none, but [list] still points to
    its first node. *)
Definition freed (p : mpc) : bool := match p with MReturn | MDone => true | _ => false end.

Definition state_inv (c : config) : Prop :=
  if freed (at_main c) then nodes (heap c) = ∅ /\ (added (events c) <> [] -> lst (heap c) <> 0)
  else inv c.

Lemma main_reads c c' :
  at_main c = MRead -> exec_main c = Ok (Some c') ->
  exists l, cur_line c' = Some l /\
    (input c = l :: input c' \/ input c = [] /\ input c' = [] /\ cur_line c = Some l) /\
    at_main c' = if is_exit l then MDestroy else MLock.
Proof.
  intros Em He. unfold exec_main in He. rewrite Em in He.
  destruct (input c) as [|l rest]; [destruct (cur_line c) as [l|]; [|done]|]; simpl in He;
    injection He as <-; exists l; naive_solver.
Qed.

Lemma main_works c c' :
  main_over (at_main c) = false -> at_main c <> MRead -> exec_main c = Ok (Some c') ->
  input c' = input c /\ cur_line c' = cur_line c /\ main_over (at_main c') = false.
Proof.
  intros Hm Hr He. unfold exec_main in He. destruct (at_main c) eqn:Em; try done.
  - destruct (owner c); [done|]. by injection He as <-.
  - destruct (cond_predicate c); by injection He as <-.
  - destruct (cur_line c) as [l|] eqn:El; [|done]. simpl in He.
    destruct (work _ _ _) as [[evs h]|]; [|done]. simpl in He. by injection He as <-.
  - injection He as <-. unfold signal_sort. by case_decide.
  - by injection He as <-.
Qed.

Lemma state_inv_main c c' : state_inv c -> exec_main c = Ok (Some c') -> state_inv c'.
Proof.
  unfold state_inv. intros Hi He. destruct (main_over (at_main c)) eqn:Hm.
  - unfold exec_main in He. destruct (at_main c) eqn:Em; try done; simpl in Hi.
    + destruct (owner c) eqn:Eo; [done|]. injection He as <-. simpl.
      destruct Hi as [[l Hl] Hp Ho Hx Hpr [Hw1 Hw2] (Hin & Hcl & Hsome)]. rewrite Em in *.
      split; simpl; try done; [|naive_solver].
      exists l. apply (cond_list_inv_to c); [done|apply Hl..].
    + destruct Hi as [[l [Hh Hl _ _ _]] _ _ _ _ _ _].
      destruct (list_free_keeps _ _ Hh) as (r & s' & Hf & Hn & Hlst). rewrite Hf in He. simpl in He.
      injection He as <-. simpl. split; [done|]. rewrite Hlst. intros Hne.
      pose proof Hh as [(Hc & -> & _) _]. destruct l as [|h l].
      * exfalso. apply Hne. by apply Permutation_nil.
      * apply (chain_lk _ [] h l Hc).
    + by injection He as <-.
  - assert (Hf : freed (at_main c) = false) by (by destruct (at_main c)). rewrite Hf in Hi.
    destruct (cond_inv_exec_main c Hi Hm) as (r & Hr & H). rewrite Hr in He. simplify_eq.
    specialize (H _ eq_refl). destruct (freed (at_main c')) eqn:Hf'; [exfalso|done].
    destruct (decide (at_main c = MRead)) as [Em|Em].
    + destruct (main_reads c c' Em Hr) as (l & _ & _ & E). rewrite E in Hf'. by destruct (is_exit l).
    + destruct (main_works c c' Hm Em Hr) as (_ & _ & E). by destruct (at_main c').
Qed.

Lemma sort_keeps c c' :
  exec_sort c = Ok (Some c') ->
  input c' = input c /\ cur_line c' = cur_line c /\ (at_main c' = at_main c \/ at_main c' = MLock).
Proof.
  intros He. unfold exec_sort in He. case_decide; [done|]. destruct (at_sort c); try done.
  - case_match; [done|]. destruct (node_at _ _) as [[n ?]|]; [|done]. simpl in He.
    case_match; simplify_eq. naive_solver.
  - case_match; simplify_eq. naive_solver.
  - case_match; simplify_eq; naive_solver.
  - destruct (SortList.bubble_sort _) as [[? ?]|]; simpl in He; simplify_eq. naive_solver.
  - injection He as <-. unfold signal_main. case_decide; naive_solver.
  - injection He as <-. naive_solver.
Qed.

Lemma state_inv_sort c c' : state_inv c -> exec_sort c = Ok (Some c') -> state_inv c'.
Proof.
  unfold state_inv. intros Hi He. destruct (freed (at_main c)) eqn:Hf.
  - unfold exec_sort in He. case_decide as Hd; [done|]. destruct Hi as [Hn Hl].
    destruct (at_sort c) eqn:Es; simplify_eq.
    + case_match; [done|]. unfold node_at in He. rewrite Hn, lookup_empty in He. by destruct (_ =? 0).
    + destruct (owner c); [done|]. injection He as <-. simpl. by rewrite Hf.
    + destruct (cond_predicate c); simpl; by rewrite Hf.
    + unfold SortList.bubble_sort in He. rewrite (bind_ok (gets _) _ (heap c) _ (heap c) eq_refl) in He.
      cbn [SortList.sort_rounds] in He.
      rewrite !(bind_ok (gets _) _ (heap c) _ (heap c) eq_refl), Hn in He.
      rewrite map_size_empty in He. cbn [SortList.pass] in He. unfold bind, node_at in He.
      rewrite Hn, lookup_empty in He. by destruct (_ =? 0).
    + unfold signal_main. simpl. case_decide as Hb; simpl; [by rewrite Hb in Hf|by rewrite Hf].
    + simpl. by rewrite Hf.
  - destruct (cond_inv_exec_sort c Hi) as (r & Hr & H); [destruct (at_main c); naive_solver|].
    rewrite Hr in He. simplify_eq. specialize (H _ eq_refl).
    destruct (freed (at_main c')) eqn:Hf'; [exfalso|done].
    destruct (sort_keeps _ _ Hr) as (_ & _ & [E|E]); rewrite E in Hf'; [congruence|done].
Qed.

Lemma state_inv_reachable input c :
  Forall is_cstr input -> input <> [] -> rtc step (initial input) c -> state_inv c.
Proof.
  intros Hin Hne. apply (rtc_ind_r (fun c => state_inv c)).
  - split; simpl; try done.
    + exists []. split; simpl; try done; [|set_solver]. split; [|by apply set_eq].
      split; [split; [done|by apply NoDup_nil]|]. split; [done|constructor].
    + by intros [|] ? ?.
    + split; [done|]. split; [done|]. by intros [?|?].
  - intros c1 c2 _ [[] Ht] Hi; [by eapply state_inv_main|by eapply state_inv_sort].
Qed.

(** Whatever the interleaving, until [main] leaves its loop no access goes
    through a null or a freed pointer, the two threads are never both between
    lock and unlock and never wait for the condition variable, the list holds
    the lines entered so far, in order when the sorting thread is done with
    it, and every print shows all of them but one. *)
Theorem cond_list_safe input c :
  Forall is_cstr input -> input <> [] -> rtc step (initial input) c -> main_over (at_main c) = false ->
  (forall t, exists r, exec t c = Ok r) /\
  ~ (main_locked (at_main c) = true /\ sort_locked (at_sort c) = true) /\
  at_main c <> MBlocked /\ at_sort c <> SBlocked /\
  prints_but_one (events c) /\
  exists l, holds (heap c) l /\ lines (heap c) l ≡ₚ added (events c) /\
    (sort_done (at_sort c) = true -> StronglySorted (fun a b => strcmp a b <= 0) (lines (heap c) l)).
Proof.
  intros Hin Hne Hreach Hm. pose proof (state_inv_reachable _ _ Hin Hne Hreach) as Hi.
  unfold state_inv in Hi. replace (freed (at_main c)) with false in Hi by (by destruct (at_main c)).
  split.
  { intros []; [destruct (cond_inv_exec_main c Hi Hm) as (r & Hr & _)|
                destruct (cond_inv_exec_sort c Hi (or_introl Hm)) as (r & Hr & _)]; by exists r. }
  destruct Hi as [[l [H1 H2 _ _ H3]] Hp Ho Hx Hpr [Hw1 Hw2] _].
  split_and!; try done; [intros [E1 E2]; by rewrite Hx in E2|]. by exists l.
Qed.

(** [main] does not join the sorting thread: when it has freed a list with
    lines in it and has not yet returned, the sorting thread's next look at the
    list is an access to a freed node. *)
Theorem cond_list_freed input c :
  Forall is_cstr input -> input <> [] -> rtc step (initial input) c -> at_main c = MReturn ->
  nodes (heap c) = ∅ /\
  (added (events c) <> [] -> at_sort c = SWait -> exec_sort c = Fault Dangling).
Proof.
  intros Hin Hne Hreach Hm. pose proof (state_inv_reachable _ _ Hin Hne Hreach) as Hi.
  unfold state_inv in Hi. rewrite Hm in Hi. destruct Hi as [Hn Hl]. split; [done|]. intros Hadd Hs.
  specialize (Hl Hadd). unfold exec_sort. rewrite decide_False by congruence.
  rewrite Hs, (proj2 (Z.eqb_neq _ _) Hl). unfold node_at.
  by rewrite (proj2 (Z.eqb_neq _ _) Hl), Hn, lookup_empty.
Qed.

(** An input without the line c_exit never ends the loop: when it is used up
    the last line is taken again. *)
Theorem cond_list_eof lines_in c :
  Forall (fun l => is_exit l = false) lines_in -> rtc step (initial lines_in) c -> main_over (at_main c) = false.
Proof.
  intros Hin Hreach.
  enough (H : Forall (fun l => is_exit l = false) (input c) /\
              (forall l, cur_line c = Some l -> is_exit l = false) /\ main_over (at_main c) = false) by apply H.
  revert Hreach. apply (rtc_ind_r (fun c => Forall (fun l => is_exit l = false) (input c) /\
    (forall l, cur_line c = Some l -> is_exit l = false) /\ main_over (at_main c) = false)); [done|].
  intros c1 c2 _ [t Ht] (H1 & H2 & H3). destruct t; simpl in Ht.
  - destruct (decide (at_main c1 = MRead)) as [Em|Em].
    + destruct (main_reads _ _ Em Ht) as (l & -> & Hl & ->).
      assert (is_exit l = false /\ Forall (fun l => is_exit l = false) (input c2)) as [El Hrest].
      { destruct Hl as [E|(_ & -> & E)]; [by rewrite E in H1; apply Forall_cons in H1|by split; [apply H2|]]. }
      rewrite El. naive_solver.
    + destruct (main_works _ _ H3 Em Ht) as (-> & -> & E). done.
  - destruct (sort_keeps _ _ Ht) as (-> & -> & E). split_and!; [done|done|].
    destruct E as [-> | ->]; [done|done].
Qed.
End threads.

(** ** Runs *)

(** The threads take turns as [ts] says. *)
Fixpoint run_turns (malloc : nat -> Z) (ts : list tid) (c : config) : outcome config :=
  match ts with
  | [] => Ok c
  | t :: ts =>
      let? r := exec malloc t c in
      match r with Some c => run_turns malloc ts c | None => Fault Blocked end
  end.

Lemma run_turns_reach malloc ts : forall c c', run_turns malloc ts c = Ok c' -> rtc (step malloc) c c'.
Proof.
  induction ts as [|t ts IH]; intros c c' H; simpl in H; [by simplify_eq|].
  destruct (exec malloc t c) as [[c1|]|] eqn:E; try done. simpl in H. eapply rtc_l; [by exists t|by apply IH].
Qed.

Definition sixteens (k : nat) : Z := 16 * Z.of_nat (S k).

Lemma sixteens_fresh i j : sixteens i = sixteens j -> sixteens i <> 0 -> i = j.
Proof. unfold sixteens. lia. Qed.

Definition typed : list cstr := [bytes_of "b"; bytes_of "a"; bytes_of "c_print"; bytes_of "c_exit"].

Lemma typed_ok : Forall is_cstr typed.
Proof. repeat constructor; simpl; lia. Qed.

(** Two lines entered, sorted, and one of them printed. *)
Definition to_print : list tid := replicate 12 Main ++ replicate 6 Sorter ++ replicate 6 Main.

Definition after_print : config :=
  match run_turns sixteens to_print (initial typed) with Ok c => c | Fault _ => initial [] end.

Lemma cond_list_safe_witness :
  events after_print = [Added (bytes_of "b"); Added (bytes_of "a"); Printed [Some (bytes_of "b")]] /\
  (forall t, exists r, exec sixteens t after_print = Ok r) /\
  exists l, holds (heap after_print) l /\ lines (heap after_print) l ≡ₚ [bytes_of "b"; bytes_of "a"].
Proof.
  split; [vm_compute; reflexivity|].
  destruct (cond_list_safe sixteens sixteens_fresh typed after_print typed_ok ltac:(done)) as (H1 & _ & _ & _ & _ & H2).
  - apply (run_turns_reach _ to_print). vm_compute. reflexivity.
  - vm_compute. reflexivity.
  - split; [exact H1|]. destruct H2 as (l & H2 & H3 & _). by exists l.
Defined.

(** [main] frees the list while the sorting thread sleeps. *)
Definition after_free : config :=
  match run_turns sixteens (to_print ++ replicate 3 Main) (initial typed) with
  | Ok c => c | Fault _ => initial []
  end.

Lemma cond_list_freed_witness : exec_sort after_free = Fault Dangling.
Proof.
  apply (cond_list_freed sixteens sixteens_fresh typed after_free typed_ok ltac:(done)).
  - apply (run_turns_reach _ (to_print ++ replicate 3 Main)). vm_compute. reflexivity.
  - vm_compute. reflexivity.
  - vm_compute. discriminate.
  - vm_compute. reflexivity.
Defined.

(** The line of an input that ends without c_exit is entered three times. *)
Lemma cond_list_eof_witness :
  exists c, run_turns sixteens (replicate 18 Main) (initial [bytes_of "a"]) = Ok c /\
    added (events c) = [bytes_of "a"; bytes_of "a"; bytes_of "a"] /\ main_over (at_main c) = false.
Proof.
  eexists. split; [vm_compute; reflexivity|]. split; [reflexivity|].
  apply (cond_list_eof sixteens [bytes_of "a"]).
  - by repeat constructor.
  - apply (run_turns_reach _ (replicate 18 Main)). vm_compute. reflexivity.
Defined.
