(* ===== verification/SortRW.v ===== *)
(** * SortRW: the sorted list with a lock for readers and writers

    Models src/src/pthreads-problems/problem-3/solution_rw.c, whose list
    functions are those of solution_only_mutex.c (SortMutex).  The sections of
    [main] between lock and unlock, and the exchange of two nodes, are one step
    each; the sorting thread reads the list, and moves its head, without the
    lock. *)

From S2P Require Import Prelude CInt CString Dll SortList SortMutex.
Open Scope Z_scope.

Inductive mpc :=
| MRead      (* a line: printed under rdlock or added under wrlock *)
| MStop      (* stop_sort_thread = true *)
| MJoin      (* pthread_join *)
| MFree      (* list_free *)
| MDone.

Inductive spc :=
| STest                                           (* while (!stop_sort_thread) *)
| SWait                                           (* while (fewer than two nodes) sleep(1) *)
| SRound (end_ : Z)                               (* is_swapped = 0; current = *list *)
| SCompare (current end_ : Z) (is_swapped : bool) (* while (..) if (strcmp(..) > 0) *)
| SHead (current next_node end_ : Z)              (* if (current == *list) *list = next_node *)
| SSwap (current next_node end_ : Z)              (* wrlock; swap; unlock *)
| SNext (current end_ : Z) (is_swapped : bool)    (* current = current->next *)
| SEnd.

#[export] Instance spc_eq_dec : EqDecision spc.
Proof. solve_decision. Defined.

Record config := mk_c {
  heap : lstate;
  strs : gset Z;
  stop_sort_thread : bool;
  input : list line_in;
  at_main : mpc;
  at_sort : spc;
  events : list event
}.

Definition exec_main (c : config) : outcome (option config) :=
  let to p := Ok (Some (mk_c (heap c) (strs c) (stop_sort_thread c) (input c) p (at_sort c) (events c))) in
  match at_main c with
  | MRead =>
      match input c with
      | [] => to MStop
      | i :: rest =>
          if strcmp (cur_line i) (bytes_of "c_exit") =? 0 then to MStop
          else
            let? (evs, s) := work i (heap c, strs c) in
            Ok (Some (mk_c (fst s) (snd s) (stop_sort_thread c) rest MRead (at_sort c) (events c ++ evs)))
      end
  | MStop => Ok (Some (mk_c (heap c) (strs c) true (input c) MJoin (at_sort c) (events c)))
  | MJoin => if decide (at_sort c = SEnd) then to MFree else Ok None
  | MFree =>
      let? (_, s) := list_free (lst (heap c)) (heap c, strs c) in
      Ok (Some (mk_c (fst s) (snd s) (stop_sort_thread c) (input c) MDone (at_sort c) (events c)))
  | MDone => Ok None
  end.

Definition exec_sort (c : config) : outcome (option config) :=
  let at_with h p := mk_c h (strs c) (stop_sort_thread c) (input c) (at_main c) p (events c) in
  let to p := Ok (Some (at_with (heap c) p)) in
  let list := lst (heap c) in
  match at_sort c with
  | STest => to (if stop_sort_thread c then SEnd else SWait)
  | SWait =>
      if list =? 0 then Ok None
      else
        let? (n, _) := node_at list (heap c) in
        if next n =? 0 then Ok None else to (SRound 0)
  | SRound end_ => to (SCompare list end_ false)
  | SCompare current end_ is_swapped =>
      let? (n, _) := node_at current (heap c) in
      if next n =? end_ then to (if is_swapped : bool then SRound current else STest)
      else
        let? (nn, _) := node_at (next n) (heap c) in
        let? r := line_cmp (line n) (line nn) in
        to (if 0 <? r then SHead current (next n) end_ else SNext current end_ is_swapped)
  | SHead current next_node end_ =>
      Ok (Some (at_with (if current =? list then mk_l (nodes (heap c)) next_node else heap c)
                        (SSwap current next_node end_)))
  | SSwap current next_node end_ =>
      let? (_, h) := swap current next_node (heap c) in
      Ok (Some (at_with h (SNext next_node end_ true)))
  | SNext current end_ is_swapped =>
      let? (n, _) := node_at current (heap c) in
      to (SCompare (next n) end_ is_swapped)
  | SEnd => Ok None
  end.

Fixpoint run (ts : list tid) (c : config) : outcome config :=
  match ts with
  | [] => Ok c
  | t :: ts =>
      let? r := (match t with Main => exec_main | Sorter => exec_sort end) c in
      match r with Some c => run ts c | None => Fault Blocked end
  end.

Definition initial (input : list line_in) : config :=
  mk_c (mk_l ∅ 0) ∅ false input MRead STest [].

(** The line a is added after the sorting thread has moved the head of the
    list and before it exchanges the nodes; the exchange then cuts the back
    link to the new head, and the next one loses the node with aa. *)
Definition losing_input : list line_in :=
  [mk_in (bytes_of "aa") 16 true; mk_in (bytes_of "b") 32 true; mk_in (bytes_of "d") 48 true;
   mk_in (bytes_of "a") 64 true; mk_in [] 0 true; mk_in (bytes_of "c_exit") 0 true].

Definition losing_turns : list tid :=
  [Main; Main; Main] ++ replicate 5 Sorter ++ [Main] ++
  replicate 34 Sorter ++ [Main].

(** Four lines were entered, one of them is not printed. *)
Lemma rw_loses_line :
  (let? c := run losing_turns (initial losing_input) in Ok (events c)) =
  Ok [Added (bytes_of "aa"); Added (bytes_of "b"); Added (bytes_of "d");
      Added (bytes_of "a");
      Printed [Some (bytes_of "a"); Some (bytes_of "b"); Some (bytes_of "d")]].
Proof. vm_compute. reflexivity. Qed.
