(* ===== verification/SortPerNode.v ===== *)
(** * SortPerNode: the sorted list with a mutex in every node

    Models src/src/pthreads-problems/problem-3/solution_only_mutex++.c: the
    list functions and a turn of the sorting thread, which lock the nodes they
    visit. *)

From S2P Require Import Prelude CInt CString Dll SortList SortMutex.
Open Scope Z_scope.

(** [locked]: the nodes whose mutex is held.  The functions are run by one
    thread at a time; a mutex that is held already blocks it. *)
Record pstate := mk_p { heap : lstate; locked : gset Z }.

Definition on {A} (m : M lstate A) : M pstate A :=
  fun s => let? (a, h) := m (heap s) in Ok (a, mk_p h (locked s)).

Definition lock (p : Z) : M pstate unit :=
  on (node_at p);;
  fun s => if decide (p ∈ locked s) then Fault Blocked
           else Ok (tt, mk_p (heap s) (locked s ∪ {[ p ]})).

Definition unlock (p : Z) : M pstate unit :=
  on (node_at p);; modify (fun s => mk_p (heap s) (locked s ∖ {[ p ]})).

Definition head : M pstate Z := on (gets lst).
Definition next_of (p : Z) : M pstate Z := n <- on (node_at p);; ret (next n).

Definition add_to_head (addr : Z) (copy_ok : bool) (val : option cstr) : M pstate Z :=
  res <- on (new_node addr copy_ok val);;
  if negb (res =? 0) then ret 1
  else
    list <- head;;
    (if list =? 0 then on (set_lst addr)
     else
       lock list;;
       on (set_next addr list);;
       on (set_prev list addr);;
       on (set_lst addr);;
       list <- head;;
       old <- next_of list;;
       unlock old);;
    ret 0.

(** The mutex of [cur] is held. *)
Fixpoint print_loop (fuel : nat) (cur : Z) : M pstate (list (option cstr)) :=
  if cur =? 0 then ret []
  else
    match fuel with
    | O => fail NoFuel
    | S fuel =>
        n <- on (node_at cur);;
        (if next n =? 0 then ret tt else lock (next n));;
        unlock cur;;
        rest <- print_loop fuel (next n);;
        ret (line n :: rest)
    end.

Definition print_list (list : Z) : M pstate (Z * Datatypes.list (option cstr)) :=
  if list =? 0 then ret (1, [])
  else
    lock list;;
    fuel <- gets (fun s => size (nodes (heap s)));;
    out <- print_loop fuel list;;
    ret (0, out).

Definition when (b : bool) (m : M pstate unit) : M pstate unit := if b then m else ret tt.

Definition swap (l_node r_node : Z) : M pstate Z :=
  if (l_node =? 0) || (r_node =? 0) then ret 1
  else
    nb <- on (node_at l_node);;
    nc <- on (node_at r_node);;
    let a := prev nb in let b := l_node in let c := r_node in let d := next nc in
    if negb (next nb =? c) then ret 1
    else
      when (negb (a =? 0)) (lock a);;
      lock b;;
      lock c;;
      when (negb (d =? 0)) (lock d);;
      on (set_next b d);;
      when (negb (d =? 0)) (on (set_prev d b));;
      when (negb (a =? 0)) (on (set_next a c));;
      on (set_prev c a);;
      on (set_next c b);;
      on (set_prev b c);;
      list_head <- head;;
      when (b =? list_head) (on (set_lst c));;
      when (negb (d =? 0)) (unlock d);;
      unlock c;;
      unlock b;;
      when (negb (a =? 0)) (unlock a);;
      ret 0.

(** The wait for two nodes: [None] when the thread sleeps and tests again. *)
Definition wait_list : M pstate (option unit) :=
  list <- head;;
  when (negb (list =? 0)) (lock list);;
  list <- head;;
  if list =? 0 then ret None
  else
    next <- next_of list;;
    if next =? 0 then
      list <- head;;
      when (negb (list =? 0)) (unlock list);;
      ret None
    else ret (Some tt).

(** The inner loop; [current] is locked.  It returns the last node, and whether
    it swapped. *)
Fixpoint pass (fuel : nat) (current prev_locked end_ : Z) (is_swapped : bool) : M pstate (Z * Z * bool) :=
  next_node <- next_of current;;
  if next_node =? end_ then ret (current, prev_locked, is_swapped)
  else
    match fuel with
    | O => fail NoFuel
    | S fuel =>
        lock next_node;;
        n <- on (node_at current);;
        nn <- on (node_at next_node);;
        c <- lift (line_cmp (line n) (line nn));;
        if 0 <? c then
          when (negb (prev_locked =? 0)) (unlock prev_locked);;
          swap current next_node;;
          unlock current;;
          lock next_node;;
          pass fuel next_node prev_locked end_ true
        else
          when (negb (prev_locked =? 0)) (unlock prev_locked);;
          pass fuel next_node current end_ is_swapped
    end.

(** The [do] loop while [stop_sort_thread] is not set. *)
Fixpoint rounds (fuel : nat) (end_ : Z) : M pstate unit :=
  match fuel with
  | O => fail NoFuel
  | S fuel =>
      current <- head;;
      lock current;;
      k <- gets (fun s => size (nodes (heap s)));;
      r <- pass k current 0 end_ false;;
      let '(current, prev_locked, is_swapped) := r in
      unlock current;;
      when (negb (prev_locked =? 0)) (unlock prev_locked);;
      if is_swapped : bool then rounds fuel current else ret tt
  end.

(** One turn of [bubble_sort_mt]: [false] when the list is too short. *)
Definition bubble_sort_mt : M pstate bool :=
  w <- wait_list;;
  match w with
  | None => ret false
  | Some _ =>
      k <- gets (fun s => size (nodes (heap s)));;
      rounds (S k) 0;;
      ret true
  end.

(** *** Locks *)

Lemma on_ok {A} (m : M lstate A) s a h :
  m (heap s) = Ok (a, h) -> on m s = Ok (a, mk_p h (locked s)).
Proof. unfold on. by intros ->. Qed.

Lemma on_read {A} (m : M lstate A) s a :
  m (heap s) = Ok (a, heap s) -> on m s = Ok (a, s).
Proof. unfold on. intros ->. by destruct s. Qed.

Lemma lock_free s p n :
  node_at p (heap s) = Ok (n, heap s) -> ~ (p ∈ locked s) ->
  lock p s = Ok (tt, mk_p (heap s) (locked s ∪ {[ p ]})).
Proof. intros Hn Hp. unfold lock. run (on_read _ _ _ Hn). by rewrite decide_False. Qed.

Lemma lock_held s p n :
  node_at p (heap s) = Ok (n, heap s) -> p ∈ locked s -> lock p s = Fault Blocked.
Proof. intros Hn Hp. unfold lock. run (on_read _ _ _ Hn). by rewrite decide_True. Qed.

Lemma unlock_ok s p n :
  node_at p (heap s) = Ok (n, heap s) ->
  unlock p s = Ok (tt, mk_p (heap s) (locked s ∖ {[ p ]})).
Proof. intros Hn. unfold unlock. by run (on_read _ _ _ Hn). Qed.

Lemma head_ok s : head s = Ok (lst (heap s), s).
Proof. unfold head. by rewrite (on_read _ s (lst (heap s))). Qed.

Lemma next_of_ok s p n : node_at p (heap s) = Ok (n, heap s) -> next_of p s = Ok (next n, s).
Proof. intros Hn. unfold next_of. by run (on_read _ _ _ Hn). Qed.

Lemma node_at_insert x h n addr m :
  node_at x h = Ok (n, h) -> x <> addr ->
  node_at x (with_nodes <[addr := m]> h) = Ok (n, with_nodes <[addr := m]> h).
Proof.
  intros Hn Hx. unfold node_at in *. destruct (x =? 0); [done|]. simpl.
  rewrite lookup_insert_ne by done. destruct (nodes h !! x); [|done]. by simplify_eq.
Qed.

(** The mutex of the first node is taken and kept. *)
Lemma wait_list_long s h y l :
  holds (heap s) (h :: y :: l) -> locked s = ∅ ->
  wait_list s = Ok (Some tt, mk_p (heap s) {[ h ]}).
Proof.
  intros [Hrep _] Hlk. pose proof Hrep as (Hc & Hlst & _). cbn [hdZ] in Hlst.
  destruct (rep_node _ [] h (y :: l) Hrep) as [Hn _]. cbn [hdZ lastZ] in Hn.
  pose proof (proj2 (Z.eqb_neq _ _) (proj1 (chain_lk _ [] h (y :: l) Hc))) as Hh.
  pose proof (proj2 (Z.eqb_neq _ _) (proj1 (chain_lk _ [h] y l Hc))) as Hy.
  unfold wait_list. run (head_ok s). rewrite Hlst, Hh. cbn [negb when].
  run (lock_free s h _ Hn ltac:(rewrite Hlk; set_solver)).
  set (s1 := mk_p _ _). run (head_ok s1). cbn [heap s1]. rewrite Hlst, Hh.
  run (next_of_ok s1 h _ Hn). cbn [next]. rewrite Hy. unfold s1. rewrite Hlk.
  by rewrite (left_id_L ∅ (∪)).
Qed.

Lemma wait_list_short s l :
  holds (heap s) l -> locked s = ∅ -> (length l < 2)%nat -> wait_list s = Ok (None, s).
Proof.
  intros [Hrep _] Hlk Hlen. pose proof Hrep as (Hc & Hlst & _). unfold wait_list.
  destruct l as [|h [|? ?]]; [..|simpl in Hlen; lia]; cbn [hdZ] in Hlst.
  - run (head_ok s). rewrite Hlst. cbn [Z.eqb negb when]. rewrite bind_ret_l. run (head_ok s). by rewrite Hlst.
  - destruct (rep_node _ [] h [] Hrep) as [Hn _]. cbn [hdZ lastZ] in Hn.
    pose proof (proj2 (Z.eqb_neq _ _) (proj1 (chain_lk _ [] h [] Hc))) as Hh.
    run (head_ok s). rewrite Hlst, Hh. cbn [negb when].
    run (lock_free s h _ Hn ltac:(rewrite Hlk; set_solver)).
    set (s1 := mk_p _ _). run (head_ok s1). cbn [heap s1]. rewrite Hlst, Hh.
    run (next_of_ok s1 h _ Hn). cbn [next Z.eqb]. run (head_ok s1). cbn [heap s1]. rewrite Hlst, Hh.
    cbn [negb when]. run (unlock_ok s1 h _ Hn). unfold s1, ret. simpl. destruct s as [hp lk]. simpl in *.
    subst lk. do 3 f_equal. set_solver.
Qed.

(** With a mutex in every node the sorting thread locks the first node
    while it tests for two nodes and keeps it; the round that follows locks the
    same node again.  So on every list of two nodes or more, with no mutex
    held, the thread blocks itself before it has compared a line, and from then
    on adding a line and printing the list block too; on a shorter list it
    releases what it took. *)
Theorem per_node_sort_deadlocks s l addr val :
  holds (heap s) l -> locked s = ∅ ->
  ((length l < 2)%nat -> bubble_sort_mt s = Ok (false, s)) /\
  ((2 <= length l)%nat -> addr <> 0 -> ~ (addr ∈ l) ->
     bubble_sort_mt s = Fault Blocked /\
     exists s1, wait_list s = Ok (Some tt, s1) /\
       add_to_head addr true (Some val) s1 = Fault Blocked /\
       print_list (lst (heap s1)) s1 = Fault Blocked).
Proof.
  intros Hh Hlk. split.
  - intros Hlen. unfold bubble_sort_mt. by run (wait_list_short s l Hh Hlk Hlen).
  - intros Hlen Ha Hfr. destruct l as [|h [|y l]]; [simpl in Hlen; lia..|].
    pose proof (wait_list_long s h y l Hh Hlk) as Hw. pose proof Hh as [Hrep _].
    pose proof Hrep as (Hc & Hlst & _). cbn [hdZ] in Hlst.
    destruct (rep_node _ [] h (y :: l) Hrep) as [Hn _]. cbn [hdZ lastZ] in Hn.
    pose proof (proj1 (chain_lk _ [] h (y :: l) Hc)) as Hh0.
    set (s1 := mk_p (heap s) {[ h ]}) in *.
    assert (Hheld : lock h s1 = Fault Blocked) by (eapply lock_held; [exact Hn|set_solver]).
    split; [|exists s1; split; [done|]; split].
    + unfold bubble_sort_mt. run Hw. rewrite (bind_ok (gets _) _ s1 _ s1 eq_refl). cbn [rounds].
      apply bind_fault. run (head_ok s1). cbn [heap s1]. rewrite Hlst. by apply bind_fault.
    + unfold add_to_head. run (on_ok _ s1 _ _ (new_node_run addr (heap s1) val Ha)). cbn [Z.eqb negb].
      set (s2 := mk_p _ _). run (head_ok s2). cbn [heap s2 s1 lst with_nodes]. rewrite Hlst.
      rewrite (proj2 (Z.eqb_neq _ _) Hh0). apply bind_fault, bind_fault.
      eapply lock_held; [|set_solver]. apply (node_at_insert _ _ _ _ _ Hn). set_solver.
    + unfold print_list. cbn [heap s1]. rewrite Hlst, (proj2 (Z.eqb_neq _ _) Hh0). by apply bind_fault.
Qed.

(** While no mutex is held the other functions do what those of the other
    variants do, and release what they take. *)
Lemma per_node_add s l addr val :
  holds (heap s) l -> locked s = ∅ -> addr <> 0 -> ~ (addr ∈ l) -> is_cstr val ->
  exists s', add_to_head addr true (Some val) s = Ok (0, s') /\ locked s' = ∅ /\
    holds (heap s') (addr :: l) /\ lines (heap s') (addr :: l) = val :: lines (heap s) l.
Proof.
  intros Hh Hlk Ha Hfr Hval.
  destruct (add_to_head_holds (heap s) l addr val Hh Ha Hfr Hval) as (h & Hadd & Hh' & Hl').
  exists (mk_p h ∅). split; [|done].
  pose proof Hh as [Hrep _]. pose proof Hrep as (Hc & Hlst & _).
  unfold SortMutex.add_to_head in Hadd. rewrite (bind_ok _ _ _ _ _ (new_node_run _ (heap s) val Ha)) in Hadd.
  cbn [Z.eqb negb] in Hadd. rewrite (bind_ok (gets lst) _ _ _ _ eq_refl) in Hadd. cbn [lst with_nodes] in Hadd.
  unfold add_to_head. run (on_ok _ s _ _ (new_node_run addr (heap s) val Ha)). cbn [Z.eqb negb].
  set (s1 := mk_p _ _). run (head_ok s1). cbn [heap s1 lst with_nodes].
  rewrite Hlst in *. destruct l as [|x l]; cbn [hdZ Z.eqb] in *.
  - injection Hadd as <-. unfold s1. rewrite Hlk. done.
  - rewrite (proj2 (Z.eqb_neq _ _) (proj1 (chain_lk _ [] x l Hc))) in *.
    apply bind_inv in Hadd as ([] & h4 & Hadd & [= ->]).
    apply bind_inv in Hadd as ([] & h2 & H2 & Hadd). apply bind_inv in Hadd as ([] & h3 & H3 & H4).
    assert (Hxa : x <> addr) by set_solver.
    destruct (rep_node _ [] x l Hrep) as [Hn _]. rewrite bind_assoc.
    pose proof (node_at_insert _ _ _ addr (mk_node (Some val) 0 0) Hn Hxa) as Hn1.
    run (lock_free s1 x _ Hn1 ltac:(unfold s1; cbn [locked]; rewrite Hlk; set_solver)).
    set (s2 := mk_p (heap s1) _). rewrite bind_assoc. run (on_ok _ s2 _ _ H2).
    rewrite bind_assoc. run (on_ok _ (mk_p h2 _) _ _ H3). rewrite bind_assoc. run (on_ok _ (mk_p h3 _) _ _ H4).
    cbn [heap locked s2]. set (s5 := mk_p h _). rewrite bind_assoc. run (head_ok s5).
    destruct Hh' as [Hrep' _]. pose proof Hrep' as (_ & Hlst' & _). cbn [hdZ] in Hlst'.
    destruct (rep_node _ [] addr (x :: l) Hrep') as [Hna _].
    destruct (rep_node _ [addr] x l Hrep') as [Hnx _].
    unfold s5 at 1. cbn [heap]. rewrite Hlst', bind_assoc. run (next_of_ok s5 addr _ Hna). cbn [next hdZ].
    run (unlock_ok s5 x _ Hnx). unfold s5, s1. cbn [heap locked]. rewrite Hlk. unfold ret. do 3 f_equal. set_solver.
Qed.

(** Printing locks the next node before it releases the current one. *)
Lemma print_loop_locks fuel : forall h pre a l,
  rep h (pre ++ a :: l) -> (length (a :: l) <= fuel)%nat ->
  print_loop fuel a (mk_p h {[ a ]}) = Ok (map (fun x => Some (key h x)) (a :: l), mk_p h ∅).
Proof.
  induction fuel as [|fuel IH]; intros h pre a l Hr Hf; [simpl in Hf; lia|].
  destruct (rep_node _ _ _ _ Hr) as [Hn _]. pose proof Hr as (Hc & _).
  pose proof (proj1 (chain_lk _ _ _ _ Hc)) as Ha. cbn [print_loop].
  rewrite (proj2 (Z.eqb_neq _ _) Ha). set (s := mk_p h {[ a ]}). run (on_read _ s _ Hn). cbn [next line].
  destruct l as [|y l]; cbn [hdZ].
  - rewrite Z.eqb_refl, bind_ret_l. run (unlock_ok s a _ Hn). unfold s. cbn [heap locked].
    replace ({[ a ]} ∖ {[ a ]} : gset Z) with (∅ : gset Z) by set_solver.
    destruct fuel; reflexivity.
  - replace (pre ++ a :: y :: l) with ((pre ++ [a]) ++ y :: l) in Hr by (by rewrite <- app_assoc).
    destruct (rep_node _ _ _ _ Hr) as [Hy _]. pose proof Hr as (Hc' & _).
    pose proof (proj1 (chain_lk _ _ _ _ Hc')) as Hy0. rewrite (proj2 (Z.eqb_neq _ _) Hy0).
    assert (Hne : y <> a). { destruct Hc as [_ Hnd]. apply NoDup_app in Hnd as (_ & _ & Hnd).
      apply NoDup_cons in Hnd as [Hnd _]. set_solver. }
    run (lock_free s y _ Hy ltac:(unfold s; simpl; set_solver)). set (s1 := mk_p _ _).
    run (unlock_ok s1 a _ Hn). unfold s1, s. cbn [heap locked].
    replace (({[ a ]} ∪ {[ y ]}) ∖ {[ a ]} : gset Z) with ({[ y ]} : gset Z) by set_solver.
    simpl in Hf. run (IH h (pre ++ [a]) y l Hr ltac:(simpl; lia)). reflexivity.
Qed.

Lemma per_node_print s l :
  holds (heap s) l -> locked s = ∅ ->
  exists r, print_list (lst (heap s)) s = Ok ((r, map Some (lines (heap s) l)), s).
Proof.
  intros [Hr _] Hlk. pose proof Hr as (Hc & Hl & _). unfold print_list. rewrite Hl.
  destruct l as [|h l]; [by exists 1|]. cbn [hdZ]. destruct (rep_node _ [] h l Hr) as [Hn _].
  rewrite (proj2 (Z.eqb_neq _ _) (proj1 (chain_lk _ [] h l Hc))).
  run (lock_free s h _ Hn ltac:(rewrite Hlk; set_solver)). rewrite Hlk, (left_id_L ∅ (∪)).
  rewrite (bind_ok (gets _) _ _ _ _ eq_refl). cbn [heap].
  run (print_loop_locks _ (heap s) [] h l Hr (rep_length _ _ Hc)).
  exists 0. destruct s as [hp lk]. simpl in *. subst lk. unfold lines. simpl. by rewrite map_map.
Qed.

Lemma per_node_sort_deadlocks_witness :
  bubble_sort_mt (mk_p SortList.two_lines ∅) = Fault Blocked.
Proof.
  apply (per_node_sort_deadlocks (mk_p SortList.two_lines ∅) [16; 32] 48 []).
  - split; [exact two_lines_rep|]. apply (bool_decide_unpack _). vm_compute. exact I.
  - reflexivity.
  - simpl. lia.
  - lia.
  - set_solver.
Defined.
