(* ===== verification/Proc.v ===== *)
(** * Proc: reading process information from /proc

    Models src/src/file-system/proc/proc-names.c and the ancestor walk of
    proc_tree.c, whose other functions are the same text with the key "PPid:"
    fixed.  Streams are those of Filesystem.  A [char] is signed, so a line is
    a list of the bytes as [char] values. *)

From S2P Require Import Prelude CInt CString Filesystem.
Open Scope Z_scope.

Definition PAGE_SIZE : nat := 4096.
Definition PATH_MAX : nat := 4096.
Definition PPID_SIZE : nat := 1024.
Definition PPIDPATTERN : cstr := bytes_of "PPid:".
Definition NAMEPATTERN : cstr := bytes_of "Name:".
Definition PROC_PATH : cstr := bytes_of "/proc".

(** ** Lines *)

Definition blank (c : Z) : bool := (c =? 32) || (c =? 9).

Fixpoint skip_blank (s : cstr) : cstr :=
  match s with
  | c :: s' => if blank c then skip_blank s' else s
  | [] => []
  end.

(** Up to the next blank or the end of the string. *)
Fixpoint token (s : cstr) : cstr :=
  match s with
  | c :: s' => if blank c then [] else c :: token s'
  | [] => []
  end.

(** [cap] is the size of the array behind [res_buf]. *)
Definition get_stat_val_from_line (cap : nat) (str : cstr) (offset : nat) : outcome cstr :=
  if decide (length str < offset)%nat then Fault OutOfBounds
  else
    let start := skip_blank (drop offset str) in
    let val := token start in
    if decide (length val < cap)%nat then Ok val else Fault OutOfBounds.

(** [s[i]], the terminator included. *)
Definition char_at (s : cstr) (i : nat) : outcome Z := of_option OutOfBounds ((s ++ [0]) !! i).

Fixpoint find_loop (fuel : nat) (str substr : cstr) (l_ptr r_ptr : nat) : outcome (option nat) :=
  if decide (l_ptr < length str)%nat then
    match fuel with
    | O => Fault NoFuel
    | S fuel =>
        let? a := char_at str l_ptr in
        let? b := char_at substr r_ptr in
        let '(l_ptr, r_ptr) :=
          if a =? b then (S l_ptr, S r_ptr)
          else if decide (0 < r_ptr)%nat then (l_ptr, O) else (S l_ptr, r_ptr) in
        if decide (length substr <= r_ptr)%nat then Ok (Some l_ptr)
        else find_loop fuel str substr l_ptr r_ptr
    end
  else Ok None.

(** Two rounds at most for each character of [str]. *)
Definition find_substr (str substr : cstr) : outcome (option nat) :=
  find_loop (2 * length str) str substr 0 0.

(** [n] is the room left in the buffer; the characters stored before the
    terminator. *)
Fixpoint read_line (n : nat) (fp : FILE) : bool * list Z * FILE :=
  match n with
  | O => (false, [], fp)
  | S n =>
      let '(c, fp) := fgetc fp in
      let c := i8 c in
      if c =? 10 then (true, [], fp)
      else if c =? EOF then (false, [], fp)
      else let '(r, bs, fp) := read_line n fp in (r, c :: bs, fp)
  end.

Fixpoint read_status_file (fuel : nat) (cap : nat) (fp : FILE) (key : cstr)
    : outcome (option cstr) :=
  match fuel with
  | O => Fault NoFuel
  | S fuel =>
      let '(r, bs, fp) := read_line PAGE_SIZE fp in
      if negb r then Ok None
      else
        let line := c_str (bs ++ [0]) in
        let? o := find_substr line key in
        match o with
        | Some offset => let? v := get_stat_val_from_line cap line offset in Ok (Some v)
        | None => read_status_file fuel cap fp key
        end
  end.

(** Each line takes a character of the file. *)
Definition status_value (cap : nat) (d : list Z) (key : cstr) : outcome (option cstr) :=
  read_status_file (S (length d)) cap (mk_file d 0 false false None) key.

(** ** Processes *)

Definition is_proc (d_name : cstr) : bool :=
  forallb (fun c => (48 <=? c) && (c <=? 57)) d_name.

(** An entry of the directory, and whether it is a directory itself. *)
Record dirent := mk_dirent { d_name : cstr; d_is_dir : bool }.

Section proc.
(** The files that can be opened, by path. *)
Context (files : gmap cstr (list Z)).

Definition status_path (pid : cstr) : cstr := PROC_PATH ++ [47] ++ pid ++ bytes_of "/status".

Fixpoint count_entries (key : cstr) (entries : list dirent) (count : Z) : outcome Z :=
  match entries with
  | [] => Ok count
  | e :: entries =>
      if d_is_dir e && is_proc (d_name e) then
        let? path := sprintf PATH_MAX (status_path (d_name e)) in
        match files !! path with
        | None => count_entries key entries count
        | Some d =>
            let? v := status_value PAGE_SIZE d key in
            match v with
            | Some value =>
                count_entries key entries
                  (if strcmp value (bytes_of "genenv") =? 0 then u64 (count + 1) else count)
            | None => count_entries key entries count
            end
        end
      else count_entries key entries count
  end.

(** [entries]: what [readdir] answers, [None] when /proc cannot be opened. *)
Definition get_proc_info_by_key (key : cstr) (entries : option (list dirent)) (count : Z)
    : outcome (bool * Z) :=
  match entries with
  | None => Ok (false, count)
  | Some es => let? n := count_entries key es count in Ok (true, n)
  end.

(** The process ids printed; a file that does not open is read all the same. *)
Fixpoint print_ppids_tree (fuel : nat) (pid : cstr) : outcome (list cstr) :=
  if strcmp pid (bytes_of "0") =? 0 then Ok []
  else
    match fuel with
    | O => Fault NoFuel
    | S fuel =>
        let? path := sprintf PATH_MAX (status_path pid) in
        match files !! path with
        | None => Fault NullDeref
        | Some d =>
            let? r := status_value PPID_SIZE d PPIDPATTERN in
            match r with
            | Some ppid => let? rest := print_ppids_tree fuel ppid in Ok (pid :: rest)
            | None => Ok [pid]
            end
        end
    end.
End proc.

(** ** Finding the key *)

Definition occurs (sub s : cstr) : Prop := exists a b, s = a ++ sub ++ b.

Lemma char_at_run s i c : s !! i = Some c -> char_at s i = Ok c.
Proof. intros H. unfold char_at. by rewrite (lookup_app_l_Some _ _ _ _ H). Qed.

(** What is reported is an occurrence; enough rounds always decide. *)
Lemma find_loop_sound str sub fuel : forall l r a,
  sub <> [] -> (r < length sub)%nat -> l = (length a + r)%nat ->
  (exists rest, str = a ++ take r sub ++ rest) ->
  (2 * (length str - l) + (if decide (0 < r) then 1 else 0) <= fuel)%nat ->
  exists o, find_loop fuel str sub l r = Ok o /\
    forall k, o = Some k -> exists x y, str = x ++ sub ++ y /\ k = (length x + length sub)%nat.
Proof.
  induction fuel as [|fuel IH]; intros l r a Hne Hr Hl [rest Hstr] Hf; simpl.
  - destruct (decide (l < length str)%nat); [lia|]. by exists None.
  - destruct (decide (l < length str)%nat) as [Hlt|]; [|by exists None].
    destruct (lookup_lt_is_Some_2 str l Hlt) as [x Hx].
    destruct (lookup_lt_is_Some_2 sub r Hr) as [y Hy].
    rewrite (char_at_run _ _ _ Hx), (char_at_run _ _ _ Hy). cbn [obind].
    destruct (Z.eqb_spec x y) as [->|Hxy].
    + assert (exists rest', str = a ++ take (S r) sub ++ rest') as [rest' Hstr'].
      { rewrite Hstr in Hx. rewrite lookup_app_r in Hx by lia.
        rewrite lookup_app_r in Hx by (rewrite length_take; lia).
        rewrite length_take in Hx. replace (l - length a - r `min` length sub)%nat with 0%nat in Hx by lia.
        destruct rest as [|z rest]; [done|]. injection Hx as ->. exists rest.
        by rewrite (take_S_r _ _ _ Hy), <- app_assoc. }
      destruct (decide (length sub <= S r)%nat) as [Hdone|Hmore].
      * eexists. split; [done|]. intros k [= <-]. exists a, rest'.
        rewrite take_ge in Hstr' by lia. split; [done|lia].
      * apply (IH _ _ a); [done|lia|lia|by exists rest'|]. destruct (decide (0 < r)%nat), (decide (0 < S r)%nat); lia.
    + destruct (decide (0 < r)%nat) as [Hr0|Hr0].
      * destruct (decide (length sub <= 0)%nat); [destruct sub; [done|simpl in *; lia]|].
        apply (IH _ _ (take l str)); [done|lia|rewrite length_take; lia| |].
        -- exists (drop l str). simpl. by rewrite take_drop.
        -- destruct (decide (0 < 0)%nat); lia.
      * destruct (decide (length sub <= r)%nat); [lia|].
        apply (IH _ _ (take (S l) str)); [done|lia|rewrite length_take; lia| |].
        -- exists (drop (S l) str). replace r with 0%nat by lia. simpl. by rewrite take_drop.
        -- destruct (decide (0 < r)%nat); lia.
Qed.

(** A key at the start of the line is found there. *)
Lemma find_loop_prefix rest sub fuel : forall r,
  (r < length sub <= fuel + r)%nat ->
  find_loop fuel (sub ++ rest) sub r r = Ok (Some (length sub)).
Proof.
  induction fuel as [|fuel IH]; intros r Hr; [lia|]. simpl.
  destruct (decide (r < length (sub ++ rest))%nat) as [_|Hn]; [|rewrite length_app in Hn; lia].
  destruct (lookup_lt_is_Some_2 sub r ltac:(lia)) as [x Hx].
  rewrite (char_at_run _ _ _ Hx), (char_at_run _ _ _ (lookup_app_l_Some _ _ _ _ Hx)). cbn [obind].
  rewrite Z.eqb_refl. destruct (decide (length sub <= S r)%nat) as [Hd|Hm].
  - do 2 f_equal. lia.
  - apply IH. lia.
Qed.

Lemma find_substr_none str sub : sub <> [] -> ~ occurs sub str -> find_substr str sub = Ok None.
Proof.
  intros Hne Hn. unfold find_substr.
  destruct (find_loop_sound str sub (2 * length str) 0 0 []) as (o & -> & Ho); try done.
  - destruct sub; [done|simpl; lia].
  - by exists str.
  - destruct (decide (0 < 0)%nat); lia.
  - destruct o as [k|]; [|done]. destruct (Ho k eq_refl) as (x & y & -> & _). destruct Hn. by exists x, y.
Qed.

Lemma find_substr_prefix rest sub :
  sub <> [] -> find_substr (sub ++ rest) sub = Ok (Some (length sub)).
Proof.
  intros Hne. apply find_loop_prefix. rewrite length_app. destruct sub; [done|simpl; lia].
Qed.

(** ** Reading lines *)

(** A line that fits the buffer and survives the conversion to [char]. *)
Definition plain (l : cstr) : Prop :=
  Forall (fun c => 0 < c < 128 /\ c <> 10) l /\ (length l < PAGE_SIZE)%nat.

Definition unlines (ls : list cstr) : list Z := concat (map (fun l => l ++ [10]) ls).

Lemma read_line_run d pre l rest : forall n,
  d = pre ++ l ++ 10 :: rest -> Forall (fun c => 0 < c < 128 /\ c <> 10) l -> (length l < n)%nat ->
  read_line n (reading d (length pre)) = (true, l, reading d (length pre + S (length l))).
Proof.
  intros n Hd Hl. revert pre n Hd. induction Hl as [|c l [Hc Hne] Hl IH]; intros pre n Hd Hn;
    (destruct n as [|n]; [simpl in Hn; lia|]); cbn [read_line].
  - rewrite (fgetc_byte d _ 10); [|subst d; by apply list_lookup_middle]. simpl.
    by rewrite Nat.add_1_r.
  - rewrite (fgetc_byte d _ c); [|subst d; by apply list_lookup_middle].
    assert (i8 c = c) as -> by (unfold i8; rewrite Z.mod_small; lia).
    rewrite (proj2 (Z.eqb_neq c 10)), (proj2 (Z.eqb_neq c EOF)) by (unfold EOF; lia).
    specialize (IH (pre ++ [c]) n). rewrite length_app in IH. simpl in IH.
    rewrite Nat.add_1_r in IH. rewrite IH.
    + cbn [length]. by rewrite (Nat.add_succ_r _ (S (length l))).
    + by rewrite Hd, <- app_assoc.
    + simpl in Hn. lia.
Qed.

(** At the end of the file nothing is returned. *)
Lemma read_line_end d n : (0 < n)%nat -> (read_line n (reading d (length d))).1.1 = false.
Proof.
  intros Hn. destruct n as [|n]; [lia|]. simpl. unfold fgetc, reading. simpl.
  rewrite lookup_ge_None_2 by lia. done.
Qed.

Lemma c_str_plain l : plain l -> c_str (l ++ [0]) = l.
Proof.
  intros [Hl _]. apply c_str_app. eapply Forall_impl; [exact Hl|]. simpl. lia.
Qed.

(** Lines without the key are passed over. *)
Lemma read_status_skip key cap ls : forall fuel d pre rest,
  key <> [] -> Forall plain ls -> Forall (fun l => ~ occurs key l) ls ->
  d = pre ++ unlines ls ++ rest ->
  read_status_file (length ls + fuel) cap (reading d (length pre)) key =
  read_status_file fuel cap (reading d (length pre + length (unlines ls))) key.
Proof.
  induction ls as [|l ls IH]; intros fuel d pre rest Hk Hp Ho Hd.
  - simpl. by rewrite Nat.add_0_r.
  - apply Forall_cons in Hp as [Hl Hp]. apply Forall_cons in Ho as [Hol Ho].
    cbn [length Nat.add read_status_file].
    rewrite (read_line_run d pre l (unlines ls ++ rest)); [| |apply Hl|apply Hl].
    2:{ rewrite Hd. unfold unlines. simpl. by rewrite <- !app_assoc. }
    cbn [negb]. rewrite (c_str_plain _ Hl), (find_substr_none _ _ Hk Hol). cbn [obind].
    specialize (IH fuel d (pre ++ l ++ [10]) rest Hk Hp Ho).
    rewrite !length_app in IH. simpl in IH. rewrite Nat.add_1_r in IH. rewrite IH.
    + f_equal. unfold unlines. simpl. rewrite !length_app. simpl. f_equal. lia.
    + rewrite Hd. unfold unlines. simpl. by rewrite <- !app_assoc.
Qed.

Definition word (v : cstr) : Prop := v <> [] /\ Forall (fun c => blank c = false) v.

Lemma skip_word v : word v -> skip_blank (9 :: v) = v.
Proof.
  intros [Hne Hv]. simpl. destruct Hv as [|c v Hc Hv]; [done|]. simpl. by rewrite Hc.
Qed.

Lemma token_word v : word v -> token v = v.
Proof.
  intros [_ Hv]. induction Hv as [|c v Hc Hv IH]; [done|]. simpl. by rewrite Hc, IH.
Qed.

(** A status file with the line [key], tab, [v], after lines without the key. *)
Definition has_value (key v : cstr) (d : list Z) : Prop :=
  exists ls1 rest, d = unlines ls1 ++ (key ++ [9] ++ v) ++ 10 :: rest /\
    Forall plain ls1 /\ Forall (fun l => ~ occurs key l) ls1 /\
    plain (key ++ [9] ++ v) /\ word v.

Lemma length_unlines ls : (length ls <= length (unlines ls))%nat.
Proof.
  induction ls as [|l ls IH]; [done|]. unfold unlines in *. simpl. rewrite !length_app. simpl. lia.
Qed.

Lemma status_value_run cap d key v :
  key <> [] -> has_value key v d -> (length v < cap)%nat -> status_value cap d key = Ok (Some v).
Proof.
  intros Hk (ls1 & rest & Hd & Hp & Ho & Hpl & Hv) Hcap. unfold status_value.
  pose proof (length_unlines ls1) as Hlen.
  assert (S (length d) = length ls1 + S (length d - length ls1))%nat as ->.
  { rewrite Hd, length_app. lia. }
  change (mk_file d 0 false false None) with (reading d (@length Z [])).
  rewrite (read_status_skip key cap ls1 _ d [] _ Hk Hp Ho Hd). cbn [length Nat.add read_status_file].
  rewrite (read_line_run d (unlines ls1) (key ++ [9] ++ v) rest); [|done|apply Hpl|apply Hpl].
  cbn [negb]. rewrite (c_str_plain _ Hpl), (find_substr_prefix _ _ Hk). cbn [obind].
  unfold get_stat_val_from_line. rewrite decide_False by (rewrite length_app; lia).
  rewrite drop_app_length. cbn [app]. rewrite (skip_word _ Hv), (token_word _ Hv).
  by rewrite decide_True.
Qed.

Lemma status_value_none cap ls key :
  key <> [] -> Forall plain ls -> Forall (fun l => ~ occurs key l) ls ->
  status_value cap (unlines ls) key = Ok None.
Proof.
  intros Hk Hp Ho. unfold status_value. pose proof (length_unlines ls) as Hlen.
  assert (S (length (unlines ls)) = length ls + S (length (unlines ls) - length ls))%nat as -> by lia.
  change (mk_file (unlines ls) 0 false false None) with (reading (unlines ls) (@length Z [])).
  rewrite (read_status_skip key cap ls _ (unlines ls) [] [] Hk Hp Ho); [|by rewrite app_nil_r].
  cbn [length Nat.add read_status_file].
  pose proof (read_line_end (unlines ls) PAGE_SIZE ltac:(unfold PAGE_SIZE; lia)) as He.
  destruct (read_line PAGE_SIZE _) as [[r bs] fp]. simpl in He. by subst r.
Qed.

(** ** Properties *)

(** the value of a key in a status file: when the first line that contains
    the key starts with it and a tab, the rest of that line is returned,
    provided it fits the caller's buffer; when no line contains the key
    nothing is found.  The function ends either way. *)
Theorem status_lookup cap d key v ls :
  key <> [] ->
  (has_value key v d -> (length v < cap)%nat -> status_value cap d key = Ok (Some v)) /\
  (Forall plain ls -> Forall (fun l => ~ occurs key l) ls ->
   status_value cap (unlines ls) key = Ok None).
Proof.
  intros Hk. split; [by apply status_value_run|by apply status_value_none].
Qed.

(** [pids] is a line of descent in the process table: each one's status file
    names the next as its parent, and the last one's names 0. *)
Fixpoint descent (files : gmap cstr (list Z)) (pids : list cstr) : Prop :=
  match pids with
  | [] => True
  | pid :: rest =>
      pid <> bytes_of "0" /\ is_cstr pid /\ (length (status_path pid) < PATH_MAX)%nat /\
      (exists d, files !! status_path pid = Some d /\
         has_value PPIDPATTERN (match rest with q :: _ => q | [] => bytes_of "0" end) d) /\
      (length pid < PPID_SIZE)%nat /\ descent files rest
  end.

Lemma zero_cstr : is_cstr (bytes_of "0").
Proof. repeat constructor; lia. Qed.

(** the ancestor walk of proc_tree.c prints a process and all its
    ancestors, nearest first, and stops at process 0. *)
Theorem print_ppids_tree_ancestors files pids fuel :
  descent files pids -> (length pids <= fuel)%nat ->
  print_ppids_tree files fuel (match pids with p :: _ => p | [] => bytes_of "0" end) = Ok pids.
Proof.
  revert fuel. induction pids as [|pid pids IH]; intros fuel Hd Hf; [by destruct fuel|].
  destruct fuel as [|fuel]; [simpl in Hf; lia|].
  destruct Hd as (Hnz & Hc & Hpath & (d & Hfile & Hval) & Hlen & Hd). cbn [print_ppids_tree].
  destruct (Z.eqb_spec (strcmp pid (bytes_of "0")) 0) as [E|_].
  { by apply strcmp_eq in E; [|done|apply zero_cstr]. }
  unfold sprintf. rewrite decide_True by done. cbn [obind]. rewrite Hfile.
  rewrite (status_value_run PPID_SIZE d PPIDPATTERN _ ltac:(done) Hval).
  - cbn [obind]. rewrite IH; [done|done|simpl in Hf; lia].
  - destruct pids as [|q pids]; [unfold PPID_SIZE; simpl; lia|]. by destruct Hd as (_ & _ & _ & _ & ? & _).
Qed.

(** The process entries whose status file opens and gives the name genenv. *)
Definition genenv_entry (files : gmap cstr (list Z)) (name : dirent -> cstr) (e : dirent) : bool :=
  d_is_dir e && is_proc (d_name e) && bool_decide (is_Some (files !! status_path (d_name e))) &&
  bool_decide (name e = bytes_of "genenv").

Lemma count_entries_run files key name es : key <> [] -> forall c,
  (forall e d, e ∈ es -> d_is_dir e = true -> is_proc (d_name e) = true ->
     (length (status_path (d_name e)) < PATH_MAX)%nat /\
     (files !! status_path (d_name e) = Some d ->
      has_value key (name e) d /\ is_cstr (name e) /\ (length (name e) < PAGE_SIZE)%nat)) ->
  0 <= c -> c + Z.of_nat (length es) < 2 ^ 64 ->
  count_entries files key es c =
    Ok (c + Z.of_nat (length (List.filter (genenv_entry files name) es))).
Proof.
  intros Hk. induction es as [|e es IH]; intros c Hes Hc Hlt; [simpl; by rewrite Z.add_0_r|].
  assert (forall c, 0 <= c -> c + Z.of_nat (length es) < 2 ^ 64 -> count_entries files key es c =
    Ok (c + Z.of_nat (length (List.filter (genenv_entry files name) es)))) as IH'.
  { intros c' ? ?. apply IH; [|done|done]. intros e' d He. apply Hes. set_solver. }
  cbn [length] in Hlt. cbn [count_entries List.filter]. unfold genenv_entry at 1.
  destruct (d_is_dir e) eqn:Ed; cbn [andb]; [|apply IH'; lia].
  destruct (is_proc (d_name e)) eqn:Ep; cbn [andb]; [|apply IH'; lia].
  destruct (Hes e [] ltac:(set_solver) Ed Ep) as [Hpath _].
  unfold sprintf. rewrite decide_True by done. cbn [obind].
  destruct (files !! status_path (d_name e)) as [d|] eqn:Ef.
  2:{ rewrite bool_decide_eq_false_2 by (by intros []). apply IH'; lia. }
  destruct (Hes e d ltac:(set_solver) Ed Ep) as [_ Hd]. destruct (Hd Ef) as (Hv & Hcs & Hl).
  rewrite bool_decide_eq_true_2 by done. cbn [andb].
  rewrite (status_value_run _ _ _ _ Hk Hv Hl). cbn [obind].
  assert (is_cstr (bytes_of "genenv")) as Hg by (repeat constructor; lia).
  case_bool_decide as E.
  - rewrite (proj2 (Z.eqb_eq _ _) (proj2 (strcmp_eq _ _ Hcs Hg) E)), u64_small, IH' by lia.
    f_equal. cbn [length]. lia.
  - rewrite (proj2 (Z.eqb_neq _ _)), IH' by (lia || (by intros ?%strcmp_eq)). done.
Qed.

(** the process counter: among the entries of /proc, exactly those are
    counted that are directories, have a name of digits, have a status file
    that opens, and whose value of the key is genenv. *)
Theorem get_proc_info_counts files key name es :
  key <> [] ->
  (forall e d, e ∈ es -> d_is_dir e = true -> is_proc (d_name e) = true ->
     (length (status_path (d_name e)) < PATH_MAX)%nat /\
     (files !! status_path (d_name e) = Some d ->
      has_value key (name e) d /\ is_cstr (name e) /\ (length (name e) < PAGE_SIZE)%nat)) ->
  Z.of_nat (length es) < 2 ^ 64 ->
  get_proc_info_by_key files key (Some es) 0 =
    Ok (true, Z.of_nat (length (List.filter (genenv_entry files name) es))).
Proof.
  intros Hk Hes Hlt. unfold get_proc_info_by_key.
  by rewrite (count_entries_run files key name es Hk 0 Hes ltac:(lia) ltac:(lia)).
Qed.

(** ** Witnesses *)

Lemma not_occurs (key s : cstr) c : c ∈ key -> ~ (c ∈ s) -> ~ occurs key s.
Proof. intros Hc Hs (a & b & ->). apply Hs. set_solver. Qed.

Definition name_line (n : cstr) : cstr := NAMEPATTERN ++ [9] ++ n.

(** A status file with a name and a parent. *)
Definition status_of (n ppid : cstr) : list Z :=
  unlines [name_line n; PPIDPATTERN ++ [9] ++ ppid].

Lemma status_of_ppid n ppid :
  plain (name_line n) -> ~ (80 ∈ n) -> plain (PPIDPATTERN ++ [9] ++ ppid) -> word ppid ->
  has_value PPIDPATTERN ppid (status_of n ppid).
Proof.
  intros Hn H80 Hp Hw. exists [name_line n], []. split_and!; try done.
  - unfold status_of, unlines. simpl. by rewrite <- !app_assoc.
  - by apply Forall_singleton.
  - apply Forall_singleton, (not_occurs _ _ 80); [vm_compute; set_solver|].
    unfold name_line. rewrite !elem_of_app. intros [H|[H|H]]; [| |done]; vm_compute in H; set_solver.
Qed.

Lemma status_of_name n ppid :
  plain (name_line n) -> word n -> has_value NAMEPATTERN n (status_of n ppid).
Proof.
  intros Hn Hw. exists [], (unlines [PPIDPATTERN ++ [9] ++ ppid]). split_and!; try done.
  unfold status_of, unlines, name_line. simpl. by rewrite <- !app_assoc.
Qed.

Definition init_name : cstr := bytes_of "init".
Definition genenv_name : cstr := bytes_of "genenv".

(** Process 5, whose parent is process 1. *)
Definition two_procs : gmap cstr (list Z) :=
  {[ status_path (bytes_of "5") := status_of genenv_name (bytes_of "1");
     status_path (bytes_of "1") := status_of init_name (bytes_of "0") ]}.

Lemma fits n : (n < 200)%nat -> (n < PAGE_SIZE /\ n < PATH_MAX /\ n < PPID_SIZE)%nat.
Proof. unfold PAGE_SIZE, PATH_MAX, PPID_SIZE. lia. Qed.

Ltac fits_tac := apply fits; simpl; lia.
Ltac plain_tac := split; [apply (bool_decide_unpack _); by vm_compute|fits_tac].
Ltac word_tac := split; [done|apply (bool_decide_unpack _); by vm_compute].

Lemma status_lookup_witness :
  status_value PPID_SIZE (status_of init_name (bytes_of "0")) PPIDPATTERN = Ok (Some (bytes_of "0")).
Proof.
  apply (status_lookup PPID_SIZE _ PPIDPATTERN _ []); [done| |fits_tac].
  apply status_of_ppid; [plain_tac|vm_compute; set_solver|plain_tac|word_tac].
Defined.

Lemma print_ppids_tree_ancestors_witness :
  print_ppids_tree two_procs 2 (bytes_of "5") = Ok [bytes_of "5"; bytes_of "1"].
Proof.
  apply (print_ppids_tree_ancestors two_procs [bytes_of "5"; bytes_of "1"] 2); [|simpl; lia].
  split; [done|]. split; [repeat constructor; lia|]. split; [fits_tac|]. split; [|split; [fits_tac|]].
  - exists (status_of genenv_name (bytes_of "1")). split; [by vm_compute|].
    apply status_of_ppid; [plain_tac|vm_compute; set_solver|plain_tac|word_tac].
  - split; [done|]. split; [repeat constructor; lia|]. split; [fits_tac|]. split; [|split; [fits_tac|done]].
    exists (status_of init_name (bytes_of "0")). split; [by vm_compute|].
    apply status_of_ppid; [plain_tac|vm_compute; set_solver|plain_tac|word_tac].
Defined.

Definition proc_name (e : dirent) : cstr :=
  if decide (d_name e = bytes_of "5") then genenv_name else init_name.

Lemma get_proc_info_counts_witness :
  get_proc_info_by_key two_procs NAMEPATTERN
    (Some [mk_dirent (bytes_of "5") true; mk_dirent (bytes_of "1") true]) 0 = Ok (true, 1).
Proof.
  apply (get_proc_info_counts two_procs NAMEPATTERN proc_name
           [mk_dirent (bytes_of "5") true; mk_dirent (bytes_of "1") true]); [done| |simpl; lia].
  intros e d He _ _.
  assert (e = mk_dirent (bytes_of "5") true \/ e = mk_dirent (bytes_of "1") true) as [-> | ->]
    by set_solver.
  all: split; [fits_tac|intros Hd].
  all: vm_compute in Hd; injection Hd as <-.
  all: split_and!; [|repeat constructor; lia|fits_tac].
  - by apply (status_of_name genenv_name (bytes_of "1")); [plain_tac|word_tac].
  - by apply (status_of_name init_name (bytes_of "0")); [plain_tac|word_tac].
Defined.
