(* ===== verification/ProcChildren.v ===== *)
(** * ProcChildren: counting the descendants of a process

    Models src/src/file-system/proc/proc_children_count.c.  [children] stands
    for the files /proc/<pid>/task/<pid>/children: the bytes of the file of a
    process, or [None] where it cannot be opened. *)

From S2P Require Import Prelude CInt CString.
Open Scope Z_scope.

Definition FILE_SIZE : nat := Z.to_nat (10 * 4096).
Definition PATH_MAX : nat := Z.to_nat 4096.

(** The bytes before the end of the file.  [getc] is stored in a [char] before
    it is compared with EOF, so a byte 255 ends the file too; [None] when the
    end is not within the buffer. *)
Fixpoint read_file (room : nat) (content : list Z) : option (list Z) :=
  match room with
  | O => None
  | S room =>
      match content with
      | [] => Some []
      | b :: content =>
          if i8 b =? -1 then Some []
          else match read_file room content with Some buf => Some (b :: buf) | None => None end
      end
  end.

Definition is_proc (d_name : cstr) : bool := forallb (fun c => (48 <=? c) && (c <=? 57)) d_name.

(** The tokens that repeated [strtok_r] finds; [cur] is the token being read,
    in reverse. *)
Fixpoint tokens (s : cstr) (cur : cstr) : list cstr :=
  match s with
  | [] => match cur with [] => [] | _ => [rev cur] end
  | c :: s =>
      if c =? 32 then match cur with [] => tokens s [] | _ => rev cur :: tokens s [] end
      else tokens s (c :: cur)
  end.

Section count.
Context (children : cstr -> option (list Z)).

(** The loop over the tokens; [count] is the recursive call. *)
Fixpoint token_loop (count : cstr -> Z -> outcome Z) (ts : list cstr) (cnt : Z) : outcome Z :=
  match ts with
  | [] => Ok cnt
  | token :: ts =>
      let? cnt := (if is_proc token then count token cnt else Ok cnt) in
      token_loop count ts (u64 (cnt + 1))
  end.

(** [fuel] bounds the depth of the recursion.  What the function returns is
    not looked at. *)
Fixpoint get_proc_children (fuel : nat) (pid : cstr) (cnt : Z) : outcome Z :=
  match fuel with
  | O => Fault NoFuel
  | S fuel =>
      let? _ := sprintf PATH_MAX
        (bytes_of "/proc/" ++ pid ++ bytes_of "/task/" ++ pid ++ bytes_of "/children") in
      match children pid with
      | None => Ok cnt
      | Some content =>
          match read_file FILE_SIZE content with
          | None => Ok cnt
          | Some buf => token_loop (get_proc_children fuel) (tokens (c_str buf) []) cnt
          end
      end
  end.

(** The exit status and the number printed. *)
Definition main (fuel : nat) (argv : list cstr) : outcome (Z * option Z) :=
  match argv with
  | [_; pid] => let? cnt := get_proc_children fuel pid 1 in Ok (0, Some cnt)
  | _ => Ok (1, None)
  end.
End count.

(** ** Process trees *)

#[warnings="-register-all"]
Inductive ptree := Proc (pid : cstr) (kids : list ptree).

Definition pid_of (t : ptree) : cstr := let (pid, _) := t in pid.

Fixpoint size (t : ptree) : Z :=
  let (_, kids) := t in
  (fix go kids := match kids with [] => 1 | t :: kids => size t + go kids end) kids.

Fixpoint depth (t : ptree) : nat :=
  let (_, kids) := t in
  S ((fix go kids := match kids with [] => O | t :: kids => Nat.max (depth t) (go kids) end) kids).

(** A process identifier: a few digits. *)
Definition pid_ok (pid : cstr) : Prop :=
  pid <> [] /\ Forall (fun c => 48 <= c <= 57) pid /\ (length pid <= 10)%nat.

(** The file lists the children, each followed by a blank, and fits in the
    buffer. *)
Definition listing (kids : list ptree) : list Z := concat (map (fun t => pid_of t ++ [32]) kids).

Fixpoint serves (children : cstr -> option (list Z)) (t : ptree) : Prop :=
  let (pid, kids) := t in
  pid_ok pid /\ children pid = Some (listing kids) /\ (length (listing kids) < FILE_SIZE)%nat /\
  (fix go kids := match kids with [] => True | t :: kids => serves children t /\ go kids end) kids.

(** ** Reading the list of children *)

Definition plain (b : Z) : Prop := 0 < b < 128.

Lemma read_file_plain room content :
  Forall plain content -> (length content < room)%nat -> read_file room content = Some content.
Proof.
  intros Hc. revert room. induction Hc as [|b content Hb Hc IH]; intros room Hl;
    (destruct room as [|room]; [simpl in Hl; lia|]); [done|]. cbn [read_file].
  rewrite (proj2 (Z.eqb_neq _ _)).
  - by rewrite IH by (simpl in Hl; lia).
  - unfold plain in Hb. unfold i8. rewrite Z.mod_small by lia. lia.
Qed.

Lemma c_str_text content : Forall plain content -> c_str content = content.
Proof.
  induction 1 as [|b content Hb _ IH]; [done|]. simpl. unfold plain in Hb.
  rewrite (proj2 (Z.eqb_neq _ _)) by lia. by rewrite IH.
Qed.

Lemma tokens_word w s cur :
  Forall (fun c => c <> 32) w -> rev cur ++ w <> [] ->
  tokens (w ++ 32 :: s) cur = (rev cur ++ w) :: tokens s [].
Proof.
  intros Hw. revert cur. induction Hw as [|c w Hc Hw IH]; intros cur Hne; simpl.
  - rewrite app_nil_r in *. by destruct cur.
  - rewrite (proj2 (Z.eqb_neq _ _)) by done. rewrite IH; simpl; rewrite <- app_assoc; done.
Qed.

Lemma pid_plain pid : pid_ok pid -> Forall plain pid.
Proof. intros (_ & H & _). eapply Forall_impl; [exact H|]. unfold plain. simpl. lia. Qed.

Lemma pid_is_proc pid : pid_ok pid -> is_proc pid = true.
Proof.
  intros (_ & H & _). apply forallb_forall. intros c Hc%list_elem_of_In.
  apply (proj1 (Forall_forall _ _) H) in Hc. simpl in Hc.
  by rewrite (proj2 (Z.leb_le _ _)), (proj2 (Z.leb_le _ _)) by lia.
Qed.

Lemma tokens_listing kids :
  Forall (fun t => pid_ok (pid_of t)) kids -> tokens (listing kids) [] = map pid_of kids.
Proof.
  induction 1 as [|t kids Ht _ IH]; [done|]. unfold listing. simpl. rewrite <- app_assoc. simpl.
  pose proof Ht as (Hne & Hd & _). rewrite tokens_word; [|eapply Forall_impl; [exact Hd|]; simpl; lia|done].
  simpl. by rewrite <- IH.
Qed.

Lemma listing_plain kids : Forall (fun t => pid_ok (pid_of t)) kids -> Forall plain (listing kids).
Proof.
  induction 1 as [|t kids Ht _ IH]; [constructor|]. unfold listing. simpl.
  apply Forall_app. split; [|done]. apply Forall_app. split; [by apply pid_plain|].
  apply Forall_singleton. unfold plain. lia.
Qed.

Section counting.
Context (children : cstr -> option (list Z)).

Lemma serves_pid t : serves children t -> pid_ok (pid_of t).
Proof. destruct t. simpl. tauto. Qed.

Lemma u64_count a x : u64 (u64 (u64 a + 1) + x - 1) = u64 (a + x).
Proof.
  rewrite <- Z.add_sub_assoc, u64_add_idemp_l, <- Z.add_assoc, u64_add_idemp_l. f_equal. lia.
Qed.

Lemma count_tree fuel : forall t cnt,
  serves children t -> (depth t <= fuel)%nat -> 0 <= cnt < 2 ^ 64 ->
  get_proc_children children fuel (pid_of t) cnt = Ok (u64 (cnt + size t - 1)).
Proof.
  induction fuel as [|fuel IH]; intros [pid kids] cnt Hs Hd Hc; [simpl in Hd; lia|].
  simpl in Hs. destruct Hs as (Hpid & Hch & Hlen & Hkids). cbn [get_proc_children pid_of].
  unfold sprintf. rewrite decide_True.
  2: { rewrite !length_app. destruct Hpid as (_ & _ & ?). simpl. unfold PATH_MAX. lia. }
  cbn [obind]. rewrite Hch.
  assert (Hp : Forall (fun t => pid_ok (pid_of t)) kids).
  { clear -Hkids. induction kids as [|t kids IHk]; constructor; destruct Hkids; [by apply serves_pid|auto]. }
  rewrite read_file_plain by (done || by apply listing_plain).
  rewrite c_str_text by (by apply listing_plain). rewrite tokens_listing by done.
  clear Hch Hlen. revert cnt Hc. simpl in Hd.
  induction kids as [|t kids IHk]; intros cnt Hc.
  { simpl. rewrite Z.add_simpl_r. by rewrite u64_small. }
  destruct Hkids as [Ht Hkids]. apply Forall_cons in Hp as [Hpt Hp]. cbn [map token_loop].
  rewrite (pid_is_proc _ Hpt). rewrite (IH t cnt Ht) by lia. cbn [obind].
  rewrite IHk; [|first [done|lia|apply u64_range]..].
  rewrite u64_count. simpl. do 2 f_equal. lia.
Qed.

(** Given a process with any tree of descendants, of fewer than 2^64
    processes, [main] ends and prints their number, the process itself
    included.  [fuel] is the depth of the tree. *)
Theorem main_counts_processes t prog :
  serves children t -> 0 <= size t < 2 ^ 64 ->
  main children (depth t) [prog; pid_of t] = Ok (0, Some (size t)).
Proof.
  intros Hs Hn. unfold main. rewrite (count_tree (depth t) t 1) by (done || lia). cbn [obind].
  replace (1 + size t - 1) with (size t) by lia. by rewrite u64_small.
Qed.
End counting.

(** ** Witness *)

Definition small_tree : ptree :=
  Proc (bytes_of "7") [Proc (bytes_of "12") []; Proc (bytes_of "13") [Proc (bytes_of "20") []]].

Definition small_proc (pid : cstr) : option (list Z) :=
  if decide (pid = bytes_of "7") then Some (bytes_of "12 13 ")
  else if decide (pid = bytes_of "13") then Some (bytes_of "20 ")
  else Some [].

Lemma main_counts_processes_witness :
  main small_proc 3 [bytes_of "count"; bytes_of "7"] = Ok (0, Some 4).
Proof.
  apply (main_counts_processes small_proc small_tree (bytes_of "count")).
  - cbn. unfold FILE_SIZE. repeat split; try reflexivity; try discriminate; try (cbn; lia);
      repeat constructor; lia.
  - vm_compute. split; [discriminate|reflexivity].
Defined.
