(* ===== verification/MyLs.v ===== *)
(** * MyLs: listing a directory, a link or a file

    Models src/src/file-system/my-ls/my_ls.c.  [lstat], [readlink] and
    [opendir] stand for the file system; what is printed is the list of the
    lines, without their newlines. *)

From S2P Require Import Prelude CInt CString.
Open Scope Z_scope.

Definition BUFFER_SIZE : Z := 1024.
Definition NO_ERR := 0.
Definition DIR_OPEN_ERR := 1.
Definition EMPTY_STR_ERR := 4.
Definition NOT_FLAG_ARG := 6.
Definition NO_POS := -1.

Definition VERBOSE := 1.
Definition ALL := 2.

Definition MOD_VERBOSE (mode : Z) : bool := negb (Z.land mode 1 =? 0).

(** [MOD_ALL(mod) != 0] is [mod & 2 != 0], which is [mod & (2 != 0)]. *)
Definition MOD_ALL_ne_0 (mode : Z) : bool := negb (Z.land mode (if 2 =? 0 then 0 else 1) =? 0).

Definition empty (str : option cstr) : bool :=
  match str with None => true | Some s => strcmp s [] =? 0 end.

Fixpoint flag_loop (mod_str : cstr) (mod_flag : Z) : Z :=
  match mod_str with
  | [] => mod_flag
  | c :: mod_str =>
      flag_loop mod_str
        (if c =? 97 then Z.lor mod_flag VERBOSE
         else if c =? 108 then Z.lor mod_flag ALL
         else mod_flag)
  end.

Definition make_mod_flag (mod_str : cstr) : Z := flag_loop mod_str 0.

(** [malloc_ok]: whether the block is given. *)
Definition make_absolute_path (malloc_ok : bool) (current_file_name prev_path : cstr)
    : outcome (option cstr) :=
  let len := strlen current_file_name + strlen prev_path in
  if negb malloc_ok then Ok None
  else
    let? absolute_path := sprintf (Z.to_nat (len + 1)) prev_path in
    let? absolute_path := sprintf (Z.to_nat (len + 1)) (absolute_path ++ current_file_name) in
    Ok (Some absolute_path).

(** The function ends without a return statement after it got its block. *)
Definition get_current_dir (malloc_ok : bool) : outcome (option cstr) :=
  if malloc_ok then Fault Indeterminate else Ok None.

(** From position [i - 1] down to 0. *)
Fixpoint last_slash (path : cstr) (i : nat) : Z :=
  match i with
  | O => NO_POS
  | S i => if decide (path !! i = Some 47) then Z.of_nat i + 1 else last_slash path i
  end.

Definition find_last_token_pos (path : cstr) : Z := last_slash path (length path - 1).

Definition get_file_name_slice (absl_path : cstr) : cstr :=
  let start_pos := find_last_token_pos absl_path in
  if negb (start_pos =? NO_POS) then drop (Z.to_nat start_pos) absl_path else absl_path.

Record dirent := mk_dirent { d_name : cstr }.

Inductive file_type := S_IFDIR | S_IFLNK | S_OTHER.

Section file_system.
Context (lstat : cstr -> option file_type) (readlink : cstr -> option cstr)
        (opendir : cstr -> option (list dirent)) (malloc_ok : cstr -> bool).

(** A null path makes [printf] read through it. *)
Definition print_file_info (file_path : option cstr) (mode : Z) : outcome (Z * list cstr) :=
  let? file_path := of_option NullDeref file_path in
  Ok (NO_ERR, [if MOD_VERBOSE mode then file_path else get_file_name_slice file_path]).

(** [readlink] fills at most the whole buffer; the NUL is written behind what
    it filled. *)
Definition print_s_link_info (s_link_path : cstr) (mode : Z) : outcome (Z * list cstr) :=
  match readlink s_link_path with
  | None => Ok (NO_ERR, [])
  | Some content =>
      let content := take (Z.to_nat BUFFER_SIZE) content in
      if strlen content <? BUFFER_SIZE then
        Ok (NO_ERR,
            [(if MOD_VERBOSE mode then bytes_of "VERBOSE " ++ s_link_path
              else get_file_name_slice s_link_path) ++ bytes_of " -> " ++ content])
      else Fault OutOfBounds
  end.

Fixpoint entries_loop (dir_path : cstr) (mode : Z) (entries : list dirent) : outcome (list cstr) :=
  match entries with
  | [] => Ok []
  | dir_entry :: entries =>
      if (MOD_ALL_ne_0 mode && (strcmp (d_name dir_entry) (bytes_of ".") =? 0))
         || (strcmp (d_name dir_entry) (bytes_of "..") =? 0)
      then entries_loop dir_path mode entries
      else
        let? next_file_path :=
          make_absolute_path (malloc_ok (d_name dir_entry)) (d_name dir_entry) dir_path in
        let? (_, out) := print_file_info next_file_path mode in
        let? rest := entries_loop dir_path mode entries in
        Ok (out ++ rest)
  end.

Definition print_dir_entities_info (dir_path : option cstr) (mode : Z) : outcome (Z * list cstr) :=
  match dir_path with
  | None => Ok (EMPTY_STR_ERR, [])
  | Some dir_path =>
      match opendir dir_path with
      | None =>
          Ok (DIR_OPEN_ERR,
              [bytes_of "Could not open directory: " ++ dir_path ++
               bytes_of ", please check syntex correctness"])
      | Some entries =>
          let? out := entries_loop dir_path mode entries in Ok (NO_ERR, out)
      end
  end.

(** With three arguments or more the function ends without a return statement
    unless the flags do not start with a dash. *)
Definition parse_args (dir_malloc_ok : bool) (argv : list cstr) : outcome (Z * option cstr * Z) :=
  match argv with
  | [] | [_] =>
      let? path := get_current_dir dir_malloc_ok in
      Ok (match path with None => EMPTY_STR_ERR | Some _ => NO_ERR end, path, 0)
  | [_; path] => Ok (NO_ERR, Some path, 0)
  | _ :: flags :: _ =>
      if bool_decide (head flags = Some 45) then Fault Indeterminate else Ok (NOT_FLAG_ARG, None, 0)
  end.

Definition get_info (path : cstr) (mode : Z) : outcome (list cstr) :=
  match lstat path with
  | None => Ok [bytes_of "ERROR!"]
  | Some S_IFDIR => let? (_, out) := print_dir_entities_info (Some path) mode in Ok out
  | Some S_IFLNK => let? (_, out) := print_s_link_info path mode in Ok out
  | Some S_OTHER => let? (_, out) := print_file_info (Some path) mode in Ok out
  end.

(** The exit status and the lines printed. *)
Definition main (dir_malloc_ok : bool) (argv : list cstr) : outcome (Z * list cstr) :=
  let? (err, path, mode) := parse_args dir_malloc_ok argv in
  if err =? EMPTY_STR_ERR then
    Ok (EMPTY_STR_ERR, [bytes_of "my_ls: Unable to get current directory"])
  else if err =? NOT_FLAG_ARG then
    Ok (NOT_FLAG_ARG, [bytes_of "my_ls: The specified flag or flags do not exist"])
  else
    let? path := of_option NullDeref path in
    let? out := get_info path mode in
    Ok (NO_ERR, path :: out).
End file_system.

(** ** Flags *)

Lemma flag_loop_bits s : forall f,
  0 <= f < 4 ->
  flag_loop s f = Z.lor f ((if decide (97 ∈ s) then 1 else 0) + (if decide (108 ∈ s) then 2 else 0)).
Proof.
  induction s as [|c s IH]; intros f Hf.
  { simpl. rewrite Z.lor_0_r. done. }
  cbn [flag_loop]. assert (Hc : f = 0 \/ f = 1 \/ f = 2 \/ f = 3) by lia.
  destruct (Z.eqb_spec c 97) as [->|H1]; [|destruct (Z.eqb_spec c 108) as [->|H2]].
  all: rewrite IH by (destruct Hc as [-> | [-> | [-> | ->]]]; vm_compute; split; congruence).
  all: repeat case_decide; try set_solver; destruct Hc as [-> | [-> | [-> | ->]]]; reflexivity.
Qed.

(** The letter a sets the bit named VERBOSE and the letter l the one named
    ALL, wherever they stand. *)
Lemma make_mod_flag_bits s :
  make_mod_flag s = (if decide (97 ∈ s) then VERBOSE else 0) + (if decide (108 ∈ s) then ALL else 0).
Proof. unfold make_mod_flag. rewrite flag_loop_bits by lia. apply Z.lor_0_l. Qed.

(** ** The last part of a path *)

Lemma last_slash_none path i :
  (forall j, (j < i)%nat -> path !! j <> Some 47) -> last_slash path i = NO_POS.
Proof.
  induction i as [|i IH]; intros H; [done|]. simpl. rewrite decide_False by (apply H; lia).
  apply IH. intros j Hj. apply H. lia.
Qed.

Lemma last_slash_at path i k :
  (k < i)%nat -> path !! k = Some 47 -> (forall j, (k < j < i)%nat -> path !! j <> Some 47) ->
  last_slash path i = Z.of_nat k + 1.
Proof.
  induction i as [|i IH]; intros Hk Hp H; [lia|]. simpl.
  destruct (decide (k = i)) as [->|Hne]; [by rewrite decide_True|].
  rewrite decide_False by (apply H; lia). apply IH; [lia|done|]. intros j Hj. apply H. lia.
Qed.

Lemma no_slash_lookup (name : cstr) j : ~ (47 ∈ name) -> name !! j <> Some 47.
Proof. intros H Hj. apply H. by eapply list_elem_of_lookup_2. Qed.

Lemma slice_after pre name :
  name <> [] -> ~ (47 ∈ name) -> get_file_name_slice (pre ++ 47 :: name) = name.
Proof.
  intros Hne Hn. unfold get_file_name_slice, find_last_token_pos.
  assert (Hlen : (0 < length name)%nat) by (by destruct name; simpl in *; [|lia]).
  rewrite (last_slash_at _ _ (length pre)).
  - rewrite (proj2 (Z.eqb_neq _ _)) by (unfold NO_POS; lia). simpl.
    replace (Z.to_nat (Z.of_nat (length pre) + 1)) with (length pre + 1)%nat by lia.
    rewrite <- drop_drop, drop_app_length. done.
  - rewrite length_app. simpl. lia.
  - by rewrite list_lookup_middle.
  - intros j [Hj _]. rewrite lookup_app_r by lia.
    destruct (j - length pre)%nat as [|k] eqn:E; [lia|]. simpl. by apply no_slash_lookup.
Qed.

Lemma slice_plain name : ~ (47 ∈ name) -> get_file_name_slice name = name.
Proof.
  intros Hn. unfold get_file_name_slice, find_last_token_pos.
  rewrite last_slash_none; [done|]. intros j _. by apply no_slash_lookup.
Qed.

(** ** The program *)

Lemma ls_path_ok name path :
  make_absolute_path true name path = Ok (Some (path ++ name)).
Proof.
  unfold make_absolute_path, sprintf, strlen. simpl. rewrite decide_True by lia. simpl.
  by rewrite decide_True by (rewrite length_app; lia).
Qed.

Definition entry_name (d : dirent) : Prop := d_name d <> [] /\ is_cstr (d_name d) /\ ~ (47 ∈ d_name d).

Lemma not_parent d : entry_name d ->
  (strcmp (d_name d) (bytes_of "..") =? 0) = bool_decide (d_name d = bytes_of "..").
Proof.
  intros (_ & Hc & _).
  pose proof (strcmp_eq (d_name d) (bytes_of "..") Hc ltac:(repeat constructor; lia)) as H.
  destruct (Z.eqb_spec (strcmp (d_name d) (bytes_of "..")) 0); symmetry;
    [apply bool_decide_eq_true_2|apply bool_decide_eq_false_2]; tauto.
Qed.

Section listing.
Context (lstat : cstr -> option file_type) (readlink : cstr -> option cstr)
        (opendir : cstr -> option (list dirent)) (malloc_ok : cstr -> bool).

(** [d0] is the path up to its last slash, [d1] what follows it. *)
Lemma entries_loop_ok d0 d1 ds :
  ~ (47 ∈ d1) -> Forall (fun d => entry_name d /\ malloc_ok (d_name d) = true) ds ->
  entries_loop malloc_ok (d0 ++ 47 :: d1) 0 ds =
  Ok (map (fun d => d1 ++ d_name d) (filter (fun d => d_name d <> bytes_of "..") ds)).
Proof.
  intros Hd1 Hds. induction Hds as [|d ds [Hd Hm] Hds IH]; [done|]. cbn [entries_loop].
  rewrite filter_cons, (not_parent d Hd). cbn [MOD_ALL_ne_0 Z.land Z.eqb negb andb orb].
  destruct (decide (d_name d = bytes_of "..")) as [E|E].
  - rewrite bool_decide_eq_true_2 by done. rewrite decide_False by tauto. exact IH.
  - rewrite bool_decide_eq_false_2 by done. rewrite decide_True by done.
    rewrite Hm, ls_path_ok, IH. simpl. destruct Hd as (Hne & _ & Hns).
    rewrite <- app_assoc. simpl. rewrite slice_after; [done| |set_solver].
    by destruct d1; destruct (d_name d).
Qed.

(** Called with a directory whose path has a slash, [main] prints the path
    and then, for every entry but .., a line: its name behind what follows the
    last slash of the path.  So the lines are the names exactly when the path
    ends in a slash. *)
Theorem main_lists_directory b prog d0 d1 ds :
  let dir := d0 ++ 47 :: d1 in
  ~ (47 ∈ d1) -> lstat dir = Some S_IFDIR -> opendir dir = Some ds ->
  Forall (fun d => entry_name d /\ malloc_ok (d_name d) = true) ds ->
  main lstat readlink opendir malloc_ok b [prog; dir] =
  Ok (NO_ERR, dir :: map (fun d => d1 ++ d_name d) (filter (fun d => d_name d <> bytes_of "..") ds)).
Proof.
  intros dir Hd1 Hst Hop Hds. unfold main. simpl. unfold get_info. rewrite Hst. simpl. rewrite Hop.
  unfold dir. by rewrite entries_loop_ok.
Qed.

(** Without an argument, and with flags, what [main] does is not defined: the
    functions it calls end without returning a value. *)
Lemma main_other_arguments b prog flags rest :
  main lstat readlink opendir malloc_ok true [prog] = Fault Indeterminate /\
  (rest <> [] -> head flags = Some 45 ->
   main lstat readlink opendir malloc_ok b (prog :: flags :: rest) = Fault Indeterminate).
Proof.
  split; [done|]. intros Hr Hf. unfold main, parse_args. destruct rest as [|a rest]; [done|].
  rewrite bool_decide_eq_true_2 by done. done.
Qed.

(** A link of 1024 characters or more overruns the buffer by its NUL. *)
Lemma long_link_overruns path content mode :
  readlink path = Some content -> BUFFER_SIZE <= strlen content ->
  print_s_link_info readlink path mode = Fault OutOfBounds.
Proof.
  intros Hr Hl. unfold print_s_link_info. rewrite Hr. unfold strlen in *.
  rewrite (proj2 (Z.ltb_ge _ _)); [done|]. rewrite length_take. unfold BUFFER_SIZE in *. lia.
Qed.
End listing.

(** ** Witness *)

Lemma main_lists_directory_witness :
  main (fun _ => Some S_IFDIR) (fun _ => None)
    (fun _ => Some [mk_dirent (bytes_of ".."); mk_dirent (bytes_of "f"); mk_dirent (bytes_of "g")])
    (fun _ => true) true [bytes_of "my_ls"; bytes_of "/d/e"] =
  Ok (0, [bytes_of "/d/e"; bytes_of "ef"; bytes_of "eg"]).
Proof.
  apply (main_lists_directory (fun _ => Some S_IFDIR) (fun _ => None)
    (fun _ => Some [mk_dirent (bytes_of ".."); mk_dirent (bytes_of "f"); mk_dirent (bytes_of "g")])
    (fun _ => true) true (bytes_of "my_ls") (bytes_of "/d") (bytes_of "e")
    [mk_dirent (bytes_of ".."); mk_dirent (bytes_of "f"); mk_dirent (bytes_of "g")]).
  - set_solver.
  - reflexivity.
  - reflexivity.
  - repeat constructor; simpl; try lia; set_solver.
Defined.
