(* ===== verification/DirCrawler.v ===== *)
(** * DirCrawler: counting what is below a directory

    Models src/src/file-system/dir-crawler/dir-crawler.c.  [opendir] stands for
    the file system: the entries of a directory, as [readdir] gives them, or
    [None] where it cannot be opened. *)

From S2P Require Import Prelude CInt CString.
Open Scope Z_scope.

Definition NO_ERR := 0.
Definition DIR_OPD_ERR := 1.
Definition GET_STAT_ERR := 2.
Definition FILES_STAT_INIT_ERR := 3.
Definition EMPTY_DIR_PATH := 4.

Record files_stat := mk_stat { count_file : Z; count_not_permitted : Z }.

(** The root directory is counted. *)
Definition file_stat_init : Z * files_stat := (0, mk_stat 1 0).

(** [d_type] of <dirent.h>. *)
Definition DT_FIFO := 1.
Definition DT_DIR := 4.
Definition DT_BLK := 6.
Definition DT_REG := 8.
Definition DT_LNK := 10.
Definition DT_SOCK := 12.

Record dirent := mk_dirent { d_name : cstr; d_type : Z }.

Definition get_type_linux (d_type : Z) : cstr :=
  bytes_of (
    if d_type =? DT_DIR then "It is a directory"
    else if d_type =? DT_BLK then "It is a block"
    else if d_type =? DT_REG then "It is a file"
    else if d_type =? DT_SOCK then "It is a socket"
    else if d_type =? DT_LNK then "It is a link"
    else if d_type =? DT_FIFO then "It is a named pipe"
    else "Unknown type").

(** [malloc_ok]: whether the block is given.  [sprintf] checks what [strcpy]
    and [strcat] write against the size of the block. *)
Definition make_absolute_path (malloc_ok : bool) (current_dir_name prev_path : cstr)
    : outcome (option cstr) :=
  let prev_path_len := strlen prev_path in
  let current_dir_name_len := strlen current_dir_name in
  let len := current_dir_name_len + prev_path_len + 1 in
  let size := Z.to_nat (len + 1) in
  if negb malloc_ok then Ok None
  else
    let? absolute_path := sprintf size prev_path in
    let? last := of_option OutOfBounds (List.last (map Some prev_path) None) in
    let? absolute_path :=
      (if negb (last =? 47) then sprintf size (absolute_path ++ [47]) else Ok absolute_path) in
    let? absolute_path := sprintf size (absolute_path ++ current_dir_name) in
    Ok (Some absolute_path).

Section crawl.
Context (opendir : cstr -> option (list dirent)).
(** Whether the path of an entry can be allocated. *)
Context (malloc_ok : cstr -> cstr -> bool).

Definition is_dots (name : cstr) : bool :=
  (strcmp name (bytes_of ".") =? 0) || (strcmp name (bytes_of "..") =? 0).

(** The loop over the entries; [count] is the recursive call. *)
Fixpoint entries_loop (count : option cstr -> files_stat -> outcome (Z * files_stat))
    (dir_path : cstr) (entries : list dirent) (f_stat : files_stat) : outcome files_stat :=
  match entries with
  | [] => Ok f_stat
  | dir_entry :: entries =>
      if is_dots (d_name dir_entry) then entries_loop count dir_path entries f_stat
      else
        let f_stat := mk_stat (u64 (count_file f_stat + 1)) (count_not_permitted f_stat) in
        let? next_file_path :=
          make_absolute_path (malloc_ok (d_name dir_entry) dir_path) (d_name dir_entry) dir_path in
        let? f_stat :=
          (if d_type dir_entry =? DT_DIR then
             let? (_, f_stat) := count next_file_path f_stat in Ok f_stat
           else Ok f_stat) in
        entries_loop count dir_path entries f_stat
  end.

(** [fuel] bounds the depth of the recursion.  The comparison of [dir_path]
    with a literal compares addresses, and is false. *)
Fixpoint count_dir_entities_linux (fuel : nat) (dir_path : option cstr) (f_stat : files_stat)
    : outcome (Z * files_stat) :=
  match fuel with
  | O => Fault NoFuel
  | S fuel =>
      match dir_path with
      | None => Ok (EMPTY_DIR_PATH, f_stat)
      | Some dir_path =>
          match opendir dir_path with
          | None =>
              Ok (DIR_OPD_ERR, mk_stat (count_file f_stat) (u64 (count_not_permitted f_stat + 1)))
          | Some entries =>
              let? f_stat := entries_loop (count_dir_entities_linux fuel) dir_path entries f_stat in
              Ok (NO_ERR, f_stat)
          end
      end
  end.

(** The exit status and the two numbers printed. *)
Definition main (fuel : nat) (argv : list cstr) : outcome (Z * option (Z * Z)) :=
  match argv !! 1%nat with
  | None => Ok (1, None)
  | Some dir =>
      let (err, f_sts) := file_stat_init in
      if negb (err =? 0) then Ok (FILES_STAT_INIT_ERR, None)
      else
        let? (exec_code, f_sts) := count_dir_entities_linux fuel (Some dir) f_sts in
        Ok (exec_code, Some (count_file f_sts, count_not_permitted f_sts))
  end.
End crawl.

(** ** Trees *)

(** An entry: not a directory, a directory that cannot be opened, or one with
    these entries. *)
#[warnings="-register-all"]
Inductive tree := File | Locked | Open (entries : list (dirent * tree)).

Fixpoint entries_below (t : tree) : Z :=
  match t with
  | File | Locked => 0
  | Open es =>
      (fix go es := match es with [] => 0 | (_, t) :: es => 1 + entries_below t + go es end) es
  end.

Fixpoint locked_below (t : tree) : Z :=
  match t with
  | File => 0
  | Locked => 1
  | Open es =>
      (fix go es := match es with [] => 0 | (_, t) :: es => locked_below t + go es end) es
  end.

Fixpoint depth (t : tree) : nat :=
  match t with
  | File => 0
  | Locked => 1
  | Open es =>
      S ((fix go es := match es with [] => O | (_, t) :: es => Nat.max (depth t) (go es) end) es)
  end.

(** The path of an entry. *)
Definition join (path name : cstr) : cstr :=
  if decide (last path = Some 47) then path ++ name else path ++ 47 :: name.

(** The file system has the tree [t] at [path]; of the entries . and .. nothing
    is said. *)
Fixpoint serves (opendir : cstr -> option (list dirent)) (path : cstr) (t : tree) : Prop :=
  match t with
  | File => False
  | Locked => opendir path = None
  | Open es =>
      (exists ds, opendir path = Some ds /\
         filter (fun d => is_dots (d_name d) = false) ds = map fst es) /\
      (fix go es := match es with
       | [] => True
       | (d, t) :: es =>
           (if decide (d_type d = DT_DIR) then serves opendir (join path (d_name d)) t else t = File) /\
           go es
       end) es
  end.

Definition counted (s : files_stat) (t : tree) : files_stat :=
  mk_stat (u64 (count_file s + entries_below t)) (u64 (count_not_permitted s + locked_below t)).

(** ** Counting *)

Lemma list_last_stdpp (l : cstr) : List.last (map Some l) None = last l.
Proof. induction l as [|a [|b l] IH]; [done..|]. exact IH. Qed.

Lemma make_absolute_path_ok name path :
  path <> [] -> make_absolute_path true name path = Ok (Some (join path name)).
Proof.
  intros Hp. unfold make_absolute_path, join. simpl. rewrite list_last_stdpp.
  destruct (last path) as [c|] eqn:Hl; [|by apply last_None in Hl].
  unfold sprintf, strlen. rewrite decide_True by lia. simpl.
  destruct (Z.eqb_spec c 47) as [->|Hc]; simpl.
  - rewrite decide_True by (rewrite length_app; lia). done.
  - destruct (decide (Some c = Some 47)) as [E|_]; [by injection E|].
    rewrite decide_True by (rewrite length_app; simpl; lia). simpl.
    rewrite decide_True by (rewrite !length_app; simpl; lia). by rewrite <- app_assoc.
Qed.

Lemma join_nonempty path name : path <> [] -> join path name <> [].
Proof. unfold join. by destruct path; case_decide. Qed.

(** The loop passes over the entries . and .. . *)
Lemma entries_loop_dots malloc_ok count path ds s :
  entries_loop malloc_ok count path ds s =
  entries_loop malloc_ok count path (filter (fun d => is_dots (d_name d) = false) ds) s.
Proof.
  revert s. induction ds as [|d ds IH]; intros s; [done|]. rewrite filter_cons.
  destruct (is_dots (d_name d)) eqn:E; simpl; rewrite E; [apply IH|].
  destruct (make_absolute_path _ _ _) as [p|]; [|done]. simpl.
  destruct (d_type d =? DT_DIR); simpl; [|apply IH].
  destruct (count p _) as [[? ?]|]; [apply IH|done].
Qed.

Definition stat_ok (s : files_stat) : Prop :=
  0 <= count_file s < 2 ^ 64 /\ 0 <= count_not_permitted s < 2 ^ 64.

Lemma counted_nil s : stat_ok s -> counted s (Open []) = s.
Proof.
  intros [H1 H2]. destruct s as [a b]. unfold counted. simpl in *.
  rewrite !Z.add_0_r. by rewrite !u64_small.
Qed.

Lemma counted_ok s t : stat_ok (counted s t).
Proof. split; apply u64_range. Qed.

(** An entry is counted, then what is below it, then the entries after it. *)
Definition counted_entry (s : files_stat) (t : tree) : files_stat :=
  let s := mk_stat (u64 (count_file s + 1)) (count_not_permitted s) in
  match t with File => s | t => counted s t end.

Lemma counted_cons s es d t :
  counted (counted_entry s t) (Open es) = counted s (Open ((d, t) :: es)).
Proof.
  destruct t; unfold counted_entry, counted; cbn [count_file count_not_permitted];
    rewrite ?u64_add_idemp_l, <- ?Z.add_assoc, ?u64_add_idemp_l; simpl; f_equal; f_equal; lia.
Qed.

Lemma entry_ok s t : stat_ok s -> stat_ok (counted_entry s t).
Proof. intros [_ H]. destruct t; [|apply counted_ok..]. split; [apply u64_range|done]. Qed.

Lemma below_nonneg t : 0 <= entries_below t /\ 0 <= locked_below t.
Proof.
  enough (H : forall n t, (depth t <= n)%nat -> 0 <= entries_below t /\ 0 <= locked_below t) by by apply (H (depth t)).
  clear t. induction n as [|n IH]; intros [| |es] Hd; try (simpl in *; lia). simpl in Hd |- *.
  induction es as [|[d t] es IHes]; [done|]. destruct (IH t); [lia|]. destruct IHes; [lia|]. lia.
Qed.

Section count.
Context (opendir : cstr -> option (list dirent)) (malloc_ok : cstr -> cstr -> bool).
Hypothesis malloc_given : forall a b, malloc_ok a b = true.

Definition code (t : tree) : Z := match t with Locked => DIR_OPD_ERR | _ => NO_ERR end.

Lemma count_ok fuel : forall t path s,
  serves opendir path t -> path <> [] -> (depth t <= fuel)%nat -> stat_ok s ->
  count_dir_entities_linux opendir malloc_ok fuel (Some path) s = Ok (code t, counted s t).
Proof.
  induction fuel as [|fuel IH]; intros t path s Hs Hp Hd Hok; [by destruct t; simpl in Hd; [|lia..]|].
  destruct t as [| |es]; simpl in Hs; [done| |]; cbn [count_dir_entities_linux].
  { rewrite Hs. unfold counted. simpl. rewrite Z.add_0_r, (u64_small (count_file s)) by apply Hok. done. }
  destruct Hs as [(ds & -> & Hds) Hes]. rewrite entries_loop_dots, Hds.
  assert (Hnd : Forall (fun d => is_dots (d_name d) = false) (map fst es)).
  { rewrite <- Hds. apply Forall_forall. intros d Hd'. by apply list_elem_of_filter in Hd' as [? _]. }
  enough (entries_loop malloc_ok (count_dir_entities_linux opendir malloc_ok fuel) path (map fst es) s
          = Ok (counted s (Open es))) as -> by done.
  clear ds Hds. revert s Hok Hd Hes Hnd. induction es as [|[d t] es IHes]; intros s Hok Hd Hes Hnd.
  { by rewrite counted_nil. }
  destruct Hes as [Hsub Hes]. apply Forall_cons in Hnd as [Hdot Hnd]. simpl in Hd, Hdot |- *.
  rewrite Hdot, malloc_given, make_absolute_path_ok by done. simpl. rewrite <- (counted_cons s es d t).
  assert (Hes' : (depth (Open es) <= S fuel)%nat) by (simpl; lia).
  pose proof (entry_ok s t Hok) as Hok'.
  destruct (Z.eqb_spec (d_type d) DT_DIR) as [Ht|Ht]; [rewrite decide_True in Hsub by done|rewrite decide_False in Hsub by done].
  - rewrite (IH t (join path (d_name d))); [|done|by apply join_nonempty|lia|apply (entry_ok s File Hok)].
    simpl. destruct t; [done|by apply IHes..].
  - subst t. simpl. by apply (IHes (counted_entry s File)).
Qed.

(** For a directory with any tree below it, of fewer than 2^64 entries,
    [main] ends and prints one more than the number of entries at every level
    (the directory itself is counted), and the number of directories that
    could not be opened; the status tells whether the directory itself could.
    [fuel] is the depth of the tree. *)
Theorem main_counts_entries t prog dir rest :
  serves opendir dir t -> dir <> [] -> entries_below t + 1 < 2 ^ 64 -> locked_below t < 2 ^ 64 ->
  main opendir malloc_ok (depth t) (prog :: dir :: rest) =
  Ok (code t, Some (1 + entries_below t, locked_below t)).
Proof.
  intros Hs Hd He Hl. unfold main. simpl.
  rewrite (count_ok (depth t) t dir) by (done || (split; simpl; lia)).
  unfold counted. simpl. rewrite !u64_small; [done| |].
  - split; [|done]. apply below_nonneg.
  - split; [|lia]. pose proof (proj1 (below_nonneg t)). lia.
Qed.
End count.

(** ** Witness *)

(** A directory with a file, a directory that cannot be opened and one with a
    link. *)
Definition small_tree : tree :=
  Open [(mk_dirent (bytes_of "f") DT_REG, File); (mk_dirent (bytes_of "s") DT_DIR, Locked);
        (mk_dirent (bytes_of "t") DT_DIR, Open [(mk_dirent (bytes_of "l") DT_LNK, File)])].

Definition small_fs (path : cstr) : option (list dirent) :=
  if decide (path = bytes_of "/d") then
    Some [mk_dirent (bytes_of ".") DT_DIR; mk_dirent (bytes_of "..") DT_DIR;
          mk_dirent (bytes_of "f") DT_REG; mk_dirent (bytes_of "s") DT_DIR; mk_dirent (bytes_of "t") DT_DIR]
  else if decide (path = bytes_of "/d/t") then
    Some [mk_dirent (bytes_of "..") DT_DIR; mk_dirent (bytes_of "l") DT_LNK; mk_dirent (bytes_of ".") DT_DIR]
  else None.

Lemma main_counts_entries_witness :
  main small_fs (fun _ _ => true) 2 [bytes_of "crawler"; bytes_of "/d"] = Ok (0, Some (5, 1)).
Proof.
  apply (main_counts_entries small_fs (fun _ _ => true) (fun _ _ => eq_refl) small_tree).
  - vm_compute. repeat split; try (eexists; split; reflexivity).
  - discriminate.
  - vm_compute. reflexivity.
  - vm_compute. reflexivity.
Defined.
