(* ===== verification/Base64.v ===== *)
(** * Base64: decoding attachments

    Models [src/c++/eml-attachments-parser/base64_to_bytes.cpp] and its header.
    The decoding table is global state: null, live or released.  Its 256 bytes
    come from [malloc] and only the 64 positions of the alphabet are written,
    so any other cell is indeterminate.  The table is indexed with a [char],
    which is signed: a byte from 128 up is a negative index.

    [base64_encode] is the reference the decoders are compared with: the
    standard encoding with padding (RFC 4648, section 4). *)

From S2P Require Import Prelude CInt CString CBuf.
Open Scope Z_scope.

(** ** The decoding table *)

Definition encoding_table : list Z :=
  bytes_of "ABCDEFGHIJKLMNOPQRSTUVWXYZabcdefghijklmnopqrstuvwxyz0123456789+/".

Inductive table :=
| TableNull
| TableLive (cells : list (option Z))
| TableFreed.

Fixpoint fill_table (codes : list Z) (i : Z) (cells : list (option Z)) : outcome (list (option Z)) :=
  match codes with
  | [] => Ok cells
  | c :: codes => let? cells := store cells (u8 c) (Some i) in fill_table codes (i + 1) cells
  end.

(** [refused]: the allocator answers null. *)
Definition build_decoding_table (refused : bool) : M table unit :=
  if refused then fail NullDeref
  else cells <- lift (fill_table encoding_table 0 (replicate 256 None)) ;;
       modify (fun _ => TableLive cells).

(** Releases the block; the global keeps its value.  [free(NULL)] is allowed. *)
Definition base64_cleanup : M table unit := fun t =>
  match t with
  | TableNull => Ok (tt, TableNull)
  | TableLive _ => Ok (tt, TableFreed)
  | TableFreed => Fault Dangling
  end.

(** [decoding_table[c]] for a [char] [c]. *)
Definition table_read (t : table) (c : Z) : outcome Z :=
  match t with
  | TableNull => Fault NullDeref
  | TableFreed => Fault Dangling
  | TableLive cells => let? v := load cells (i8 c) in of_option Indeterminate v
  end.

(** ** Decoding *)

(** [i++] on an [int]. *)
Definition incr (i : Z) : outcome Z :=
  if i =? 2 ^ 31 - 1 then Fault Indeterminate else Ok (i + 1).

(** [data[i] == '=' ? 0 & i++ : decoding_table[data[i++]]] *)
Definition sextet (t : table) (data : list Z) (i : Z) : outcome (Z * Z) :=
  let? c := load data i in
  let? i := incr i in
  if c =? 61 then Ok (0, i)
  else let? v := table_read t c in Ok (u32 v, i).

Definition triple (a b c d : Z) : Z :=
  u32 (u32 (Z.shiftl a 18) + u32 (Z.shiftl b 12) + u32 (Z.shiftl c 6) + u32 (Z.shiftl d 0)).

(** The loop that both functions repeat; they differ in how a byte is put
    into the result. *)
Section loop.
Context {A : Type} (put : A -> Z -> outcome A) (t : table) (data : list Z) (input_length : Z).

Fixpoint decode_loop (fuel : nat) (i : Z) (st : A) : outcome A :=
  if i <? input_length then
    match fuel with
    | O => Fault NoFuel
    | S fuel =>
        let? (sextet_a, i) := sextet t data i in
        let? (sextet_b, i) := sextet t data i in
        let? (sextet_c, i) := sextet t data i in
        let? (sextet_d, i) := sextet t data i in
        let tr := triple sextet_a sextet_b sextet_c sextet_d in
        let? st := put st (Z.land (Z.shiftr tr 16) 255) in
        let? st := put st (Z.land (Z.shiftr tr 8) 255) in
        let? st := put st (Z.land (Z.shiftr tr 0) 255) in
        decode_loop fuel i st
    end
  else Ok st.
End loop.

(** [if (j++ < output_length) decoded_data.push_back(v)] *)
Definition put_char (output_length : Z) (st : Z * list Z) (v : Z) : outcome (Z * list Z) :=
  let? j := incr (fst st) in
  Ok (j, if fst st <? output_length then snd st ++ [v] else snd st).

(** [if (j < output_length) decoded_data[j++] = v] *)
Definition put_byte (output_length : Z) (st : Z * list Z) (v : Z) : outcome (Z * list Z) :=
  if fst st <? output_length then
    let? j := incr (fst st) in
    let? d := store (snd st) (fst st) v in
    Ok (j, d)
  else Ok st.

(** [data] is the string with the terminator that [c_str()] adds. *)
Definition get_output_length (data : list Z) (input_length : Z) : outcome Z :=
  let output_length := input_length / 4 * 3 in
  let? c := load data (u64 (input_length - 1)) in
  let output_length := if c =? 61 then u64 (output_length - 1) else output_length in
  let? c := load data (u64 (input_length - 2)) in
  Ok (if c =? 61 then u64 (output_length - 1) else output_length).

Definition ensure_table (refused : bool) : M table unit := fun t =>
  match t with
  | TableNull => build_decoding_table refused t
  | _ => ret tt t
  end.

Definition base64_decode_to_string (refused : bool) (str : list Z) : M table (list Z) :=
  let data := str ++ [0] in
  let input_length := Z.of_nat (length str) in
  ensure_table refused ;;
  if negb (input_length mod 4 =? 0) then ret []
  else
    output_length <- lift (get_output_length data input_length) ;;
    t <- gets (fun t => t) ;;
    st <- lift (decode_loop (put_char output_length) t data input_length (length str) 0 (0, [])) ;;
    ret (snd st).

Definition base64_decode_to_bytes (refused : bool) (str : list Z) : M table (list Z) :=
  let data := str ++ [0] in
  let input_length := Z.of_nat (length str) in
  ensure_table refused ;;
  if negb (input_length mod 4 =? 0) then ret []
  else
    output_length <- lift (get_output_length data input_length) ;;
    t <- gets (fun t => t) ;;
    st <- lift (decode_loop (put_byte output_length) t data input_length (length str) 0
                  (0, replicate (Z.to_nat output_length) 0)) ;;
    ret (snd st).

(** ** The reference encoding *)

Definition code (k : Z) : Z := nth (Z.to_nat k) encoding_table 0.

Fixpoint base64_encode (bs : list Z) : list Z :=
  match bs with
  | a :: b :: c :: bs =>
      code (a / 4) :: code (a mod 4 * 16 + b / 16) :: code (b mod 16 * 4 + c / 64) ::
      code (c mod 64) :: base64_encode bs
  | [a; b] => [code (a / 4); code (a mod 4 * 16 + b / 16); code (b mod 16 * 4); 61]
  | [a] => [code (a / 4); code (a mod 4 * 16); 61; 61]
  | [] => []
  end.

Definition is_byte (b : Z) : Prop := 0 <= b < 256.

(** The table once it is built. *)
Definition decoding_cells : list (option Z) :=
  match fill_table encoding_table 0 (replicate 256 None) with Ok cells => cells | Fault _ => [] end.

Lemma build_ok : build_decoding_table false TableNull = Ok (tt, TableLive decoding_cells).
Proof. by vm_compute. Qed.

Definition table_ready (t : table) : Prop := t = TableNull \/ t = TableLive decoding_cells.

Lemma ensure_ready t : table_ready t -> ensure_table false t = Ok (tt, TableLive decoding_cells).
Proof. intros [-> | ->]; [apply build_ok|done]. Qed.

(** ** The two decoders agree *)

Lemma incr_ok i : i < 2 ^ 31 - 1 -> incr i = Ok (i + 1).
Proof. intros. unfold incr. by rewrite (proj2 (Z.eqb_neq _ _)) by lia. Qed.

Lemma incr_inv i r : i < 2 ^ 31 -> incr i = Ok r -> r = i + 1 /\ r < 2 ^ 31.
Proof. unfold incr. destruct (Z.eqb_spec i (2 ^ 31 - 1)); [done|]. intros ? [= <-]. lia. Qed.

Lemma sextet_inv t data i v r : i < 2 ^ 31 -> sextet t data i = Ok (v, r) -> r = i + 1 /\ r < 2 ^ 31.
Proof.
  intros Hi. unfold sextet. destruct (load data i); [|done]. simpl.
  destruct (incr i) as [k|] eqn:E; [|done]. apply incr_inv in E; [|done]. simpl.
  destruct (_ =? 61).
  - intros [= <- <-]. done.
  - destruct (table_read t a); simpl; [|done]. intros [= <- <-]. done.
Qed.

(** The byte vector holds what the string holds, followed by the zeros that
    are still to be overwritten. *)
Definition put_rel (out j : Z) (s : list Z) (st' : Z * list Z) : Prop :=
  fst st' = Z.min j out /\ Z.of_nat (length s) = Z.min j out /\
  snd st' = s ++ replicate (Z.to_nat (out - Z.min j out)) 0.

Lemma put_sim out j s st' v :
  0 <= j < 2 ^ 31 - 1 -> put_rel out j s st' ->
  exists s2 st2', put_char out (j, s) v = Ok (j + 1, s2) /\ put_byte out st' v = Ok st2' /\
    put_rel out (j + 1) s2 st2'.
Proof.
  intros Hj (Hj' & Hl & Hv). destruct st' as [j' d]. simpl in *. unfold put_char, put_byte. simpl.
  rewrite incr_ok by lia. simpl. destruct (Z.ltb_spec j out) as [Hlt|Hge].
  - rewrite (proj2 (Z.ltb_lt j' out)) by lia. rewrite incr_ok by lia. simpl.
    rewrite Z.min_l in * by lia. subst j' d. rewrite store_z.
    2: { rewrite length_app, length_replicate. lia. }
    do 2 eexists. split; [done|]. split; [done|]. unfold put_rel. simpl.
    rewrite length_app. simpl. split; [lia|]. split; [lia|].
    rewrite insert_app_r_alt by lia. replace (Z.to_nat j - length s)%nat with O by lia.
    replace (Z.to_nat (out - j)) with (S (Z.to_nat (out - Z.min (j + 1) out))) by lia.
    simpl. by rewrite <- app_assoc.
  - rewrite (proj2 (Z.ltb_ge j' out)) by lia.
    do 2 eexists. split; [done|]. split; [done|]. unfold put_rel. simpl.
    replace (Z.min (j + 1) out) with (Z.min j out) by lia. done.
Qed.

Section agree.
Context (t : table) (data : list Z) (n out : Z).
Hypothesis (Hout : 4 * out <= 3 * n).

Lemma decode_loop_sim fuel : forall i j s st',
  0 <= i < 2 ^ 31 -> 4 * j = 3 * i -> put_rel out j s st' ->
  (exists j2 s2, decode_loop (put_char out) t data n fuel i (j, s) = Ok (j2, s2) /\
     decode_loop (put_byte out) t data n fuel i st' = Ok (out, s2)) \/
  (exists f, decode_loop (put_char out) t data n fuel i (j, s) = Fault f /\
     decode_loop (put_byte out) t data n fuel i st' = Fault f).
Proof.
  induction fuel as [|fuel IH]; intros i j s st' Hi Hji Hrel; simpl.
  all: destruct (Z.ltb_spec i n) as [Hlt|Hge].
  2, 4: left; exists j, s; split; [done|]; destruct Hrel as (H1 & H2 & H3), st' as [j' d];
        simpl in *; subst; rewrite Z.min_r by lia;
        by rewrite Z.sub_diag, app_nil_r.
  1: eauto.
  destruct (sextet t data i) as [[a i1]|] eqn:E1; [|by eauto]. simpl.
  apply sextet_inv in E1 as [-> ?]; [|lia].
  destruct (sextet t data (i + 1)) as [[b i2]|] eqn:E2; [|by eauto]. simpl.
  apply sextet_inv in E2 as [-> ?]; [|lia].
  destruct (sextet t data (i + 1 + 1)) as [[c i3]|] eqn:E3; [|by eauto]. simpl.
  apply sextet_inv in E3 as [-> ?]; [|lia].
  destruct (sextet t data (i + 1 + 1 + 1)) as [[d i4]|] eqn:E4; [|by eauto]. simpl.
  apply sextet_inv in E4 as [-> ?]; [|lia].
  destruct (put_sim out j s st' (Z.land (Z.shiftr (triple a b c d) 16) 255)) as (s1 & st1 & -> & -> & Hr1); [lia|done|].
  destruct (put_sim out (j + 1) s1 st1 (Z.land (Z.shiftr (triple a b c d) 8) 255)) as (s2 & st2 & E5 & E6 & Hr2); [lia|done|].
  cbn [obind]. rewrite E5, E6. clear E5 E6.
  destruct (put_sim out (j + 1 + 1) s2 st2 (Z.land (Z.shiftr (triple a b c d) 0) 255)) as (s3 & st3 & E5 & E6 & Hr3); [lia|done|].
  cbn [obind]. rewrite E5, E6. cbn [obind]. apply IH; [lia|lia|done].
Qed.
End agree.


Lemma get_output_length_bound str out :
  Z.of_nat (length str) < 2 ^ 64 -> Z.of_nat (length str) mod 4 = 0 ->
  get_output_length (str ++ [0]) (Z.of_nat (length str)) = Ok out ->
  0 <= out /\ 4 * out <= 3 * Z.of_nat (length str).
Proof.
  intros Hn Hm. destruct (decide (str = [])) as [->|Hne]; [done|].
  assert (0 < Z.of_nat (length str)) by (destruct str; [done|simpl; lia]).
  unfold get_output_length. destruct (load _ _) as [c1|]; cbn [obind]; [|done].
  destruct (load _ (u64 (_ - 2))) as [c2|]; cbn [obind]; [|done]. intros [= <-].
  assert (exists k, Z.of_nat (length str) = 4 * k) as [k Hlen] by (exists (Z.of_nat (length str) / 4); dlia).
  rewrite Hlen in *. replace (4 * k / 4 * 3) with (3 * k) by dlia. clear Hlen Hm.
  assert (u64 (3 * k - 1) = 3 * k - 1) as Hk by (apply u64_small; lia).
  assert (u64 (3 * k - 1 - 1) = 3 * k - 1 - 1) as Hk' by (apply u64_small; lia).
  destruct (c1 =? 61), (c2 =? 61); rewrite ?Hk, ?Hk'; lia.
Qed.

(** ** Round trip *)

Lemma read_code k :
  0 <= k < 64 -> table_read (TableLive decoding_cells) (code k) = Ok k /\ code k <> 61.
Proof.
  intros Hk. assert (Hall : forallb (fun k => bool_decide
    (table_read (TableLive decoding_cells) (code (Z.of_nat k)) = Ok (Z.of_nat k) /\
     code (Z.of_nat k) <> 61)) (seq 0 64) = true) by (by vm_compute).
  rewrite forallb_forall in Hall. specialize (Hall (Z.to_nat k)).
  rewrite Z2Nat.id in Hall by lia. apply (bool_decide_unpack _), Is_true_true, Hall.
  apply in_seq. lia.
Qed.

(** A character of the input and the six bits it stands for. *)
Definition stands_for (q k : Z) : Prop := 0 <= k < 64 /\ (q = code k \/ (q = 61 /\ k = 0)).

Lemma code_stands k : 0 <= k < 64 -> stands_for (code k) k.
Proof. unfold stands_for. auto. Qed.

Lemma pad_stands : stands_for 61 0.
Proof. unfold stands_for. split; [lia|auto]. Qed.

Lemma list_ind3 (P : list Z -> Prop) :
  P [] -> (forall a, P [a]) -> (forall a b, P [a; b]) ->
  (forall a b c l, P l -> P (a :: b :: c :: l)) -> forall l, P l.
Proof.
  intros H0 H1 H2 H3. fix IH 1. intros [|a [|b [|c l]]]; [done|apply H1|apply H2|].
  apply H3, IH.
Qed.

Lemma length_encode bs :
  Z.of_nat (length (base64_encode bs)) = 4 * ((Z.of_nat (length bs) + 2) / 3).
Proof.
  induction bs as [|a|a b|a b c l IH] using list_ind3; [done..|].
  cbn [base64_encode length]. rewrite !Nat2Z.inj_succ, IH. dlia.
Qed.

Section roundtrip.
Let ready := TableLive decoding_cells.

Lemma sextet_stands data i q k :
  stands_for q k -> load data i = Ok q -> i < 2 ^ 31 - 1 -> sextet ready data i = Ok (k, i + 1).
Proof.
  intros [Hk Hq] Hl Hi. unfold sextet. rewrite Hl. cbn [obind]. rewrite incr_ok by done.
  cbn [obind]. destruct Hq as [-> | [-> ->]]; [|done].
  destruct (read_code k Hk) as [Hr Hne]. rewrite (proj2 (Z.eqb_neq _ _)) by done.
  unfold ready. rewrite Hr. simpl. unfold u32. by rewrite Z.mod_small by lia.
Qed.

(** Four sextets that carry three bytes. *)
Lemma triple_bytes x a b c d :
  0 <= a < 64 -> 0 <= b < 64 -> 0 <= c < 64 -> 0 <= d < 64 ->
  x = a * 2 ^ 18 + b * 2 ^ 12 + c * 2 ^ 6 + d ->
  Z.land (Z.shiftr (triple a b c d) 16) 255 = x / 2 ^ 16 /\
  Z.land (Z.shiftr (triple a b c d) 8) 255 = x / 2 ^ 8 mod 2 ^ 8 /\
  Z.land (Z.shiftr (triple a b c d) 0) 255 = x mod 2 ^ 8.
Proof.
  intros Ha Hb Hc Hd ->.
  assert (Ht : triple a b c d = a * 2 ^ 18 + b * 2 ^ 12 + c * 2 ^ 6 + d).
  { unfold triple, u32. rewrite !Z.shiftl_mul_pow2 by lia. dlia. }
  rewrite Ht. change 255 with (Z.ones 8). rewrite !Z.land_ones, !Z.shiftr_div_pow2 by lia.
  split; [|by rewrite Z.pow_0_r, Z.div_1_r]. apply Z.mod_small. dlia.
Qed.

Definition push (out : Z) (st : Z * list Z) (v : Z) : Z * list Z :=
  (fst st + 1, if fst st <? out then snd st ++ [v] else snd st).

Lemma put_char_push out st v : fst st < 2 ^ 31 - 1 -> put_char out st v = Ok (push out st v).
Proof. intros Hj. unfold put_char. by rewrite incr_ok. Qed.

(** One round of the loop, on four characters whose bits make up the bytes
    [x], [y] and [z]. *)
Lemma decode_round out n fuel pre q1 q2 q3 q4 rest st a b c d x y z :
  let i := Z.of_nat (length pre) in
  stands_for q1 a -> stands_for q2 b -> stands_for q3 c -> stands_for q4 d ->
  is_byte x -> is_byte y -> is_byte z ->
  a * 2 ^ 18 + b * 2 ^ 12 + c * 2 ^ 6 + d = x * 2 ^ 16 + y * 2 ^ 8 + z ->
  i < n -> i < 2 ^ 31 - 4 -> fst st <= i ->
  let data := pre ++ q1 :: q2 :: q3 :: q4 :: rest in
  decode_loop (put_char out) ready data n (S fuel) i st =
  decode_loop (put_char out) ready data n fuel (i + 1 + 1 + 1 + 1) (push out (push out (push out st x) y) z).
Proof.
  intros i H1 H2 H3 H4 Hx Hy Hz Heq Hin Hi Hj data. cbn [decode_loop].
  rewrite (proj2 (Z.ltb_lt i n)) by done.
  assert (Hat : forall k q, (q1 :: q2 :: q3 :: q4 :: rest) !! k = Some q -> load data (i + Z.of_nat k) = Ok q).
  { intros k q Hk. unfold i, data. rewrite <- Nat2Z.inj_add. apply load_nat.
    rewrite lookup_app_r by lia. by replace (length pre + k - length pre)%nat with k by lia. }
  rewrite (sextet_stands data i q1 a) by (done || lia || (rewrite <- (Z.add_0_r i); by apply (Hat 0%nat))).
  cbn [obind]. rewrite (sextet_stands data (i + 1) q2 b) by (done || lia || by apply (Hat 1%nat)).
  cbn [obind]. rewrite (sextet_stands data (i + 1 + 1) q3 c)
    by (done || lia || (rewrite <- Z.add_assoc; by apply (Hat 2%nat))).
  cbn [obind]. rewrite (sextet_stands data (i + 1 + 1 + 1) q4 d)
    by (done || lia || (rewrite <- !Z.add_assoc; by apply (Hat 3%nat))).
  cbn [obind]. unfold is_byte in *.
  destruct (triple_bytes (x * 2 ^ 16 + y * 2 ^ 8 + z) a b c d) as (-> & -> & ->).
  1, 2, 3, 4: by match goal with H : stands_for _ ?k |- _ <= ?k < _ => destruct H end.
  1: lia.
  replace ((x * 2 ^ 16 + y * 2 ^ 8 + z) / 2 ^ 16) with x by dlia.
  replace ((x * 2 ^ 16 + y * 2 ^ 8 + z) / 2 ^ 8 mod 2 ^ 8) with y by dlia.
  replace ((x * 2 ^ 16 + y * 2 ^ 8 + z) mod 2 ^ 8) with z by dlia.
  rewrite put_char_push by lia. cbn [obind]. rewrite put_char_push by (simpl; lia). cbn [obind].
  rewrite put_char_push by (simpl; lia). done.
Qed.

Lemma decode_loop_end out n data fuel i st :
  n <= i -> decode_loop (put_char out) ready data n fuel i st = Ok st.
Proof. intros Hi. destruct fuel; cbn [decode_loop]; by rewrite (proj2 (Z.ltb_ge _ _)). Qed.

Lemma decode_encoded bs : forall pre s fuel n out data i j,
  Forall is_byte bs -> data = pre ++ base64_encode bs ++ [0] ->
  n = Z.of_nat (length pre + length (base64_encode bs)) -> n < 2 ^ 31 ->
  (length (base64_encode bs) <= fuel)%nat ->
  i = Z.of_nat (length pre) -> j = Z.of_nat (length s) -> 4 * j = 3 * i ->
  out = Z.of_nat (length s + length bs) ->
  exists j', decode_loop (put_char out) ready data n fuel i (j, s) = Ok (j', s ++ bs).
Proof.
  induction bs as [|a|a b|a b c bs IH] using list_ind3;
    intros pre s fuel n out data i j Hb -> -> Hn Hf -> -> Hs ->;
    cbn [base64_encode length app] in *; unfold is_byte in Hb; decompose_Forall.
  - eexists. rewrite decode_loop_end by lia. by rewrite app_nil_r.
  - destruct fuel as [|fuel]; [lia|]. eexists.
    rewrite (decode_round _ _ _ _ _ _ _ _ _ _ (a / 4) (a mod 4 * 16) 0 0 a 0 0);
      cbn [fst]; try (apply code_stands || apply pad_stands || unfold is_byte || done); try dlia.
    rewrite decode_loop_end by lia. unfold push. cbn [fst snd].
    by zcmp; try lia.
  - destruct fuel as [|fuel]; [lia|]. eexists.
    rewrite (decode_round _ _ _ _ _ _ _ _ _ _ (a / 4) (a mod 4 * 16 + b / 16) (b mod 16 * 4) 0 a b 0);
      cbn [fst]; try (apply code_stands || apply pad_stands || unfold is_byte || done); try dlia.
    rewrite decode_loop_end by lia. unfold push. cbn [fst snd].
    zcmp; try lia. by rewrite <- app_assoc.
  - destruct fuel as [|fuel]; [lia|].
    rewrite (decode_round _ _ _ _ _ _ _ _ _ _ (a / 4) (a mod 4 * 16 + b / 16) (b mod 16 * 4 + c / 64)
      (c mod 64) a b c);
      cbn [fst]; try (apply code_stands || apply pad_stands || unfold is_byte || done); try dlia.
    unfold push. cbn [fst snd].
    zcmp; try lia.
    rewrite <- !app_assoc. cbn [app].
    replace (s ++ a :: b :: c :: bs) with ((s ++ [a; b; c]) ++ bs) by (by rewrite <- app_assoc).
    apply (IH (pre ++ [code (a / 4); code (a mod 4 * 16 + b / 16); code (b mod 16 * 4 + c / 64); code (c mod 64)]));
      rewrite ?length_app; cbn [length]; try lia; [done|by rewrite <- app_assoc].
Qed.
End roundtrip.

(** How the encoding ends. *)
Lemma encode_end bs :
  bs <> [] -> Forall is_byte bs ->
  exists l q3 q4, base64_encode bs = l ++ [q3; q4] /\
    (q3 = 61 <-> Z.of_nat (length bs) mod 3 = 1) /\ (q4 = 61 <-> Z.of_nat (length bs) mod 3 <> 0).
Proof.
  induction bs as [|a|a b|a b c bs IH] using list_ind3; intros Hne Hb; unfold is_byte in Hb;
    decompose_Forall; cbn [base64_encode].
  - eexists [_; _], _, _. split; [reflexivity|]. cbn [length]. dlia.
  - eexists [_; _], _, _. destruct (read_code (b mod 16 * 4)) as [_ ?]; [dlia|]. split; [reflexivity|]. cbn [length]. dlia.
  - destruct (decide (bs = [])) as [->|Hbs].
    + eexists [_; _], _, _. destruct (read_code (b mod 16 * 4 + c / 64)) as [_ ?]; [dlia|].
      destruct (read_code (c mod 64)) as [_ ?]; [dlia|]. split; [reflexivity|]. cbn [length]. dlia.
    + destruct IH as (l & q3 & q4 & -> & H3 & H4); [done|done|].
      eexists (_ :: _ :: _ :: _ :: l), q3, q4. split; [done|].
      cbn [length]. rewrite H3, H4, !Nat2Z.inj_succ. dlia.
Qed.

Lemma output_length_encoded bs :
  bs <> [] -> Forall is_byte bs -> Z.of_nat (length (base64_encode bs)) < 2 ^ 64 ->
  get_output_length (base64_encode bs ++ [0]) (Z.of_nat (length (base64_encode bs))) =
  Ok (Z.of_nat (length bs)).
Proof.
  intros Hne Hb Hl. destruct (encode_end bs Hne Hb) as (l & q3 & q4 & He & H3 & H4).
  pose proof (length_encode bs) as Hlen. unfold get_output_length.
  rewrite Hlen in Hl |- *. rewrite He in Hlen |- *. rewrite length_app in Hlen. cbn [length] in Hlen.
  assert (0 < Z.of_nat (length bs)) by (destruct bs; [done|simpl; lia]).
  rewrite !(u64_small (4 * _ - _)) by dlia.
  rewrite <- app_assoc. cbn [app].
  rewrite (load_z _ _ q4), (load_z _ _ q3); cbn [obind].
  2, 4: lia.
  2: { replace (Z.to_nat _) with (length l) by lia. by rewrite list_lookup_middle. }
  2: { replace (Z.to_nat _) with (length l + 1)%nat by lia. by rewrite lookup_app_r, Nat.add_sub_swap, Nat.sub_diag by lia. }
  destruct (Z.eqb_spec q4 61), (Z.eqb_spec q3 61); rewrite ?u64_small by (rewrite ?u64_small; dlia); f_equal; dlia.
Qed.

(** ** When decoding is defined *)

Definition base64_char (c : Z) : Prop := c = 61 \/ c ∈ encoding_table.

#[export] Instance base64_char_dec c : Decision (base64_char c).
Proof. unfold base64_char. solve_decision. Defined.

Lemma code_char k : 0 <= k < 64 -> base64_char (code k).
Proof.
  intros Hk. right. unfold code.
  destruct (nth_in_or_default (Z.to_nat k) encoding_table 0) as [Hin|Hd].
  - by apply list_elem_of_In.
  - exfalso. destruct (read_code k Hk) as [Hr _]. unfold code in Hr. rewrite Hd in Hr.
    by vm_compute in Hr.
Qed.

Lemma pad_char : base64_char 61.
Proof. by left. Qed.

Lemma encode_chars bs : Forall is_byte bs -> Forall base64_char (base64_encode bs).
Proof.
  induction bs as [|a|a b|a b c bs IH] using list_ind3; intros Hb; unfold is_byte in Hb;
    decompose_Forall; cbn [base64_encode]; rewrite ?Forall_cons; split_and?;
    match goal with
    | |- base64_char (code _) => apply code_char; dlia
    | |- base64_char 61 => apply pad_char
    | |- Forall _ [] => apply Forall_nil_2
    | |- _ => by apply IH
    end.
Qed.

(** No character of an encoding is a blank, a line end, a hyphen or a question
    mark. *)
Lemma base64_char_not c : base64_char c -> ~ (c ∈ [0; 9; 10; 13; 32; 34; 45; 63]).
Proof.
  intros [->|Hc]; [by apply (bool_decide_unpack _); vm_compute|].
  assert (Hall : Forall (fun c => ~ (c ∈ [0; 9; 10; 13; 32; 34; 45; 63])) encoding_table)
    by (apply (bool_decide_unpack _); by vm_compute).
  rewrite Forall_forall in Hall. by apply Hall.
Qed.

(** The first character that decoding cannot do with, and what happens to it:
    the cell of the table was never written, or, [char] being signed, lies
    before the table. *)
Fixpoint first_stray (str : list Z) : option Z :=
  match str with
  | [] => None
  | c :: str => if decide (base64_char c) then first_stray str else Some c
  end.

Definition stray_fault (c : Z) : fault := if c <? 128 then Indeterminate else OutOfBounds.

Section defined.
Let ready := TableLive decoding_cells.

Lemma sextet_defined data i c :
  is_byte c -> load data i = Ok c -> i < 2 ^ 31 - 1 ->
  (base64_char c /\ exists v, sextet ready data i = Ok (v, i + 1)) \/
  (~ base64_char c /\ sextet ready data i = Fault (stray_fault c)).
Proof.
  intros Hc Hl Hi.
  assert (Hall : forallb (fun k => let c := Z.of_nat k in
    if bool_decide (c ∈ encoding_table) then is_ok (table_read ready c)
    else bool_decide (table_read ready c = Fault (stray_fault c))) (seq 0 256) = true)
    by (by vm_compute).
  rewrite forallb_forall in Hall. unfold is_byte in Hc. specialize (Hall (Z.to_nat c)).
  cbv zeta in Hall. rewrite Z2Nat.id in Hall by lia.
  assert (Hin : In (Z.to_nat c) (seq 0 256)) by (apply in_seq; lia).
  apply Hall in Hin. clear Hall. unfold sextet. rewrite Hl. cbn [obind].
  rewrite incr_ok by done. cbn [obind]. unfold base64_char.
  destruct (Z.eqb_spec c 61) as [->|Hne]; [by eauto|].
  case_bool_decide as Hin'.
  - destruct (table_read ready c) as [v|f]; [|done]. cbn [obind]. eauto.
  - apply bool_decide_eq_true in Hin. rewrite Hin. right. split; [naive_solver|done].
Qed.

Lemma decode_loop_defined k : forall str pre fuel n out data i st,
  Forall is_byte str -> length str = (4 * k)%nat -> data = pre ++ str ++ [0] ->
  n = Z.of_nat (length pre + length str) -> n < 2 ^ 31 -> (k <= fuel)%nat ->
  i = Z.of_nat (length pre) -> fst st <= i ->
  match first_stray str with
  | None => exists r, decode_loop (put_char out) ready data n fuel i st = Ok r
  | Some c => decode_loop (put_char out) ready data n fuel i st = Fault (stray_fault c)
  end.
Proof.
  induction k as [|k IH]; intros str pre fuel n out data i st Hb Hlen Hdata Hn Hmax Hf Hi Hj.
  { destruct str; [|done]. cbn [length] in *. rewrite decode_loop_end by lia. by eexists. }
  destruct str as [|c1 [|c2 [|c3 [|c4 str]]]]; cbn [length] in *; [lia..|].
  destruct fuel as [|fuel]; [lia|]. rewrite !Forall_cons in Hb. destruct Hb as (? & ? & ? & ? & ?).
  cbn [decode_loop].
  rewrite (proj2 (Z.ltb_lt i n)) by lia. cbn [first_stray].
  assert (Hat : forall m q i', i' = i + Z.of_nat m -> (c1 :: c2 :: c3 :: c4 :: str) !! m = Some q ->
    load data i' = Ok q).
  { intros m q i' -> Hm. rewrite Hdata, Hi, <- Nat2Z.inj_add. apply load_nat.
    rewrite lookup_app_r by lia. replace (length pre + m - length pre)%nat with m by lia.
    by apply lookup_app_l_Some. }
  destruct (sextet_defined data i c1) as [[? [v1 ->]]|[? ->]];
    [done|apply (Hat 0%nat); [lia|done]|lia| |by rewrite decide_False].
  rewrite decide_True by done.
  cbn [obind]. destruct (sextet_defined data (i + 1) c2) as [[? [v2 ->]]|[? ->]];
    [done|apply (Hat 1%nat); [lia|done]|lia| |by rewrite decide_False].
  rewrite decide_True by done.
  cbn [obind]. destruct (sextet_defined data (i + 1 + 1) c3) as [[? [v3 ->]]|[? ->]];
    [done|apply (Hat 2%nat); [lia|done]|lia| |by rewrite decide_False].
  rewrite decide_True by done.
  cbn [obind]. destruct (sextet_defined data (i + 1 + 1 + 1) c4) as [[? [v4 ->]]|[? ->]];
    [done|apply (Hat 3%nat); [lia|done]|lia| |by rewrite decide_False].
  rewrite decide_True by done.
  cbn [obind]. rewrite put_char_push by lia. cbn [obind]. rewrite put_char_push by (simpl; lia).
  cbn [obind]. rewrite put_char_push by (simpl; lia). cbn [obind].
  apply (IH str (pre ++ [c1; c2; c3; c4])); [done|lia|..].
  all: rewrite ?length_app; cbn [length push fst]; try lia. by rewrite <- app_assoc.
Qed.
End defined.

Lemma first_stray_spec str :
  match first_stray str with None => Forall base64_char str | Some c => ~ base64_char c end.
Proof.
  induction str as [|c str IH]; simpl; [done|]. destruct (decide (base64_char c)); [|done].
  destruct (first_stray str); [done|by constructor].
Qed.

Lemma decode_ready str t :
  table_ready t -> Z.of_nat (length str) mod 4 = 0 ->
  base64_decode_to_string false str t =
  (output_length <- lift (get_output_length (str ++ [0]) (Z.of_nat (length str))) ;;
   st <- lift (decode_loop (put_char output_length) (TableLive decoding_cells) (str ++ [0])
     (Z.of_nat (length str)) (length str) 0 (0, [])) ;;
   ret (snd st)) (TableLive decoding_cells).
Proof.
  intros Ht Hm. unfold base64_decode_to_string. run (ensure_ready t Ht).
  rewrite Hm, Z.eqb_refl. cbn [negb]. unfold bind, lift. by destruct (get_output_length _ _).
Qed.


Lemma decoders_agree refused str t :
  Z.of_nat (length str) < 2 ^ 64 ->
  base64_decode_to_string refused str t = base64_decode_to_bytes refused str t.
Proof.
  intros Hlen. unfold base64_decode_to_string, base64_decode_to_bytes. apply bind_ext.
  intros [] t'. destruct (Z.eqb_spec (Z.of_nat (length str) mod 4) 0) as [Hm|]; [|done].
  cbn [negb]. destruct (get_output_length _ _) as [out|f] eqn:Ho; [|done].
  apply get_output_length_bound in Ho as [Hpos Hout]; [|done|done]. rewrite !bind_lift.
  unfold bind at 1 3, gets. destruct (decode_loop_sim t' (str ++ [0]) (Z.of_nat (length str)) out Hout
    (length str) 0 0 [] (0, replicate (Z.to_nat out) 0)) as [(j & s & E1 & E2)|(f & E1 & E2)].
  - lia.
  - lia.
  - unfold put_rel. simpl. rewrite Z.min_l, Z.sub_0_r by lia. done.
  - by rewrite E1, E2.
  - by rewrite E1, E2.
Qed.

Lemma string_roundtrip bs t :
  bs <> [] -> Forall is_byte bs -> 4 * ((Z.of_nat (length bs) + 2) / 3) < 2 ^ 31 -> table_ready t ->
  base64_decode_to_string false (base64_encode bs) t = Ok (bs, TableLive decoding_cells).
Proof.
  intros Hne Hb Hl Ht. pose proof (length_encode bs) as Hlen.
  rewrite decode_ready by (done || dlia). rewrite output_length_encoded by (done || lia).
  rewrite bind_lift. destruct (decode_encoded bs [] [] (length (base64_encode bs))
    (Z.of_nat (length (base64_encode bs))) (Z.of_nat (length bs)) (base64_encode bs ++ [0]) 0 0)
    as [j Hj]; try done; [lia|]. by rewrite Hj.
Qed.

(** ** The properties *)

(** C22: decoding undoes the standard encoding.  For any non-empty sequence of
    bytes whose encoding an [int] can index, both decoders give back exactly
    these bytes, whether the table was built before or not, and leave the
    built table behind. *)
Theorem base64_roundtrip bs t :
  bs <> [] -> Forall is_byte bs -> 4 * ((Z.of_nat (length bs) + 2) / 3) < 2 ^ 31 -> table_ready t ->
  base64_decode_to_string false (base64_encode bs) t = Ok (bs, TableLive decoding_cells) /\
  base64_decode_to_bytes false (base64_encode bs) t = Ok (bs, TableLive decoding_cells).
Proof.
  intros Hne Hb Hl Ht. rewrite <- decoders_agree by (rewrite length_encode; lia).
  split; by apply string_roundtrip.
Qed.

(** the decoder that appends to a string and the one that fills a vector
    allocated beforehand compute the same bytes, or run into the same fault,
    on every input, well formed or not, in every state of the table. *)
Theorem base64_decoders_agree refused str t :
  Z.of_nat (length str) < 2 ^ 64 ->
  base64_decode_to_string refused str t = base64_decode_to_bytes refused str t.
Proof. apply decoders_agree. Qed.

(** C38: which inputs are decoded.  For a whole number of groups: the empty
    string reads before the string; if every character is a letter of the
    alphabet or padding the string is decoded; and otherwise the first other
    character, when it is below 128, reads a cell of the table that was never
    written, and from 128 on, as a negative index, reads before the table. *)
Theorem base64_decode_defined str :
  Forall is_byte str -> Z.of_nat (length str) mod 4 = 0 -> Z.of_nat (length str) < 2 ^ 31 ->
  match str, first_stray str with
  | [], _ => base64_decode_to_string false str TableNull = Fault OutOfBounds
  | _, None => Forall base64_char str /\ exists r, base64_decode_to_string false str TableNull = Ok r
  | _, Some c => ~ base64_char c /\
      base64_decode_to_string false str TableNull = Fault (if c <? 128 then Indeterminate else OutOfBounds)
  end.
Proof.
  intros Hb Hm Hl. rewrite decode_ready by (done || by left).
  destruct (decide (str = [])) as [->|Hne]; [done|].
  assert (exists out, get_output_length (str ++ [0]) (Z.of_nat (length str)) = Ok out) as [out Ho].
  { assert (0 < Z.of_nat (length str)) by (destruct str; [done|simpl; lia]).
    unfold get_output_length. rewrite !u64_small by dlia.
    assert (Hat : forall k, 0 <= k < Z.of_nat (length str) -> exists c, load (str ++ [0]) k = Ok c).
    { intros k Hk. destruct (lookup_lt_is_Some_2 (str ++ [0]) (Z.to_nat k)) as [c Hc].
      - rewrite length_app. lia.
      - exists c. apply load_z; [lia|done]. }
    destruct (Hat (Z.of_nat (length str) - 1)) as [c ->]; [lia|].
    destruct (Hat (Z.of_nat (length str) - 2)) as [d ->]; [dlia|]. eauto. }
  assert (exists k, length str = 4 * k)%nat as [k Hk].
  { exists (Z.to_nat (Z.of_nat (length str) / 4)). apply Nat2Z.inj.
    rewrite Nat2Z.inj_mul, Z2Nat.id by dlia. dlia. }
  rewrite Ho, bind_lift.
  pose proof (decode_loop_defined k str [] (length str) (Z.of_nat (length str)) out (str ++ [0]) 0 (0, []) Hb) as Hd.
  pose proof (first_stray_spec str) as Hs. unfold stray_fault in Hd.
  destruct str as [|c0 str0]; [done|]. destruct (first_stray (c0 :: str0)) as [c|].
  - split; [done|]. rewrite Hd; try done. lia.
  - split; [done|]. destruct Hd as [r ->]; try done; [lia|]. eauto.
Qed.

Lemma base64_roundtrip_witness :
  base64_encode (bytes_of "Man?!") = bytes_of "TWFuPyE=" /\
  base64_decode_to_bytes false (bytes_of "TWFuPyE=") TableNull =
    Ok (bytes_of "Man?!", TableLive decoding_cells).
Proof.
  split; [done|]. apply (base64_roundtrip (bytes_of "Man?!") TableNull).
  - done.
  - by apply (bool_decide_unpack _); vm_compute.
  - done.
  - by left.
Defined.

Lemma base64_decoders_agree_witness :
  base64_decode_to_string false (bytes_of "QQ==") TableFreed =
  base64_decode_to_bytes false (bytes_of "QQ==") TableFreed.
Proof. apply base64_decoders_agree. done. Defined.

Lemma base64_decode_defined_witness :
  base64_decode_to_string false (bytes_of "QQ =") TableNull = Fault Indeterminate.
Proof.
  refine (proj2 (base64_decode_defined (bytes_of "QQ =") _ _ _)).
  - by apply (bool_decide_unpack _); vm_compute.
  - done.
  - done.
Defined.
