(* ===== verification/Charset.v ===== *)
(** * Charset: Cyrillic character sets and quoted-printable text

    Models [src/c++/eml-attachments-parser/charset_decoder.cpp] with its header
    and [base16.cpp].  Strings and byte vectors are lists of byte values.  The
    messages printed for empty arguments are left out.

    The reference is Unicode: [utf8_encode] is the UTF-8 form of a code point,
    and [to_byte] the position of a code point in each of the three single-byte
    character sets. *)

From S2P Require Import Prelude CInt CString CBuf CppString.
Open Scope Z_scope.

(** ** charset_decoder *)

Definition OFFSET : Z := 128.
Definition FIRSTBYTE : Z := 208.

Definition utf8 : list (list Z) :=
  [[226; 148; 128]; [226; 148; 130]; [226; 148; 140]; [226; 148; 144];
   [226; 148; 148]; [226; 148; 152]; [226; 148; 156]; [226; 148; 164];
   [226; 148; 172]; [226; 148; 180]; [226; 148; 188]; [226; 150; 128];
   [226; 150; 132]; [226; 150; 136]; [226; 150; 140]; [226; 150; 144];
   [226; 150; 145]; [226; 150; 146]; [226; 150; 147]; [226; 140; 160];
   [226; 150; 160]; [226; 136; 153]; [226; 136; 154]; [226; 137; 136];
   [226; 137; 164]; [226; 137; 165]; [194; 160; 0]; [226; 140; 161];
   [194; 176; 0]; [194; 178; 0]; [194; 183; 0]; [195; 183; 0];
   [226; 149; 144]; [226; 149; 145]; [226; 149; 146]; [209; 145; 0];
   [226; 149; 147]; [226; 149; 148]; [226; 149; 149]; [226; 149; 150];
   [226; 149; 151]; [226; 149; 152]; [226; 149; 153]; [226; 149; 154];
   [226; 149; 155]; [226; 149; 156]; [226; 149; 157]; [226; 149; 158];
   [226; 149; 159]; [226; 149; 160]; [226; 149; 161]; [208; 129; 0];
   [226; 149; 162]; [226; 149; 163]; [226; 149; 164]; [226; 149; 165];
   [226; 149; 166]; [226; 149; 167]; [226; 149; 168]; [226; 149; 169];
   [226; 149; 170]; [226; 149; 171]; [226; 149; 172]; [194; 169; 0];
   [209; 142; 0]; [208; 176; 0]; [208; 177; 0]; [209; 134; 0];
   [208; 180; 0]; [208; 181; 0]; [209; 132; 0]; [208; 179; 0];
   [209; 133; 0]; [208; 184; 0]; [208; 185; 0]; [208; 186; 0];
   [208; 187; 0]; [208; 188; 0]; [208; 189; 0]; [208; 190; 0];
   [208; 191; 0]; [209; 143; 0]; [209; 128; 0]; [209; 129; 0];
   [209; 130; 0]; [209; 131; 0]; [208; 182; 0]; [208; 178; 0];
   [209; 140; 0]; [209; 139; 0]; [208; 183; 0]; [209; 136; 0];
   [209; 141; 0]; [209; 137; 0]; [209; 135; 0]; [209; 138; 0];
   [208; 174; 0]; [208; 144; 0]; [208; 145; 0]; [208; 166; 0];
   [208; 148; 0]; [208; 149; 0]; [208; 164; 0]; [208; 147; 0];
   [208; 165; 0]; [208; 152; 0]; [208; 153; 0]; [208; 154; 0];
   [208; 155; 0]; [208; 156; 0]; [208; 157; 0]; [208; 158; 0];
   [208; 159; 0]; [208; 175; 0]; [208; 160; 0]; [208; 161; 0];
   [208; 162; 0]; [208; 163; 0]; [208; 150; 0]; [208; 146; 0];
   [208; 172; 0]; [208; 171; 0]; [208; 151; 0]; [208; 168; 0];
   [208; 173; 0]; [208; 169; 0]; [208; 167; 0]; [208; 170; 0]].

Record charset_offset := mk_offset { first : Z; second : Z }.

(** [KOI_8R] is declared in the source but never given a value. *)
Record Charset := mk_Charset {
  ISO_8859_5 : charset_offset;
  Win_1251 : charset_offset;
  UNKNOWN : charset_offset
}.

Definition charset_vals : Charset := mk_Charset (mk_offset 32 64) (mk_offset 48 64) (mk_offset 0 0).

(** What one round of the loop appends; [+=] converts an [int] to [char]. *)
Definition win1251_char (offset : charset_offset) (b : Z) : list Z :=
  if b <? 127 then [b]
  else if (192 <=? b) && (b <=? 239) then [u8 FIRSTBYTE; u8 (b - first offset)]
  else if (239 <? b) && (b <=? 255) then [u8 (FIRSTBYTE + 1); u8 (b - (first offset + second offset))]
  else if b =? 168 then [u8 FIRSTBYTE; u8 (b - first offset)]
  else if b =? 184 then [u8 (FIRSTBYTE + 1); u8 (b - (first offset + second offset))]
  else [].

Definition raw_bytes_win1251_to_utf8 (bytes : list Z) (offset : charset_offset) : list Z :=
  foldl (fun utf8_str b => utf8_str ++ win1251_char offset b) [] bytes.

Definition iso8859_5_char (offset : charset_offset) (b : Z) : list Z :=
  if b <? 176 then
    if b =? 161 then [u8 FIRSTBYTE; u8 (b - first offset)] else [b]
  else if (176 <=? b) && (b <=? 223) then [u8 FIRSTBYTE; u8 (b - first offset)]
  else if ((223 <? b) && (b <=? 239)) || (b =? 241) then
    [u8 (FIRSTBYTE + 1); u8 (b - (first offset + second offset))]
  else [].

Definition raw_bytes_8859_5_to_utf8 (bytes : list Z) (offset : charset_offset) : list Z :=
  foldl (fun utf8_str b => utf8_str ++ iso8859_5_char offset b) [] bytes.

Definition koi8r_char (b : Z) : outcome (list Z) :=
  if b <? OFFSET then Ok [b]
  else
    let index := u8 (b + OFFSET) in
    let? row := load utf8 index in
    let? byte_1 := load row 0 in
    let? byte_2 := load row 1 in
    Ok [byte_1; byte_2].

Fixpoint koi8r_loop (bytes utf8_str : list Z) : outcome (list Z) :=
  match bytes with
  | [] => Ok utf8_str
  | b :: bytes => let? c := koi8r_char b in koi8r_loop bytes (utf8_str ++ c)
  end.

Definition raw_bytes_koi_8r_to_utf8 (bytes : list Z) : outcome (list Z) := koi8r_loop bytes [].

Definition vect_to_string (bytes : list Z) : list Z :=
  foldl (fun utf8_str b => utf8_str ++ [b]) [] bytes.

Definition raw_bytes_to_utf8 (bytes charset : list Z) : outcome (list Z) :=
  if decide (bytes = []) then Ok []
  else if decide (charset = []) then Ok []
  else if decide (charset = bytes_of "ISO-8859-5") then
    Ok (raw_bytes_8859_5_to_utf8 bytes (ISO_8859_5 charset_vals))
  else if decide (charset = bytes_of "Windows-1251" \/ charset = bytes_of "Win-1251" \/
                  charset = bytes_of "win-1251" \/ charset = bytes_of "windows-1251") then
    Ok (raw_bytes_win1251_to_utf8 bytes (Win_1251 charset_vals))
  else if decide (charset = bytes_of "KOI-8R" \/ charset = bytes_of "koi8-r") then
    raw_bytes_koi_8r_to_utf8 bytes
  else Ok (vect_to_string bytes).

(** ** base16 *)

(** ['Z'] above fifteen; the default case of the switch is the digit zero. *)
Definition get_hex_char_from_decimal_digit (num : Z) : Z :=
  if 15 <? num then 90
  else if (1 <=? num) && (num <=? 9) then 48 + num
  else if (10 <=? num) && (num <=? 15) then 55 + num
  else 48.

Definition is_hex_char (c : Z) : bool :=
  ((65 <=? c) && (c <=? 70)) || ((48 <=? c) && (c <=? 57)).

Definition get_decimal_digit_from_hex_char (c : Z) : Z :=
  if negb (is_hex_char c) then -1
  else if (49 <=? c) && (c <=? 57) then c - 48
  else if (65 <=? c) && (c <=? 70) then c - 55
  else 0.

(** The arithmetic of [int64_t]; the power is computed in floating point, where
    a power of two is exact, and converted. *)
Definition check_i64 (z : Z) : outcome Z :=
  if (- 2 ^ 63 <=? z) && (z <? 2 ^ 63) then Ok z else Fault Indeterminate.

Fixpoint hex_loop (n : nat) (hex_num : list Z) (power res_num : Z) : outcome Z :=
  match n with
  | O => Ok res_num
  | S n =>
      let? c := load hex_num (u64 (u64 (Z.of_nat (length hex_num) - 1) - power)) in
      let? c := toupper c in
      let? p := check_i64 (16 ^ power) in
      let? t := check_i64 (p * get_decimal_digit_from_hex_char c) in
      let? r := check_i64 (res_num + t) in
      hex_loop n hex_num (power + 1) r
  end.

Definition hex_to_decimal (hex_num : list Z) : outcome Z := hex_loop (length hex_num) hex_num 0 0.

Fixpoint qp_loop (fuel : nat) (str charset : list Z) (i : Z) (res : list Z) : outcome (list Z) :=
  if i <? Z.of_nat (length str) then
    match fuel with
    | O => Fault NoFuel
    | S fuel =>
        let? c := load str i in
        if c =? 61 then
          let? hex_token := substr str (i + 1) 2 in
          let? v := hex_to_decimal hex_token in
          let? t := raw_bytes_to_utf8 [u8 v] charset in
          let? c0 := load (hex_token ++ [0]) 0 in
          qp_loop fuel str charset (if is_hex_char c0 then i + 3 else i + 2) (res ++ t)
        else qp_loop fuel str charset (i + 1) (res ++ [c])
    end
  else Ok res.

Definition quoted_printable (str charset : list Z) : outcome (list Z) :=
  qp_loop (length str) str charset 0 [].

(** ** The reference *)

Definition utf8_encode (cp : Z) : list Z :=
  if cp <? 2 ^ 7 then [cp]
  else if cp <? 2 ^ 11 then [192 + cp / 2 ^ 6; 128 + cp mod 2 ^ 6]
  else [224 + cp / 2 ^ 12; 128 + cp / 2 ^ 6 mod 2 ^ 6; 128 + cp mod 2 ^ 6].

Inductive kind := ISO88595 | CP1251 | KOI8R.

#[export] Instance kind_eq_dec : EqDecision kind.
Proof. solve_decision. Defined.

Definition names (k : kind) : list (list Z) :=
  match k with
  | ISO88595 => [bytes_of "ISO-8859-5"]
  | CP1251 => [bytes_of "Windows-1251"; bytes_of "Win-1251"; bytes_of "win-1251"; bytes_of "windows-1251"]
  | KOI8R => [bytes_of "KOI-8R"; bytes_of "koi8-r"]
  end.

(** The characters of Russian text: printable ASCII and controls, the letters
    U+0410 to U+044F, and the two letters outside of that range, Yo, which the
    code gets wrong in Windows-1251. *)
Definition russian (k : kind) (cp : Z) : Prop :=
  0 <= cp < 127 \/ 1040 <= cp <= 1103 \/ (k <> CP1251 /\ (cp = 1025 \/ cp = 1105)).

(** The small letters in the order of KOI8-R, from position 192; the capital
    letters follow in the same order. *)
Definition koi8r_letters : list Z :=
  [1102; 1072; 1073; 1094; 1076; 1077; 1092; 1075; 1093; 1080; 1081; 1082; 1083; 1084; 1085; 1086;
   1087; 1103; 1088; 1089; 1090; 1091; 1078; 1074; 1100; 1099; 1079; 1096; 1101; 1097; 1095; 1098].

Fixpoint index_of (x : Z) (l : list Z) : Z :=
  match l with [] => 0 | y :: l => if x =? y then 0 else 1 + index_of x l end.

Definition to_byte (k : kind) (cp : Z) : Z :=
  if cp <? 128 then cp
  else match k with
  | ISO88595 => if cp =? 1025 then 161 else if cp =? 1105 then 241 else 176 + (cp - 1040)
  | CP1251 => if cp =? 1025 then 168 else if cp =? 1105 then 184 else 192 + (cp - 1040)
  | KOI8R =>
      if cp =? 1025 then 179 else if cp =? 1105 then 163
      else if cp <? 1072 then 224 + index_of (cp + 32) koi8r_letters
      else 192 + index_of cp koi8r_letters
  end.

(** What the code makes of one byte. *)
Definition char_of (k : kind) (b : Z) : outcome (list Z) :=
  match k with
  | ISO88595 => Ok (iso8859_5_char (ISO_8859_5 charset_vals) b)
  | CP1251 => Ok (win1251_char (Win_1251 charset_vals) b)
  | KOI8R => koi8r_char b
  end.

(** ** Lemmas *)

Lemma foldl_append {A} (f : A -> list Z) l acc :
  foldl (fun s b => s ++ f b) acc l = acc ++ flat_map f l.
Proof.
  revert acc. induction l as [|x l IH]; intros acc; simpl; [by rewrite app_nil_r|].
  by rewrite IH, app_assoc.
Qed.

Lemma koi8r_loop_app f bytes acc :
  Forall (fun b => koi8r_char b = Ok (f b)) bytes -> koi8r_loop bytes acc = Ok (acc ++ flat_map f bytes).
Proof.
  intros Hb. revert acc. induction Hb as [|b bytes Hb _ IH]; intros acc; simpl; [by rewrite app_nil_r|].
  rewrite Hb. simpl. by rewrite IH, app_assoc.
Qed.

(** The converter that a name selects. *)
Definition convert (k : kind) (bytes : list Z) : outcome (list Z) :=
  match k with
  | ISO88595 => Ok (raw_bytes_8859_5_to_utf8 bytes (ISO_8859_5 charset_vals))
  | CP1251 => Ok (raw_bytes_win1251_to_utf8 bytes (Win_1251 charset_vals))
  | KOI8R => raw_bytes_koi_8r_to_utf8 bytes
  end.

Lemma raw_bytes_dispatch k name bytes :
  name ∈ names k -> bytes <> [] -> raw_bytes_to_utf8 bytes name = convert k bytes.
Proof.
  intros Hn Hb. unfold raw_bytes_to_utf8. rewrite decide_False by done.
  destruct k; simpl in Hn; repeat (apply elem_of_cons in Hn as [->|Hn]); try reflexivity.
  all: by apply elem_of_nil in Hn.
Qed.

(** The code converts byte by byte. *)
Lemma raw_bytes_bytewise k name f bytes :
  name ∈ names k -> Forall (fun b => char_of k b = Ok (f b)) bytes ->
  raw_bytes_to_utf8 bytes name = Ok (flat_map f bytes).
Proof.
  intros Hn Hb. destruct (decide (bytes = [])) as [->|Hne]; [done|].
  rewrite (raw_bytes_dispatch k) by done. clear Hn Hne.
  assert (Hext : forall g, Forall (fun b => Ok (g b) = Ok (f b)) bytes -> flat_map g bytes = flat_map f bytes).
  { intros g Hg. induction Hg as [|b bytes' Hfb _ IH]; [done|]. simpl. injection Hfb as ->. rewrite IH; [done|].
    by inversion Hb. }
  destruct k; unfold convert, raw_bytes_8859_5_to_utf8, raw_bytes_win1251_to_utf8, raw_bytes_koi_8r_to_utf8.
  - rewrite foldl_append. f_equal. by apply Hext.
  - rewrite foldl_append. f_equal. by apply Hext.
  - by rewrite (koi8r_loop_app f).
Qed.

#[export] Instance russian_dec k cp : Decision (russian k cp).
Proof. unfold russian. solve_decision. Defined.

Lemma char_of_letter k cp :
  russian k cp -> char_of k (to_byte k cp) = Ok (utf8_encode cp) /\ 0 <= to_byte k cp < 256.
Proof.
  intros Hr. assert (Hall : forall k, forallb (fun n => let cp := Z.of_nat n in bool_decide
    (russian k cp -> char_of k (to_byte k cp) = Ok (utf8_encode cp) /\ 0 <= to_byte k cp < 256)) (seq 0 1106) = true).
  { intros []; by vm_compute. }
  specialize (Hall k). rewrite forallb_forall in Hall. specialize (Hall (Z.to_nat cp)).
  cbv zeta in Hall. unfold russian in Hr. rewrite Z2Nat.id in Hall by lia.
  assert (Hin : In (Z.to_nat cp) (seq 0 1106)) by (apply in_seq; lia).
  apply Hall, bool_decide_eq_true in Hin. by apply Hin.
Qed.

(** ** Quoted-printable text *)

Definition hex_byte (b : Z) : list Z :=
  [get_hex_char_from_decimal_digit (b / 16); get_hex_char_from_decimal_digit (b mod 16)].

(** A byte of the encoded text, written as itself or as an escape. *)
Definition qp_item (it : Z * bool) : list Z :=
  if snd it then 61 :: hex_byte (fst it) else [fst it].

Lemma hex_byte_value b :
  0 <= b < 256 ->
  hex_to_decimal (hex_byte b) = Ok b /\ is_hex_char (get_hex_char_from_decimal_digit (b / 16)) = true.
Proof.
  intros Hb. assert (Hall : forallb (fun n => let b := Z.of_nat n in bool_decide
    (hex_to_decimal (hex_byte b) = Ok b /\
     is_hex_char (get_hex_char_from_decimal_digit (b / 16)) = true)) (seq 0 256) = true) by (by vm_compute).
  rewrite forallb_forall in Hall. specialize (Hall (Z.to_nat b)). cbv zeta in Hall.
  rewrite Z2Nat.id in Hall by lia. assert (Hin : In (Z.to_nat b) (seq 0 256)) by (apply in_seq; lia).
  by apply Hall, bool_decide_eq_true in Hin.
Qed.

Section qp.
Context (charset : list Z) (conv : Z -> list Z).

Definition qp_ok (it : Z * bool) : Prop :=
  0 <= fst it < 256 /\
  if snd it then raw_bytes_to_utf8 [fst it] charset = Ok (conv (fst it)) else fst it <> 61.

Definition qp_text (it : Z * bool) : list Z := if snd it then conv (fst it) else [fst it].

Lemma qp_loop_items items : forall pre str i res fuel,
  Forall qp_ok items -> str = pre ++ flat_map qp_item items -> i = Z.of_nat (length pre) ->
  (length items <= fuel)%nat ->
  qp_loop fuel str charset i res = Ok (res ++ flat_map qp_text items).
Proof.
  induction items as [|[b esc] items IH]; intros pre str i res fuel Hi -> -> Hf; cbn [flat_map length] in *.
  { rewrite app_nil_r. destruct fuel; simpl; by rewrite Z.ltb_irrefl, app_nil_r. }
  apply Forall_cons in Hi as [[Hb Hit] Hi]. destruct fuel as [|fuel]; [lia|]. cbn [qp_loop].
  destruct esc; cbn [fst snd] in *.
  - change (qp_item (b, true)) with (61 :: hex_byte b). change (qp_text (b, true)) with (conv b).
    destruct (hex_byte_value b Hb) as [Hv Hx].
    rewrite (proj2 (Z.ltb_lt _ _)) by (rewrite length_app; simpl; lia).
    cbn [app]. rewrite load_app_r by done. cbn [obind Z.eqb Pos.eqb].
    replace (pre ++ 61 :: hex_byte b ++ flat_map qp_item items)
      with ((pre ++ [61]) ++ hex_byte b ++ flat_map qp_item items) at 1 by (by rewrite <- app_assoc).
    rewrite substr_mid by (rewrite ?length_app; simpl; lia). cbn [obind]. rewrite Hv. cbn [obind].
    unfold u8. rewrite Z.mod_small by lia. rewrite Hit. cbn [obind].
    change (load (hex_byte b ++ [0]) 0) with (Ok (get_hex_char_from_decimal_digit (b / 16))).
    cbn [obind]. rewrite Hx, app_assoc. apply (IH (pre ++ 61 :: hex_byte b)); [done|..|lia].
    + by rewrite <- app_assoc.
    + rewrite length_app. simpl. lia.
  - change (qp_item (b, false)) with [b]. change (qp_text (b, false)) with [b].
    rewrite (proj2 (Z.ltb_lt _ _)) by (rewrite length_app; simpl; lia).
    cbn [app]. rewrite load_app_r by done. cbn [obind]. rewrite (proj2 (Z.eqb_neq _ _)) by done.
    replace (res ++ b :: flat_map qp_text items) with ((res ++ [b]) ++ flat_map qp_text items) by (by rewrite <- app_assoc).
    apply (IH (pre ++ [b])); [done|..|lia].
    + by rewrite <- app_assoc.
    + rewrite length_app. simpl. lia.
Qed.

Lemma qp_items_length items : (length items <= length (flat_map qp_item items))%nat.
Proof.
  induction items as [|[b []] items IH]; [done|..]; cbn [flat_map length]; rewrite length_app; simpl; lia.
Qed.

Lemma quoted_printable_items items :
  Forall qp_ok items -> quoted_printable (flat_map qp_item items) charset = Ok (flat_map qp_text items).
Proof.
  intros Hi. unfold quoted_printable. rewrite (qp_loop_items items []); try done.
  apply qp_items_length.
Qed.
End qp.

(** Russian text as items of quoted-printable text: [esc] says which
    characters are escaped. *)
Definition qp_encode (k : kind) (text : list (Z * bool)) : list (Z * bool) :=
  map (fun '(cp, esc) => (to_byte k cp, esc)) text.

Lemma flat_map_bytes k text :
  Forall (russian k) text ->
  flat_map (fun b => match char_of k b with Ok l => l | Fault _ => [] end) (map (to_byte k) text) =
  flat_map utf8_encode text.
Proof.
  intros Ht. induction Ht as [|cp text Hcp _ IH]; [done|]. simpl.
  destruct (char_of_letter k cp Hcp) as [-> _]. by rewrite IH.
Qed.

Lemma raw_bytes_russian k name text :
  name ∈ names k -> Forall (russian k) text ->
  raw_bytes_to_utf8 (map (to_byte k) text) name = Ok (flat_map utf8_encode text).
Proof.
  intros Hn Ht. rewrite <- (flat_map_bytes k) by done. apply (raw_bytes_bytewise k); [done|].
  apply Forall_map. eapply Forall_impl; [exact Ht|]. intros cp Hcp. simpl.
  by destruct (char_of_letter k cp Hcp) as [-> _].
Qed.

(** All letters, Yo included. *)
Definition letter (cp : Z) : Prop := 0 <= cp < 127 \/ 1040 <= cp <= 1103 \/ cp = 1025 \/ cp = 1105.

(** What becomes of a character: for Yo in Windows-1251 the bytes 208 120 and
    209 72, which are no UTF-8. *)
Definition converted (k : kind) (cp : Z) : list Z :=
  match k with
  | CP1251 => if cp =? 1025 then [208; 120] else if cp =? 1105 then [209; 72] else utf8_encode cp
  | _ => utf8_encode cp
  end.

Lemma letter_converted k cp : letter cp -> char_of k (to_byte k cp) = Ok (converted k cp).
Proof.
  intros Hl. destruct (decide (k = CP1251 /\ (cp = 1025 \/ cp = 1105))) as [[-> [-> | ->]]|Hn]; [done..|].
  destruct (char_of_letter k cp) as [-> _].
  - unfold russian, letter in *. destruct Hl as [?|[?|?]]; auto. right. right. split; [|done]. intros ->. by apply Hn.
  - unfold converted. destruct k; try done. by repeat case_match; try (rewrite Z.eqb_eq in *; subst; exfalso; apply Hn; auto).
Qed.

(** ** The properties *)

(** C24: Russian text (ASCII below DEL, the letters U+0410 to U+044F and the
    two letters Yo) in each of the three character sets, under each of the
    names the code knows it by, is converted to the UTF-8 encoding of the same
    code points, with one exception: in Windows-1251 the letters Yo, U+0401
    and U+0451, become the bytes 208 120 and 209 72 instead. *)
Theorem raw_bytes_to_utf8_russian k name text :
  name ∈ names k -> Forall letter text ->
  raw_bytes_to_utf8 (map (to_byte k) text) name = Ok (flat_map (converted k) text) /\
  (k <> CP1251 \/ ~ (1025 ∈ text \/ 1105 ∈ text) ->
     flat_map (converted k) text = flat_map utf8_encode text).
Proof.
  intros Hn Ht. split.
  - pose (conv := fun b => match char_of k b with Ok l => l | Fault _ => [] end).
    assert (Hf : flat_map conv (map (to_byte k) text) = flat_map (converted k) text).
    { induction Ht as [|cp text Hcp _ IH]; [done|]. simpl. unfold conv at 1.
      by rewrite (letter_converted k cp Hcp), IH. }
    rewrite <- Hf. apply (raw_bytes_bytewise k); [done|]. apply Forall_map.
    eapply Forall_impl; [exact Ht|]. intros cp Hcp. unfold conv. simpl. by rewrite letter_converted.
  - intros Hk. clear Ht Hn. induction text as [|cp text IH]; [done|]. simpl. rewrite IH by set_solver. f_equal.
    unfold converted. destruct k; try done. destruct Hk as [?|Hk]; [done|].
    rewrite !(proj2 (Z.eqb_neq _ _)) by set_solver. done.
Qed.

(** quoted-printable Russian text in any of the character sets, each
    character written as itself (ASCII other than the escape sign) or escaped
    with capital digits, is decoded to the UTF-8 encoding of the same text. *)
Theorem quoted_printable_russian k name text :
  name ∈ names k ->
  Forall (fun it => russian k (fst it) /\ (snd it = false -> fst it < 127 /\ fst it <> 61)) text ->
  quoted_printable (flat_map qp_item (qp_encode k text)) name = Ok (flat_map utf8_encode (map fst text)).
Proof.
  intros Hn Ht. pose (conv := fun b => match char_of k b with Ok l => l | Fault _ => [] end).
  rewrite (quoted_printable_items name conv).
  - f_equal. induction Ht as [|[cp esc] text [Hcp Hesc] _ IH]; [done|]. simpl. rewrite IH. f_equal.
    destruct esc; unfold qp_text; simpl in *.
    + unfold conv. by destruct (char_of_letter k cp Hcp) as [-> _].
    + unfold to_byte, utf8_encode. destruct Hesc as [? _]; [done|].
      rewrite !(proj2 (Z.ltb_lt cp _)) by lia. done.
  - apply Forall_map. eapply Forall_impl; [exact Ht|]. intros [cp esc] [Hcp Hesc]. unfold qp_ok. simpl in *.
    destruct (char_of_letter k cp Hcp) as [Hc Hb]. split; [done|]. destruct esc.
    + rewrite (raw_bytes_bytewise k name conv); [simpl; by rewrite app_nil_r|done|].
      apply Forall_cons. split; [|done]. unfold conv. by rewrite Hc.
    + destruct Hesc as [? ?]; [done|]. unfold to_byte. by rewrite (proj2 (Z.ltb_lt cp 128)) by lia.
Qed.

(** what the character sets lose.  In Windows-1251 the byte 127 and the
    bytes 128 to 191 other than the two letters Yo leave nothing behind, and
    the two letters do not become their UTF-8 encoding; in ISO-8859-5 the byte
    240 and those from 242 on are lost; in KOI8-R every byte from 128 on gives
    the first two bytes of its row in the table, also where the row has three. *)
Theorem charset_losses b :
  0 <= b < 256 ->
  (raw_bytes_to_utf8 [b] (bytes_of "windows-1251") = Ok [] <-> 127 <= b <= 191 /\ b <> 168 /\ b <> 184) /\
  (raw_bytes_to_utf8 [b] (bytes_of "ISO-8859-5") = Ok [] <-> b = 240 \/ 242 <= b) /\
  (128 <= b -> exists row, utf8 !! Z.to_nat (b - 128) = Some row /\ length row = 3%nat /\
     raw_bytes_to_utf8 [b] (bytes_of "koi8-r") = Ok (take 2 row)) /\
  (b = 168 -> raw_bytes_to_utf8 [b] (bytes_of "windows-1251") <> Ok (utf8_encode 1025)) /\
  (b = 184 -> raw_bytes_to_utf8 [b] (bytes_of "windows-1251") <> Ok (utf8_encode 1105)).
Proof.
  intros Hb. rewrite (raw_bytes_dispatch CP1251), (raw_bytes_dispatch ISO88595), (raw_bytes_dispatch KOI8R)
    by (done || by apply (bool_decide_unpack _); vm_compute).
  unfold convert, raw_bytes_win1251_to_utf8, raw_bytes_8859_5_to_utf8, raw_bytes_koi_8r_to_utf8. simpl.
  split_and!; [| | |by intros ->..].
  - unfold win1251_char. zcmp; simpl; split; intros Hz; (done || lia || naive_solver lia).
  - unfold iso8859_5_char. zcmp; simpl; split; intros Hz; (done || lia || naive_solver lia).
  - intros Hk. unfold koi8r_char, OFFSET. rewrite (proj2 (Z.ltb_ge b 128)) by done.
    replace (u8 (b + 128)) with (Z.of_nat (Z.to_nat (b - 128))) by (unfold u8; dlia).
    destruct (lookup_lt_is_Some_2 utf8 (Z.to_nat (b - 128))) as [row Hrow]; [simpl; lia|].
    rewrite (load_nat _ _ _ Hrow). exists row. split; [done|].
    assert (Hall : Forall (fun r : list Z => length r = 3%nat) utf8) by (by apply (bool_decide_unpack _); vm_compute).
    rewrite Forall_forall in Hall. assert (Hlen : length row = 3%nat) by (eapply Hall, list_elem_of_lookup_2, Hrow).
    split; [done|]. destruct row as [|x [|y [|z [|]]]]; done.
Qed.

(** Small digits: the byte is decoded, but the second digit is left in the
    text; a soft line break turns into a byte. *)
Lemma quoted_printable_small_digits :
  quoted_printable (bytes_of "=d0") (bytes_of "utf-8") = Ok (208 :: bytes_of "0") /\
  quoted_printable [61; 13; 10] (bytes_of "utf-8") = Ok [239; 10].
Proof. by vm_compute. Qed.

Lemma raw_bytes_to_utf8_russian_witness :
  raw_bytes_to_utf8 [205; 201; 210; 33] (bytes_of "koi8-r") = Ok [208; 188; 208; 184; 209; 128; 33].
Proof.
  refine (proj1 (raw_bytes_to_utf8_russian KOI8R (bytes_of "koi8-r") [1084; 1080; 1088; 33] _ _)).
  - by apply (bool_decide_unpack _); vm_compute.
  - by apply (bool_decide_unpack _); vm_compute.
Defined.

Lemma quoted_printable_russian_witness :
  quoted_printable (bytes_of "=EC a") (bytes_of "windows-1251") = Ok [208; 188; 32; 97].
Proof.
  apply (quoted_printable_russian CP1251 (bytes_of "windows-1251") [(1084, true); (32, false); (97, false)]).
  - by apply (bool_decide_unpack _); vm_compute.
  - repeat (apply Forall_cons; split; [split; [by apply (bool_decide_unpack _); vm_compute|done]|]). done.
Defined.

Lemma charset_losses_witness : raw_bytes_to_utf8 [171] (bytes_of "windows-1251") = Ok [].
Proof. apply (charset_losses 171); [done|]. repeat split; done. Defined.
