(* ===== verification/Eml.v ===== *)
(** * Eml: extracting the attachments of a mail

    Models [src/c++/eml-attachments-parser/get_attachments.cpp] and its header
    on top of [Base64] and [Charset]: the patterns, the decoding of file names
    (RFC 2047 and RFC 2231), and the loop of [main] over the lines of the file
    as a function on its state.  What the environment decides is [env]: which
    files can be opened, as a stream or by [open], and how much [write] takes.
    The messages printed along the way are left out. *)

From S2P Require Import Prelude CInt CString CBuf CppString Base64 Charset.
Open Scope Z_scope.

(** ** The patterns

    In the source ["=\?.*\?="] is a C++ literal, in which [\?] is the
    character [?]: the expression that reaches the library is [=?.*?=]. *)

Definition BOUNDARY_PATTERN : regex := Seq (lits (bytes_of "boundary=")) (Star (Z.eqb 34)).
Definition ATTACH_PATTERN : regex :=
  Seq (lits (bytes_of "Content-Disposition: attachmen")) (Star (Z.eqb 116)).
Definition FILENAME_PATTERN : regex :=
  Alt (Seq (lits (bytes_of "filenam")) (Star (Z.eqb 101)))
    (Alt (Seq (lits (bytes_of "FileNam")) (Star (Z.eqb 101)))
       (Seq (lits (bytes_of "FILENAM")) (Star (Z.eqb 69)))).
Definition icase_e (c : Z) : bool := tolower c =? 101.
Definition FILENAME_PATTERN_icase : regex :=
  Alt (Seq (ilits (bytes_of "filenam")) (Star icase_e))
    (Alt (Seq (ilits (bytes_of "FileNam")) (Star icase_e))
       (Seq (ilits (bytes_of "FILENAM")) (Star icase_e))).
Definition ANTIVIRUS_PATTERN : regex :=
  Seq (ilits (bytes_of "AntiVirus")) (Seq (Star dot) (Seq (ilits (bytes_of "Status")) (Star dot))).
Definition RFC2047HINT : regex := Seq (Opt (lit 61)) (Seq (Star dot) (lit 61)).
Definition RFC2231HINT : regex :=
  Seq (Star dot) (Seq (lit 39) (Seq (Star dot) (Seq (lit 39) (Star dot)))).
Definition not_question (c : Z) : bool := negb (c =? 63).
Definition RFC2047 : regex :=
  Seq (Opt (lit 61))
    (Seq (Opt (Seq (Chr not_question) (Star not_question)))
      (Seq (Opt (Chr (fun c => bool_decide (c ∈ bytes_of "QBqb"))))
        (Seq (Opt (Seq (Chr not_question) (Star not_question))) (lit 61)))).

(** The header keys that [HeaderPatterns] looks for. *)
Definition header_keys : list (list Z) :=
  [bytes_of "Content-ID:"; bytes_of "Content-Transfer-Encoding:"; bytes_of "Content-Description:";
   bytes_of "Content-Type:"; bytes_of "Content-Disposition: attachment"; bytes_of "size=";
   bytes_of "creation-date="; bytes_of "modification-date="; bytes_of "read-date="].

Definition is_header_find (line : list Z) : bool := existsb (fun k => contains k line) header_keys.
Definition is_header_regex (line : list Z) : bool :=
  regex_search line FILENAME_PATTERN_icase || regex_search line ANTIVIRUS_PATTERN.
Definition is_header (line : list Z) : bool := is_header_find line || is_header_regex line.

(** ** Splitting *)

Definition contain (vect : list Z) (ch : Z) : bool := bool_decide (ch ∈ vect).

Fixpoint split_loop (line separators val : list Z) (res : list (list Z)) : list (list Z) :=
  match line with
  | [] => if bool_decide (val = []) then res else res ++ [val]
  | c :: line =>
      if negb (contain separators c) then split_loop line separators (val ++ [c]) res
      else split_loop line separators [] (if bool_decide (val = []) then res else res ++ [val])
  end.

Definition split_line (line separators : list Z) : list (list Z) := split_loop line separators [] [].

Definition get_encoded_line_tokens (line : list Z) (separator : Z)
  : outcome (list Z * list Z * list Z) :=
  let first_sep_pos := find line separator 0 in
  if first_sep_pos =? npos then Ok ([], [], line)
  else
    let second_sep_pos := find line separator (u64 (first_sep_pos + 1)) in
    let? r0 := substr line 0 first_sep_pos in
    let? r1 := substr line (u64 (first_sep_pos + 1)) (u64 (second_sep_pos - (first_sep_pos + 1))) in
    let? r2 := substr line (u64 (second_sep_pos + 1)) npos in
    Ok (r0, r1, r2).

Definition get_vect (str : list Z) : list Z := map u8 str.

(** ** Names of files *)

Definition get_decoded_text_rfc2047 (refused : bool) (token : list Z) : M table (list Z) :=
  prepared_token <- lift (substr token 2 (u64 (size token - 4))) ;;
  sub_tokens <- lift (get_encoded_line_tokens prepared_token 63) ;;
  let '(charset, encoding, encodedtext) := sub_tokens in
  if bool_decide (encoding = bytes_of "B") || bool_decide (encoding = bytes_of "b") then
    decoded_bytes <- base64_decode_to_bytes refused encodedtext ;;
    lift (raw_bytes_to_utf8 decoded_bytes charset)
  else if bool_decide (encoding = bytes_of "Q") || bool_decide (encoding = bytes_of "q") then
    lift (quoted_printable encodedtext charset)
  else ret [].

Fixpoint rfc2047_loop (refused : bool) (tokens : list (list Z)) (filename : list Z) : M table (list Z) :=
  match tokens with
  | [] => ret filename
  | token :: tokens =>
      if regex_search token RFC2047 then
        t <- get_decoded_text_rfc2047 refused token ;;
        rfc2047_loop refused tokens (filename ++ t)
      else rfc2047_loop refused tokens filename
  end.

Definition parse_rfc2047 (refused : bool) (str : list Z) : M table (list Z) :=
  rfc2047_loop refused (split_line str [32; 10; 13; 9]) [].

(** [sscanf(s, "%lx", &temp)]: the number converted, if any.  Blanks and a sign
    may precede it; ["0x"] alone does not convert. *)
Definition hex_digit (c : Z) : option Z :=
  if (48 <=? c) && (c <=? 57) then Some (c - 48)
  else if (65 <=? c) && (c <=? 70) then Some (c - 55)
  else if (97 <=? c) && (c <=? 102) then Some (c - 87)
  else None.

Fixpoint hex_digits (s : list Z) (acc : option Z) : option Z :=
  match s with
  | [] => acc
  | c :: s => match hex_digit c with
              | None => acc
              | Some d => hex_digits s (Some (16 * default 0 acc + d))
              end
  end.

Definition is_space (c : Z) : bool := ((9 <=? c) && (c <=? 13)) || (c =? 32).

Fixpoint skip_spaces (s : list Z) : list Z :=
  match s with
  | c :: s' => if is_space c then skip_spaces s' else s
  | [] => []
  end.

Definition unprefixed (s : list Z) : option Z :=
  match s with
  | 48 :: x :: s' => if (x =? 120) || (x =? 88) then hex_digits s' None else hex_digits s None
  | _ => hex_digits s None
  end.

Definition sscanf_lx (s : list Z) : option Z :=
  match skip_spaces s with
  | 43 :: s => unprefixed s
  | 45 :: s => option_map Z.opp (unprefixed s)
  | s => unprefixed s
  end.

(** [temp] is not initialised and keeps its value when nothing converts. *)
Fixpoint url_loop (fuel : nat) (str : list Z) (i : Z) (temp : option Z) (res : list Z) : outcome (list Z) :=
  if i <? size str then
    match fuel with
    | O => Fault NoFuel
    | S fuel =>
        let? c := char_at str i in
        if c =? 37 then
          let? t := substr str (i + 1) 2 in
          let temp := match sscanf_lx (c_str t) with Some v => Some v | None => temp end in
          let? v := of_option Indeterminate temp in
          url_loop fuel str (i + 3) temp (res ++ [u8 v])
        else url_loop fuel str (i + 1) temp (res ++ [c])
    end
  else Ok res.

Definition url_decode (str : list Z) : outcome (list Z) := url_loop (length str) str 0 None [].

Definition get_decoded_text_rfc2231 (token : list Z) : outcome (list Z) :=
  let? (charset, lang, encodedtext) := get_encoded_line_tokens token 39 in url_decode encodedtext.

Definition parse_rfc2231 (str : list Z) : outcome (list Z) := get_decoded_text_rfc2231 str.

Inductive encode_result := UNKOWN_ENCODE | RFC2047_ENCODE | RFC2231_ENCODE.

Definition check_encoding (str : list Z) : encode_result :=
  if regex_search str RFC2047HINT then RFC2047_ENCODE
  else if regex_search str RFC2231HINT then RFC2231_ENCODE
  else UNKOWN_ENCODE.

Definition del_quotes_if_needed (str : list Z) : outcome (list Z) :=
  let? c := char_at str 0 in
  let str := if c =? 34 then drop 1 str else str in
  let? c := char_at str (u64 (size str - 1)) in
  Ok (if c =? 34 then erase_last str else str).

Definition get_boundary_val (line : list Z) : outcome (list Z) :=
  let start_pos := find line 61 0 in
  let offset := u64 (size line - (start_pos + 3)) in
  substr line (u64 (start_pos + 2)) offset.

Definition get_filename_val (line : list Z) : outcome (list Z) :=
  let start_pos := find line 61 0 in
  let offset := u64 (size line - (start_pos + 1)) in
  let? c := char_at line (u64 (size line - 1)) in
  let offset := if c =? 59 then u64 (offset - 1) else offset in
  let? res := substr line (u64 (start_pos + 1)) offset in
  del_quotes_if_needed res.

Definition empty_line (line : list Z) : bool :=
  bool_decide (line ∈ [[]; [10]; [13]; [13; 10]; [13; 10; 13; 10]; [32]]).

Definition get_attach_filename (vect : list (list Z)) : list Z := foldl (fun res el => res ++ el) [] vect.

Definition remove_carriage_return_if_needed (str : list Z) : list Z :=
  if bool_decide (last str = Some 13) then erase_last str else str.

Fixpoint contain_any_boundary (boundaries : list (list Z)) (line : list Z) : bool :=
  match boundaries with
  | [] => false
  | b :: bs => if contains b line then true else contain_any_boundary bs line
  end.

(** ** Files *)

Record env := mk_env {
  malloc_fails : bool;                           (* no memory for the decoding table *)
  stream_opens : list Z -> bool;                 (* the stream is open *)
  fd_opens : list Z -> bool;                     (* [open] returns a descriptor *)
  write_cnt : list Z -> list Z -> Z              (* what [write] returns *)
}.

Abbreviation filesystem := (gmap (list Z) (list Z)).

(** The descriptor is opened without truncation, so what is written replaces
    the start of the file. *)
Definition save_str_to_file_linux (e : env) (out_filename data : list Z) (fs : filesystem)
  : bool * filesystem :=
  if negb (fd_opens e out_filename) then (false, fs)
  else
    let n := write_cnt e out_filename data in
    let old := default [] (fs !! out_filename) in
    let written := take (Z.to_nat n) data in
    (n =? size data, <[out_filename := written ++ drop (length written) old]> fs).

(** The stream truncates the file; [std::endl] adds a newline. *)
Definition save_str_to_file (e : env) (out_filename data : list Z) (fs : filesystem)
  : bool * filesystem :=
  if negb (stream_opens e out_filename) then save_str_to_file_linux e out_filename data fs
  else (true, <[out_filename := data ++ [10]]> fs).

(** ** The loop over the lines *)

Record state := mk_state {
  decoding_table : table;
  attach_found : bool;
  attach_body_start_found : bool;
  filename_parsing_starts : bool;
  attachment_data : list Z;
  boundaries : list (list Z);
  cur_filename : list Z;
  filename_tokens : list (list Z);
  attachments_cnt : Z;
  files : filesystem
}.

(** The fields that the stages of the loop update together. *)
Definition with_name (starts : bool) (cur : list Z) (tokens : list (list Z)) (s : state) : state :=
  mk_state (decoding_table s) (attach_found s) (attach_body_start_found s) starts (attachment_data s)
    (boundaries s) cur tokens (attachments_cnt s) (files s).

Definition with_body (found start : bool) (data : list Z) (s : state) : state :=
  mk_state (decoding_table s) found start (filename_parsing_starts s) data
    (boundaries s) (cur_filename s) (filename_tokens s) (attachments_cnt s) (files s).

Definition with_boundaries (bs : list (list Z)) (s : state) : state :=
  mk_state (decoding_table s) (attach_found s) (attach_body_start_found s) (filename_parsing_starts s)
    (attachment_data s) bs (cur_filename s) (filename_tokens s) (attachments_cnt s) (files s).

Definition with_files (t : table) (cnt : Z) (fs : filesystem) (s : state) : state :=
  mk_state t (attach_found s) (attach_body_start_found s) (filename_parsing_starts s)
    (attachment_data s) (boundaries s) (cur_filename s) (filename_tokens s) cnt fs.

(** A name that spans several lines. *)
Definition accumulate_filename (line : list Z) (s : state) : outcome state :=
  if negb (empty_line line) && filename_parsing_starts s && negb (is_header line)
     && negb (attach_body_start_found s) then
    Ok (with_name (filename_parsing_starts s) (cur_filename s ++ line) (filename_tokens s) s)
  else if filename_parsing_starts s && (empty_line line || is_header line || attach_body_start_found s) then
    let? filename := get_filename_val (cur_filename s) in
    Ok (with_name false [] (filename_tokens s ++ [filename]) s)
  else Ok s.

Definition start_filename (line : list Z) (s : state) : state :=
  if regex_search line FILENAME_PATTERN && negb (filename_parsing_starts s) then
    with_name true (cur_filename s ++ line) (filename_tokens s) s
  else s.

Definition note_boundary (line : list Z) (s : state) : outcome state :=
  if regex_search line BOUNDARY_PATTERN then
    let? b := get_boundary_val line in
    Ok (with_boundaries (boundaries s ++ [[45; 45] ++ b]) s)
  else Ok s.

Definition note_attachment (line : list Z) (s : state) : state :=
  if regex_search line ATTACH_PATTERN then
    with_body true (attach_body_start_found s) (attachment_data s) s
  else s.

(** The name of the attachment that ends, its encoding undone. *)
Definition attachment_name (refused : bool) (tokens : list (list Z)) (cnt : Z) : M table (list Z) :=
  let n := get_attach_filename tokens in
  let attach_filename := if bool_decide (n = []) then bytes_of "temp" ++ print_dec cnt else n in
  match check_encoding attach_filename with
  | RFC2047_ENCODE => parse_rfc2047 refused attach_filename
  | RFC2231_ENCODE => lift (parse_rfc2231 attach_filename)
  | UNKOWN_ENCODE => ret attach_filename
  end.

Definition finish_attachment (e : env) (s : state) : outcome state :=
  let cnt := u64 (attachments_cnt s + 1) in
  let? (decoded, t) := base64_decode_to_string (malloc_fails e) (attachment_data s) (decoding_table s) in
  let? (name, t) := attachment_name (malloc_fails e) (filename_tokens s) cnt t in
  let '(_, fs) := save_str_to_file e name decoded (files s) in
  Ok (with_files t cnt fs (with_name (filename_parsing_starts s) (cur_filename s) []
        (with_body false false [] s))).

Definition attachment_body (e : env) (line : list Z) (s : state) : outcome state :=
  if attach_found s && attach_body_start_found s then
    if empty_line line || contain_any_boundary (boundaries s) line then finish_attachment e s
    else Ok (with_body (attach_found s) (attach_body_start_found s) (attachment_data s ++ line) s)
  else Ok s.

Definition start_body (line : list Z) (s : state) : state :=
  if attach_found s && empty_line line then with_body (attach_found s) true (attachment_data s) s
  else s.

Definition process_line (e : env) (line : list Z) (s : state) : outcome state :=
  let line := remove_carriage_return_if_needed line in
  let? s := accumulate_filename line s in
  let s := start_filename line s in
  let? s := note_boundary line s in
  let s := note_attachment line s in
  let? s := attachment_body e line s in
  Ok (start_body line s).

Fixpoint process_lines (e : env) (lines : list (list Z)) (s : state) : outcome state :=
  match lines with
  | [] => Ok s
  | line :: lines => let? s := process_line e line s in process_lines e lines s
  end.

Definition init (t : table) (fs : filesystem) : state :=
  mk_state t false false false [] [] [] [] 0 fs.

(** [eml_file] is the content of the file named on the command line, if it can
    be opened. *)
Definition main (e : env) (argc : Z) (eml_file : option (list Z)) (fs : filesystem) : outcome (Z * state) :=
  if negb (argc =? 2) then Ok (1, init TableNull fs)
  else match eml_file with
  | None => Ok (1, init TableNull fs)
  | Some content =>
      let? (_, t) := build_decoding_table (malloc_fails e) TableNull in
      let? s := process_lines e (getlines content []) (init t fs) in
      let? (_, t) := base64_cleanup (decoding_table s) in
      Ok (0, with_files t (attachments_cnt s) (files s) s)
  end.

(** ** Mails with attachments

    What a mail looks like that carries attachments: a header that announces
    the boundary, then for each attachment its part headers, a disposition with
    the name, an empty line, the encoded body over any number of lines, and a
    line with the boundary. *)

Definition quiet (l : list Z) : Prop :=
  regex_search l FILENAME_PATTERN = false /\ regex_search l BOUNDARY_PATTERN = false /\
  regex_search l ATTACH_PATTERN = false.

Definition text_line (l : list Z) : Prop := ~ (10 ∈ l) /\ ~ (13 ∈ l).

Definition boundary_header (b : list Z) : list Z :=
  bytes_of "Content-Type: multipart/mixed; boundary=" ++ [34] ++ b ++ [34].

Definition disposition (raw : list Z) : list Z :=
  bytes_of "Content-Disposition: attachment; filename=" ++ [34] ++ raw ++ [34].

(** A name as the header carries it, and the name of the file. *)
Definition encoded_word (cs text : list Z) : list Z :=
  bytes_of "=?" ++ cs ++ bytes_of "?B?" ++ base64_encode text ++ bytes_of "?=".

Inductive name_of : list Z -> list Z -> Prop :=
| name_plain raw :
    raw <> [] -> regex_search raw RFC2047HINT = false -> regex_search raw RFC2231HINT = false ->
    name_of raw raw
| name_encoded k cs text :
    cs ∈ names k -> text <> [] -> Forall (russian k) text -> Z.of_nat (length text) < 2 ^ 30 ->
    name_of (encoded_word cs (map (to_byte k) text)) (flat_map utf8_encode text).

Record attachment := mk_attachment {
  part_headers : list (list Z);
  raw_name : list Z;
  file_name : list Z;
  more_headers : list (list Z);
  content : list Z;
  body_lines : list (list Z);
  delimiter : list Z
}.

(** The lines between the name and the empty line: the first has to be one that
    [is_header] knows, or it is taken for a continuation of the name. *)
Definition after_name (more : list (list Z)) : Prop :=
  Forall (fun l => text_line l /\ quiet l /\ empty_line l = false) more /\
  match more with l :: _ => is_header l = true | [] => True end.

Record well_formed (b : list Z) (a : attachment) : Prop := mk_well_formed {
  wf_headers : Forall (fun l => text_line l /\ quiet l) (part_headers a);
  wf_name : name_of (raw_name a) (file_name a);
  wf_disposition : text_line (raw_name a) /\
    regex_search (disposition (raw_name a)) BOUNDARY_PATTERN = false /\
    size (disposition (raw_name a)) < 2 ^ 64;
  wf_more : after_name (more_headers a);
  wf_content : content a <> [] /\ Forall is_byte (content a) /\
    4 * ((size (content a) + 2) / 3) < 2 ^ 31;
  wf_body : concat (body_lines a) = base64_encode (content a) /\
    Forall (fun l => l <> [] /\ quiet l) (body_lines a);
  wf_delimiter : text_line (delimiter a) /\ quiet (delimiter a) /\
    contains ([45; 45] ++ b) (delimiter a) = true
}.

Definition part (a : attachment) : list (list Z) :=
  part_headers a ++ [disposition (raw_name a)] ++ more_headers a ++ [[]] ++ body_lines a ++ [delimiter a].

Definition mail (b : list Z) (preamble : list (list Z)) (atts : list attachment) (epilogue : list (list Z))
  : list (list Z) :=
  [boundary_header b] ++ preamble ++ flat_map part atts ++ epilogue.

(** The file itself; [eol] ends each line. *)
Definition eml_text (eol : list Z) (lines : list (list Z)) : list Z := flat_map (fun l => l ++ eol) lines.

(** ** Names *)

Abbreviation ready := (TableLive decoding_cells).

Lemma size_app s t : size (s ++ t) = size s + size t.
Proof. unfold size. rewrite length_app. lia. Qed.

Lemma last_char s c : size (s ++ [c]) < 2 ^ 64 -> char_at (s ++ [c]) (u64 (size (s ++ [c]) - 1)) = Ok c.
Proof.
  intros Hs. rewrite size_app in *. unfold char_at, size in *. simpl in *.
  rewrite u64_small by lia. rewrite <- app_assoc. apply load_app_r. lia.
Qed.

Lemma erase_last_snoc s c : erase_last (s ++ [c]) = s.
Proof. unfold erase_last. rewrite length_app. simpl. by rewrite Nat.add_sub, take_app_length. Qed.

Lemma del_quotes_quoted s : size s < 2 ^ 64 - 2 -> del_quotes_if_needed ([34] ++ s ++ [34]) = Ok s.
Proof.
  intros Hs. change (del_quotes_if_needed ([34] ++ s ++ [34])) with
    (let? c := char_at (s ++ [34]) (u64 (size (s ++ [34]) - 1)) in
     Ok (if c =? 34 then erase_last (s ++ [34]) else s ++ [34])).
  rewrite last_char by (rewrite size_app; unfold size in *; simpl; lia).
  cbn [obind Z.eqb Pos.eqb]. by rewrite erase_last_snoc.
Qed.

Lemma find_head c pre rest : ~ (c ∈ pre) -> find (pre ++ c :: rest) c 0 = size pre.
Proof. intros Hc. apply (find_first c [] pre rest 0 eq_refl Hc). Qed.

(** The value of a parameter, between quotes. *)
Lemma get_filename_disposition raw :
  size (disposition raw) < 2 ^ 64 -> get_filename_val (disposition raw) = Ok raw.
Proof.
  intros Hs. unfold get_filename_val.
  set (pre := bytes_of "Content-Disposition: attachment; filename") in *.
  change (disposition raw) with (pre ++ 61 :: ([34] ++ raw ++ [34])) in *.
  rewrite find_head by (apply (bool_decide_unpack _); by vm_compute).
  assert (Hl : char_at (pre ++ 61 :: [34] ++ raw ++ [34])
    (u64 (size (pre ++ 61 :: [34] ++ raw ++ [34]) - 1)) = Ok 34).
  { replace (pre ++ 61 :: [34] ++ raw ++ [34]) with ((pre ++ [61; 34] ++ raw) ++ [34]) in *
      by (by rewrite <- !app_assoc). by apply last_char. }
  rewrite Hl. cbn [obind Z.eqb Pos.eqb]. rewrite size_app in Hs |- *.
  change (size (61 :: [34] ++ raw ++ [34])) with (Z.of_nat (length (61 :: [34] ++ raw ++ [34]))) in *.
  cbn [length] in *. rewrite !u64_small by (unfold size in *; lia).
  replace (pre ++ 61 :: [34] ++ raw ++ [34]) with ((pre ++ [61]) ++ ([34] ++ raw ++ [34]))
    by (by rewrite <- !app_assoc).
  rewrite substr_end; [|rewrite length_app; unfold size in *; simpl; lia|unfold size; simpl; lia].
  cbn [obind]. apply del_quotes_quoted. unfold size in *. simpl in *. rewrite length_app in Hs. lia.
Qed.

Lemma get_boundary_header b :
  size (boundary_header b) < 2 ^ 64 -> get_boundary_val (boundary_header b) = Ok b.
Proof.
  intros Hs. unfold get_boundary_val.
  set (pre := bytes_of "Content-Type: multipart/mixed; boundary") in *.
  change (boundary_header b) with (pre ++ 61 :: ([34] ++ b ++ [34])) in *.
  rewrite find_head by (apply (bool_decide_unpack _); by vm_compute).
  rewrite size_app in Hs |- *.
  change (size (61 :: [34] ++ b ++ [34])) with (Z.of_nat (length (61 :: [34] ++ b ++ [34]))) in *.
  cbn [length] in *. rewrite length_app in *. cbn [length app] in *.
  rewrite length_app in *. cbn [length] in *.
  rewrite !u64_small by (unfold size in *; lia).
  replace (pre ++ 61 :: 34 :: b ++ [34]) with ((pre ++ [61; 34]) ++ b ++ [34])
    by (by rewrite <- !app_assoc).
  apply substr_mid; [rewrite length_app; unfold size in *; simpl|unfold size in *]; lia.
Qed.

Lemma search_end pre r : ends r [61] <> [] -> regex_search (pre ++ [61]) r = true.
Proof. apply regex_search_at. Qed.

Lemma split_no_separator line separators val :
  line <> [] -> Forall (fun c => ~ (c ∈ separators)) line ->
  split_loop line separators val [] = [val ++ line].
Proof.
  intros Hne Hl. revert val Hne. induction Hl as [|c line Hc Hl IH]; intros val Hne; [done|].
  simpl. unfold contain. rewrite bool_decide_false by done. simpl. destruct line as [|d line].
  - simpl. rewrite bool_decide_false; [done|]. by destruct val.
  - rewrite IH by done. by rewrite <- app_assoc.
Qed.

Lemma tokens_of a b c sep :
  ~ (sep ∈ a) -> ~ (sep ∈ b) -> size (a ++ sep :: b ++ sep :: c) < 2 ^ 64 - 1 ->
  get_encoded_line_tokens (a ++ sep :: b ++ sep :: c) sep = Ok (a, b, c).
Proof.
  intros Ha Hb Hs. unfold get_encoded_line_tokens. rewrite find_head by done.
  unfold size in *. rewrite length_app in Hs. cbn [length] in Hs. rewrite length_app in Hs. cbn [length] in Hs.
  rewrite (proj2 (Z.eqb_neq _ _)) by (unfold npos; lia). rewrite u64_small by lia.
  set (L := a ++ sep :: b ++ sep :: c).
  assert (HL1 : L = (a ++ [sep]) ++ b ++ sep :: c) by (by unfold L; rewrite <- app_assoc).
  assert (HL2 : L = (a ++ sep :: b ++ [sep]) ++ c)
    by (unfold L; rewrite <- app_assoc; simpl; by rewrite <- app_assoc).
  assert (Hf : find L sep (Z.of_nat (length a) + 1) = Z.of_nat (length a) + 1 + Z.of_nat (length b)).
  { rewrite HL1, find_first; [|rewrite length_app; simpl; lia|done]. rewrite !length_app. simpl. lia. }
  rewrite Hf, !u64_small by lia.
  assert (H0 : substr L 0 (Z.of_nat (length a)) = Ok a) by (by apply (substr_mid [])).
  assert (H1 : substr L (Z.of_nat (length a) + 1) (Z.of_nat (length a) + 1 + Z.of_nat (length b) - (Z.of_nat (length a) + 1)) = Ok b).
  { rewrite HL1. apply substr_mid; [rewrite length_app; simpl|]; lia. }
  assert (H2 : substr L (Z.of_nat (length a) + 1 + Z.of_nat (length b) + 1) npos = Ok c).
  { rewrite HL2. apply substr_end; [rewrite length_app; simpl; rewrite length_app; simpl|unfold npos]; lia. }
  by rewrite H0, H1, H2.
Qed.

Lemma decode_bytes_ready refused bs :
  bs <> [] -> Forall is_byte bs -> 4 * ((Z.of_nat (length bs) + 2) / 3) < 2 ^ 31 ->
  base64_decode_to_bytes refused (base64_encode bs) ready = Ok (bs, ready).
Proof.
  intros Hne Hb Hl. change (base64_decode_to_bytes refused (base64_encode bs) ready)
    with (base64_decode_to_bytes false (base64_encode bs) ready).
  rewrite <- decoders_agree by (rewrite length_encode; lia). apply string_roundtrip; [done..|by right].
Qed.

(** A word encoded in base 64 decodes to the text in UTF-8. *)
Lemma decoded_word refused k cs text :
  cs ∈ names k -> text <> [] -> Forall (russian k) text -> Z.of_nat (length text) < 2 ^ 30 ->
  get_decoded_text_rfc2047 refused (encoded_word cs (map (to_byte k) text)) ready =
  Ok (flat_map utf8_encode text, ready).
Proof.
  intros Hcs Hne Ht Hl. unfold get_decoded_text_rfc2047, encoded_word.
  set (bs := map (to_byte k) text). assert (Hlen : length bs = length text) by apply length_map.
  assert (Hcl : (length cs <= 12)%nat).
  { assert (Hall : forall k, Forall (fun c : list Z => (length c <= 12)%nat) (names k))
      by (intros []; apply (bool_decide_unpack _); by vm_compute).
    specialize (Hall k). rewrite Forall_forall in Hall. by apply Hall. }
  assert (He : Z.of_nat (length (base64_encode bs)) < 2 ^ 31) by (rewrite length_encode; dlia).
  replace (bytes_of "=?" ++ cs ++ bytes_of "?B?" ++ base64_encode bs ++ bytes_of "?=")
    with (bytes_of "=?" ++ (cs ++ 63 :: bytes_of "B" ++ 63 :: base64_encode bs) ++ bytes_of "?=")
    by (by rewrite <- !app_assoc).
  rewrite substr_mid; [|done|].
  2: { unfold size. rewrite !length_app. cbn [length bytes_of map String.list_ascii_of_string].
       rewrite length_app. cbn [length]. rewrite u64_small; lia. }
  rewrite bind_lift, tokens_of, bind_lift.
  - cbn [bool_decide]. rewrite bool_decide_true by done. cbn [orb].
    assert (Hbs : bs <> []) by (intros E; apply (f_equal length) in E; rewrite Hlen in E; by destruct text).
    assert (Hbytes : Forall is_byte bs).
    { subst bs. apply Forall_map. eapply Forall_impl; [exact Ht|]. intros cp Hcp. by apply (char_of_letter k). }
    assert (Hbl : 4 * ((Z.of_nat (length bs) + 2) / 3) < 2 ^ 31) by (rewrite Hlen; dlia).
    run (decode_bytes_ready refused bs Hbs Hbytes Hbl). subst bs. by rewrite (raw_bytes_russian k).
  - assert (Hall : forall k, Forall (fun c => ~ (63 ∈ c)) (names k))
      by (intros []; apply (bool_decide_unpack _); by vm_compute).
    specialize (Hall k). rewrite Forall_forall in Hall. by apply Hall.
  - by apply (bool_decide_unpack _); vm_compute.
  - unfold size. rewrite length_app. cbn [length bytes_of map String.list_ascii_of_string app].
    lia.
Qed.

Lemma attachment_name_of refused raw nm cnt :
  name_of raw nm -> attachment_name refused [raw] cnt ready = Ok (nm, ready).
Proof.
  intros Hn. unfold attachment_name. change (get_attach_filename [raw]) with raw.
  destruct Hn as [raw Hne H1 H2|k cs text Hcs Hne Ht Hl].
  - rewrite bool_decide_false by done. unfold check_encoding. by rewrite H1, H2.
  - set (raw := encoded_word cs (map (to_byte k) text)).
    assert (Hraw : exists pre, raw = pre ++ [61]).
    { exists (bytes_of "=?" ++ cs ++ bytes_of "?B?" ++ base64_encode (map (to_byte k) text) ++ [63]).
      unfold raw, encoded_word. by rewrite <- !app_assoc. }
    assert (Hr : raw <> []) by (destruct Hraw as [pre ->]; by destruct pre).
    rewrite bool_decide_false by done. unfold check_encoding.
    assert (regex_search raw RFC2047HINT = true) as ->
      by (destruct Hraw as [pre ->]; by apply search_end).
    unfold parse_rfc2047, split_line. rewrite split_no_separator; [|done|].
    + cbn [app rfc2047_loop].
      assert (regex_search raw RFC2047 = true) as -> by (destruct Hraw as [pre ->]; by apply search_end).
      run (decoded_word refused k cs text Hcs Hne Ht Hl). done.
    + unfold raw, encoded_word. rewrite !Forall_app. split_and!.
      * by apply (bool_decide_unpack _); vm_compute.
      * assert (Hall : forall k, Forall (Forall (fun c => ~ (c ∈ [32; 10; 13; 9]))) (names k))
          by (intros []; apply (bool_decide_unpack _); by vm_compute).
        specialize (Hall k). rewrite Forall_forall in Hall. by apply Hall.
      * by apply (bool_decide_unpack _); vm_compute.
      * eapply Forall_impl; [apply encode_chars|].
        -- apply Forall_map. eapply Forall_impl; [exact Ht|]. intros cp Hcp. by apply (char_of_letter k).
        -- intros c Hc%base64_char_not. set_solver.
      * by apply (bool_decide_unpack _); vm_compute.
Qed.

(** ** One line at a time *)

Lemma last_text l : ~ (13 ∈ l) -> last l <> Some 13.
Proof. intros Hl [l' ->]%last_Some. set_solver. Qed.

Lemma strip_text l cr :
  ~ (13 ∈ l) -> cr = [] \/ cr = [13] -> remove_carriage_return_if_needed (l ++ cr) = l.
Proof.
  intros Hl [-> | ->]; unfold remove_carriage_return_if_needed.
  - rewrite app_nil_r, bool_decide_false; [done|]. by apply last_text.
  - rewrite last_snoc, bool_decide_true by done. apply erase_last_snoc.
Qed.

Section lines.
Context (e : env) (cr : list Z) (Hcr : cr = [] \/ cr = [13]).
Context (bs : list (list Z)) (cnt : Z) (fs : filesystem).

(** The states between two lines: outside of an attachment, after its
    disposition, in the rest of its headers, and in its body. *)
Definition idle : state := mk_state ready false false false [] bs [] [] cnt fs.
Definition named (raw : list Z) : state := mk_state ready true false true [] bs (disposition raw) [] cnt fs.
Definition headers (raw : list Z) : state := mk_state ready true false false [] bs [] [raw] cnt fs.
Definition in_body (raw data : list Z) : state := mk_state ready true true false data bs [] [raw] cnt fs.

(** The stages after the stripping, on a line that matches no pattern. *)
Lemma process_quiet l s s' :
  text_line l -> quiet l -> accumulate_filename l s = Ok s' ->
  process_line e (l ++ cr) s = let? s := attachment_body e l s' in Ok (start_body l s).
Proof.
  intros [_ Hl] (H1 & H2 & H3) Ha. unfold process_line. rewrite strip_text by done. rewrite Ha.
  unfold start_filename, note_boundary, note_attachment. cbn [obind]. rewrite H1. cbn [andb].
  rewrite H2. cbn [obind]. by rewrite H3.
Qed.

Lemma idle_quiet l : text_line l -> quiet l -> process_line e (l ++ cr) idle = Ok idle.
Proof.
  intros Hl Hq. rewrite (process_quiet l idle idle Hl Hq); [done|].
  unfold accumulate_filename. simpl. by rewrite andb_false_r.
Qed.

Lemma headers_quiet l raw :
  text_line l -> quiet l -> empty_line l = false -> process_line e (l ++ cr) (headers raw) = Ok (headers raw).
Proof.
  intros Hl Hq He. rewrite (process_quiet l (headers raw) (headers raw) Hl Hq).
  - simpl. unfold start_body. simpl. by rewrite He.
  - unfold accumulate_filename. simpl. by rewrite andb_false_r.
Qed.

Lemma idle_disposition raw :
  text_line raw -> regex_search (disposition raw) BOUNDARY_PATTERN = false ->
  process_line e (disposition raw ++ cr) idle = Ok (named raw).
Proof.
  intros [_ Hl] Hb. unfold process_line. rewrite strip_text; [|unfold disposition|done].
  2: { rewrite !not_elem_of_app. repeat split; try done; by apply (bool_decide_unpack _); vm_compute. }
  unfold accumulate_filename. cbn [filename_parsing_starts idle andb]. rewrite andb_false_r. cbn [andb obind].
  unfold start_filename. assert (regex_search (disposition raw) FILENAME_PATTERN = true) as ->.
  { unfold disposition. change (bytes_of "Content-Disposition: attachment; filename=")
      with (bytes_of "Content-Disposition: attachment; " ++ bytes_of "filename=").
    rewrite <- app_assoc. by apply regex_search_at. }
  cbn [andb negb filename_parsing_starts idle]. unfold note_boundary. rewrite Hb. cbn [obind].
  unfold note_attachment. assert (regex_search (disposition raw) ATTACH_PATTERN = true) as -> by done.
  change (attachment_body e (disposition raw) _) with (Ok (named raw)). cbn [obind].
  unfold start_body. assert (empty_line (disposition raw) = false) as ->; [|done].
  unfold empty_line. apply bool_decide_false. rewrite !not_elem_of_cons. split_and!; try done. apply not_elem_of_nil.
Qed.

Lemma named_header l raw :
  text_line l -> quiet l -> is_header l = true -> empty_line l = false -> size (disposition raw) < 2 ^ 64 ->
  process_line e (l ++ cr) (named raw) = Ok (headers raw).
Proof.
  intros Hl Hq Hh He Hs. rewrite (process_quiet l (named raw) (headers raw) Hl Hq).
  - change (attachment_body e l (headers raw)) with (Ok (headers raw)). cbn [obind].
    unfold start_body. by rewrite He, andb_false_r.
  - unfold accumulate_filename. rewrite He, Hh.
    cbn [filename_parsing_starts named attach_body_start_found cur_filename negb andb orb].
    by rewrite get_filename_disposition.
Qed.

(** Any other line is appended to the name. *)
Lemma named_continues l raw :
  text_line l -> quiet l -> is_header l = false -> empty_line l = false ->
  process_line e (l ++ cr) (named raw) =
    Ok (with_name true (disposition raw ++ l) [] (named raw)).
Proof.
  intros Hl Hq Hh He. rewrite (process_quiet l (named raw) (with_name true (disposition raw ++ l) [] (named raw)) Hl Hq).
  - change (attachment_body e l (with_name true (disposition raw ++ l) [] (named raw)))
      with (Ok (with_name true (disposition raw ++ l) [] (named raw))). cbn [obind].
    unfold start_body. by rewrite He, andb_false_r.
  - unfold accumulate_filename. by rewrite He, Hh.
Qed.

Lemma named_empty raw :
  size (disposition raw) < 2 ^ 64 -> process_line e ([] ++ cr) (named raw) = Ok (in_body raw []).
Proof.
  intros Hs. rewrite (process_quiet [] (named raw) (headers raw)).
  - done.
  - split; set_solver.
  - done.
  - unfold accumulate_filename. change (empty_line []) with true.
    cbn [filename_parsing_starts named attach_body_start_found cur_filename negb andb orb].
    by rewrite get_filename_disposition.
Qed.

Lemma headers_empty raw : process_line e ([] ++ cr) (headers raw) = Ok (in_body raw []).
Proof. rewrite (process_quiet [] (headers raw) (headers raw)); try done. split; set_solver. Qed.

Lemma body_line l raw data :
  text_line l -> quiet l -> empty_line l = false -> contain_any_boundary bs l = false ->
  process_line e (l ++ cr) (in_body raw data) = Ok (in_body raw (data ++ l)).
Proof.
  intros Hl Hq He Hb. rewrite (process_quiet l (in_body raw data) (in_body raw data) Hl Hq).
  - unfold attachment_body. simpl. rewrite He, Hb. simpl. unfold start_body. simpl. by rewrite He.
  - unfold accumulate_filename. simpl. by rewrite andb_false_r.
Qed.
End lines.

Lemma contain_boundary_in b bs l : b ∈ bs -> contains b l = true -> contain_any_boundary bs l = true.
Proof.
  intros Hb Hl. induction bs as [|b' bs IH]; [by apply elem_of_nil in Hb|]. simpl.
  apply elem_of_cons in Hb as [<-|Hb]; [by rewrite Hl|]. destruct (contains b' l); [done|by apply IH].
Qed.

(** A line of the body is none of the lines that end it. *)
Lemma body_line_plain b l :
  l <> [] -> Forall base64_char l ->
  text_line l /\ empty_line l = false /\ contain_any_boundary [[45; 45] ++ b] l = false.
Proof.
  intros Hne Hc. assert (Hn : forall x, x ∈ l -> ~ (x ∈ [0; 9; 10; 13; 32; 34; 45; 63])).
  { rewrite Forall_forall in Hc. intros x Hx. by apply base64_char_not, Hc. }
  split_and!.
  - split; intros Hx; apply (Hn _ Hx); set_solver.
  - unfold empty_line. apply bool_decide_false. rewrite !not_elem_of_cons.
    split_and!; try done; try apply not_elem_of_nil; intros ->.
    all: first [apply (Hn 10); set_solver | apply (Hn 13); set_solver | apply (Hn 32); set_solver].
  - simpl. rewrite contains_absent; [done|]. intros Hx. apply (Hn _ Hx). set_solver.
Qed.

Lemma process_lines_app e l1 l2 s :
  process_lines e (l1 ++ l2) s = let? s := process_lines e l1 s in process_lines e l2 s.
Proof.
  revert s. induction l1 as [|l l1 IH]; intros s; simpl; [done|].
  destruct (process_line e l s); simpl; [apply IH|done].
Qed.

Section mails.
Context (e : env) (cr : list Z) (Hcr : cr = [] \/ cr = [13]) (b : list Z).
Hypothesis (Hopens : forall name, stream_opens e name = true).
Let bs := [[45; 45] ++ b].

Definition ended (lines : list (list Z)) : list (list Z) := map (fun l => l ++ cr) lines.

Lemma quiet_lines lines cnt fs :
  Forall (fun l => text_line l /\ quiet l) lines ->
  process_lines e (ended lines) (idle bs cnt fs) = Ok (idle bs cnt fs).
Proof.
  intros Hl. induction Hl as [|l lines [Ht Hq] _ IH]; [done|].
  change (ended (l :: lines)) with ((l ++ cr) :: ended lines). cbn [process_lines].
  by rewrite idle_quiet.
Qed.

(** From the disposition to the empty line that starts the body. *)
Lemma header_lines more raw cnt fs :
  after_name more -> size (disposition raw) < 2 ^ 64 ->
  process_lines e (ended (more ++ [[]])) (named bs cnt fs raw) = Ok (in_body bs cnt fs raw []).
Proof.
  intros [Hm Hh] Hs. destruct Hm as [|l more (Ht & Hq & He) Hm].
  { change (ended ([] ++ [[]])) with [[] ++ cr]. cbn [process_lines]. by rewrite named_empty. }
  change (ended ((l :: more) ++ [[]])) with ((l ++ cr) :: ended (more ++ [[]])). cbn [process_lines].
  rewrite named_header by done. cbn [obind]. clear Ht Hq Hh He.
  induction Hm as [|l' more (Ht & Hq & He) _ IH].
  - change (ended ([] ++ [[]])) with [[] ++ cr]. cbn [process_lines]. by rewrite headers_empty.
  - change (ended ((l' :: more) ++ [[]])) with ((l' ++ cr) :: ended (more ++ [[]])). cbn [process_lines].
    by rewrite headers_quiet.
Qed.

Lemma body_lines_read raw lines cnt fs : forall data,
  Forall (fun l => l <> [] /\ quiet l) lines -> Forall base64_char (concat lines) ->
  process_lines e (ended lines) (in_body bs cnt fs raw data) = Ok (in_body bs cnt fs raw (data ++ concat lines)).
Proof.
  induction lines as [|l lines IH]; intros data Hl Hc; [simpl; by rewrite app_nil_r|].
  apply Forall_cons in Hl as [[Hne Hq] Hl]. simpl in Hc. apply Forall_app in Hc as [Hc Hc'].
  change (ended (l :: lines)) with ((l ++ cr) :: ended lines). cbn [process_lines concat].
  destruct (body_line_plain b l Hne Hc) as (Ht & He & Hb).
  rewrite body_line by done. cbn [obind]. rewrite IH by done. by rewrite <- app_assoc.
Qed.

Lemma delimiter_line raw nm bytes l cnt fs :
  name_of raw nm -> bytes <> [] -> Forall is_byte bytes -> 4 * ((size bytes + 2) / 3) < 2 ^ 31 ->
  text_line l -> quiet l -> contains ([45; 45] ++ b) l = true -> 0 <= cnt < 2 ^ 64 - 1 ->
  process_line e (l ++ cr) (in_body bs cnt fs raw (base64_encode bytes)) =
  Ok (idle bs (cnt + 1) (<[nm := bytes ++ [10]]> fs)).
Proof.
  intros Hn Hne Hb Hs Ht Hq Hd Hcnt.
  rewrite (process_quiet e cr Hcr l _ (in_body bs cnt fs raw (base64_encode bytes)) Ht Hq).
  2: { unfold accumulate_filename. simpl. by rewrite andb_false_r. }
  unfold attachment_body. cbn [attach_found attach_body_start_found in_body andb boundaries].
  rewrite (contain_boundary_in ([45; 45] ++ b)) by (done || by apply list_elem_of_singleton).
  rewrite orb_true_r. unfold finish_attachment. cbn [attachment_data decoding_table in_body filename_tokens
    attachments_cnt]. change (base64_decode_to_string (malloc_fails e) (base64_encode bytes) ready)
    with (base64_decode_to_string false (base64_encode bytes) ready).
  rewrite string_roundtrip by (done || by right). cbn [obind].
  rewrite (attachment_name_of _ _ _ _ Hn). cbn [obind]. unfold save_str_to_file. rewrite Hopens.
  cbn [negb]. rewrite u64_small by lia. done.
Qed.

Definition saved (a : attachment) (fs : filesystem) : filesystem := <[file_name a := content a ++ [10]]> fs.

Lemma part_saved a cnt fs :
  well_formed b a -> 0 <= cnt < 2 ^ 64 - 1 ->
  process_lines e (ended (part a)) (idle bs cnt fs) = Ok (idle bs (cnt + 1) (saved a fs)).
Proof.
  intros [Hh Hn (Hr & Hrb & Hrs) Hm (Hc1 & Hc2 & Hc3) [Hcat Hbl] (Hd1 & Hd2 & Hd3)] Hcnt.
  unfold part, ended. rewrite !map_app, process_lines_app. rewrite (quiet_lines (part_headers a)) by done.
  cbn [obind]. rewrite process_lines_app. cbn [map process_lines]. rewrite idle_disposition by done.
  cbn [obind]. rewrite app_assoc, process_lines_app.
  assert (Hx : map (fun l => l ++ cr) (more_headers a) ++ [[] ++ cr] = ended (more_headers a ++ [[]]))
    by (unfold ended; by rewrite map_app).
  rewrite Hx, header_lines by done. cbn [obind]. rewrite process_lines_app.
  rewrite (body_lines_read (raw_name a) (body_lines a)) by (done || by rewrite Hcat; apply encode_chars).
  cbn [obind app process_lines]. rewrite Hcat, (delimiter_line _ (file_name a)) by done. done.
Qed.

Lemma parts_saved atts : forall cnt fs,
  Forall (well_formed b) atts -> 0 <= cnt -> cnt + Z.of_nat (length atts) < 2 ^ 64 ->
  process_lines e (ended (flat_map part atts)) (idle bs cnt fs) =
  Ok (idle bs (cnt + Z.of_nat (length atts)) (foldl (fun fs a => saved a fs) fs atts)).
Proof.
  induction atts as [|a atts IH]; intros cnt fs Ha H0 Hcnt; cbn [length] in *.
  { simpl. by rewrite Z.add_0_r. }
  apply Forall_cons in Ha as [Ha Hs]. cbn [flat_map]. unfold ended. rewrite map_app, process_lines_app.
  rewrite part_saved by (done || lia). cbn [obind foldl]. unfold ended in IH. rewrite IH by (done || lia).
  do 2 f_equal. lia.
Qed.

Lemma announced fs :
  text_line b -> size (boundary_header b) < 2 ^ 64 ->
  regex_search (boundary_header b) FILENAME_PATTERN = false ->
  regex_search (boundary_header b) ATTACH_PATTERN = false ->
  process_line e (boundary_header b ++ cr) (init ready fs) = Ok (idle bs 0 fs).
Proof.
  intros [_ Hl] Hs Hf Ha. unfold process_line. rewrite strip_text; [|unfold boundary_header|done].
  2: { rewrite !not_elem_of_app. repeat split; try done; by apply (bool_decide_unpack _); vm_compute. }
  unfold accumulate_filename. cbn [filename_parsing_starts init andb]. rewrite andb_false_r. cbn [andb obind].
  unfold start_filename. rewrite Hf. cbn [andb]. unfold note_boundary.
  assert (regex_search (boundary_header b) BOUNDARY_PATTERN = true) as ->.
  { unfold boundary_header. change (bytes_of "Content-Type: multipart/mixed; boundary=")
      with (bytes_of "Content-Type: multipart/mixed; " ++ bytes_of "boundary=").
    rewrite <- app_assoc. by apply regex_search_at. }
  rewrite get_boundary_header by done. cbn [obind]. unfold note_attachment. by rewrite Ha.
Qed.
End mails.

Lemma getlines_text cr lines :
  cr = [] \/ cr = [13] -> Forall (fun l => ~ (10 ∈ l)) lines ->
  getlines (eml_text (cr ++ [10]) lines) [] = map (fun l => l ++ cr) lines.
Proof.
  intros Hcr Hl. induction Hl as [|l lines Hl _ IH]; [done|]. cbn [eml_text flat_map map].
  fold (eml_text (cr ++ [10]) lines).
  replace ((l ++ cr ++ [10]) ++ eml_text (cr ++ [10]) lines)
    with ((l ++ cr) ++ 10 :: eml_text (cr ++ [10]) lines) by (by rewrite <- !app_assoc).
  rewrite getlines_line, IH; [done|]. rewrite not_elem_of_app. split; [done|].
  destruct Hcr as [-> | ->]; set_solver.
Qed.

Lemma text_disposition raw : text_line raw -> text_line (disposition raw).
Proof.
  intros [H1 H2]. unfold disposition. split; rewrite !not_elem_of_app; split_and!; try done;
    by apply (bool_decide_unpack _); vm_compute.
Qed.

Lemma text_boundary b : text_line b -> text_line (boundary_header b).
Proof.
  intros [H1 H2]. unfold boundary_header. split; rewrite !not_elem_of_app; split_and!; try done;
    by apply (bool_decide_unpack _); vm_compute.
Qed.

Lemma part_text b a : well_formed b a -> Forall text_line (part a).
Proof.
  intros [Hh _ (Hr & _) Hm (_ & Hc & _) [Hcat Hbl] (Hd & _)]. unfold part. rewrite !Forall_app. split_and!.
  - eapply Forall_impl; [exact Hh|]. naive_solver.
  - apply Forall_singleton. by apply text_disposition.
  - eapply Forall_impl; [exact (proj1 Hm)|]. naive_solver.
  - apply Forall_singleton. split; set_solver.
  - pose proof (encode_chars _ Hc) as He. rewrite <- Hcat in He. rewrite Forall_concat in He.
    rewrite Forall_forall in Hbl, He |- *. intros l Hl.
    by apply (body_line_plain b l); [apply Hbl|apply He].
  - by apply Forall_singleton.
Qed.

Lemma mail_text b preamble atts epilogue :
  text_line b -> Forall (fun l => text_line l /\ quiet l) preamble -> Forall (well_formed b) atts ->
  Forall (fun l => text_line l /\ quiet l) epilogue ->
  Forall (fun l => ~ (10 ∈ l)) (mail b preamble atts epilogue).
Proof.
  intros Hb Hp Ha He. apply (Forall_impl text_line); [|by intros l []].
  unfold mail. rewrite !Forall_app. split_and!.
  - apply Forall_singleton. by apply text_boundary.
  - eapply Forall_impl; [exact Hp|]. naive_solver.
  - induction Ha as [|a atts Ha _ IH]; [apply Forall_nil_2|]. cbn [flat_map]. apply Forall_app.
    split; [by apply (part_text b)|done].
  - eapply Forall_impl; [exact He|]. naive_solver.
Qed.

(** ** The properties *)


(** an attachment without a body makes the decoder read before the start
    of its buffer. *)
Theorem empty_attachment_faults e raw l bs cnt fs :
  empty_line l = true \/ contain_any_boundary bs l = true ->
  attachment_body e l (in_body bs cnt fs raw []) = Fault OutOfBounds.
Proof.
  intros Hl. unfold attachment_body. cbn [attach_found attach_body_start_found in_body andb boundaries].
  assert (empty_line l || contain_any_boundary bs l = true) as -> by (apply orb_true_iff; done). done.
Qed.

(** ** Percent encoding *)

Definition url_item (it : Z * bool) : list Z := if snd it then 37 :: hex_byte (fst it) else [fst it].

Lemma scan_hex_byte x : 0 <= x < 256 -> sscanf_lx (c_str (hex_byte x)) = Some x.
Proof.
  intros Hx. assert (Hall : forallb (fun n => bool_decide
    (sscanf_lx (c_str (hex_byte (Z.of_nat n))) = Some (Z.of_nat n))) (seq 0 256) = true) by (by vm_compute).
  rewrite forallb_forall in Hall. specialize (Hall (Z.to_nat x)).
  rewrite Z2Nat.id in Hall by lia. assert (Hin : In (Z.to_nat x) (seq 0 256)) by (apply in_seq; lia).
  by apply Hall, bool_decide_eq_true in Hin.
Qed.

Lemma url_loop_items items : forall pre str i temp res fuel,
  Forall (fun it : Z * bool => is_byte (fst it) /\ (snd it = false -> fst it <> 37)) items ->
  str = pre ++ flat_map url_item items -> i = Z.of_nat (length pre) -> (length items <= fuel)%nat ->
  url_loop fuel str i temp res = Ok (res ++ map fst items).
Proof.
  induction items as [|[x esc] items IH]; intros pre str i temp res fuel Hi -> -> Hf; cbn [flat_map length] in *.
  { rewrite app_nil_r. unfold size. destruct fuel; simpl; unfold size; by rewrite Z.ltb_irrefl, app_nil_r. }
  apply Forall_cons in Hi as [[Hb Hit] Hi]. destruct fuel as [|fuel]; [lia|]. cbn [url_loop fst snd map] in *.
  rewrite (proj2 (Z.ltb_lt _ _)) by (unfold size; rewrite length_app; destruct esc; simpl; lia).
  unfold char_at. rewrite <- app_assoc. replace (res ++ x :: map fst items) with ((res ++ [x]) ++ map fst items)
    by (by rewrite <- app_assoc).
  destruct esc.
  - change (url_item (x, true)) with (37 :: hex_byte x). cbn [app]. rewrite load_app_r by done.
    cbn [obind Z.eqb Pos.eqb].
    replace (pre ++ 37 :: hex_byte x ++ flat_map url_item items)
      with ((pre ++ [37]) ++ hex_byte x ++ flat_map url_item items) at 1 by (by rewrite <- app_assoc).
    rewrite substr_mid by (rewrite ?length_app; simpl; lia). cbn [obind]. rewrite scan_hex_byte by done.
    cbn [of_option obind]. unfold u8. rewrite Z.mod_small by done.
    apply (IH (pre ++ 37 :: hex_byte x)); [done|..|lia].
    + by rewrite <- app_assoc.
    + rewrite length_app. simpl. lia.
  - change (url_item (x, false)) with [x]. cbn [app]. rewrite load_app_r by done. cbn [obind].
    rewrite (proj2 (Z.eqb_neq x 37)) by (by apply Hit).
    apply (IH (pre ++ [x])); [done|..|lia].
    + by rewrite <- app_assoc.
    + rewrite length_app. simpl. lia.
Qed.

(** names in the extended form of RFC 2231, [charset'language'text] with
    any choice of bytes percent-encoded, decode to the bytes of the text. *)
Theorem rfc2231_roundtrip cs lang items :
  ~ (39 ∈ cs) -> ~ (39 ∈ lang) ->
  Forall (fun it : Z * bool => is_byte (fst it) /\ (snd it = false -> fst it <> 37)) items ->
  size (cs ++ 39 :: lang ++ 39 :: flat_map url_item items) < 2 ^ 64 - 1 ->
  parse_rfc2231 (cs ++ 39 :: lang ++ 39 :: flat_map url_item items) = Ok (map fst items).
Proof.
  intros Hc Hl Hi Hs. unfold parse_rfc2231, get_decoded_text_rfc2231. rewrite tokens_of by done. cbn [obind].
  unfold url_decode. apply (url_loop_items items []); [done..|]. clear. induction items as [|[x []] items IH];
    [done|..]; cbn [flat_map length]; rewrite length_app; simpl; lia.
Qed.

(** ** Witnesses and a corner case *)

Definition demo_env : env := mk_env false (fun _ => true) (fun _ => true) (fun _ d => size d).

Definition demo_plain : attachment := mk_attachment [bytes_of "X-Part: 1"] (bytes_of "a.txt") (bytes_of "a.txt")
  [bytes_of "Content-Transfer-Encoding: base64"; bytes_of "X-Note: 1"] (bytes_of "Man?!") [bytes_of "TWF"; bytes_of "uPyE="] (bytes_of "--xyz").

Definition demo_encoded : attachment := mk_attachment [] (bytes_of "=?windows-1251?B?7Ojw?=")
  [208; 188; 208; 184; 209; 128] [] (bytes_of "Q") [bytes_of "UQ=="] (bytes_of "--xyz--").

Ltac computes := apply (bool_decide_unpack _); by vm_compute.


Lemma empty_attachment_faults_witness :
  attachment_body demo_env [] (in_body [bytes_of "--xyz"] 0 ∅ (bytes_of "a.txt") []) = Fault OutOfBounds.
Proof. apply empty_attachment_faults. by left. Defined.

Lemma rfc2231_roundtrip_witness :
  parse_rfc2231 (bytes_of "utf-8'en'a%20%D0b") = Ok [97; 32; 208; 98].
Proof.
  apply (rfc2231_roundtrip (bytes_of "utf-8") (bytes_of "en") [(97, false); (32, true); (208, true); (98, false)]).
  - computes.
  - computes.
  - repeat (apply Forall_cons; split; [by vm_compute|]). done.
  - done.
Defined.

(** The letters of the pattern inside an encoded body: the line is taken for a
    file name, and what the header named is changed. *)
Lemma body_changes_name : exists s,
  process_lines demo_env [bytes_of "filename"; bytes_of "UQ=="; bytes_of "--xyz"]
    (in_body [bytes_of "--xyz"] 0 ∅ (bytes_of "a.txt") []) = Ok s /\
  files s !! bytes_of "a.txtfilename" <> None /\ files s !! bytes_of "a.txt" = None.
Proof. eexists. split; [by vm_compute|]. split; by vm_compute. Qed.
