(* ===== verification/Dijkstra.v ===== *)
(** * Dijkstra: shortest paths in a weighted graph

    Models [src/c++/dijkstra.cpp]: the reader of the adjacency matrix and the
    search for the shortest path between two vertices.  Vertices count from 1
    and a weight of 0 stands for no edge.  The arrays are accessed with their
    bounds checked, and the arithmetic of [int] faults on overflow.

    The reference is the set of walks of the graph: [walk] relates two vertices
    and the weight of a walk between them. *)

From S2P Require Import Prelude CInt CString CBuf CppString.
Open Scope Z_scope.

Abbreviation matrix := (list (list Z)).

(** ** The search *)

(** [fill] of an array of [size] elements. *)
Definition fill (size value : Z) : list Z := replicate (Z.to_nat size) value.

(** The inner loop: [ws] is the rest of the row of [cur_vert], from column [i]. *)
Fixpoint scan_row (ws : list Z) (i cur_vert : Z) (dist visited : list Z) (st : Z * Z) : outcome (Z * Z) :=
  match ws with
  | [] => Ok st
  | w :: ws =>
      if w =? 0 then scan_row ws (i + 1) cur_vert dist visited st
      else
        let? d := load dist cur_vert in
        let? cur_dist := add_int w d in
        if cur_dist <? fst st then
          let? v := load visited i in
          if v =? 0 then scan_row ws (i + 1) cur_vert dist visited (cur_dist, i)
          else scan_row ws (i + 1) cur_vert dist visited st
        else scan_row ws (i + 1) cur_vert dist visited st
  end.

(** The loop over the active vertices; the state is [min_dist] and [new_vertex]. *)
Fixpoint scan_active (graph : matrix) (active : list Z) (dist visited : list Z) (st : Z * Z) : outcome (Z * Z) :=
  match active with
  | [] => Ok st
  | cur_vert :: active =>
      let? row := load graph cur_vert in
      let? st := scan_row (drop 1 row) 1 cur_vert dist visited st in
      scan_active graph active dist visited st
  end.

Fixpoint dijkstra_loop (fuel : nat) (graph : matrix) (target_vert inter_max inter_cnt : Z)
  (active dist visited : list Z) : outcome (list Z) :=
  let? v := load visited target_vert in
  if (inter_cnt <? inter_max) && (v =? 0) then
    match fuel with
    | O => Fault NoFuel
    | S fuel =>
        let? (min_dist, new_vertex) := scan_active graph active dist visited (INT_MAX, 1) in
        let? dist := store dist new_vertex min_dist in
        let? visited := store visited new_vertex 1 in
        dijkstra_loop fuel graph target_vert inter_max (inter_cnt + 1) (active ++ [new_vertex]) dist visited
    end
  else Ok dist.

Definition dijkstra (graph : matrix) (start_vert target_vert verts_cnt : Z) : outcome Z :=
  let dist := fill (verts_cnt + 1) INT_MAX in
  let visited := fill (verts_cnt + 1) 0 in
  let? dist := store dist start_vert 0 in
  let? visited := store visited start_vert 1 in
  let? inter_max := mul_int verts_cnt verts_cnt in
  let? dist := dijkstra_loop (Z.to_nat inter_max) graph target_vert inter_max 0 [start_vert] dist visited in
  let? d := load dist target_vert in
  Ok (if negb (d =? INT_MAX) then d else -1).

(** ** Reading the graph *)

(** An exception ends the loop; what was read until then is returned. *)
Fixpoint split_ints (line : list Z) (separator : Z) (val res : list Z) : list Z :=
  match line with
  | [] => match stoi val with Some v => res ++ [v] | None => res end
  | c :: line =>
      if negb (c =? separator) then split_ints line separator (val ++ [c]) res
      else match stoi val with
           | Some v => split_ints line separator [] (res ++ [v])
           | None => res
           end
  end.

Definition split_line (line : list Z) (separator : Z) : list Z := split_ints line separator [] [].

(** The two numbers, each keeping its value when it cannot be read. *)
Definition parse_pair (line : list Z) (f s : Z) : outcome (Z * Z) :=
  let empty_pos := find line 32 0 in
  let? t := substr line 0 empty_pos in
  match stoi t with
  | None => Ok (f, s)
  | Some f =>
      let? t := substr line (u64 (empty_pos + 1)) (u64 (size line - (empty_pos + 1))) in
      Ok (f, default s (stoi t))
  end.

(** [graph[v[0]][v[1]] = v[2]] *)
Definition set_edge (graph : matrix) (v : list Z) : outcome matrix :=
  let? a := load v 0 in
  let? b := load v 1 in
  let? w := load v 2 in
  let? row := load graph a in
  let? row := store row b w in
  store graph a row.

Record input := mk_input { graph_ : matrix; start_ : Z; target_ : Z }.

Fixpoint read_lines (lines : list (list Z)) (index edges_cnt : Z) (st : input) : outcome input :=
  match lines with
  | [] => Ok st
  | line :: lines =>
      let? st :=
        if index <? edges_cnt then
          let? g := set_edge (graph_ st) (split_line line 32) in Ok (mk_input g (start_ st) (target_ st))
        else
          let? (s, t) := parse_pair line (start_ st) (target_ st) in Ok (mk_input (graph_ st) s t) in
      read_lines lines (index + 1) edges_cnt st
  end.

(** [lines] is standard input.  The arguments start out as zero in [main]. *)
Definition read_input_data (lines : list (list Z)) : outcome (input * Z) :=
  let '(line, lines) := match lines with [] => ([], []) | l :: ls => (l, ls) end in
  let? (verts_cnt, edges_cnt) := parse_pair line 0 0 in
  let? k := add_int verts_cnt 1 in
  if k <? 0 then Fault Thrown
  else
    let graph := replicate (Z.to_nat k) (replicate (Z.to_nat k) 0) in
    let? st := read_lines lines 0 edges_cnt (mk_input graph 0 0) in
    Ok (st, verts_cnt).

(** What [main] prints. *)
Definition main (lines : list (list Z)) : outcome (list Z) :=
  let? (st, verts_cnt) := read_input_data lines in
  let? d := dijkstra (graph_ st) (start_ st) (target_ st) verts_cnt in
  Ok (print_dec d).

(** ** Walks *)

Section graph.
Context (graph : matrix) (n : Z).

Definition weight (u v : Z) : Z :=
  match graph !! Z.to_nat u with
  | Some row => default 0 (row !! Z.to_nat v)
  | None => 0
  end.

Definition edge (u v : Z) : Prop := 1 <= u <= n /\ 1 <= v <= n /\ weight u v <> 0.

(** A walk from [s] to [v] of total weight [d]. *)
Inductive walk (s : Z) : Z -> Z -> Prop :=
| walk_nil : walk s s 0
| walk_snoc u v d : walk s u d -> edge u v -> walk s v (d + weight u v).

(** [d] is the least weight of a walk from [s] to [v]. *)
Definition shortest (s v d : Z) : Prop := walk s v d /\ forall d', walk s v d' -> d <= d'.

(** A square matrix with a row and a column for the vertex 0 that is not used,
    weights of at most [W], and sums of [n] of them, as the square of [n], that
    fit an [int]. *)
Record well_formed (W : Z) : Prop := mk_wf {
  wf_rows : Z.of_nat (length graph) = n + 1;
  wf_cols : Forall (fun row : list Z => Z.of_nat (length row) = n + 1) graph;
  wf_weights : forall u v, 0 <= weight u v <= W;
  wf_small : n * W < INT_MAX /\ n * n <= INT_MAX
}.

Context {W : Z} (Hwf : well_formed W).
Context (s : Z) (Hs : 1 <= s <= n).

(** ** Choosing the next vertex *)

(** [best C st0 st]: among the candidates [C] (a vertex and the length of a
    path to it) the state [st] records the shortest, starting from [st0]. *)
Definition best (C : Z -> Z -> Prop) (st0 st : Z * Z) : Prop :=
  fst st <= fst st0 /\ (forall i c, C i c -> fst st <= c) /\ (st = st0 \/ C (snd st) (fst st)).

Lemma best_none st : best (fun _ _ => False) st st.
Proof. unfold best. split; [lia|]. naive_solver. Qed.

Lemma best_join C C' st0 st1 st2 :
  best C st0 st1 -> best C' st1 st2 -> best (fun i c => C i c \/ C' i c) st0 st2.
Proof.
  intros (H1 & H2 & H3) (H1' & H2' & H3'). split; [lia|]. split.
  - intros i c [Hc|Hc]; [apply H2 in Hc; lia|by apply H2' in Hc].
  - destruct H3' as [-> | ?]; [|by right; right]. destruct H3 as [-> | ?]; [by left|by right; left].
Qed.

Lemma best_ext C C' st0 st : (forall i c, C i c <-> C' i c) -> best C st0 st -> best C' st0 st.
Proof. intros HC (H1 & H2 & H3). unfold best. setoid_rewrite <- HC. done. Qed.

Section select.
Context (active dist visited : list Z).

Definition seen (v : Z) : Prop := visited !! Z.to_nat v <> Some 0.
Definition dist_to (v : Z) : Z := default INT_MAX (dist !! Z.to_nat v).

Definition candidate (u i c : Z) : Prop := edge u i /\ ~ seen i /\ c = weight u i + dist_to u.

Hypothesis (Hdl : Z.of_nat (length dist) = n + 1) (Hvl : Z.of_nat (length visited) = n + 1).

(** A column that does not improve on the state. *)
Lemma best_skip u i st (P : Z * Z -> Prop) :
  (1 <= i + 1 -> exists st', P st' /\ best (fun j c => i + 1 <= j /\ candidate u j c) st st') -> 1 <= i ->
  ~ (candidate u i (weight u i + dist_to u) /\ weight u i + dist_to u < fst st) ->
  exists st', P st' /\ best (fun j c => i <= j /\ candidate u j c) st st'.
Proof.
  intros IH Hi Hno. destruct IH as (st' & HP & H1 & H2 & H3); [lia|].
  exists st'. split; [done|]. split; [done|]. split.
  - intros j c [Hj Hc]. destruct (decide (j = i)) as [->|]; [|apply (H2 j); split; [lia|done]].
    destruct (decide (weight u i + dist_to u < fst st)) as [Hlt|Hge].
    + exfalso. apply Hno. split; [|done]. destruct Hc as (? & ? & ->). by split_and!.
    + destruct Hc as (_ & _ & ->). lia.
  - destruct H3 as [-> | [? ?]]; [by left|right; split; [lia|done]].
Qed.

Lemma row_length u row : graph !! Z.to_nat u = Some row -> Z.of_nat (length row) = n + 1.
Proof.
  intros Hrow. pose proof (wf_cols _ Hwf) as Hc. rewrite Forall_forall in Hc.
  apply Hc. by eapply list_elem_of_lookup_2.
Qed.

(** The columns of a row from [i] on. *)
Lemma scan_row_best u row : forall i ws st,
  1 <= u <= n -> 0 <= dist_to u -> dist_to u + W <= INT_MAX ->
  graph !! Z.to_nat u = Some row -> 1 <= i -> ws = drop (Z.to_nat i) row ->
  exists st', scan_row ws i u dist visited st = Ok st' /\
    best (fun j c => i <= j /\ candidate u j c) st st'.
Proof.
  intros i ws. revert i. induction ws as [|w ws IH]; intros i st Hu Hd0 HdW Hrow Hi Hws.
  - exists st. split; [done|]. eapply best_ext; [|apply best_none]. intros j c. split; [done|].
    intros (Hj & (_ & Hjn & _) & _). symmetry in Hws. apply (f_equal length) in Hws. rewrite length_drop in Hws.
    apply row_length in Hrow. simpl in Hws. lia.
  - assert (Hw : row !! Z.to_nat i = Some w).
    { rewrite <- (Nat.add_0_r (Z.to_nat i)), <- lookup_drop, <- Hws. done. }
    assert (Hwi : weight u i = w) by (unfold weight; by rewrite Hrow, Hw).
    assert (Hws' : ws = drop (Z.to_nat (i + 1)) row).
    { replace (Z.to_nat (i + 1)) with (Z.to_nat i + 1)%nat by lia. by rewrite <- drop_drop, <- Hws. }
    assert (Hin : i <= n).
    { apply lookup_lt_Some in Hw. apply row_length in Hrow. lia. }
    assert (Hskip := fun st1 => best_skip u i st1 (fun st' => scan_row ws (i + 1) u dist visited st1 = Ok st')
      (fun H => IH (i + 1) st1 Hu Hd0 HdW Hrow H Hws') Hi). cbv beta in Hskip.
    cbn [scan_row]. destruct (Z.eqb_spec w 0) as [->|Hne].
    { apply Hskip. intros [(( _ & _ & Hx) & _) _]. lia. }
    assert (Hdl' : dist !! Z.to_nat u = Some (dist_to u)).
    { unfold dist_to. destruct (lookup_lt_is_Some_2 dist (Z.to_nat u)) as [x ->]; [lia|done]. }
    rewrite (load_z _ _ (dist_to u)) by (done || lia). cbn [obind].
    pose proof (wf_weights _ Hwf u i) as Hww. unfold add_int.
    rewrite (proj2 (Z.leb_le _ _)), (proj2 (Z.leb_le _ _)) by lia. cbn [andb obind].
    destruct (Z.ltb_spec (w + dist_to u) (fst st)) as [Hlt|Hge].
    2: { apply Hskip. intros [_ ?]. lia. }
    destruct (lookup_lt_is_Some_2 visited (Z.to_nat i)) as [v Hv]; [lia|].
    rewrite (load_z _ _ v) by (done || lia). cbn [obind]. destruct (Z.eqb_spec v 0) as [->|Hv0].
    2: { apply Hskip. intros [(_ & Hns & _) _]. apply Hns. unfold seen. congruence. }
    destruct (IH (i + 1) (w + dist_to u, i)) as (st' & -> & Hb); try done; [lia|].
    exists st'. split; [done|]. destruct Hb as (H1 & H2 & H3). simpl in H1. split; [lia|]. split.
    + intros j c [Hj Hc]. destruct (decide (j = i)) as [->|]; [|apply (H2 j); split; [lia|done]].
      destruct Hc as (_ & _ & ->). lia.
    + right. assert (Hci : candidate u i (w + dist_to u)).
      { split; [|split]; [split_and!; lia|unfold seen; naive_solver|lia]. }
      destruct H3 as [-> | [? ?]]; simpl; split; try done; lia.
Qed.

Lemma scan_active_best : forall act st,
  Forall (fun u => 1 <= u <= n /\ 0 <= dist_to u /\ dist_to u + W <= INT_MAX) act ->
  exists st', scan_active graph act dist visited st = Ok st' /\
    best (fun j c => exists u, u ∈ act /\ candidate u j c) st st'.
Proof.
  induction act as [|u act IH]; intros st Ha.
  { exists st. split; [done|]. eapply best_ext; [|apply best_none]. set_solver. }
  apply Forall_cons in Ha as [(Hu & H0 & HW) Ha]. cbn [scan_active].
  destruct (lookup_lt_is_Some_2 graph (Z.to_nat u)) as [row Hrow].
  { pose proof (wf_rows _ Hwf). lia. }
  rewrite (load_z _ _ row) by (done || lia). cbn [obind].
  destruct (scan_row_best u row 1 (drop 1 row) st) as (st1 & -> & Hb); [done..|].
  cbn [obind]. destruct (IH st1 Ha) as (st2 & -> & Hb2). exists st2. split; [done|].
  eapply best_ext; [|exact (best_join _ _ _ _ _ Hb Hb2)]. intros j c. simpl. split.
  - intros [[_ Hc]|(u' & Hu' & Hc)]; [exists u|exists u']; split; try done; set_solver.
  - intros (u' & Hu' & Hc). apply elem_of_cons in Hu' as [->|Hu']; [left|right; eauto].
    split; [|done]. destruct Hc as [(_ & ? & _) _]. lia.
Qed.

End select.

(** ** The invariant: the distances of the active vertices are final *)

Lemma walk_pos v d : walk s v d -> 0 <= d.
Proof. induction 1 as [|u v d _ IH _]; [lia|]. pose proof (wf_weights _ Hwf u v). lia. Qed.

Section invariant.
Context (active dist visited : list Z).

Record inv : Prop := mk_inv {
  inv_start : s ∈ active;
  inv_nodup : NoDup active;
  inv_range : Forall (fun v => 1 <= v <= n) active;
  inv_seen : forall v, 1 <= v <= n -> seen visited v <-> v ∈ active;
  inv_dist : forall v, v ∈ active -> shortest s v (dist_to dist v);
  inv_bound : forall v, v ∈ active -> dist_to dist v <= (Z.of_nat (length active) - 1) * W
}.

Lemma active_length : inv -> Z.of_nat (length active) <= n.
Proof.
  intros Hi. assert (Hsub : (length active <= length (seqZ 1 n))%nat).
  { apply NoDup_incl_length; [apply NoDup_ListNoDup, Hi|]. intros v Hv. apply list_elem_of_In.
    apply elem_of_seqZ. apply list_elem_of_In in Hv.
    pose proof (inv_range Hi) as Hr. rewrite Forall_forall in Hr. specialize (Hr v Hv). lia. }
  rewrite length_seqZ in Hsub. lia.
Qed.

(** A walk that leaves the active vertices does so over a candidate. *)
Lemma walk_crosses v d :
  inv -> walk s v d -> ~ (v ∈ active) ->
  exists u x, u ∈ active /\ candidate dist visited u x (weight u x + dist_to dist u) /\
    weight u x + dist_to dist u <= d.
Proof.
  intros Hi Hw. induction Hw as [|u v d Hw IH He]; intros Hv; [by destruct Hv; apply inv_start|].
  pose proof (wf_weights _ Hwf u v). destruct (decide (u ∈ active)) as [Hu|Hu].
  - exists u, v. split; [done|]. split.
    + split; [done|]. split; [|done]. rewrite inv_seen; [done|done|]. by destruct He as (_ & ? & _).
    + destruct (inv_dist Hi u Hu) as [_ Hmin]. apply Hmin in Hw. lia.
  - destruct (IH Hu) as (u' & x & ? & ? & ?). exists u', x. split_and!; try done. lia.
Qed.
End invariant.

Section step.
Context (active dist visited : list Z) (Hi : inv active dist visited).
Context (Hdl : Z.of_nat (length dist) = n + 1) (Hvl : Z.of_nat (length visited) = n + 1).

(** The candidate chosen is a new vertex at its final distance. *)
Lemma select_next t d :
  walk s t d -> ~ (t ∈ active) ->
  exists m x, scan_active graph active dist visited (INT_MAX, 1) = Ok (m, x) /\
    1 <= x <= n /\ ~ (x ∈ active) /\ shortest s x m /\ m <= Z.of_nat (length active) * W.
Proof.
  intros Hw Ht. pose proof (active_length _ _ _ Hi) as Hlen. pose proof (wf_small _ Hwf) as [HnW _].
  assert (HW0 : 0 <= W) by (pose proof (wf_weights _ Hwf 0 0); lia).
  assert (Hact : forall u, u ∈ active -> 1 <= u <= n /\ 0 <= dist_to dist u /\ dist_to dist u + W <= INT_MAX).
  { intros u Hu. pose proof (inv_range _ _ _ Hi) as Hr. rewrite Forall_forall in Hr.
    split; [by apply Hr|]. destruct (inv_dist _ _ _ Hi u Hu) as [Hwu _]. apply walk_pos in Hwu.
    pose proof (inv_bound _ _ _ Hi u Hu). nia. }
  destruct (scan_active_best dist visited Hdl Hvl active (INT_MAX, 1)) as ([m x] & -> & Hb).
  { apply Forall_forall. done. }
  destruct Hb as (Hm & Hall & Hor). simpl in *.
  destruct (walk_crosses _ _ _ t d Hi Hw Ht) as (u & y & Hu & Hc & Hcd).
  assert (Hlt : m < INT_MAX).
  { assert (Hmc : m <= weight u y + dist_to dist u) by (apply (Hall y); eauto).
    pose proof (inv_bound _ _ _ Hi u Hu). pose proof (wf_weights _ Hwf u y). nia. }
  destruct Hor as [[= -> ->]|(u' & Hu' & He & Hns & ->)]; [lia|].
  exists (weight u' x + dist_to dist u'), x. split; [done|].
  assert (Hx : 1 <= x <= n) by (by destruct He as (_ & ? & _)). split; [done|].
  assert (Hxa : ~ (x ∈ active)) by (by rewrite <- inv_seen). split; [done|]. split.
  - split.
    + rewrite Z.add_comm. apply walk_snoc; [|done]. by apply (inv_dist _ _ _ Hi).
    + intros d' Hd'. destruct (walk_crosses _ _ _ x d' Hi Hd' Hxa) as (u2 & y2 & Hu2 & Hc2 & Hcd2).
      etrans; [|exact Hcd2]. apply (Hall y2). eauto.
  - pose proof (inv_bound _ _ _ Hi u' Hu'). pose proof (wf_weights _ Hwf u' x). nia.
Qed.

Lemma inv_step x m :
  1 <= x <= n -> ~ (x ∈ active) -> shortest s x m -> m <= Z.of_nat (length active) * W ->
  inv (active ++ [x]) (<[Z.to_nat x := m]> dist) (<[Z.to_nat x := 1]> visited).
Proof.
  intros Hx Hxa Hm Hb. assert (HW0 : 0 <= W) by (pose proof (wf_weights _ Hwf 0 0); lia).
  assert (Hother : forall v, v ∈ active -> dist_to (<[Z.to_nat x := m]> dist) v = dist_to dist v).
  { intros v Hv. unfold dist_to. rewrite list_lookup_insert_ne; [done|].
    pose proof (inv_range _ _ _ Hi) as Hr. rewrite Forall_forall in Hr. specialize (Hr v Hv).
    intros E. apply Hxa. by replace x with v by lia. }
  assert (Hnew : dist_to (<[Z.to_nat x := m]> dist) x = m).
  { unfold dist_to. rewrite list_lookup_insert_eq; [done|lia]. }
  constructor.
  - apply elem_of_app. left. apply (inv_start _ _ _ Hi).
  - apply NoDup_app. split; [apply (inv_nodup _ _ _ Hi)|]. split; [|apply NoDup_singleton]. set_solver.
  - apply Forall_app. split; [apply (inv_range _ _ _ Hi)|by apply Forall_singleton].
  - intros v Hv. unfold seen. rewrite elem_of_app, list_elem_of_singleton.
    destruct (decide (v = x)) as [->|Hne].
    + rewrite list_lookup_insert_eq by lia. naive_solver.
    + rewrite list_lookup_insert_ne by lia. rewrite (inv_seen _ _ _ Hi v Hv). naive_solver.
  - intros v Hv%elem_of_app. destruct Hv as [Hv|Hv]; [|apply list_elem_of_singleton in Hv as ->; by rewrite Hnew].
    rewrite Hother by done. by apply (inv_dist _ _ _ Hi).
  - intros v Hv%elem_of_app. rewrite length_app. simpl.
    destruct Hv as [Hv|Hv]; [|apply list_elem_of_singleton in Hv as ->; rewrite Hnew; nia].
    rewrite Hother by done. pose proof (inv_bound _ _ _ Hi v Hv). nia.
Qed.
End step.

Lemma dist_lookup dist v :
  Z.of_nat (length dist) = n + 1 -> 1 <= v <= n -> dist !! Z.to_nat v = Some (dist_to dist v).
Proof.
  intros Hl Hv. unfold dist_to. destruct (lookup_lt_is_Some_2 dist (Z.to_nat v)) as [x ->]; [lia|done].
Qed.

Lemma loop_finds t d0 : walk s t d0 -> 1 <= t <= n -> forall fuel active dist visited cnt,
  inv active dist visited -> Z.of_nat (length dist) = n + 1 -> Z.of_nat (length visited) = n + 1 ->
  cnt = Z.of_nat (length active) - 1 -> n * n - cnt <= Z.of_nat fuel ->
  exists dist' d, dijkstra_loop fuel graph t (n * n) cnt active dist visited = Ok dist' /\
    load dist' t = Ok d /\ shortest s t d /\ d < INT_MAX.
Proof.
  intros Hw Ht. induction fuel as [|fuel IH]; intros active dist visited cnt Hi Hdl Hvl -> Hf.
  all: pose proof (active_length _ _ _ Hi) as Hlen; pose proof (wf_small _ Hwf) as [HnW _].
  { exfalso. nia. }
  cbn [dijkstra_loop]. destruct (lookup_lt_is_Some_2 visited (Z.to_nat t)) as [v Hv]; [lia|].
  rewrite (load_z visited _ v) by (done || lia). cbn [obind].
  destruct (decide (t ∈ active)) as [Hta|Hta].
  - assert (Hv0 : v <> 0) by (intros ->; by apply (inv_seen _ _ _ Hi) in Hta).
    rewrite (proj2 (Z.eqb_neq v 0)), andb_false_r by done.
    exists dist, (dist_to dist t). split; [done|]. split; [|split].
    + apply load_z; [lia|]. by apply dist_lookup.
    + by apply (inv_dist _ _ _ Hi).
    + pose proof (inv_bound _ _ _ Hi t Hta). pose proof (wf_weights _ Hwf 0 0). nia.
  - assert (Hv0 : v = 0).
    { destruct (decide (v = 0)); [done|]. exfalso. apply Hta, (inv_seen _ _ _ Hi); [done|].
      unfold seen. congruence. }
    subst v. rewrite (proj2 (Z.ltb_lt _ _)) by nia. cbn [andb Z.eqb].
    destruct (select_next _ _ _ Hi Hdl Hvl t d0 Hw Hta) as (m & x & -> & Hx & Hxa & Hm & Hb).
    cbn [obind]. rewrite store_z by lia. cbn [obind]. rewrite store_z by lia. cbn [obind].
    apply IH; [by apply inv_step| | | |]; rewrite ?length_insert, ?length_app; simpl; lia.
Qed.

Lemma inv_start_state :
  inv [s] (<[Z.to_nat s := 0]> (fill (n + 1) INT_MAX)) (<[Z.to_nat s := 1]> (fill (n + 1) 0)).
Proof.
  assert (Hl : (Z.to_nat s < length (fill (n + 1) INT_MAX))%nat) by (unfold fill; rewrite length_replicate; lia).
  assert (Hd : dist_to (<[Z.to_nat s := 0]> (fill (n + 1) INT_MAX)) s = 0).
  { unfold dist_to. by rewrite list_lookup_insert_eq. }
  constructor.
  - set_solver.
  - apply NoDup_singleton.
  - by apply Forall_singleton.
  - intros v Hv. unfold seen. rewrite list_elem_of_singleton. destruct (decide (v = s)) as [->|Hne].
    + rewrite list_lookup_insert_eq; [naive_solver|]. unfold fill in *. by rewrite length_replicate in *.
    + rewrite list_lookup_insert_ne by lia. unfold fill. rewrite lookup_replicate_2 by lia. naive_solver.
  - intros v ->%list_elem_of_singleton. rewrite Hd. split; [apply walk_nil|]. apply walk_pos.
  - intros v ->%list_elem_of_singleton. rewrite Hd. simpl. lia.
Qed.
End graph.

(** ** The properties *)

(** C17: the search is correct.  On a graph of [n] vertices with weights from 0
    to [W], when the target can be reached from the start the function returns,
    and returns the least weight of a walk between them, provided that the
    arithmetic on [int] has room: [n * W] must be below INT_MAX (the loop adds
    the weight of every edge out of a visited vertex, also of one that leads
    back) and [n * n] must not exceed it, that is, at most 46340 vertices.
    With more vertices the bound of the loop overflows. *)
Theorem dijkstra_shortest graph n s t :
  1 <= s <= n -> 1 <= t <= n ->
  (forall W d, well_formed graph n W -> walk graph n s t d ->
     exists r, dijkstra graph s t n = Ok r /\ shortest graph n s t r) /\
  (46340 < n -> dijkstra graph s t n = Fault Indeterminate).
Proof.
  intros Hs Ht.
  assert (Hstores : dijkstra graph s t n =
    let? inter_max := mul_int n n in
    let? dist := dijkstra_loop (Z.to_nat inter_max) graph t inter_max 0 [s]
      (<[Z.to_nat s := 0]> (fill (n + 1) INT_MAX)) (<[Z.to_nat s := 1]> (fill (n + 1) 0)) in
    let? d := load dist t in
    Ok (if negb (d =? INT_MAX) then d else -1)).
  { unfold dijkstra. by rewrite !store_z by (unfold fill; rewrite length_replicate; lia). }
  rewrite Hstores. clear Hstores. split.
  2: { intros Hn. unfold mul_int. rewrite (proj2 (Z.leb_gt (n * n) INT_MAX)) by (unfold INT_MAX; nia).
       by rewrite andb_false_r. }
  intros W d Hwf Hw. pose proof (wf_small _ _ _ Hwf) as [HnW Hnn].
  unfold mul_int. rewrite !(proj2 (Z.leb_le _ _)) by nia. cbn [andb obind].
  destruct (loop_finds graph n Hwf s Hs t d Hw Ht (Z.to_nat (n * n)) [s]
    (<[Z.to_nat s := 0]> (fill (n + 1) INT_MAX)) (<[Z.to_nat s := 1]> (fill (n + 1) 0)) 0)
    as (dist' & r & -> & Hr & Hsh & Hlt).
  - by apply (inv_start_state graph n Hwf).
  - rewrite length_insert. unfold fill. rewrite length_replicate. lia.
  - rewrite length_insert. unfold fill. rewrite length_replicate. lia.
  - done.
  - lia.
  - cbn [obind]. rewrite Hr. cbn [obind]. rewrite (proj2 (Z.eqb_neq r INT_MAX)) by lia. eauto.
Qed.

(** ** The text of a graph *)

Definition edge_line (e : Z * Z * Z) : list Z :=
  print_dec (fst (fst e)) ++ 32 :: print_dec (snd (fst e)) ++ 32 :: print_dec (snd e).

Definition pair_line (a b : Z) : list Z := print_dec a ++ 32 :: print_dec b.

Definition add_edge (graph : matrix) (e : Z * Z * Z) : matrix :=
  alter (fun row => <[Z.to_nat (snd (fst e)) := snd e]> row) (Z.to_nat (fst (fst e))) graph.

Definition empty_graph (n : Z) : matrix := replicate (Z.to_nat (n + 1)) (replicate (Z.to_nat (n + 1)) 0).

Definition graph_of (n : Z) (es : list (Z * Z * Z)) : matrix := foldl add_edge (empty_graph n) es.

Lemma print_dec_no_space z : 0 <= z -> ~ (32 ∈ print_dec z).
Proof. intros Hz. by apply print_dec_avoids. Qed.

Lemma split_ints_token a rest res : ~ (32 ∈ a) -> forall val,
  split_ints (a ++ 32 :: rest) 32 val res =
  match stoi (val ++ a) with Some v => split_ints rest 32 [] (res ++ [v]) | None => res end.
Proof.
  induction a as [|c a IH]; intros Ha val; simpl; [by rewrite app_nil_r|].
  apply not_elem_of_cons in Ha as [Hc Ha]. rewrite (proj2 (Z.eqb_neq c 32)) by done. simpl.
  rewrite IH by done. by rewrite <- app_assoc.
Qed.

Lemma split_ints_last a res : ~ (32 ∈ a) -> forall val,
  split_ints a 32 val res = match stoi (val ++ a) with Some v => res ++ [v] | None => res end.
Proof.
  induction a as [|c a IH]; intros Ha val; simpl; [by rewrite app_nil_r|].
  apply not_elem_of_cons in Ha as [Hc Ha]. rewrite (proj2 (Z.eqb_neq c 32)) by done. simpl.
  rewrite IH by done. by rewrite <- app_assoc.
Qed.

Definition small (z : Z) : Prop := 0 <= z < 2 ^ 31.

Lemma split_edge_line a b w :
  small a -> small b -> small w -> split_line (edge_line (a, b, w)) 32 = [a; b; w].
Proof.
  unfold small. intros Ha Hb Hw. unfold split_line, edge_line. cbn [fst snd].
  rewrite split_ints_token by (apply print_dec_no_space; lia). cbn [app]. rewrite stoi_print_end by done.
  rewrite split_ints_token by (apply print_dec_no_space; lia). cbn [app]. rewrite stoi_print_end by done.
  rewrite split_ints_last by (apply print_dec_no_space; lia). cbn [app]. by rewrite stoi_print_end by done.
Qed.

Lemma print_dec_short z : small z -> (length (print_dec z) <= 20)%nat.
Proof.
  intros Hz. unfold print_dec. rewrite (proj2 (Z.ltb_ge z 0)) by (unfold small in Hz; lia).
  assert (Hl : forall fuel z acc, (length (dec_digits fuel z acc) <= fuel + length acc)%nat).
  { induction fuel as [|fuel IH]; intros y acc; cbn [dec_digits]; [lia|].
    destruct (y <? 10); [simpl; lia|]. etrans; [apply IH|]. simpl. lia. }
  etrans; [apply Hl|]. simpl. lia.
Qed.

Lemma parse_pair_line a b f s : small a -> small b -> parse_pair (pair_line a b) f s = Ok (a, b).
Proof.
  intros Ha Hb. unfold parse_pair, pair_line.
  pose proof (print_dec_short a Ha). pose proof (print_dec_short b Hb). unfold small in *.
  assert (Hf : find (print_dec a ++ 32 :: print_dec b) 32 0 = size (print_dec a)).
  { apply (find_first 32 [] (print_dec a) (print_dec b) 0 eq_refl). apply print_dec_no_space. lia. }
  rewrite Hf. rewrite (substr_mid [] (print_dec a) (32 :: print_dec b)) by done. cbn [obind].
  rewrite stoi_print_end by done. unfold size. rewrite length_app. cbn [length].
  rewrite !u64_small by lia.
  replace (print_dec a ++ 32 :: print_dec b) with ((print_dec a ++ [32]) ++ print_dec b) by (by rewrite <- app_assoc).
  rewrite substr_end by (rewrite ?length_app; simpl; lia). cbn [obind]. by rewrite stoi_print_end.
Qed.

(** The matrix keeps its size. *)
Definition square (n : Z) (g : matrix) : Prop :=
  Z.of_nat (length g) = n + 1 /\ Forall (fun row : list Z => Z.of_nat (length row) = n + 1) g.

Lemma square_empty n : 0 <= n -> square n (empty_graph n).
Proof.
  intros Hn. split; unfold empty_graph; [rewrite length_replicate; lia|].
  apply Forall_replicate. rewrite length_replicate. lia.
Qed.

Lemma square_add n g e : square n g -> square n (add_edge g e).
Proof.
  intros [H1 H2]. split; unfold add_edge; [by rewrite length_alter|].
  apply Forall_alter; [done|]. intros row _ Hr. by rewrite length_insert.
Qed.

Lemma set_edge_add n g a b w :
  square n g -> 0 <= a <= n -> 0 <= b <= n -> set_edge g [a; b; w] = Ok (add_edge g (a, b, w)).
Proof.
  intros [H1 H2] Ha Hb. unfold set_edge, add_edge. cbn [fst snd].
  change (load [a; b; w] 0) with (Ok a). change (load [a; b; w] 1) with (Ok b). change (load [a; b; w] 2) with (Ok w).
  cbn [obind]. destruct (lookup_lt_is_Some_2 g (Z.to_nat a)) as [row Hrow]; [lia|].
  rewrite (load_z _ _ row) by (done || lia). cbn [obind].
  rewrite Forall_forall in H2. specialize (H2 row (list_elem_of_lookup_2 _ _ _ Hrow)).
  rewrite store_z by lia. cbn [obind]. rewrite store_z by lia. f_equal.
  apply list_eq. intros i. destruct (decide (i = Z.to_nat a)) as [->|Hne].
  - rewrite list_lookup_insert_eq by lia. by rewrite list_lookup_alter_eq, Hrow.
  - rewrite list_lookup_insert_ne, list_lookup_alter_ne by done. done.
Qed.

Lemma read_edges n s t es : forall g idx rest,
  square n g -> n < 2 ^ 31 ->
  Forall (fun '(a, b, w) => 1 <= a <= n /\ 1 <= b <= n /\ small w) es ->
  read_lines (map edge_line es ++ rest) idx (idx + Z.of_nat (length es)) (mk_input g s t) =
  read_lines rest (idx + Z.of_nat (length es)) (idx + Z.of_nat (length es)) (mk_input (foldl add_edge g es) s t).
Proof.
  induction es as [|[[a b] w] es IH]; intros g idx rest Hg Hn He; cbn [length map app foldl].
  { by rewrite Z.add_0_r. }
  apply Forall_cons in He as [(Ha & Hb & Hw) He]. cbn [read_lines].
  rewrite (proj2 (Z.ltb_lt _ _)) by lia. cbn [graph_ start_ target_].
  rewrite split_edge_line by (unfold small in *; lia). rewrite (set_edge_add n) by (done || lia). cbn [obind].
  replace (idx + Z.of_nat (S (length es))) with (idx + 1 + Z.of_nat (length es)) by lia.
  apply IH; [by apply square_add|done..].
Qed.

(** reading undoes printing.  The text of a graph, a line with the numbers
    of vertices and edges, a line for each edge and a line with the start and
    the target, is read as the matrix of these edges, later ones overwriting
    earlier ones. *)
Theorem read_input_roundtrip n es s t :
  0 <= n -> n + 1 < 2 ^ 31 -> Z.of_nat (length es) < 2 ^ 31 ->
  Forall (fun '(a, b, w) => 1 <= a <= n /\ 1 <= b <= n /\ small w) es -> small s -> small t ->
  read_input_data (pair_line n (Z.of_nat (length es)) :: map edge_line es ++ [pair_line s t]) =
  Ok (mk_input (graph_of n es) s t, n).
Proof.
  intros H0 Hn Hl He Hs Ht. unfold read_input_data. rewrite parse_pair_line by (unfold small; lia).
  cbn [obind]. unfold add_int. rewrite !(proj2 (Z.leb_le _ _)) by (unfold INT_MAX; lia). cbn [andb obind].
  rewrite (proj2 (Z.ltb_ge _ _)) by lia. fold (empty_graph n).
  pose proof (read_edges n 0 0 es (empty_graph n) 0 [pair_line s t]) as Hr. rewrite !Z.add_0_l in Hr.
  rewrite Hr by (done || lia || by apply square_empty).
  cbn [read_lines]. rewrite Z.ltb_irrefl. cbn [start_ target_ graph_].
  by rewrite parse_pair_line.
Qed.

(** ** Witnesses *)

Definition demo_edges : list (Z * Z * Z) := [(1, 2, 7); (1, 3, 2); (3, 2, 3); (2, 4, 1)].

Lemma demo_weights u v : 0 <= weight (graph_of 4 demo_edges) u v <= 7.
Proof.
  unfold weight. assert (Hall : Forall (Forall (fun w => 0 <= w <= 7)) (graph_of 4 demo_edges))
    by (apply (bool_decide_unpack _); by vm_compute).
  destruct (graph_of 4 demo_edges !! Z.to_nat u) as [row|] eqn:E; [|lia].
  rewrite Forall_forall in Hall. specialize (Hall row (list_elem_of_lookup_2 _ _ _ E)).
  destruct (row !! Z.to_nat v) as [w|] eqn:E2; simpl; [|lia].
  rewrite Forall_forall in Hall. by apply Hall, (list_elem_of_lookup_2 _ _ _ E2).
Qed.

Lemma dijkstra_shortest_witness : exists r, dijkstra (graph_of 4 demo_edges) 1 4 4 = Ok r /\
  shortest (graph_of 4 demo_edges) 4 1 4 r.
Proof.
  refine (proj1 (dijkstra_shortest (graph_of 4 demo_edges) 4 1 4 _ _) 7 8 _ _).
  - done.
  - done.
  - constructor; [done|apply (bool_decide_unpack _); by vm_compute|apply demo_weights|done].
  - replace 8 with (0 + weight (graph_of 4 demo_edges) 1 2 + weight (graph_of 4 demo_edges) 2 4) by done.
    do 2 (apply walk_snoc; [|by vm_compute]). apply walk_nil.
Defined.

(** The sum for the edge back to the start overflows, though every path that
    matters is short enough. *)
Example edge_back_overflows :
  dijkstra (graph_of 3 [((1, 2), 1500000000); ((2, 1), 1500000000); ((2, 3), 1)]) 1 3 3 = Fault Indeterminate.
Proof. by vm_compute. Qed.

Lemma read_input_roundtrip_witness :
  read_input_data (pair_line 4 4 :: map edge_line demo_edges ++ [pair_line 1 4]) =
  Ok (mk_input (graph_of 4 demo_edges) 1 4, 4).
Proof.
  apply (read_input_roundtrip 4 demo_edges 1 4); [done|done|done| |done|done].
  repeat (apply Forall_cons; split; [by vm_compute|]). done.
Defined.

(** With an unreachable target the vertex 1 is marked with an infinite
    distance; when it has an edge, the next sum overflows. *)
Lemma dijkstra_unreachable_overflows :
  dijkstra (graph_of 3 [(1, 3, 5)]) 2 3 3 = Fault Indeterminate.
Proof. by vm_compute. Qed.
