(* ===== verification/Rlp.v ===== *)
(** * Rlp: reversing data in recursive length prefix encoding

    Models [src/c++/RTL.cpp]: a line of hexadecimal digits is taken apart into
    the tokens of its encoding; of a list the items are printed in reverse
    order, of a string the bytes.  The helpers on hexadecimal digits are the
    same text as in [base16.cpp] and share its definitions. *)

From S2P Require Import Prelude CInt CString CBuf CppString Charset.
Open Scope Z_scope.

Inductive EncodingType := SINGLE | SHORT | MEDIUM | LIST | LONG_LIST.

#[export] Instance EncodingType_eq_dec : EqDecision EncodingType.
Proof. solve_decision. Defined.

Record LenInfo := mk_LenInfo { data_len : Z; header_len : Z }.
Record EncodingTypeDesc := mk_EncodingTypeDesc {
  type : EncodingType;
  first_byte : Z;
  first_byte_hex : list Z
}.
Record RLPEncodeState := mk_RLPEncodeState {
  len_info : LenInfo;
  encoding_desc : EncodingTypeDesc;
  hex_str : list Z
}.

Definition is_hex_char (c : Z) : bool := Charset.is_hex_char c.
Definition get_decimal_digit_from_hex_char (c : Z) : Z := Charset.get_decimal_digit_from_hex_char c.
Definition hex_to_decimal (hex_num : list Z) : outcome Z := Charset.hex_to_decimal hex_num.

Definition get_encoding_desc (hex_byte : list Z) : outcome EncodingTypeDesc :=
  let? byte := hex_to_decimal hex_byte in
  let t :=
    if (0 <=? byte) && (byte <=? 127) then SINGLE
    else if (128 <=? byte) && (byte <=? 183) then SHORT
    else if (184 <=? byte) && (byte <=? 191) then MEDIUM
    else if (192 <=? byte) && (byte <=? 247) then LIST
    else LONG_LIST in
  Ok (mk_EncodingTypeDesc t byte hex_byte).

(** The length that follows a header of [len_of_len] bytes. *)
Definition long_len (hex_str : list Z) (len_of_len : Z) : outcome Z :=
  let? s := if len_of_len =? 1 then substr hex_str 0 2 else substr hex_str 2 len_of_len in
  let? v := hex_to_decimal s in
  Ok (u64 v).

Definition get_len_info (hex_str : list Z) (d : EncodingTypeDesc) : outcome LenInfo :=
  match type d with
  | SINGLE => Ok (mk_LenInfo 1 1)
  | SHORT => Ok (mk_LenInfo (u64 (first_byte d - 128)) 1)
  | MEDIUM =>
      let len_of_len := u64 (first_byte d - 183) in
      let? l := long_len hex_str len_of_len in Ok (mk_LenInfo l (u64 (len_of_len + 1)))
  | LIST => Ok (mk_LenInfo (u64 (first_byte d - 192)) 1)
  | LONG_LIST =>
      let len_of_len := u64 (first_byte d - 247) in
      let? l := long_len hex_str len_of_len in Ok (mk_LenInfo l (u64 (len_of_len + 1)))
  end.

Definition byte_to_hex_len (len_in_bytes : Z) : Z := u64 (2 * len_in_bytes).

Definition get_head_key_token (st : RLPEncodeState) : outcome (list Z) :=
  let offset := byte_to_hex_len (header_len (len_info st)) in
  if size (hex_str st) <? offset then Ok []
  else substr (hex_str st) 0 (byte_to_hex_len (header_len (len_info st))).

Definition get_key_value (st : RLPEncodeState) : outcome (list Z * list Z) :=
  if decide (type (encoding_desc st) = SINGLE) then
    let? v := substr (hex_str st) 0 (byte_to_hex_len (data_len (len_info st))) in Ok ([], v)
  else
    let? k := substr (hex_str st) 0 (byte_to_hex_len (header_len (len_info st))) in
    let? v := substr (hex_str st) (byte_to_hex_len (header_len (len_info st)))
                (byte_to_hex_len (data_len (len_info st))) in
    Ok (k, v).

(** The position of the token after the current one. *)
Definition next_offset (st : RLPEncodeState) : Z :=
  byte_to_hex_len (u64 (data_len (len_info st) + header_len (len_info st))).

Definition has_next_token (st : RLPEncodeState) : bool := next_offset st <? size (hex_str st).

Definition get_next_token (st : RLPEncodeState) : outcome (list Z) :=
  if size (hex_str st) <? next_offset st then Ok []
  else substr (hex_str st) (next_offset st) npos.

Definition get_firstbyte (hex_str : list Z) : outcome (list Z) :=
  if size hex_str <? 2 then Ok [] else substr hex_str 0 2.

Abbreviation token := (list Z * list Z)%type.

(** [hex_str.erase(0, n)] removes what there is of [n] characters. *)
Definition erase_front (s : list Z) (n : Z) : list Z := drop (Z.to_nat (Z.min n (size s))) s.

Fixpoint init_tokens (fuel : nat) (s : list Z) (tokens : list token) : outcome (list token) :=
  if decide (s = []) then Ok tokens
  else match fuel with
  | O => Fault NoFuel
  | S fuel =>
      let? b := substr s 0 2 in
      let? d := get_encoding_desc b in
      let? li := get_len_info s d in
      let st := mk_RLPEncodeState li d s in
      if decide (type d = LIST \/ type d = LONG_LIST) then
        let? h := get_head_key_token st in
        init_tokens fuel (erase_front s (byte_to_hex_len (header_len li))) (tokens ++ [(h, [])])
      else
        let? kv := get_key_value st in
        if has_next_token st then
          let? next_token := get_next_token st in
          init_tokens fuel next_token (tokens ++ [kv])
        else Ok (tokens ++ [kv])
  end.

(** [hexstr] as an array that ends with its terminator. *)
Fixpoint reverse_loop (fuel : nat) (s : list Z) (l r : Z) : outcome (list Z) :=
  if l <? r then
    match fuel with
    | O => Fault NoFuel
    | S fuel =>
        let? temp1 := load s (u64 (l - 1)) in
        let? temp2 := load s l in
        let? a := load s (u64 (r - 1)) in
        let? s := store s (u64 (l - 1)) a in
        let? b := load s r in
        let? s := store s l b in
        let? s := store s (u64 (r - 1)) temp1 in
        let? s := store s r temp2 in
        reverse_loop fuel s (u64 (l + 2)) (u64 (r - 2))
    end
  else Ok s.

Definition hex_reverse (hexstr : list Z) : outcome (list Z) :=
  let? s := reverse_loop (S (length hexstr)) (hexstr ++ [0]) 1 (u64 (size hexstr - 1)) in
  Ok (take (length hexstr) s).

(** What is printed for a line. *)
Definition print_tokens (tokens : list token) : list Z :=
  flat_map (fun x => fst x ++ snd x) tokens ++ [10].

Definition check_rlp (str : list Z) : outcome (list Z) :=
  if decide (str = []) then Ok []
  else
    let? b := substr str 0 2 in
    let? ed := get_encoding_desc b in
    let? tokens := init_tokens (length str) str [] in
    if decide (type ed = LIST \/ type ed = LONG_LIST) then
      Ok (print_tokens (take 1 tokens ++ rev (drop 1 tokens)))
    else
      let? t := of_option OutOfBounds (head tokens) in
      let? v := hex_reverse (snd t) in
      Ok (print_tokens ((fst t, v) :: drop 1 tokens)).

(** ** Reversing bytes *)

Definition flat (ps : list (Z * Z)) : list Z := flat_map (fun p => [fst p; snd p]) ps.

Lemma length_flat ps : length (flat ps) = (2 * length ps)%nat.
Proof. induction ps as [|p ps IH]; simpl in *; [done|]. rewrite IH. lia. Qed.

Lemma pairs_flat_app ps qs : flat (ps ++ qs) = flat ps ++ flat qs.
Proof. unfold flat. apply flat_map_app. Qed.

(** One round exchanges the outermost pairs. *)
Lemma reverse_round fuel P a b M c d Q l r :
  l = Z.of_nat (length P) + 1 -> r = Z.of_nat (length P) + Z.of_nat (length M) + 3 -> r < 2 ^ 63 ->
  reverse_loop (S fuel) (P ++ [a; b] ++ M ++ [c; d] ++ Q) l r =
  reverse_loop fuel (P ++ [c; d] ++ M ++ [a; b] ++ Q) (l + 2) (r - 2).
Proof.
  intros -> -> Hr. cbn [reverse_loop]. rewrite (proj2 (Z.ltb_lt _ _)) by lia. rewrite !u64_small by lia.
  cbn [app]. rewrite load_app_r by lia. cbn [obind].
  replace (P ++ a :: b :: M ++ c :: d :: Q) with ((P ++ [a]) ++ b :: M ++ c :: d :: Q) by (by rewrite <- app_assoc).
  rewrite load_app_r by (rewrite length_app; simpl; lia). cbn [obind].
  replace ((P ++ [a]) ++ b :: M ++ c :: d :: Q) with ((P ++ a :: b :: M) ++ c :: d :: Q)
    by (by rewrite <- !app_assoc).
  rewrite load_app_r by (rewrite length_app; simpl; lia). cbn [obind].
  replace ((P ++ a :: b :: M) ++ c :: d :: Q) with (P ++ a :: b :: M ++ c :: d :: Q) by (by rewrite <- app_assoc).
  rewrite store_app_r by lia. cbn [obind].
  replace (P ++ c :: b :: M ++ c :: d :: Q) with ((P ++ c :: b :: M ++ [c]) ++ d :: Q)
    by (rewrite <- app_assoc; simpl; by rewrite <- app_assoc).
  rewrite load_app_r by (rewrite length_app; simpl; rewrite length_app; simpl; lia). cbn [obind].
  replace ((P ++ c :: b :: M ++ [c]) ++ d :: Q) with ((P ++ [c]) ++ b :: M ++ c :: d :: Q)
    by (rewrite <- !app_assoc; simpl; by rewrite <- app_assoc).
  rewrite store_app_r by (rewrite length_app; simpl; lia). cbn [obind].
  replace ((P ++ [c]) ++ d :: M ++ c :: d :: Q) with ((P ++ c :: d :: M) ++ c :: d :: Q)
    by (by rewrite <- !app_assoc).
  rewrite store_app_r by (rewrite length_app; simpl; lia). cbn [obind].
  replace ((P ++ c :: d :: M) ++ a :: d :: Q) with ((P ++ c :: d :: M ++ [a]) ++ d :: Q)
    by (rewrite <- !app_assoc; simpl; by rewrite <- app_assoc).
  rewrite store_app_r by (rewrite length_app; simpl; rewrite length_app; simpl; lia). cbn [obind].
  f_equal. rewrite <- app_assoc. simpl. by rewrite <- app_assoc.
Qed.

Lemma reverse_loop_pairs n : forall ps pre suf fuel s l r,
  length ps = n -> s = flat pre ++ flat ps ++ suf -> (1 <= length pre + length ps)%nat ->
  (n <= fuel)%nat -> l = 2 * Z.of_nat (length pre) + 1 ->
  r = 2 * Z.of_nat (length pre + length ps) - 1 -> r < 2 ^ 63 ->
  reverse_loop fuel s l r = Ok (flat pre ++ flat (rev ps) ++ suf).
Proof.
  induction n as [n IH] using lt_wf_ind. intros ps pre suf fuel s l r Hn -> Hpos Hf -> -> Hr.
  destruct ps as [|x ps].
  { cbn [length] in *. destruct fuel; cbn [reverse_loop]; by rewrite (proj2 (Z.ltb_ge _ _)) by lia. }
  destruct ps as [|y0 ps0] using rev_ind.
  { cbn [length] in *. destruct fuel; cbn [reverse_loop]; by rewrite (proj2 (Z.ltb_ge _ _)) by lia. }
  clear IHps0. destruct x as [a b], y0 as [c d]. cbn [length] in *. rewrite length_app in *. cbn [length] in *.
  destruct fuel as [|fuel]; [lia|].
  change (flat ((a, b) :: ps0 ++ [(c, d)])) with ([a; b] ++ flat (ps0 ++ [(c, d)])). rewrite pairs_flat_app.
  change (flat [(c, d)]) with [c; d]. rewrite <- !app_assoc.
  rewrite reverse_round by (rewrite ?length_flat; lia).
  rewrite (IH (length ps0) ltac:(lia) ps0 (pre ++ [(c, d)]) ([a; b] ++ suf)).
  - cbn [rev]. rewrite rev_app_distr. cbn [rev app]. f_equal.
    change ((c, d) :: rev ps0 ++ [(a, b)]) with ([(c, d)] ++ rev ps0 ++ [(a, b)]).
    rewrite !pairs_flat_app. by rewrite <- !app_assoc.
  - done.
  - rewrite pairs_flat_app. by rewrite <- !app_assoc.
  - rewrite length_app. simpl. lia.
  - lia.
  - rewrite length_app. simpl. lia.
  - rewrite length_app. simpl. lia.
  - lia.
Qed.

Lemma hex_reverse_pairs ps :
  ps <> [] -> 2 * Z.of_nat (length ps) < 2 ^ 63 -> hex_reverse (flat ps) = Ok (flat (rev ps)).
Proof.
  intros Hne Hl. assert (0 < length ps)%nat by (destruct ps; [done|simpl; lia]).
  unfold hex_reverse, size. rewrite length_flat, u64_small by lia.
  rewrite (reverse_loop_pairs (length ps) ps [] [0]); simpl; try done; try lia.
  f_equal. rewrite take_app_le by (rewrite length_flat, length_rev; lia).
  apply take_ge. rewrite length_flat, length_rev. lia.
Qed.

(** ** Encodings of short strings *)

Definition hex (bs : list Z) : list Z := flat_map hex_byte bs.

Definition is_payload (bs : list Z) : Prop := Forall (fun b => 0 <= b < 256) bs /\ (length bs <= 55)%nat.

(** A string of at most 55 bytes, written with the short header. *)
Definition item (bs : list Z) : list Z := hex_byte (128 + Z.of_nat (length bs)) ++ hex bs.

Definition item_token (bs : list Z) : token := (hex_byte (128 + Z.of_nat (length bs)), hex bs).

(** A list of strings whose encodings take [n] bytes, at most 55. *)
Definition rlp_list (items : list (list Z)) : list Z :=
  hex_byte (192 + Z.of_nat (length (flat_map item items)) / 2) ++ flat_map item items.

Lemma length_hex bs : length (hex bs) = (2 * length bs)%nat.
Proof. induction bs as [|b bs IH]; [done|]. cbn [hex flat_map]. rewrite length_app. fold (hex bs). rewrite IH. simpl. lia. Qed.

Lemma hex_flat bs : hex bs = flat (map (fun b => (get_hex_char_from_decimal_digit (b / 16),
  get_hex_char_from_decimal_digit (b mod 16))) bs).
Proof. induction bs as [|b bs IH]; [done|]. change (hex (b :: bs)) with (hex_byte b ++ hex bs). by rewrite IH. Qed.

Lemma desc_of_byte b :
  0 <= b < 256 -> get_encoding_desc (hex_byte b) = Ok (mk_EncodingTypeDesc
    (if b <=? 127 then SINGLE else if b <=? 183 then SHORT else if b <=? 191 then MEDIUM
     else if b <=? 247 then LIST else LONG_LIST) b (hex_byte b)).
Proof.
  intros Hb. unfold get_encoding_desc, hex_to_decimal. destruct (hex_byte_value b Hb) as [-> _].
  cbn [obind]. rewrite (proj2 (Z.leb_le 0 b)) by lia. cbn [andb]. zcmp; simpl; (done || lia).
Qed.

(** The token at the start of the text is split off. *)
Lemma init_tokens_item fuel bs rest toks :
  is_payload bs -> size (item bs ++ rest) < 2 ^ 63 ->
  init_tokens (S fuel) (item bs ++ rest) toks = init_tokens fuel rest (toks ++ [item_token bs]).
Proof.
  intros [Hb Hl] Hs. cbn [init_tokens]. rewrite decide_False by done. unfold item.
  set (n := Z.of_nat (length bs)) in *. assert (Hn : 0 <= n <= 55) by (subst n; lia).
  assert (Hsz : size (item bs) = 2 * (n + 1)).
  { unfold item, size. rewrite length_app, length_hex. subst n. cbn [length hex_byte]. lia. }
  assert (Hr : 0 <= size rest < 2 ^ 63 - 2 * (n + 1)) by (unfold size in *; rewrite length_app in Hs; lia).
  rewrite <- app_assoc. rewrite (substr_head (hex_byte (128 + n))) by done. cbn [obind].
  rewrite desc_of_byte by lia. rewrite (proj2 (Z.leb_gt _ _)), (proj2 (Z.leb_le _ _)) by lia. cbn [obind].
  unfold get_len_info. cbn [type first_byte]. rewrite (u64_small (128 + n - 128)) by lia. cbn [obind].
  rewrite decide_False by naive_solver. unfold get_key_value. cbn [type encoding_desc len_info hex_str data_len header_len].
  rewrite decide_False by done. unfold byte_to_hex_len at 1 2 3. rewrite !u64_small by lia.
  rewrite (substr_head (hex_byte (128 + n))) by done. cbn [obind].
  rewrite substr_mid by (rewrite ?length_hex; subst n; simpl; lia). cbn [obind].
  assert (Hno : next_offset (mk_RLPEncodeState (mk_LenInfo (128 + n - 128) 1)
    (mk_EncodingTypeDesc SHORT (128 + n) (hex_byte (128 + n))) (hex_byte (128 + n) ++ hex bs ++ rest)) = size (item bs)).
  { unfold next_offset, byte_to_hex_len. cbn [len_info data_len header_len]. rewrite Hsz.
    rewrite (u64_small (128 + n - 128 + 1)), u64_small by lia. lia. }
  unfold has_next_token, get_next_token. rewrite Hno. cbn [hex_str].
  assert (Hfull : hex_byte (128 + n) ++ hex bs ++ rest = item bs ++ rest) by (unfold item; by rewrite <- app_assoc).
  rewrite Hfull. assert (Hszr : size (item bs ++ rest) = size (item bs) + size rest) by (unfold size; rewrite length_app; lia).
  destruct rest as [|c rest].
  - rewrite (proj2 (Z.ltb_ge _ _)) by (rewrite Hszr; unfold size in *; simpl; lia). by destruct fuel.
  - rewrite (proj2 (Z.ltb_lt _ _)) by (rewrite Hszr; unfold size in *; simpl; lia).
    rewrite (proj2 (Z.ltb_ge _ _)) by lia.
    rewrite substr_end; [done|done|unfold npos; unfold size in *; lia].
Qed.

Lemma init_tokens_items items : forall fuel toks,
  Forall is_payload items -> size (flat_map item items) < 2 ^ 63 -> (length items <= fuel)%nat ->
  init_tokens fuel (flat_map item items) toks = Ok (toks ++ map item_token items).
Proof.
  induction items as [|bs items IH]; intros fuel toks Hi Hs Hf; cbn [flat_map map length] in *.
  { rewrite app_nil_r. by destruct fuel. }
  apply Forall_cons in Hi as [Hb Hi]. destruct fuel as [|fuel]; [lia|].
  rewrite init_tokens_item by done. rewrite IH; [by rewrite <- app_assoc|done| |lia].
  unfold size in *. rewrite length_app in Hs. lia.
Qed.

Lemma print_items items :
  flat_map (fun x : token => fst x ++ snd x) (map item_token items) = flat_map item items.
Proof. induction items as [|bs items IH]; [done|]. simpl. by rewrite IH. Qed.

Lemma item_even items : exists k, length (flat_map item items) = (2 * k)%nat.
Proof.
  induction items as [|bs items [k IH]]; [by exists 0%nat|]. cbn [flat_map].
  exists (1 + length bs + k)%nat. rewrite length_app, IH. unfold item. rewrite length_app, length_hex. simpl. lia.
Qed.

Lemma items_length items : (length items <= length (flat_map item items))%nat.
Proof.
  induction items as [|bs items IH]; [done|]. cbn [flat_map length]. rewrite length_app.
  unfold item at 1. rewrite length_app. cbn [length hex_byte]. lia.
Qed.

Lemma items_rev items : length (flat_map item (rev items)) = length (flat_map item items).
Proof.
  induction items as [|bs items IH]; [done|]. cbn [rev flat_map].
  rewrite flat_map_app, !length_app, IH. cbn [flat_map]. rewrite app_nil_r. lia.
Qed.

(** The header of a list is a token of its own. *)
Lemma init_tokens_header fuel h rest toks :
  192 <= h <= 247 -> size (hex_byte h ++ rest) < 2 ^ 63 ->
  init_tokens (S fuel) (hex_byte h ++ rest) toks = init_tokens fuel rest (toks ++ [(hex_byte h, [])]).
Proof.
  intros Hh Hs. cbn [init_tokens]. rewrite decide_False by done.
  rewrite (substr_head (hex_byte h)) by done. cbn [obind].
  rewrite desc_of_byte by lia. rewrite !(proj2 (Z.leb_gt h _)), (proj2 (Z.leb_le h 247)) by lia. cbn [obind].
  unfold get_len_info. cbn [type first_byte obind]. rewrite decide_True by naive_solver.
  unfold get_head_key_token. cbn [len_info header_len hex_str]. change (byte_to_hex_len 1) with 2.
  rewrite (proj2 (Z.ltb_ge _ _)) by (unfold size; rewrite length_app; simpl; lia).
  rewrite (substr_head (hex_byte h)) by done. cbn [obind]. unfold erase_front.
  rewrite Z.min_l by (unfold size; rewrite length_app; simpl; lia). done.
Qed.

(** ** Digits and termination *)

Definition hexdigit (c : Z) : Prop := 48 <= c <= 57 \/ 65 <= c <= 70 \/ 97 <= c <= 102.

Lemma digit_value c : hexdigit c -> exists u, toupper c = Ok u /\ 0 <= get_decimal_digit_from_hex_char u <= 15.
Proof.
  intros Hc. unfold toupper. rewrite (proj2 (Z.leb_gt 128 c)) by (unfold hexdigit in Hc; lia). cbn [andb].
  eexists. split; [done|]. unfold get_decimal_digit_from_hex_char, Charset.get_decimal_digit_from_hex_char,
    Charset.is_hex_char. unfold hexdigit in Hc. zcmp; simpl; try lia; repeat case_match; lia.
Qed.

Lemma hex_loop_bound s k : forall p r,
  Forall hexdigit s -> (length s <= 15)%nat -> p + Z.of_nat k = Z.of_nat (length s) -> 0 <= p -> 0 <= r < 16 ^ p ->
  exists v, hex_loop k s p r = Ok v /\ 0 <= v < 16 ^ Z.of_nat (length s).
Proof.
  induction k as [|k IH]; intros p r Hs Hl Hp H0 Hr; cbn [hex_loop].
  { exists r. split; [done|]. by replace (Z.of_nat (length s)) with p by lia. }
  rewrite (u64_small (Z.of_nat (length s) - 1)), u64_small by lia.
  destruct (lookup_lt_is_Some_2 s (Z.to_nat (Z.of_nat (length s) - 1 - p))) as [c Hc]; [lia|].
  rewrite (load_z _ _ c) by (done || lia). cbn [obind]. rewrite Forall_forall in Hs.
  destruct (digit_value c) as (u & -> & Hu); [by eapply Hs, list_elem_of_lookup_2|]. cbn [obind].
  change (Charset.get_decimal_digit_from_hex_char u) with (get_decimal_digit_from_hex_char u).
  assert (Hpow : 16 ^ (p + 1) = 16 * 16 ^ p) by (rewrite Z.pow_add_r by lia; lia).
  assert (Hmax : 16 ^ (p + 1) <= 16 ^ 15) by (apply Z.pow_le_mono_r; lia).
  assert (H1515 : 16 ^ 15 < 2 ^ 63) by done. assert (Hp0 : 0 < 16 ^ p) by (apply Z.pow_pos_nonneg; lia).
  assert (Hck : forall z, 0 <= z < 2 ^ 63 -> check_i64 z = Ok z).
  { intros z Hz. unfold check_i64. by rewrite (proj2 (Z.leb_le _ _)), (proj2 (Z.ltb_lt _ _)) by lia. }
  rewrite Hck by lia. cbn [obind]. rewrite Hck by nia. cbn [obind]. rewrite Hck by nia. cbn [obind].
  apply IH; [by apply Forall_forall|done|lia|lia|nia].
Qed.

Lemma hex_to_decimal_bound s :
  Forall hexdigit s -> (length s <= 15)%nat -> exists v, hex_to_decimal s = Ok v /\ 0 <= v < 16 ^ Z.of_nat (length s).
Proof. intros Hs Hl. apply (hex_loop_bound s (length s) 0 0); try done; lia. Qed.

Lemma substr_hex s pos n t : Forall hexdigit s -> substr s pos n = Ok t -> Forall hexdigit t /\ Z.of_nat (length t) <= Z.max 0 n.
Proof.
  intros Hs. unfold substr. destruct (_ <? _); [done|]. intros [= <-]. split.
  - by apply Forall_take, Forall_drop.
  - rewrite length_take. lia.
Qed.

Lemma desc_hex b d :
  Forall hexdigit b -> (length b <= 2)%nat -> get_encoding_desc b = Ok d ->
  0 <= first_byte d <= 255 /\
  (type d = MEDIUM -> 184 <= first_byte d <= 191) /\ (type d = LONG_LIST -> 248 <= first_byte d) /\
  (type d = SHORT -> 128 <= first_byte d <= 183) /\ (type d = LIST -> 192 <= first_byte d <= 247).
Proof.
  intros Hb Hl. unfold get_encoding_desc. destruct (hex_to_decimal_bound b Hb) as (v & -> & Hv); [lia|].
  cbn [obind]. intros [= <-]. cbn [first_byte type].
  assert (H16 : 16 ^ Z.of_nat (length b) <= 16 ^ 2) by (apply Z.pow_le_mono_r; lia).
  change (16 ^ 2) with 256 in H16. rewrite (proj2 (Z.leb_le 0 v)) by lia. cbn [andb].
  zcmp; simpl; split_and!; intros; (done || lia).
Qed.

Lemma long_len_bound s n l :
  Forall hexdigit s -> 1 <= n <= 8 -> long_len s n = Ok l -> 0 <= l < 2 ^ 32.
Proof.
  intros Hs Hn. unfold long_len.
  assert (Hpart : forall t, (if n =? 1 then substr s 0 2 else substr s 2 n) = Ok t ->
    Forall hexdigit t /\ (length t <= 8)%nat).
  { intros t. destruct (n =? 1); intros Ht; apply substr_hex in Ht as [? ?]; try done; (split; [done|lia]). }
  destruct (if n =? 1 then _ else _) as [t|]; [|done]. cbn [obind].
  destruct (Hpart t eq_refl) as [Ht Hl]. destruct (hex_to_decimal_bound t Ht) as (v & -> & Hv); [lia|].
  cbn [obind]. intros [= <-].
  assert (H16 : 16 ^ Z.of_nat (length t) <= 16 ^ 8) by (apply Z.pow_le_mono_r; lia).
  change (16 ^ 8) with (2 ^ 32) in H16. rewrite u64_small; lia.
Qed.

Lemma len_info_bound s d li :
  Forall hexdigit s -> 0 <= first_byte d <= 255 ->
  (type d = MEDIUM -> 184 <= first_byte d <= 191) -> (type d = LONG_LIST -> 248 <= first_byte d) ->
  (type d = SHORT -> 128 <= first_byte d <= 183) -> (type d = LIST -> 192 <= first_byte d <= 247) ->
  get_len_info s d = Ok li -> 1 <= header_len li <= 9 /\ 0 <= data_len li < 2 ^ 32.
Proof.
  intros Hs Hb Hm Hll Hsh Hli. unfold get_len_info. destruct (type d); intros E.
  - injection E as <-. simpl. lia.
  - injection E as <-. simpl. specialize (Hsh eq_refl). rewrite u64_small; lia.
  - specialize (Hm eq_refl). rewrite (u64_small (first_byte d - 183)) in E by lia.
    destruct (long_len s _) as [l|] eqn:El; [|done]. injection E as <-. simpl.
    apply long_len_bound in El; [|done|lia]. rewrite u64_small; lia.
  - injection E as <-. simpl. specialize (Hli eq_refl). rewrite u64_small; lia.
  - specialize (Hll eq_refl). rewrite (u64_small (first_byte d - 247)) in E by lia.
    destruct (long_len s _) as [l|] eqn:El; [|done]. injection E as <-. simpl.
    apply long_len_bound in El; [|done|lia]. rewrite u64_small; lia.
Qed.

Lemma no_fuel_bind {A B} (o : outcome A) (k : A -> outcome B) :
  o <> Fault NoFuel -> (forall a, o = Ok a -> k a <> Fault NoFuel) -> obind o k <> Fault NoFuel.
Proof. intros Ho Hk. destruct o as [a|f]; simpl; [by apply Hk|congruence]. Qed.

Lemma substr_no_fuel s pos n : substr s pos n <> Fault NoFuel.
Proof. unfold substr. by destruct (_ <? _). Qed.

Lemma long_len_no_fuel s n : Forall hexdigit s -> 1 <= n <= 8 -> long_len s n <> Fault NoFuel.
Proof.
  intros Hs Hn. unfold long_len. apply no_fuel_bind; [destruct (_ =? _); apply substr_no_fuel|]. intros t Ht.
  assert (Forall hexdigit t /\ (length t <= 15)%nat) as [Ht1 Ht2].
  { destruct (_ =? _); apply substr_hex in Ht as [? ?]; try done; (split; [done|lia]). }
  by destruct (hex_to_decimal_bound t Ht1 Ht2) as (v & -> & _).
Qed.

Lemma key_value_no_fuel st : get_key_value st <> Fault NoFuel.
Proof.
  unfold get_key_value. destruct (decide _); apply no_fuel_bind; try apply substr_no_fuel; [done|].
  intros k _. apply no_fuel_bind; [apply substr_no_fuel|done].
Qed.

(** What is left after a token is shorter. *)
Lemma next_token_shorter st t :
  1 <= header_len (len_info st) <= 9 -> 0 <= data_len (len_info st) < 2 ^ 32 -> hex_str st <> [] ->
  get_next_token st = Ok t -> (length t < length (hex_str st))%nat.
Proof.
  intros Hh Hd Hne. assert (0 < length (hex_str st))%nat by (destruct (hex_str st); [done|simpl; lia]).
  unfold get_next_token, next_offset, byte_to_hex_len. rewrite (u64_small (_ + _)), u64_small by lia.
  destruct (_ <? _); [intros [= <-]; done|]. unfold substr. destruct (_ <? _); [done|]. intros [= <-].
  rewrite length_take, length_drop. lia.
Qed.

Lemma tokens_terminate fuel : forall s toks,
  Forall hexdigit s -> (length s <= fuel)%nat -> init_tokens fuel s toks <> Fault NoFuel.
Proof.
  induction fuel as [|fuel IH]; intros s toks Hs Hf; cbn [init_tokens].
  { destruct s; [done|simpl in Hf; lia]. }
  destruct (decide (s = [])) as [->|Hne]; [done|].
  assert (Hpos : (0 < length s)%nat) by (destruct s; [done|simpl; lia]).
  apply no_fuel_bind; [apply substr_no_fuel|]. intros b Hb. apply substr_hex in Hb as [Hb Hbl]; [|done].
  assert (Hdesc : exists d, get_encoding_desc b = Ok d).
  { unfold get_encoding_desc. destruct (hex_to_decimal_bound b Hb) as (v & -> & _); [lia|]. eauto. }
  destruct Hdesc as [d Hd]. rewrite Hd. cbn [obind].
  apply desc_hex in Hd as (H1 & H2 & H3 & H4 & H5); [|done|lia].
  apply no_fuel_bind.
  { unfold get_len_info. destruct (type d) eqn:Et; try done; apply no_fuel_bind; try done;
      apply long_len_no_fuel; try done; [specialize (H2 eq_refl)|specialize (H3 eq_refl)]; rewrite u64_small; lia. }
  intros li El. apply len_info_bound in El as [Hh Hdl]; try done.
  destruct (decide (type d = LIST \/ type d = LONG_LIST)).
  - apply no_fuel_bind.
    { unfold get_head_key_token. destruct (_ <? _); [done|apply substr_no_fuel]. }
    intros h _. apply IH; [by apply Forall_drop|].
    unfold erase_front, byte_to_hex_len, size. rewrite length_drop, u64_small by lia. lia.
  - apply no_fuel_bind; [apply key_value_no_fuel|]. intros kv _. destruct (has_next_token _); [|done].
    apply no_fuel_bind.
    { unfold get_next_token. destruct (_ <? _); [done|apply substr_no_fuel]. }
    intros t Ht. apply IH.
    + unfold get_next_token in Ht. destruct (_ <? _); [by injection Ht as <-|].
      by apply substr_hex in Ht as [? _].
    + apply next_token_shorter in Ht; [simpl in Ht; lia|done..].
Qed.


(** ** The properties *)

(** a list of short strings is printed as the list of the same strings in
    reverse order, for any number of strings whose encoding fits the one-byte
    header. *)
Theorem check_rlp_reverses_list items :
  Forall is_payload items -> (length (flat_map item items) <= 110)%nat ->
  check_rlp (rlp_list items) = Ok (rlp_list (rev items) ++ [10]).
Proof.
  intros Hi Hl. unfold check_rlp, rlp_list. rewrite items_rev.
  set (h := 192 + Z.of_nat (length (flat_map item items)) / 2).
  assert (Hh : 192 <= h <= 247) by (subst h; dlia).
  rewrite decide_False by done. rewrite (substr_head (hex_byte h)) by done. cbn [obind].
  rewrite desc_of_byte by lia. rewrite !(proj2 (Z.leb_gt h _)), (proj2 (Z.leb_le h 247)) by lia. cbn [obind type].
  change (length (hex_byte h ++ flat_map item items)) with (S (S (length (flat_map item items)))).
  rewrite init_tokens_header by (unfold size; rewrite ?length_app; simpl; lia).
  rewrite init_tokens_items; [|done|unfold size; lia|pose proof (items_length items); lia].
  cbn [obind app]. rewrite decide_True by naive_solver. unfold print_tokens. f_equal.
  change (drop 1 ((hex_byte h, []) :: map item_token items)) with (map item_token items).
  change (take 1 ((hex_byte h, []) :: map item_token items)) with [(hex_byte h, [] : list Z)].
  rewrite <- map_rev, flat_map_app, print_items. by rewrite <- !app_assoc.
Qed.

(** a short string is printed with the same header and its bytes in reverse
    order. *)
Theorem check_rlp_reverses_string bs :
  is_payload bs -> bs <> [] ->
  check_rlp (item bs) = Ok (hex_byte (128 + Z.of_nat (length bs)) ++ hex (rev bs) ++ [10]).
Proof.
  intros Hb Hne. pose proof Hb as [_ Hl]. unfold check_rlp. rewrite decide_False by done.
  unfold item at 1. rewrite (substr_head (hex_byte _)) by done. cbn [obind].
  rewrite desc_of_byte by lia. rewrite (proj2 (Z.leb_gt _ 127)), (proj2 (Z.leb_le _ 183)) by lia. cbn [obind type].
  assert (Hlen : length (item bs) = S (S (2 * length bs))).
  { unfold item. rewrite length_app, length_hex. done. }
  rewrite Hlen. rewrite <- (app_nil_r (item bs)).
  rewrite init_tokens_item by (done || (rewrite app_nil_r; unfold size; rewrite Hlen; lia)).
  cbn [init_tokens app]. rewrite decide_True by done. cbn [obind]. rewrite decide_False by naive_solver.
  cbn [head of_option obind item_token snd fst]. rewrite hex_flat, hex_reverse_pairs.
  - cbn [obind]. rewrite <- map_rev, <- hex_flat. unfold print_tokens. cbn. by rewrite app_nil_r.
  - by destruct bs.
  - rewrite length_map. lia.
Qed.

(** C34: on a line of hexadecimal digits, well formed or not, taking the tokens
    apart ends after at most as many calls as there are digits; on other
    characters a computed length can be negative, the next token starts where
    the current one does, and the recursion never ends. *)
Theorem init_tokens_termination :
  (forall s toks, Forall hexdigit s -> init_tokens (length s) s toks <> Fault NoFuel) /\
  (forall fuel toks, init_tokens fuel (bytes_of "B9GD00") toks = Fault NoFuel).
Proof.
  split.
  - intros s toks Hs. by apply tokens_terminate.
  - induction fuel as [|fuel IH]; intros toks; [done|].
    transitivity (init_tokens fuel (bytes_of "B9GD00") (toks ++ [(bytes_of "B9GD00", [])])); [done|apply IH].
Qed.

(** A single byte counts as two: the byte that follows it is lost.  The header
    of a string of more than 55 bytes is read as its length.  Reversing an
    empty string reads past it. *)
Lemma check_rlp_losses :
  check_rlp (bytes_of "C20102") = Ok (bytes_of "C201" ++ [10]) /\
  check_rlp (bytes_of "80") = Fault OutOfBounds.
Proof. split; by vm_compute. Qed.

Lemma check_rlp_reverses_list_witness :
  check_rlp (bytes_of "C883646F6783636174") = Ok (bytes_of "C88363617483646F67" ++ [10]).
Proof.
  apply (check_rlp_reverses_list [[100; 111; 103]; [99; 97; 116]]).
  - repeat (apply Forall_cons; split; [split; [apply (bool_decide_unpack _); by vm_compute|simpl; lia]|]). done.
  - simpl. lia.
Defined.

Lemma check_rlp_reverses_string_witness :
  check_rlp (bytes_of "83646F67") = Ok (bytes_of "83676F64" ++ [10]).
Proof.
  apply (check_rlp_reverses_string [100; 111; 103]); [|done].
  split; [apply (bool_decide_unpack _); by vm_compute|simpl; lia].
Defined.
