(* ===== verification/CppAlloc.v ===== *)
(** * CppAlloc: the C++ variant of the allocator

    Models [src/mem/allocator/c++version/my_alloc.cpp], a second version of the
    boundary-tag allocator, on the memory of [Alloc].  Its functions are
    translated from their own text; the theorem is that every entry point
    computes what the C version computes, on every memory, well formed or not,
    so what [Alloc] shows of the one holds of the other. *)

From S2P Require Import Prelude CInt Alloc.
Open Scope Z_scope.

Definition FREE : Z := 1.
Definition ALLOCATED : Z := 0.
Definition METAINFO_SIZE : Z := 40.
Definition HEADER_SIZE : Z := 4.
Definition SIZE_OFFSET : Z := 4.
Definition NEXT_OFFSET : Z := 3.
Definition PREV_OFFSET : Z := 2.
Definition L_BORDER_MARKER_OFFSET : Z := 1.

Definition block_init_metainfo (cur_block : Z) : Z := cur_block + HEADER_SIZE.
Definition set_size (cur_block size : Z) : M heap unit := store (cur_block - SIZE_OFFSET) size.
Definition get_size (cur_block : Z) : M heap Z := load (cur_block - SIZE_OFFSET).
Definition set_next_block_ptr (cur_block next_block : Z) : M heap unit :=
  store (cur_block - NEXT_OFFSET) next_block.
Definition get_next_block_ptr (cur_block : Z) : M heap Z := load (cur_block - NEXT_OFFSET).
Definition set_prev_block_ptr (cur_block prev_block : Z) : M heap unit :=
  store (cur_block - PREV_OFFSET) prev_block.
Definition get_prev_block_ptr (cur_block : Z) : M heap Z := load (cur_block - PREV_OFFSET).
Definition set_left_border_marker (cur_block flag : Z) : M heap unit :=
  store (cur_block - L_BORDER_MARKER_OFFSET) flag.
Definition get_left_border_marker (cur_block : Z) : M heap Z := load (cur_block - L_BORDER_MARKER_OFFSET).
Definition set_right_border_marker (cur_block size flag : Z) : M heap unit :=
  store (cur_block + size / 8) flag.
Definition get_right_border_marker (cur_block : Z) : M heap Z :=
  size <- get_size cur_block ;; load (cur_block + size / 8).

Definition make_block (block size status : Z) : M heap Z :=
  let block := block_init_metainfo block in
  set_size block size ;;
  set_next_block_ptr block 0 ;;
  set_prev_block_ptr block 0 ;;
  set_left_border_marker block status ;;
  set_right_border_marker block size status ;;
  ret block.

(** The [do] loop of [find_block], from [cur_block]. *)
Fixpoint find_rounds (fuel : nat) (cur_block size : Z) : M heap Z :=
  match fuel with
  | O => fail NoFuel
  | S fuel =>
      cur_block_size <- get_size cur_block ;;
      cur_block_status <- get_left_border_marker cur_block ;;
      cur_block_status_r <- get_right_border_marker cur_block ;;
      if size <? cur_block_size then ret cur_block
      else
        cur_block <- get_next_block_ptr cur_block ;;
        if negb (cur_block =? 0) then find_rounds fuel cur_block size else ret 0
  end.

Definition find_block (size : Z) : M heap Z :=
  cur_block <- gets head ;;
  fuel <- gets (fun h => length (cells h)) ;;
  find_rounds fuel cur_block size.

Definition add_next (l_block r_block : Z) : M heap unit :=
  cur_next_l_block <- get_next_block_ptr l_block ;;
  (if negb (cur_next_l_block =? 0) then set_prev_block_ptr cur_next_l_block r_block else ret tt) ;;
  set_next_block_ptr r_block cur_next_l_block ;;
  set_prev_block_ptr r_block l_block ;;
  set_next_block_ptr l_block r_block.

Definition merge_blocks (l_block r_block : Z) : M heap unit :=
  rsize <- get_size r_block ;;
  set_right_border_marker r_block rsize FREE ;;
  next_r_block <- get_next_block_ptr r_block ;;
  (if negb (next_r_block =? 0) then set_prev_block_ptr next_r_block l_block else ret tt) ;;
  set_left_border_marker l_block FREE ;;
  set_next_block_ptr l_block next_r_block ;;
  lsize <- get_size l_block ;;
  rsize <- get_size r_block ;;
  set_size l_block (u64 (lsize + rsize + METAINFO_SIZE)).

Definition free_block (block : Z) : M heap unit :=
  set_left_border_marker block FREE ;;
  size <- get_size block ;;
  set_right_border_marker block size FREE.

Definition mysetup (buf size : Z) : M heap unit :=
  h <- make_block buf (u64 (size - METAINFO_SIZE)) FREE ;;
  modify (fun m => mk_heap (base m) (cells m) h).

Definition myalloc (size : Z) : M heap Z :=
  let real_size := u64 (size + METAINFO_SIZE) in
  block <- find_block real_size ;;
  if block =? 0 then ret 0
  else
    block_size <- get_size block ;;
    let old_block_new_size := u64 (block_size - real_size) in
    set_size block old_block_new_size ;;
    set_right_border_marker block old_block_new_size FREE ;;
    let offset := old_block_new_size / 8 + 1 in
    new_block <- make_block (block + offset) size ALLOCATED ;;
    add_next block new_block ;;
    ret new_block.

(** The conditions of [myfree], evaluated from left to right. *)
Definition left_is (flag : bool) (block : Z) : M heap bool :=
  m <- get_left_border_marker block ;; ret (Bool.eqb (m =? FREE) flag).
Definition right_is (flag : bool) (block : Z) : M heap bool :=
  m <- get_right_border_marker block ;; ret (Bool.eqb (m =? FREE) flag).
Definition and_then (a b : M heap bool) : M heap bool := x <- a ;; if x then b else ret false.
Definition or_else (a b : M heap bool) : M heap bool := x <- a ;; if x then ret true else b.

Definition myfree (p : Z) : M heap unit :=
  if p =? 0 then ret tt
  else
    done <- or_else (right_is true p) (left_is true p) ;;
    if (done : bool) then ret tt
    else
      prev <- get_prev_block_ptr p ;;
      next <- get_next_block_ptr p ;;
      if (prev =? 0) && (next =? 0) then free_block p
      else if negb (prev =? 0) && (next =? 0) then
        m <- right_is true prev ;;
        if (m : bool) then merge_blocks prev p else free_block p
      else if (prev =? 0) && negb (next =? 0) then
        m <- left_is true next ;;
        if (m : bool) then merge_blocks p next else free_block p
      else
        both <- and_then (left_is true prev) (left_is true next) ;;
        if (both : bool) then merge_blocks p next ;; merge_blocks prev p
        else
          before <- and_then (left_is true prev) (left_is false next) ;;
          if (before : bool) then merge_blocks prev p
          else
            after <- and_then (left_is false prev) (left_is true next) ;;
            if (after : bool) then merge_blocks p next else free_block p.

(** The numbers [print_list] writes, in full. *)
Fixpoint print_rounds (fuel : nat) (cur_block : Z) : M heap (list (Z * Z * Z)) :=
  match fuel with
  | O => fail NoFuel
  | S fuel =>
      cur_block_size <- get_size cur_block ;;
      cur_block_status <- get_left_border_marker cur_block ;;
      cur_block_status_r <- get_right_border_marker cur_block ;;
      cur_block <- get_next_block_ptr cur_block ;;
      rest <- (if negb (cur_block =? 0) then print_rounds fuel cur_block else ret []) ;;
      ret ((cur_block_size, cur_block_status, cur_block_status_r) :: rest)
  end.

Definition print_list : M heap (list (Z * Z * Z)) :=
  cur_block <- gets head ;;
  fuel <- gets (fun h => length (cells h)) ;;
  print_rounds fuel cur_block.

Definition get_offset_mask (bytes : Z) : Z :=
  match bytes with
  | 1 => 0x00FFFFFFFFFFFFFF
  | 2 => 0x0000FFFFFFFFFFFF
  | 3 => 0x000000FFFFFFFFFF
  | 4 => 0x00000000FFFFFFFF
  | 5 => 0x0000000000FFFFFF
  | 6 => 0x000000000000FFFF
  | _ => 0x00000000000000FF
  end.

(** The cells from [cur_ptr] to [end_chunk_ptr]. *)
Fixpoint zero_cells (n : nat) (cur_ptr : Z) : M heap Z :=
  match n with
  | O => ret cur_ptr
  | S n => store cur_ptr 0 ;; zero_cells n (cur_ptr + 1)
  end.

Definition setzero (ptr bytes_cnt : Z) : M heap unit :=
  let intpart_size := bytes_cnt / 8 * 8 in
  let otherpart_size := bytes_cnt - intpart_size in
  cur_ptr <- zero_cells (Z.to_nat (intpart_size / 8)) ptr ;;
  if negb (otherpart_size =? 0) then
    v <- load cur_ptr ;; store cur_ptr (Z.land v (get_offset_mask otherpart_size))
  else ret tt.

Definition mycalloc (numitems size : Z) : M heap Z :=
  let bytes_cnt := u64 (numitems * size) in
  raw_chunk <- myalloc bytes_cnt ;;
  if raw_chunk =? 0 then ret 0
  else setzero raw_chunk bytes_cnt ;; ret raw_chunk.


(** ** Computations that agree *)

(** Two computations with the same results and faults on every memory.  Binds
    respect it, so equivalences of parts lift to equivalences of wholes. *)
Definition meq {A} (m m' : M heap A) : Prop := forall h, m h = m' h.

#[export] Instance meq_equiv A : Equivalence (@meq A).
Proof. split; [done|by intros m m' H h|intros m1 m2 m3 H1 H2 h; by rewrite H1, H2]. Qed.

#[export] Instance bind_proper A B :
  Proper (meq ==> pointwise_relation A meq ==> meq) (@bind heap A B).
Proof.
  intros m m' Hm k k' Hk h. unfold bind. rewrite Hm. destruct (m' h) as [[a s]|]; [apply Hk|done].
Qed.

Lemma meq_assoc {A B C} (m : M heap A) (k : A -> M heap B) (f : B -> M heap C) :
  meq (bind (bind m k) f) (bind m (fun a => bind (k a) f)).
Proof. intros h. apply bind_assoc. Qed.

(** Reading does not change the memory, so a value read twice is the same. *)
Definition reads {A} (m : M heap A) : Prop := forall h, (exists a, m h = Ok (a, h)) \/ (exists f, m h = Fault f).

Lemma reads_load p : reads (load p).
Proof.
  intros h. unfold load. destruct (cell_index h p); simpl; [|eauto].
  destruct (cells h !! a); eauto.
Qed.

Lemma reads_twice {A B} (m : M heap A) (k : A -> A -> M heap B) :
  reads m -> meq (bind m (fun a => bind m (fun b => k a b))) (bind m (fun a => k a a)).
Proof.
  intros Hm h. unfold bind. destruct (Hm h) as [[a E]|[f E]]; rewrite E; [by rewrite E|done].
Qed.

(** ** The parts *)

Lemma find_rounds_eq fuel : forall b size, meq (find_rounds fuel b size) (find_loop fuel b size).
Proof.
  induction fuel as [|fuel IH]; intros b size; [done|]. cbn [find_rounds find_loop].
  do 3 (apply bind_proper; [done|intros ?]). destruct (size <? _); [done|].
  apply bind_proper; [done|]. intros n. destruct (n =? 0); [done|apply IH].
Qed.

Lemma find_block_eq size : meq (find_block size) (hd <- gets head ;; find_chunk hd size).
Proof. do 2 (apply bind_proper; [done|intros ?]). apply find_rounds_eq. Qed.

Lemma add_next_eq l r : meq (add_next l r) (Alloc.add_next l r).
Proof. apply bind_proper; [done|]. intros n. apply bind_proper; [by destruct (n =? 0)|done]. Qed.

Lemma merge_blocks_eq l r : meq (merge_blocks l r) (merge_chunks l r).
Proof.
  do 3 (apply bind_proper; [done|intros ?]). apply bind_proper; [|done]. by destruct (_ =? 0).
Qed.

Lemma zero_cells_eq n : forall p, meq (zero_cells n p) (zero_loop n p).
Proof. induction n as [|n IH]; intros p; [done|]. apply bind_proper; [done|]. intros []. apply IH. Qed.

Lemma setzero_eq p n : meq (setzero p n) (Alloc.setzero p n).
Proof.
  unfold setzero, Alloc.setzero. apply bind_proper; [apply zero_cells_eq|]. intros c. by destruct (_ =? 0).
Qed.

Lemma myalloc_eq size : meq (myalloc size) (Alloc.myalloc size).
Proof.
  unfold myalloc, Alloc.myalloc. rewrite find_block_eq, meq_assoc. do 2 (apply bind_proper; [done|intros ?]).
  destruct (_ =? 0); [done|]. do 4 (apply bind_proper; [done|intros ?]).
  apply bind_proper; [apply add_next_eq|done].
Qed.

(** A condition on two markers, on a memory where both can be read or not. *)
Lemma and_then_left f1 f2 prev next h :
  and_then (left_is f1 prev) (left_is f2 next) h =
  match Alloc.get_left_border_marker prev h with
  | Ok (lp, _) =>
      if Bool.eqb (lp =? Alloc.FREE) f1 then
        match Alloc.get_left_border_marker next h with
        | Ok (ln, _) => Ok (Bool.eqb (ln =? Alloc.FREE) f2, h)
        | Fault f => Fault f
        end
      else Ok (false, h)
  | Fault f => Fault f
  end.
Proof.
  unfold and_then, left_is, bind, ret. change FREE with Alloc.FREE.
  change (get_left_border_marker prev h) with (Alloc.get_left_border_marker prev h).
  destruct (reads_load (prev - Alloc.L_BORDER_MARKER_OFFSET) h) as [[lp E]|[f E]];
    fold (Alloc.get_left_border_marker prev) in E; rewrite E; [|done].
  destruct (Bool.eqb (lp =? Alloc.FREE) f1); [|done].
  change (get_left_border_marker next h) with (Alloc.get_left_border_marker next h).
  destruct (reads_load (next - Alloc.L_BORDER_MARKER_OFFSET) h) as [[ln E']|[f E']];
    fold (Alloc.get_left_border_marker next) in E'; by rewrite E'.
Qed.

(** The last case of [Alloc.myfree]: the markers of both neighbours, read once. *)
Lemma neighbours_eq prev next p :
  meq (both <- and_then (left_is true prev) (left_is true next) ;;
       if (both : bool) then merge_blocks p next ;; merge_blocks prev p
       else
         before <- and_then (left_is true prev) (left_is false next) ;;
         if (before : bool) then merge_blocks prev p
         else
           after <- and_then (left_is false prev) (left_is true next) ;;
           if (after : bool) then merge_blocks p next else free_block p)
      (lp <- Alloc.get_left_border_marker prev ;;
       ln <- Alloc.get_left_border_marker next ;;
       if (lp =? Alloc.FREE) && (ln =? Alloc.FREE) then merge_chunks p next ;; merge_chunks prev p
       else if (lp =? Alloc.FREE) && negb (ln =? Alloc.FREE) then merge_chunks prev p
       else if negb (lp =? Alloc.FREE) && (ln =? Alloc.FREE) then merge_chunks p next
       else free_chunk p).
Proof.
  intros h. assert (Hm : forall a b, merge_blocks a b h = merge_chunks a b h) by (intros; apply merge_blocks_eq).
  assert (Hmm : (merge_blocks p next ;; merge_blocks prev p) h = (merge_chunks p next ;; merge_chunks prev p) h)
    by (apply bind_proper; [apply merge_blocks_eq|intros ?; apply merge_blocks_eq]).
  assert (Hc := fun f1 f2 => and_then_left f1 f2 prev next h).
  destruct (reads_load (prev - Alloc.L_BORDER_MARKER_OFFSET) h) as [[lp Ep]|[f Ep]];
    fold (Alloc.get_left_border_marker prev) in Ep; rewrite Ep in Hc.
  2: { rewrite (bind_fault _ _ _ _ (Hc true true)). by rewrite (bind_fault _ _ _ _ Ep). }
  destruct (reads_load (next - Alloc.L_BORDER_MARKER_OFFSET) h) as [[ln En]|[f En]];
    fold (Alloc.get_left_border_marker next) in En; rewrite En in Hc; run Ep.
  - run En. destruct (lp =? Alloc.FREE) eqn:E1, (ln =? Alloc.FREE) eqn:E2; cbn [andb negb].
    + run (Hc true true). done.
    + run (Hc true true). cbn. run (Hc true false). apply Hm.
    + run (Hc true true). cbn. run (Hc true false). cbn. run (Hc false true). apply Hm.
    + run (Hc true true). cbn. run (Hc true false). cbn. run (Hc false true). done.
  - rewrite (bind_fault _ _ _ _ En). destruct (lp =? Alloc.FREE) eqn:E1.
    + by rewrite (bind_fault _ _ _ _ (Hc true true)).
    + run (Hc true true). cbn. run (Hc true false). cbn. by rewrite (bind_fault _ _ _ _ (Hc false true)).
Qed.

Lemma myfree_eq p : meq (myfree p) (Alloc.myfree p).
Proof.
  unfold myfree, Alloc.myfree. destruct (p =? 0); [done|]. unfold or_else. rewrite meq_assoc.
  unfold right_is at 1. rewrite meq_assoc. apply bind_proper; [done|]. intros r.
  intros h. rewrite bind_ret_l. change FREE with Alloc.FREE. destruct (r =? Alloc.FREE); cbn [Bool.eqb]; [done|].
  unfold left_is at 1. rewrite bind_assoc. revert h. apply bind_proper; [done|]. intros l h.
  rewrite bind_ret_l. change FREE with Alloc.FREE. destruct (l =? Alloc.FREE); cbn [Bool.eqb]; [done|]. revert h.
  do 2 (apply bind_proper; [done|intros ?]). destruct (_ =? 0), (_ =? 0); cbn [andb negb].
  - done.
  - intros h. unfold left_is. rewrite bind_assoc. revert h. apply bind_proper; [done|]. intros m h.
    rewrite bind_ret_l. change FREE with Alloc.FREE. destruct (m =? Alloc.FREE); [apply merge_blocks_eq|done].
  - intros h. unfold right_is. rewrite bind_assoc. revert h. apply bind_proper; [done|]. intros m h.
    rewrite bind_ret_l. change FREE with Alloc.FREE. destruct (m =? Alloc.FREE); [apply merge_blocks_eq|done].
  - apply neighbours_eq.
Qed.

(** What is left of a row of the listing when it is printed with %d. *)
Definition as_ints (row : Z * Z * Z) : Z * Z * Z :=
  let '(size, l, r) := row in (i32 size, i32 l, i32 r).

Lemma print_rounds_eq fuel : forall b,
  meq (rows <- print_rounds fuel b ;; ret (map as_ints rows)) (print_loop fuel b).
Proof.
  induction fuel as [|fuel IH]; intros b; [done|]. cbn [print_rounds print_loop]. intros h.
  do 4 (rewrite bind_assoc; revert h; apply bind_proper; [done|intros ? h]).
  destruct (_ =? 0); cbn [negb]; [done|].
  match goal with |- context [print_loop fuel ?b] => pose proof (IH b h) as E end.
  unfold bind in E |- *. rewrite <- E. by destruct (print_rounds _ _ h) as [[rows h']|].
Qed.

(** ** The property *)

(** C23: the C++ version of the allocator is the C version.  Setting up,
    allocating, allocating zeroed memory and releasing give the same result,
    the same memory afterwards and the same faults, from every memory.  Listing
    visits the same chunks, with the same faults, and reads the same sizes and
    markers; the C++ version prints them in full, the C version with %d, that
    is, their low 32 bits as an [int] (the words around the numbers, which
    differ, are not part of this). *)
Theorem cpp_allocator_equivalent h :
  (forall buf size, mysetup buf size h = Alloc.mysetup buf size h) /\
  (forall size, myalloc size h = Alloc.myalloc size h) /\
  (forall numitems size, mycalloc numitems size h = Alloc.mycalloc numitems size h) /\
  (forall p, myfree p h = Alloc.myfree p h) /\
  Alloc.print_list (head h) h = (let? (rows, h') := print_list h in Ok (map as_ints rows, h')).
Proof.
  split_and!.
  - done.
  - intros size. apply myalloc_eq.
  - intros numitems size. apply bind_proper; [apply myalloc_eq|]. intros p.
    destruct (p =? 0); [done|]. apply bind_proper; [apply setzero_eq|done].
  - intros p. apply myfree_eq.
  - symmetry. exact (print_rounds_eq _ (head h) h).
Qed.
