(* ===== verification/SharedPtr.v ===== *)
(** * SharedPtr: reference-counted ownership

    Models the class [SharedPtr] of [src/c++/shared_ptr.cpp].  The store holds
    the expressions that are alive, the counters allocated with [new], and the
    smart pointers that exist, by name.  Reading a counter or deleting an
    object that is not alive is a fault. *)

From S2P Require Import Prelude CInt.
Open Scope Z_scope.

Record shared := mk_shared { ptr_ : Z; obj_counter_ : Z }.

Record store := mk_store {
  objects : gset Z;
  counters : gmap Z Z;
  handles : gmap Z shared
}.

(** ** Access *)

Definition counter_at (c : Z) : M store Z := fun s =>
  if c =? 0 then Fault NullDeref
  else match counters s !! c with Some n => Ok (n, s) | None => Fault Dangling end.

Definition set_counter (c n : Z) : M store unit := fun s =>
  if c =? 0 then Fault NullDeref
  else match counters s !! c with
       | Some _ => Ok (tt, mk_store (objects s) (<[c := n]> (counters s)) (handles s))
       | None => Fault Dangling
       end.

(** [delete ptr_]: the virtual destructor ends the object. *)
Definition delete_object (p : Z) : M store unit := fun s =>
  if p =? 0 then Ok (tt, s)
  else if decide (p ∈ objects s) then Ok (tt, mk_store (objects s ∖ {[p]}) (counters s) (handles s))
  else Fault Dangling.

Definition delete_counter (c : Z) : M store unit := fun s =>
  match counters s !! c with
  | Some _ => Ok (tt, mk_store (objects s) (delete c (counters s)) (handles s))
  | None => Fault Dangling
  end.

(** [new size_t] answers the address [c]. *)
Definition new_counter (c : Z) : M store unit :=
  modify (fun s => mk_store (objects s) (<[c := 0]> (counters s)) (handles s)).

Definition handle_at (h : Z) : M store shared := fun s =>
  match handles s !! h with Some x => Ok (x, s) | None => Fault Dangling end.

Definition set_handle (h : Z) (x : shared) : M store unit :=
  modify (fun s => mk_store (objects s) (counters s) (<[h := x]> (handles s))).

Definition end_handle (h : Z) : M store unit :=
  modify (fun s => mk_store (objects s) (counters s) (delete h (handles s))).

Definition cnt_increment (c : Z) : M store unit := n <- counter_at c ;; set_counter c (u64 (n + 1)).
Definition cnt_decrement (c : Z) : M store unit := n <- counter_at c ;; set_counter c (u64 (n - 1)).
Definition cnt_init (c : Z) : M store unit := set_counter c 1.

(** ** The members *)

Definition get (x : shared) : Z := ptr_ x.
Definition get_current_obj_count (x : shared) : Z := obj_counter_ x.

(** The explicit constructor. *)
Definition construct (h ptr c : Z) : M store unit :=
  new_counter c ;;
  cnt_init c ;;
  set_handle h (mk_shared ptr c).

(** The copy constructor. *)
Definition copy_construct (h src : Z) : M store unit :=
  x <- handle_at src ;;
  set_handle h (mk_shared (get x) (get_current_obj_count x)) ;;
  cnt_increment (get_current_obj_count x).

(** What the destructor, [reset] and the assignment do first. *)
Definition release (x : shared) : M store unit :=
  cnt_decrement (obj_counter_ x) ;;
  n <- counter_at (obj_counter_ x) ;;
  if n =? 0 then delete_object (ptr_ x) ;; delete_counter (obj_counter_ x) else ret tt.

Definition destruct_ (h : Z) : M store unit :=
  x <- handle_at h ;;
  release x ;;
  end_handle h.

Definition reset (h ptr c : Z) : M store unit :=
  x <- handle_at h ;;
  release x ;;
  new_counter c ;;
  cnt_init c ;;
  set_handle h (mk_shared ptr c).

Definition assign (h src : Z) : M store unit :=
  if negb (h =? src) then
    x <- handle_at h ;;
    release x ;;
    y <- handle_at src ;;
    set_handle h (mk_shared (get y) (get_current_obj_count y)) ;;
    cnt_increment (get_current_obj_count y)
  else ret tt.

(** [operator*] and [operator->] followed by an access to the object. *)
Definition deref (h : Z) : M store Z :=
  x <- handle_at h ;;
  if ptr_ x =? 0 then fail NullDeref
  else ok <- gets (fun s => bool_decide (ptr_ x ∈ objects s)) ;;
       if (ok : bool) then ret (ptr_ x) else fail Dangling.

(** ** Programs *)

(** What a client does.  A raw pointer is handed over once, when the object has
    just been created: [p] is a new object, or null. *)
Inductive op :=
| New (h p c : Z)
| Copy (h src : Z)
| Drop (h : Z)
| Reset (h p c : Z)
| Assign (h src : Z).

(** [p = new Number(..)] *)
Definition new_object (p : Z) : M store unit :=
  if p =? 0 then ret tt
  else modify (fun s => mk_store ({[p]} ∪ objects s) (counters s) (handles s)).

Definition exec (o : op) : M store unit :=
  match o with
  | New h p c => new_object p ;; construct h p c
  | Copy h src => copy_construct h src
  | Drop h => destruct_ h
  | Reset h p c => new_object p ;; reset h p c
  | Assign h src => assign h src
  end.

(** The rules of the language: a variable is constructed once and used while it
    exists, and [new] answers an address that is not in use when it is called;
    in [reset] the object comes before the release and the counter after it. *)
Definition allowed (o : op) (s : store) : Prop :=
  match o with
  | New h p c => handles s !! h = None /\ ~ (p ∈ objects s) /\ c <> 0 /\ counters s !! c = None
  | Copy h src => handles s !! h = None /\ is_Some (handles s !! src)
  | Drop h => is_Some (handles s !! h)
  | Reset h p c => is_Some (handles s !! h) /\ ~ (p ∈ objects s) /\ c <> 0 /\
      forall x s', handles s !! h = Some x -> release x s = Ok (tt, s') -> counters s' !! c = None
  | Assign h src => is_Some (handles s !! h) /\ is_Some (handles s !! src)
  end.

(** A handle takes sixteen bytes, so an address space has room for this many. *)
Definition fits (s : store) : Prop := Z.of_nat (base.size (handles s)) < 2 ^ 60.

Inductive reachable : store -> Prop :=
| reach_start : reachable (mk_store ∅ ∅ ∅)
| reach_step s o s' : reachable s -> allowed o s -> fits s -> exec o s = Ok (tt, s') -> reachable s'.

(** ** The invariant *)

Definition uses (hs : gmap Z shared) (c : Z) : gmap Z shared := filter (fun kv => obj_counter_ (snd kv) = c) hs.

Definition count (hs : gmap Z shared) (c : Z) : Z := Z.of_nat (base.size (uses hs c)).

Record inv (s : store) : Prop := mk_inv {
  inv_counter : forall c n, counters s !! c = Some n -> c <> 0 /\ n = count (handles s) c /\ 0 < n;
  inv_handle : forall h x, handles s !! h = Some x -> is_Some (counters s !! obj_counter_ x);
  inv_share : forall h1 x1 h2 x2, handles s !! h1 = Some x1 -> handles s !! h2 = Some x2 ->
    (obj_counter_ x1 = obj_counter_ x2 -> ptr_ x1 = ptr_ x2) /\
    (ptr_ x1 = ptr_ x2 -> ptr_ x1 <> 0 -> obj_counter_ x1 = obj_counter_ x2);
  inv_object : forall p, p ∈ objects s <-> p <> 0 /\ exists h x, handles s !! h = Some x /\ ptr_ x = p
}.

(** Counting handles. *)
Lemma count_insert hs h x c :
  hs !! h = None -> count (<[h := x]> hs) c = count hs c + (if obj_counter_ x =? c then 1 else 0).
Proof.
  intros Hh. unfold count, uses. destruct (Z.eqb_spec (obj_counter_ x) c) as [E|E].
  - rewrite map_filter_insert_True by done. rewrite map_size_insert_None; [lia|].
    apply map_lookup_filter_None. by left.
  - rewrite map_filter_insert_False, delete_id by done. lia.
Qed.

Lemma count_delete hs h x c :
  hs !! h = Some x -> count (delete h hs) c = count hs c - (if obj_counter_ x =? c then 1 else 0).
Proof.
  intros Hh. rewrite <- (insert_delete_id hs h x) at 2 by done.
  rewrite count_insert by apply lookup_delete_eq. lia.
Qed.

Lemma count_pos hs h x : hs !! h = Some x -> 0 < count hs (obj_counter_ x).
Proof.
  intros Hh. rewrite <- (insert_delete_id hs h x) by done. rewrite count_insert by apply lookup_delete_eq.
  rewrite Z.eqb_refl. unfold count. lia.
Qed.

Lemma count_zero hs c : count hs c = 0 -> forall h x, hs !! h = Some x -> obj_counter_ x <> c.
Proof. intros Hc h x Hh <-. apply count_pos in Hh. lia. Qed.

Lemma count_le hs c : count hs c <= Z.of_nat (base.size hs).
Proof. unfold count, uses. apply Nat2Z.inj_le, map_subseteq_size, map_filter_subseteq. Qed.

(** ** The steps of the invariant *)

Lemma counter_run s c n : c <> 0 -> counters s !! c = Some n -> counter_at c s = Ok (n, s).
Proof. intros Hc Hn. unfold counter_at. rewrite (proj2 (Z.eqb_neq _ _)) by done. by rewrite Hn. Qed.

Lemma set_counter_run s c n m :
  c <> 0 -> counters s !! c = Some n ->
  set_counter c m s = Ok (tt, mk_store (objects s) (<[c := m]> (counters s)) (handles s)).
Proof. intros Hc Hn. unfold set_counter. rewrite (proj2 (Z.eqb_neq _ _)) by done. by rewrite Hn. Qed.

Lemma count_witness hs c : 0 < count hs c -> exists h x, hs !! h = Some x /\ obj_counter_ x = c.
Proof.
  intros Hc. destruct (map_choose (uses hs c)) as (h & x & Hx).
  - intros E. unfold count in Hc. rewrite E, map_size_empty in Hc. lia.
  - apply map_lookup_filter_Some in Hx as [? ?]. eauto.
Qed.

(** The last handle of an object goes, and the object and the counter with it. *)
Lemma inv_last s h x :
  inv s -> handles s !! h = Some x -> count (handles s) (obj_counter_ x) = 1 ->
  inv (mk_store (objects s ∖ {[ptr_ x]}) (delete (obj_counter_ x) (counters s)) (delete h (handles s))).
Proof.
  intros Hi Hh H1. set (c := obj_counter_ x) in *.
  assert (Hother : forall h' y, delete h (handles s) !! h' = Some y -> handles s !! h' = Some y /\ obj_counter_ y <> c).
  { intros h' y Hy. split; [by apply lookup_delete_Some in Hy as [_ ?]|].
    apply (count_zero (delete h (handles s))) with (h := h'); [|done].
    rewrite (count_delete _ _ x) by done. subst c. rewrite Z.eqb_refl. lia. }
  constructor; cbn [objects counters handles].
  - intros c' n' Hc'. apply lookup_delete_Some in Hc' as [Hne Hc'].
    destruct (inv_counter _ Hi _ _ Hc') as (? & -> & ?). split; [done|]. split; [|done].
    rewrite (count_delete _ _ x) by done. fold c. rewrite (proj2 (Z.eqb_neq c c')) by done. lia.
  - intros h' y Hy. apply Hother in Hy as [Hy Hyc]. rewrite lookup_delete_ne by done. by apply (inv_handle _ Hi h').
  - intros h1 x1 h2 x2 E1 E2. apply Hother in E1 as [E1 _], E2 as [E2 _]. by apply (inv_share _ Hi h1 x1 h2 x2).
  - intros q. rewrite elem_of_difference, elem_of_singleton, (inv_object _ Hi). split.
    + intros ((Hq & h' & y & Hy & <-) & Hne). split; [done|]. exists h', y. split; [|done].
      rewrite lookup_delete_ne; [done|]. intros ->. by simplify_eq.
    + intros (Hq & h' & y & Hy & <-). apply Hother in Hy as [Hy Hyc]. split; [by eauto|].
      intros E. apply Hyc. by apply (inv_share _ Hi h' y h x).
Qed.

(** A handle goes and others keep the object. *)
Lemma inv_more s h x n :
  inv s -> handles s !! h = Some x -> n = count (handles s) (obj_counter_ x) -> 1 < n -> obj_counter_ x <> 0 ->
  inv (mk_store (objects s) (<[obj_counter_ x := n - 1]> (counters s)) (delete h (handles s))).
Proof.
  intros Hi Hh Hn Hmore Hc0. set (c := obj_counter_ x) in *.
  assert (Hdel : count (delete h (handles s)) c = n - 1).
  { rewrite (count_delete _ _ x) by done. subst c. rewrite Z.eqb_refl. lia. }
  constructor; cbn [objects counters handles].
  - intros c' n'. destruct (decide (c' = c)) as [->|Hne].
    + rewrite lookup_insert_eq. intros [= <-]. split_and!; [done|done|lia].
    + rewrite lookup_insert_ne by done. intros Hc'. destruct (inv_counter _ Hi _ _ Hc') as (? & -> & ?).
      split; [done|]. split; [|done]. rewrite (count_delete _ _ x) by done. fold c.
      rewrite (proj2 (Z.eqb_neq c c')) by done. lia.
  - intros h' y [_ Hy]%lookup_delete_Some. destruct (decide (obj_counter_ y = c)) as [->|Hne].
    + rewrite lookup_insert_eq. eauto.
    + rewrite lookup_insert_ne by done. by apply (inv_handle _ Hi h').
  - intros h1 x1 h2 x2 [_ E1]%lookup_delete_Some [_ E2]%lookup_delete_Some. by apply (inv_share _ Hi h1 x1 h2 x2).
  - intros q. rewrite (inv_object _ Hi). split; [|by intros (Hq & h' & y & [_ Hy]%lookup_delete_Some & Hp); eauto].
    intros (Hq & h' & y & Hy & <-). split; [done|]. destruct (decide (h' = h)) as [->|Hne].
    + assert (y = x) as -> by congruence. destruct (count_witness (delete h (handles s)) c) as (h2 & z & Hz & Hzc); [lia|].
      exists h2, z. split; [done|]. apply lookup_delete_Some in Hz as [_ Hz].
      by apply (inv_share _ Hi h2 z h x).
    + exists h', y. split; [by rewrite lookup_delete_ne|done].
Qed.

(** A handle gives up its share: the object goes with the last one. *)
Lemma release_inv s h x :
  inv s -> handles s !! h = Some x -> Z.of_nat (base.size (handles s)) < 2 ^ 64 ->
  exists objs ctrs, release x s = Ok (tt, mk_store objs ctrs (handles s)) /\
    inv (mk_store objs ctrs (delete h (handles s))) /\
    (forall p, p ∈ objs -> p ∈ objects s) /\ (forall c, counters s !! c = None -> ctrs !! c = None).
Proof.
  intros Hi Hh Hsz. destruct (inv_handle _ Hi h x Hh) as [n Hn].
  destruct (inv_counter _ Hi _ _ Hn) as (Hc0 & Hcn & Hpos). pose proof (count_le (handles s) (obj_counter_ x)).
  set (c := obj_counter_ x) in *. unfold release, cnt_decrement. rewrite bind_assoc. fold c.
  run (counter_run s c n Hc0 Hn). run (set_counter_run s c n (u64 (n - 1)) Hc0 Hn).
  rewrite u64_small by lia. run (counter_run _ c (n - 1) Hc0 (lookup_insert_eq _ _ _)).
  destruct (Z.eqb_spec (n - 1) 0) as [Hlast|Hmore].
  - exists (objects s ∖ {[ptr_ x]}), (delete c (counters s)). split; [|split; [|split]].
    + unfold delete_object. destruct (Z.eqb_spec (ptr_ x) 0) as [E0|E0]; cbn [objects].
      * assert (Hno : ~ (0 ∈ objects s)) by (rewrite (inv_object _ Hi); naive_solver).
        unfold bind, delete_counter. cbn [counters objects handles]. rewrite lookup_insert_eq, delete_insert_eq.
        do 3 f_equal. rewrite E0. set_solver.
      * assert (Hp : ptr_ x ∈ objects s) by (apply (inv_object _ Hi); eauto).
        unfold bind. rewrite decide_True by done. unfold delete_counter. cbn [counters objects handles].
        by rewrite lookup_insert_eq, delete_insert_eq.
    + apply inv_last; [done..|fold c; lia].
    + set_solver.
    + intros c' Hc'. by rewrite lookup_delete_None; right.
  - exists (objects s), (<[c := n - 1]> (counters s)). split; [done|]. split; [|split].
    + apply inv_more; [done..|lia|done].
    + done.
    + intros c' Hc'. rewrite lookup_insert_ne; [done|]. intros <-. congruence.
Qed.

(** Another handle takes a share. *)
Lemma adopt_inv s h src y :
  inv s -> handles s !! h = None -> handles s !! src = Some y -> Z.of_nat (base.size (handles s)) < 2 ^ 64 - 1 ->
  exists n, counters s !! obj_counter_ y = Some n /\ obj_counter_ y <> 0 /\ u64 (n + 1) = n + 1 /\
    inv (mk_store (objects s) (<[obj_counter_ y := n + 1]> (counters s))
           (<[h := mk_shared (ptr_ y) (obj_counter_ y)]> (handles s))).
Proof.
  intros Hi Hh Hy Hsz. destruct (inv_handle _ Hi _ _ Hy) as [n Hn].
  destruct (inv_counter _ Hi _ _ Hn) as (Hc0 & Hcn & Hpos). pose proof (count_le (handles s) (obj_counter_ y)).
  set (c := obj_counter_ y) in *. exists n. split; [done|]. split; [done|]. split; [apply u64_small; lia|].
  assert (Hold : forall h1 x1, <[h := mk_shared (ptr_ y) c]> (handles s) !! h1 = Some x1 ->
    exists h', handles s !! h' = Some (mk_shared (ptr_ x1) (obj_counter_ x1))).
  { intros h1 x1. destruct (decide (h1 = h)) as [->|Hne].
    - rewrite lookup_insert_eq. intros [= <-]. exists src. rewrite Hy. by destruct y.
    - rewrite lookup_insert_ne by done. intros E. exists h1. rewrite E. by destruct x1. }
  constructor; cbn [objects counters handles].
  - intros c' n'. rewrite count_insert by done. cbn [obj_counter_]. destruct (decide (c' = c)) as [->|Hne].
    + rewrite lookup_insert_eq, Z.eqb_refl. intros [= <-]. split_and!; [done|lia|lia].
    + rewrite lookup_insert_ne by done. rewrite (proj2 (Z.eqb_neq c c')) by done. rewrite Z.add_0_r.
      apply (inv_counter _ Hi).
  - intros h' z Hz. apply Hold in Hz as [h2 Hz]. apply (inv_handle _ Hi) in Hz. cbn in Hz.
    destruct (decide (obj_counter_ z = c)) as [->|Hne]; [rewrite lookup_insert_eq; eauto|by rewrite lookup_insert_ne].
  - intros h1 x1 h2 x2 E1 E2. apply Hold in E1 as [h1' E1], E2 as [h2' E2]. apply (inv_share _ Hi _ _ _ _ E1 E2).
  - intros q. rewrite (inv_object _ Hi). split.
    + intros (Hq & h' & z & Hz & <-). split; [done|]. exists h', z. split; [|done].
      rewrite lookup_insert_ne; [done|]. congruence.
    + intros (Hq & h' & z & Hz & <-). split; [done|]. apply Hold in Hz as [h2 Hz]. eauto.
Qed.

(** A new object with a new counter. *)
Lemma fresh_inv s h p c :
  inv s -> handles s !! h = None -> ~ (p ∈ objects s) -> c <> 0 -> counters s !! c = None ->
  inv (mk_store (if p =? 0 then objects s else {[p]} ∪ objects s) (<[c := 1]> (counters s))
         (<[h := mk_shared p c]> (handles s))).
Proof.
  intros Hi Hh Hp Hc0 Hc.
  assert (Hnone : forall h' x, handles s !! h' = Some x -> obj_counter_ x <> c /\ (p <> 0 -> ptr_ x <> p)).
  { intros h' x Hx. split.
    - intros E. destruct (inv_handle _ Hi _ _ Hx) as [n Hn]. congruence.
    - intros Hp0 E. apply Hp, (inv_object _ Hi). eauto. }
  assert (Hc0' : count (handles s) c = 0).
  { destruct (decide (count (handles s) c = 0)); [done|]. exfalso.
    destruct (count_witness (handles s) c) as (h' & x & Hx & E); [unfold count in *; lia|].
    by apply Hnone in Hx as [? _]. }
  constructor; cbn [objects counters handles].
  - intros c' n'. rewrite count_insert by done. cbn [obj_counter_]. destruct (decide (c' = c)) as [->|Hne].
    + rewrite lookup_insert_eq, Z.eqb_refl. intros [= <-]. split_and!; [done|lia|lia].
    + rewrite lookup_insert_ne by done. rewrite (proj2 (Z.eqb_neq c c')) by done. rewrite Z.add_0_r.
      apply (inv_counter _ Hi).
  - intros h' z. destruct (decide (h' = h)) as [->|Hne].
    + rewrite lookup_insert_eq. intros [= <-]. rewrite lookup_insert_eq. eauto.
    + rewrite lookup_insert_ne by done. intros Hz. pose proof (Hnone _ _ Hz) as [? _].
      rewrite lookup_insert_ne by done. by apply (inv_handle _ Hi h').
  - intros h1 x1 h2 x2. destruct (decide (h1 = h)) as [->|N1], (decide (h2 = h)) as [->|N2];
      rewrite ?lookup_insert_eq, ?lookup_insert_ne by done; intros E1 E2; simplify_eq/=.
    + done.
    + apply Hnone in E2 as [? ?]. naive_solver.
    + apply Hnone in E1 as [? ?]. naive_solver.
    + by apply (inv_share _ Hi h1 x1 h2 x2).
  - intros q. assert (Hq : q ∈ objects s <-> q <> 0 /\ exists h' x, handles s !! h' = Some x /\ ptr_ x = q)
      by apply (inv_object _ Hi).
    assert (Hex : (exists h' x, <[h := mk_shared p c]> (handles s) !! h' = Some x /\ ptr_ x = q) <->
      q = p \/ exists h' x, handles s !! h' = Some x /\ ptr_ x = q).
    { split.
      - intros (h' & x & Hx & <-). apply lookup_insert_Some in Hx as [[_ <-]|[_ Hx]]; [by left|right; eauto].
      - intros [->|(h' & x & Hx & <-)]; [exists h, (mk_shared p c); by rewrite lookup_insert_eq|].
        exists h', x. split; [|done]. rewrite lookup_insert_ne; [done|congruence]. }
    rewrite Hex. destruct (Z.eqb_spec p 0) as [->|Hp0]; set_solver.
Qed.

Ltac compute_store :=
  repeat first [match goal with H : counters _ !! _ = _ |- _ => rewrite H end | rewrite lookup_insert_eq
               | progress cbn [counters objects handles]].

(** Releasing a share leaves the objects it does not own alone. *)
Lemma release_frame x p s objs ctrs hs :
  ~ (p ∈ objects s) -> release x s = Ok (tt, mk_store objs ctrs hs) ->
  release x (mk_store ({[p]} ∪ objects s) (counters s) (handles s)) = Ok (tt, mk_store ({[p]} ∪ objs) ctrs hs).
Proof.
  intros Hp. unfold release, cnt_decrement, bind, counter_at, set_counter, delete_object, delete_counter, ret.
  compute_store. destruct (obj_counter_ x =? 0); [done|].
  destruct (counters s !! obj_counter_ x) as [n|] eqn:Hn; [|done]. compute_store.
  destruct (u64 (n - 1) =? 0); [|by intros; simplify_eq].
  destruct (Z.eqb_spec (ptr_ x) 0) as [E|E]; compute_store; [by intros; simplify_eq|].
  destruct (decide (ptr_ x ∈ objects s)) as [Hin|Hout]; [|done]. rewrite decide_True by set_solver.
  compute_store. intros; simplify_eq. do 3 f_equal. set_solver.
Qed.

Lemma handle_run s h x : handles s !! h = Some x -> handle_at h s = Ok (x, s).
Proof. unfold handle_at. by intros ->. Qed.

Lemma fresh_counter s c ptr h :
  c <> 0 ->
  (new_counter c ;; cnt_init c ;; set_handle h (mk_shared ptr c)) s =
    Ok (tt, mk_store (objects s) (<[c := 1]> (counters s)) (<[h := mk_shared ptr c]> (handles s))).
Proof.
  intros Hc. unfold new_counter, cnt_init, set_counter, set_handle, modify, bind.
  rewrite (proj2 (Z.eqb_neq _ _)) by done. cbn [counters objects handles].
  by rewrite lookup_insert_eq, insert_insert_eq.
Qed.

Lemma new_object_run s p :
  new_object p s = Ok (tt, mk_store (if p =? 0 then objects s else {[p]} ∪ objects s) (counters s) (handles s)).
Proof. unfold new_object, modify, ret. destruct (p =? 0); [by destruct s|done]. Qed.

(** Every operation the language allows succeeds and keeps the invariant. *)
Lemma op_keeps_inv o s : inv s -> fits s -> allowed o s -> exists s', exec o s = Ok (tt, s') /\ inv s'.
Proof.
  intros Hi Hf. unfold fits in Hf. destruct o as [h p c|h src|h|h p c|h src]; cbn [allowed exec].
  - intros (Hh & Hp & Hc0 & Hc). run (new_object_run s p). unfold construct. rewrite fresh_counter by done.
    eexists. split; [done|]. by apply (fresh_inv s).
  - intros (Hh & y & Hy). destruct (adopt_inv s h src y) as (n & Hn & Hc0 & Hu & Hi'); [done..|lia|].
    unfold copy_construct. run (handle_run s src y Hy).
    erewrite (bind_ok (set_handle _ _)); [|done]. unfold cnt_increment, get, get_current_obj_count.
    erewrite (bind_ok (counter_at _)); [|by apply counter_run]. rewrite Hu.
    erewrite set_counter_run by done. by eexists.
  - intros [x Hx]. destruct (release_inv s h x) as (objs & ctrs & Hr & Hi' & _); [done..|lia|].
    unfold destruct_. run (handle_run s h x Hx). run Hr. by eexists.
  - intros ([x Hx] & Hp & Hc0 & Hc). destruct (release_inv s h x) as (objs & ctrs & Hr & Hi' & Ho & _); [done..|lia|].
    specialize (Hc x _ Hx Hr). cbn [counters] in Hc.
    assert (Hr' : release x (mk_store (if p =? 0 then objects s else {[p]} ∪ objects s) (counters s) (handles s)) =
      Ok (tt, mk_store (if p =? 0 then objs else {[p]} ∪ objs) ctrs (handles s))).
    { destruct (p =? 0); [by destruct s|by apply release_frame]. }
    run (new_object_run s p). unfold reset. erewrite (bind_ok (handle_at _)); [|by apply handle_run].
    run Hr'. rewrite fresh_counter by done. eexists. split; [done|]. cbn [objects counters handles].
    rewrite <- (insert_delete_eq (handles s)).
    pose proof (fresh_inv (mk_store objs ctrs (delete h (handles s))) h p c) as F. cbn [objects counters handles] in F.
    apply F; [done|apply lookup_delete_eq|set_solver|done..].
  - intros ([x Hx] & y & Hy). unfold assign. destruct (Z.eqb_spec h src) as [->|Hne]; cbn [negb]; [by eexists|].
    destruct (release_inv s h x) as (objs & ctrs & Hr & Hi' & _); [done..|lia|].
    run (handle_run s h x Hx). run Hr. erewrite (bind_ok (handle_at _)); [|by apply handle_run].
    destruct (adopt_inv _ h src y Hi') as (n & Hn & Hc0 & Hu & Hi2); cbn [handles counters objects] in *.
    + apply lookup_delete_eq.
    + by rewrite lookup_delete_ne.
    + rewrite map_size_delete, Hx. lia.
    + erewrite (bind_ok (set_handle _ _)); [|done]. unfold cnt_increment, get, get_current_obj_count.
      erewrite (bind_ok (counter_at _)); [|by apply counter_run]. rewrite Hu.
      erewrite set_counter_run by done. eexists. split; [done|]. cbn [objects counters handles].
      by rewrite <- (insert_delete_eq (handles s)).
Qed.

Lemma start_inv : inv (mk_store ∅ ∅ ∅).
Proof.
  constructor; cbn [objects counters handles].
  - done.
  - done.
  - done.
  - intros p. split; [set_solver|]. intros (_ & h & x & Hx & _). by rewrite lookup_empty in Hx.
Qed.

Lemma program_inv s : reachable s -> inv s.
Proof.
  induction 1 as [|s o s' _ Hi Ha Hf He]; [apply start_inv|].
  destruct (op_keeps_inv o s Hi Hf Ha) as (s2 & E & H2). assert (s2 = s') as -> by congruence. done.
Qed.

Lemma deref_run s h x : inv s -> handles s !! h = Some x -> ptr_ x <> 0 -> deref h s = Ok (ptr_ x, s).
Proof.
  intros Hi Hh Hp. unfold deref. run (handle_run s h x Hh). rewrite (proj2 (Z.eqb_neq _ _)) by done.
  unfold gets, bind. rewrite bool_decide_true; [done|]. apply (inv_object _ Hi). eauto.
Qed.

(** C18: From every state a program that follows the rules of the language can
    reach, each construction, copy, destruction, [reset] and assignment of a
    [SharedPtr] succeeds: no counter or object is used or deleted after it was
    deleted.  Afterwards an object is alive exactly while some pointer holds it,
    so it is deleted with its last owner and never leaks; each counter is the
    number of pointers that share it; no counter outlives its owners; and every
    pointer that is not null can be dereferenced. *)
Theorem shared_ptr_safe s o :
  reachable s -> allowed o s -> fits s ->
  exists s', exec o s = Ok (tt, s') /\
    (forall p, p ∈ objects s' <-> p <> 0 /\ exists h x, handles s' !! h = Some x /\ ptr_ x = p) /\
    (forall h x, handles s' !! h = Some x ->
       counters s' !! obj_counter_ x = Some (count (handles s') (obj_counter_ x)) /\
       (ptr_ x <> 0 -> deref h s' = Ok (ptr_ x, s'))) /\
    (forall c, is_Some (counters s' !! c) -> exists h x, handles s' !! h = Some x /\ obj_counter_ x = c).
Proof.
  intros Hr Ha Hf. destruct (op_keeps_inv o s (program_inv s Hr) Hf Ha) as (s' & E & Hi).
  exists s'. split; [done|]. split; [apply (inv_object _ Hi)|]. split.
  - intros h x Hx. split; [|by apply deref_run].
    destruct (inv_handle _ Hi _ _ Hx) as [n Hn]. rewrite Hn. by destruct (inv_counter _ Hi _ _ Hn) as (_ & -> & _).
  - intros c [n Hn]. destruct (inv_counter _ Hi _ _ Hn) as (_ & -> & Hpos). by apply count_witness.
Qed.

(** The last owner of the object 16 is assigned another pointer: 16 goes. *)
Lemma shared_ptr_safe_witness :
  let s0 := mk_store ∅ ∅ ∅ in
  let s1 := mk_store {[16]} {[100 := 1]} {[1 := mk_shared 16 100]} in
  let s2 := mk_store {[16; 32]} {[100 := 1; 200 := 1]} {[1 := mk_shared 16 100; 2 := mk_shared 32 200]} in
  exists s3, exec (Assign 1 2) s2 = Ok (tt, s3) /\ ~ (16 ∈ objects s3) /\ 32 ∈ objects s3 /\
    counters s3 !! 200 = Some 2 /\ deref 1 s3 = Ok (32, s3).
Proof.
  intros s0 s1 s2.
  assert (R1 : reachable s1).
  { apply (reach_step s0 (New 1 16 100)); [constructor|by split_and!; vm_compute; try set_solver|by vm_compute|].
    by vm_compute. }
  assert (R2 : reachable s2).
  { apply (reach_step s1 (New 2 32 200)); [done|by split_and!; vm_compute; try set_solver|by vm_compute|].
    by vm_compute. }
  destruct (shared_ptr_safe s2 (Assign 1 2)) as (s3 & E & Hobj & Hh & _).
  - done.
  - by split; eexists.
  - by vm_compute.
  - exists s3. split; [done|].
    assert (E' : s3 = mk_store {[32]} {[200 := 2]} {[1 := mk_shared 32 200; 2 := mk_shared 32 200]}).
    { vm_compute in E |- *. by inversion E. }
    subst s3. split; [set_solver|]. split; [set_solver|]. split; [done|]. by apply (Hh 1 (mk_shared 32 200)).
Defined.
