(* ===== verification/Triangles.v ===== *)
(** * Triangles: counting the triangles of a graph

    Models [src/utils/math/graphs/find_triangle/find_triangle.cpp].  Vertices
    count from 1; the graph is a vector of adjacency lists.  For each vertex in
    turn its neighbours that have not had their turn are put in a queue and
    marked blue; then the neighbours of each of them are looked at, and those
    that are blue and not yet red complete a triangle.

    Vectors are accessed with their bounds checked.  The input is the list of
    numbers [std::cin] delivers. *)

From Stdlib Require Import Sorted.
From S2P Require Import Prelude CInt CBuf.
Open Scope Z_scope.

Record VertexColors := mk_colors { is_red : bool; is_blue : bool; is_black : bool }.

Abbreviation graph := (list (list Z)).

(** ** The count for one vertex *)

(** The first loop: [ws] is the rest of the neighbours. *)
Fixpoint push_loop (ws : list Z) (visited : list bool) (q : list Z) (vc : list VertexColors)
  : outcome (list Z * list VertexColors) :=
  match ws with
  | [] => Ok (q, vc)
  | w :: ws =>
      let? seen := load visited w in
      if negb seen then
        let? c := load vc w in
        let? vc := store vc w (mk_colors (is_red c) true (is_black c)) in
        push_loop ws visited (q ++ [w]) vc
      else push_loop ws visited q vc
  end.

(** The inner loop over the neighbours of a vertex taken from the queue. *)
Fixpoint colour_loop (ws : list Z) (visited : list bool) (vc : list VertexColors) (cnt : Z)
  : outcome (list VertexColors * Z) :=
  match ws with
  | [] => Ok (vc, cnt)
  | w :: ws =>
      let? c := load vc w in
      if negb (is_red c) then
        let? seen := load visited w in
        if negb seen then
          let? vc := store vc w (mk_colors (is_red c) (is_blue c) true) in
          let? c := load vc w in
          colour_loop ws visited vc (if is_black c && is_blue c then u64 (cnt + 1) else cnt)
        else colour_loop ws visited vc cnt
      else colour_loop ws visited vc cnt
  end.

(** [while (!q.empty())]; nothing is pushed in the loop. *)
Fixpoint queue_loop (g : graph) (q : list Z) (visited : list bool) (vc : list VertexColors) (cnt : Z)
  : outcome Z :=
  match q with
  | [] => Ok cnt
  | cur_vertex :: q =>
      let? c := load vc cur_vertex in
      let? vc := store vc cur_vertex (mk_colors true (is_blue c) (is_black c)) in
      let? ws := load g cur_vertex in
      let? (vc, cnt) := colour_loop ws visited vc cnt in
      queue_loop g q visited vc cnt
  end.

(** The colours are passed by value, [visited] by reference. *)
Definition trianglesCnt (g : graph) (vc : list VertexColors) (visited : list bool) (vertex : Z)
  : outcome (Z * list bool) :=
  let? c := load vc vertex in
  let? vc := store vc vertex (mk_colors true (is_blue c) (is_black c)) in
  let? visited := store visited vertex true in
  let? ws := load g vertex in
  let? (q, vc) := push_loop ws visited [] vc in
  let? cnt := queue_loop g q visited vc 0 in
  Ok (cnt, visited).

(** ** The program *)

(** [m] edges from the input. *)
Fixpoint read_edges (m : nat) (input : list Z) (g : graph) : outcome graph :=
  match m with
  | O => Ok g
  | S m =>
      match input with
      | a :: b :: input =>
          let? la := load g a in
          let? g := store g a (la ++ [b]) in
          let? lb := load g b in
          let? g := store g b (lb ++ [a]) in
          read_edges m input g
      | _ => Fault Indeterminate
      end
  end.

(** The loop over the vertices, [k] rounds from [i]. *)
Fixpoint vertex_loop (k : nat) (i : Z) (g : graph) (colors : list VertexColors) (visited : list bool) (cnt : Z)
  : outcome Z :=
  match k with
  | O => Ok cnt
  | S k =>
      let? seen := load visited i in
      if negb seen then
        let? (n, visited) := trianglesCnt g colors visited i in
        vertex_loop k (i + 1) g colors visited (u64 (cnt + n))
      else vertex_loop k (i + 1) g colors visited cnt
  end.

(** What the program prints. *)
Definition main (input : list Z) : outcome Z :=
  match input with
  | n :: m :: input =>
      let? size := add_int n 1 in
      if size <? 0 then Fault Thrown
      else
        let? g := read_edges (Z.to_nat m) input (replicate (Z.to_nat size) []) in
        let colors := replicate (Z.to_nat size) (mk_colors false false false) in
        let visited := replicate (Z.to_nat size) false in
        vertex_loop (length visited - 1) 1 g colors visited 0
  | _ => Fault Indeterminate
  end.

(** ** The reference *)

Definition adj (es : list (Z * Z)) (a b : Z) : Prop := (a, b) ∈ es \/ (b, a) ∈ es.

(** A graph without loops and multiple edges on the vertices 1 to [n]. *)
Record simple_graph (n : Z) (es : list (Z * Z)) : Prop := mk_simple {
  sg_range : Forall (fun e => 1 <= fst e <= n /\ 1 <= snd e <= n /\ fst e <> snd e) es;
  sg_once : NoDup es;
  sg_one_way : forall a b, (a, b) ∈ es -> (b, a) ∉ es
}.

(** The text of a graph. *)
Definition input_of (n : Z) (es : list (Z * Z)) : list Z :=
  n :: Z.of_nat (length es) :: flat_map (fun e => [fst e; snd e]) es.

(** ** The adjacency lists *)

Fixpoint nbrs (es : list (Z * Z)) (a : Z) : list Z :=
  match es with
  | [] => []
  | (x, y) :: es => (if x =? a then [y] else []) ++ (if y =? a then [x] else []) ++ nbrs es a
  end.

Lemma nbrs_adj es a b : b ∈ nbrs es a <-> adj es a b.
Proof.
  unfold adj. induction es as [|[x y] es IH]; simpl; [set_solver|].
  rewrite !elem_of_app, IH, !elem_of_cons. destruct (Z.eqb_spec x a), (Z.eqb_spec y a); set_solver.
Qed.

Lemma nbrs_sym es a b : b ∈ nbrs es a <-> a ∈ nbrs es b.
Proof. rewrite !nbrs_adj. unfold adj. tauto. Qed.

Lemma nbrs_app es1 es2 a : nbrs (es1 ++ es2) a = nbrs es1 a ++ nbrs es2 a.
Proof. induction es1 as [|[x y] es1 IH]; simpl; [done|]. by rewrite IH, <- !app_assoc. Qed.

Lemma simple_cons n e es : simple_graph n (e :: es) -> simple_graph n es.
Proof.
  intros [Hr Ho Hw]. split; [by inversion Hr|by inversion Ho|].
  intros a b Hab Hba. apply (Hw a b); by right.
Qed.

Lemma nbrs_nodup n es a : simple_graph n es -> NoDup (nbrs es a).
Proof.
  induction es as [|[x y] es IH]; intros Hs; simpl; [constructor|].
  pose proof (IH (simple_cons _ _ _ Hs)) as Hn. destruct Hs as [Hr Ho Hw].
  inversion Hr as [|? ? (_ & _ & Hxy)]; subst. inversion Ho as [|? ? Hnew]; subst. simpl in Hxy.
  assert (Hback : (y, x) ∉ es) by (intros Hin; apply (Hw y x); [by right|by left]).
  destruct (Z.eqb_spec x a) as [->|], (Z.eqb_spec y a) as [->|]; simpl; [done|..|done].
  - constructor; [|done]. rewrite nbrs_adj. unfold adj. tauto.
  - constructor; [|done]. rewrite nbrs_adj. unfold adj. tauto.
Qed.

Lemma nbrs_range n es a b : simple_graph n es -> b ∈ nbrs es a -> 1 <= b <= n /\ b <> a.
Proof.
  intros Hs. rewrite nbrs_adj. intros [Hin|Hin];
    apply (proj1 (Forall_forall _ _) (sg_range _ _ Hs)) in Hin; simpl in Hin; lia.
Qed.

Record lists (n : Z) (es : list (Z * Z)) (g : graph) : Prop := mk_lists {
  ls_length : length g = Z.to_nat (n + 1);
  ls_at : forall a, 1 <= a <= n -> g !! Z.to_nat a = Some (nbrs es a)
}.

Lemma read_edges_lists n es1 es2 g rest :
  lists n es1 g -> Forall (fun e => 1 <= fst e <= n /\ 1 <= snd e <= n /\ fst e <> snd e) es2 ->
  exists g', read_edges (length es2) (flat_map (fun e => [fst e; snd e]) es2 ++ rest) g = Ok g' /\
    lists n (es1 ++ es2) g'.
Proof.
  intros Hg Hr. revert es1 g Hg. induction Hr as [|[x y] es2 (Hx & Hy & Hxy) _ IH]; intros es1 g Hg; simpl in *.
  { exists g. by rewrite app_nil_r. }
  pose proof (ls_length _ _ _ Hg) as Hl.
  rewrite (load_z _ _ (nbrs es1 x)) by (lia || by apply Hg). cbn [obind].
  rewrite store_z by lia. cbn [obind].
  rewrite (load_z _ _ (nbrs es1 y)); [cbn [obind]|lia|].
  2:{ rewrite list_lookup_insert_ne by lia. by apply Hg. }
  rewrite store_z by (rewrite length_insert; lia). cbn [obind].
  destruct (IH (es1 ++ [(x, y)]) (<[Z.to_nat y:=nbrs es1 y ++ [x]]> (<[Z.to_nat x:=nbrs es1 x ++ [y]]> g)))
    as (g' & -> & Hg').
  - split; [by rewrite !length_insert|]. intros a Ha. rewrite nbrs_app. simpl. rewrite app_nil_r.
    destruct (Z.eqb_spec x a) as [<-|Hxa]; simpl.
    + rewrite (proj2 (Z.eqb_neq y x)) by lia. rewrite list_lookup_insert_ne by lia.
      rewrite list_lookup_insert_eq by lia. done.
    + destruct (Z.eqb_spec y a) as [<-|Hya]; simpl.
      * rewrite list_lookup_insert_eq by (rewrite length_insert; lia). done.
      * rewrite !list_lookup_insert_ne by lia. rewrite app_nil_r. by apply Hg.
  - exists g'. by rewrite <- app_assoc in Hg'.
Qed.

(** ** The pairs of adjacent vertices in a list *)

Fixpoint pairs (es : list (Z * Z)) (q : list Z) : list (Z * Z) :=
  match q with
  | [] => []
  | x :: q => (pair x <$> filter (fun y => y ∈ nbrs es x) q) ++ pairs es q
  end.

(** How many there are does not depend on the order. *)
Lemma pairs_perm es q q' : q ≡ₚ q' -> length (pairs es q) = length (pairs es q').
Proof.
  induction 1 as [|x q q' Hp IH|x y q|q1 q2 q3 _ IH1 _ IH2]; [done|..|congruence].
  - simpl. rewrite !length_app, !length_fmap, IH. f_equal. apply Permutation_length. by apply filter_Permutation.
  - simpl. rewrite !length_app, !length_fmap, !filter_cons.
    pose proof (nbrs_sym es x y). destruct (decide (x ∈ nbrs es y)), (decide (y ∈ nbrs es x)); simpl; tauto || lia.
Qed.

Lemma pairs_nodup es q : NoDup q -> NoDup (pairs es q).
Proof.
  induction 1 as [|x q Hx Hq IH]; simpl; [constructor|]. apply NoDup_app. split; [|split; [|done]].
  - apply NoDup_fmap; [by intros ? ? [= ->]|by apply NoDup_filter].
  - intros p (y & -> & _)%list_elem_of_fmap Hp. apply Hx. clear -Hp.
    induction q as [|z q IH]; simpl in *; [set_solver|]. apply elem_of_app in Hp as [(w & [= -> ->] & _)%list_elem_of_fmap|Hp].
    + by left.
    + right. by apply IH.
Qed.

Lemma pairs_in es q x y :
  StronglySorted Z.lt q -> (x, y) ∈ pairs es q <-> x ∈ q /\ y ∈ q /\ x < y /\ y ∈ nbrs es x.
Proof.
  induction 1 as [|z q Hs IH Hz]; simpl; [set_solver|]. rewrite elem_of_app, IH, list_elem_of_fmap, !elem_of_cons.
  rewrite Forall_forall in Hz. split.
  - intros [(w & [= -> ->] & Hw)|?]; [|naive_solver]. apply list_elem_of_filter in Hw as [Hn Hw]. split_and!; auto.
  - intros ([->|Hx] & [->|Hy] & Hlt & Hn).
    + lia.
    + left. exists y. split; [done|]. by apply list_elem_of_filter.
    + apply Hz in Hx. lia.
    + by right.
Qed.

(** ** The loops *)

Record visited_upto (n v : Z) (visited : list bool) : Prop := mk_visited {
  vu_length : length visited = Z.to_nat (n + 1);
  vu_at : forall w, 1 <= w <= n -> visited !! Z.to_nat w = Some (w <=? v)
}.

Record coloured (n : Z) (red blue : Z -> bool) (vc : list VertexColors) : Prop := mk_coloured {
  co_length : length vc = Z.to_nat (n + 1);
  co_at : forall w, 1 <= w <= n -> exists c, vc !! Z.to_nat w = Some c /\ is_red c = red w /\ is_blue c = blue w
}.

Section search.
Context (n : Z) (es : list (Z * Z)) (g : graph) (Hs : simple_graph n es) (Hg : lists n es g).

Lemma visited_load v visited w : visited_upto n v visited -> 1 <= w <= n -> load visited w = Ok (w <=? v).
Proof. intros Hv Hw. apply load_z; [lia|]. by apply Hv. Qed.

Lemma colour_load red blue vc w :
  coloured n red blue vc -> 1 <= w <= n -> exists c, load vc w = Ok c /\ is_red c = red w /\ is_blue c = blue w.
Proof. intros Hc Hw. destruct (co_at _ _ _ _ Hc w Hw) as (c & E & ?). exists c. split; [|done]. by apply load_z; [lia|]. Qed.

(** Painting one vertex. *)
Lemma colour_store red blue red' blue' vc w c :
  coloured n red blue vc -> 1 <= w <= n -> is_red c = red' w -> is_blue c = blue' w ->
  (forall u, 1 <= u <= n -> u <> w -> red u = red' u /\ blue u = blue' u) ->
  exists vc', store vc w c = Ok vc' /\ coloured n red' blue' vc' /\ load vc' w = Ok c.
Proof.
  intros Hc Hw Hr Hb Hu. pose proof (co_length _ _ _ _ Hc) as Hl. exists (<[Z.to_nat w := c]> vc).
  split; [apply store_z; lia|]. split.
  - split; [by rewrite length_insert|]. intros u Hur. destruct (decide (u = w)) as [->|Hne].
    + exists c. by rewrite list_lookup_insert_eq by lia.
    + rewrite list_lookup_insert_ne by lia. destruct (Hu u Hur Hne) as [<- <-]. by apply Hc.
  - apply load_z; [lia|]. by rewrite list_lookup_insert_eq by lia.
Qed.

Lemma push_loop_run v ws visited q red blue vc :
  visited_upto n v visited -> Forall (fun w => 1 <= w <= n) ws -> coloured n red blue vc ->
  exists vc', push_loop ws visited q vc = Ok (q ++ filter (fun w => v < w) ws, vc') /\
    coloured n red (fun w => blue w || bool_decide (w ∈ filter (fun w => v < w) ws)) vc'.
Proof.
  intros Hv Hws. revert q blue vc. induction Hws as [|w ws Hw _ IH]; intros q blue vc Hc; cbn [push_loop].
  { exists vc. rewrite app_nil_r. split; [done|]. split; [apply Hc|]. intros u Hu.
    destruct (co_at _ _ _ _ Hc u Hu) as (c & ? & ? & ?). exists c. split_and!; [done..|].
    rewrite bool_decide_false by set_solver. by rewrite orb_false_r. }
  rewrite (visited_load v) by done. cbn [obind]. rewrite filter_cons. destruct (Z.leb_spec w v) as [Hle|Hlt]; cbn [negb].
  { rewrite decide_False by lia. by apply IH. }
  rewrite decide_True by lia. destruct (colour_load _ _ _ w Hc Hw) as (c & -> & Hr & Hb). cbn [obind].
  destruct (colour_store red blue red (fun u => blue u || bool_decide (u = w)) vc w (mk_colors (is_red c) true (is_black c)))
    as (vc1 & -> & Hc1 & _); [done..| | |].
  { cbn [is_blue]. by rewrite bool_decide_true, orb_true_r. }
  { intros u _ Hu. by rewrite bool_decide_false, orb_false_r. }
  cbn [obind]. destruct (IH (q ++ [w]) _ vc1 Hc1) as (vc2 & -> & Hc2). exists vc2. rewrite <- app_assoc. split; [done|].
  split; [apply Hc2|]. intros u Hu. destruct (co_at _ _ _ _ Hc2 u Hu) as (c2 & ? & ? & E). exists c2. split_and!; [done..|].
  rewrite E, <- orb_assoc. f_equal. rewrite <- bool_decide_or. apply bool_decide_ext. by rewrite elem_of_cons.
Qed.

(** The neighbours that complete a triangle. *)
Definition closing (red blue : Z -> bool) (v w : Z) : bool := negb (red w) && blue w && (v <? w).

Lemma colour_loop_run v ws visited red blue vc cnt :
  visited_upto n v visited -> Forall (fun w => 1 <= w <= n) ws -> coloured n red blue vc -> u64 cnt = cnt ->
  exists vc', colour_loop ws visited vc cnt =
      Ok (vc', u64 (cnt + Z.of_nat (length (filter (fun w => closing red blue v w = true) ws)))) /\
    coloured n red blue vc'.
Proof.
  intros Hv Hws. revert vc cnt. induction Hws as [|w ws Hw _ IH]; intros vc cnt Hc Hcnt; cbn [colour_loop].
  { exists vc. by rewrite Z.add_0_r, Hcnt. }
  destruct (colour_load _ _ _ w Hc Hw) as (c & -> & Hr & Hb). cbn [obind]. rewrite filter_cons.
  assert (Hcl : closing red blue v w = negb (red w) && blue w && (v <? w)) by done.
  rewrite Hr. destruct (red w) eqn:Ered; cbn [negb andb] in *; [rewrite decide_False by congruence; by apply IH|].
  rewrite (visited_load v) by done. cbn [obind]. destruct (Z.leb_spec w v) as [Hle|Hlt]; cbn [negb].
  { rewrite (proj2 (Z.ltb_ge v w)), andb_false_r in Hcl by lia. rewrite decide_False by congruence. by apply IH. }
  rewrite (proj2 (Z.ltb_lt v w)), andb_true_r in Hcl by lia.
  destruct (colour_store red blue red blue vc w (mk_colors (red w) (is_blue c) true)) as (vc1 & E1 & Hc1 & E2); [done..|].
  rewrite Ered in E1, E2. rewrite E1. cbn [obind]. rewrite E2. cbn [obind is_black is_blue andb]. rewrite Hb.
  destruct (blue w).
  - rewrite decide_True by done. destruct (IH vc1 (u64 (cnt + 1)) Hc1) as (vc2 & -> & Hc2); [by unfold u64; rewrite Zmod_mod|].
    exists vc2. split; [|done]. do 2 f_equal. rewrite u64_add_idemp_l. f_equal. cbn [length]. lia.
  - rewrite decide_False by congruence. by apply IH.
Qed.

(** Each vertex of the queue is compared with those after it. *)
Lemma queue_loop_run v visited q past vc cnt :
  visited_upto n v visited -> NoDup (past ++ q) -> Forall (fun w => v < w <= n) (past ++ q) -> 1 <= v <= n ->
  u64 cnt = cnt ->
  coloured n (fun w => bool_decide (w = v \/ w ∈ past)) (fun w => bool_decide (w ∈ past ++ q)) vc ->
  queue_loop g q visited vc cnt = Ok (u64 (cnt + Z.of_nat (length (pairs es q)))).
Proof.
  intros Hv. revert past vc cnt. induction q as [|x q IH]; intros past vc cnt Hnd Hr Hvn Hcnt Hc; cbn [queue_loop].
  { by rewrite Z.add_0_r, Hcnt. }
  assert (Hx : v < x <= n) by (rewrite Forall_forall in Hr; apply Hr; set_solver).
  destruct (colour_load _ _ _ x Hc) as (c & -> & _ & Hb); [lia|]. cbn [obind].
  set (red := fun w => bool_decide (w = v \/ w ∈ past ++ [x])). set (blue := fun w => bool_decide (w ∈ past ++ x :: q)) in *.
  destruct (colour_store _ blue red blue vc x (mk_colors true (is_blue c) (is_black c)) Hc) as (vc1 & -> & Hc1 & _).
  { lia. } { unfold red. symmetry. apply bool_decide_true. set_solver. } { done. }
  { intros u _ Hu. split; [|done]. apply bool_decide_ext. set_solver. }
  cbn [obind]. rewrite (load_z g x (nbrs es x)) by (lia || apply Hg; lia). cbn [obind].
  assert (Hws : Forall (fun w => 1 <= w <= n) (nbrs es x)).
  { apply Forall_forall. intros w Hw. by apply (nbrs_range n es x w). }
  destruct (colour_loop_run v (nbrs es x) visited red blue vc1 cnt) as (vc2 & -> & Hc2); [done..|]. cbn [obind].
  rewrite (IH (past ++ [x])).
  - f_equal. rewrite u64_add_idemp_l. f_equal. cbn [pairs]. rewrite length_app, length_fmap.
    assert (E : length (filter (fun w => closing red blue v w = true) (nbrs es x)) =
      length (filter (fun y => y ∈ nbrs es x) q)); [|lia].
    apply Permutation_length, NoDup_Permutation.
    + apply NoDup_filter. by apply (nbrs_nodup n).
    + apply NoDup_filter. rewrite cons_middle, app_assoc in Hnd. by apply NoDup_app in Hnd as (_ & _ & ?).
    + intros w. rewrite !list_elem_of_filter. unfold closing, red, blue. rewrite Forall_forall in Hr.
      rewrite !andb_true_iff, negb_true_iff, bool_decide_eq_false, bool_decide_eq_true, Z.ltb_lt.
      split.
      * intros (((Hn1 & Hn2) & Hn3) & Hn4). split; [done|]. set_solver.
      * intros (Hn1 & Hn2). pose proof (Hr w ltac:(set_solver)). split; [|done]. split; [|lia]. split; [|set_solver].
        intros [->|Hin]; [lia|]. rewrite cons_middle, app_assoc in Hnd. apply NoDup_app in Hnd as (_ & Hd & _).
        by apply (Hd w).
  - by rewrite <- app_assoc.
  - by rewrite <- app_assoc.
  - done.
  - by unfold u64; rewrite Zmod_mod.
  - rewrite <- app_assoc. done.
Qed.

Lemma fresh_coloured : 0 <= n -> coloured n (fun _ => false) (fun _ => false)
  (replicate (Z.to_nat (n + 1)) (mk_colors false false false)).
Proof.
  intros Hn. split; [apply length_replicate|]. intros w Hw. eexists. rewrite lookup_replicate_2 by lia. done.
Qed.

(** The triangles whose least vertex is [v]. *)
Definition tris (v : Z) : list (Z * Z * Z) :=
  (fun p => (v, fst p, snd p)) <$> pairs es (filter (fun w => w ∈ nbrs es v) (seqZ (v + 1) (n - v))).

Lemma later_nbrs v : filter (fun w => v < w) (nbrs es v) ≡ₚ filter (fun w => w ∈ nbrs es v) (seqZ (v + 1) (n - v)).
Proof.
  apply NoDup_Permutation.
  - apply NoDup_filter. by apply (nbrs_nodup n).
  - apply NoDup_filter, NoDup_seqZ.
  - intros w. rewrite !list_elem_of_filter, elem_of_seqZ. split; [|intuition lia].
    intros [? Hw]. split; [done|]. apply (nbrs_range n es v w) in Hw; [lia|done].
Qed.

Lemma trianglesCnt_run v visited :
  1 <= v <= n -> visited_upto n (v - 1) visited ->
  exists visited', trianglesCnt g (replicate (Z.to_nat (n + 1)) (mk_colors false false false)) visited v =
      Ok (u64 (Z.of_nat (length (tris v))), visited') /\ visited_upto n v visited'.
Proof.
  intros Hv Hvis. unfold trianglesCnt. pose proof (fresh_coloured ltac:(lia)) as Hc0.
  destruct (colour_load _ _ _ v Hc0 Hv) as (c & -> & _ & Hb). cbn [obind].
  set (red := fun w => bool_decide (w = v \/ w ∈ @nil Z)).
  destruct (colour_store _ _ red (fun _ => false) _ v (mk_colors true (is_blue c) (is_black c)) Hc0 Hv)
    as (vc1 & -> & Hc1 & _).
  { symmetry. by apply bool_decide_true; left. } { done. }
  { intros u _ Hu. split; [|done]. symmetry. apply bool_decide_false. set_solver. }
  cbn [obind]. pose proof (vu_length _ _ _ Hvis) as Hl. rewrite store_z by lia. cbn [obind].
  assert (Hvis' : visited_upto n v (<[Z.to_nat v := true]> visited)).
  { split; [by rewrite length_insert|]. intros w Hw. destruct (decide (w = v)) as [->|Hne].
    - rewrite list_lookup_insert_eq by lia. by rewrite Z.leb_refl.
    - rewrite list_lookup_insert_ne by lia. rewrite (vu_at _ _ _ Hvis w Hw). f_equal.
      destruct (Z.leb_spec w (v - 1)), (Z.leb_spec w v); lia || done. }
  rewrite (load_z g v (nbrs es v)) by (lia || by apply Hg). cbn [obind].
  assert (Hws : Forall (fun w => 1 <= w <= n) (nbrs es v)).
  { apply Forall_forall. intros w Hw. by apply (nbrs_range n es v w). }
  destruct (push_loop_run v (nbrs es v) _ [] _ _ vc1 Hvis' Hws Hc1) as (vc2 & -> & Hc2). cbn [obind app orb] in *.
  rewrite (queue_loop_run v _ _ []); [|done|..].
  - exists (<[Z.to_nat v := true]> visited). split; [|done]. cbn [obind]. unfold tris. rewrite length_fmap.
    by rewrite (pairs_perm es _ _ (later_nbrs v)).
  - apply NoDup_filter. by apply (nbrs_nodup n).
  - apply Forall_forall. intros w [? Hw]%list_elem_of_filter. rewrite Forall_forall in Hws. apply Hws in Hw. simpl. lia.
  - done.
  - done.
  - done.
Qed.

Lemma vertex_loop_run k v visited cnt :
  1 <= v -> v + Z.of_nat k = n + 1 -> visited_upto n (v - 1) visited -> u64 cnt = cnt ->
  vertex_loop k v g (replicate (Z.to_nat (n + 1)) (mk_colors false false false)) visited cnt =
    Ok (u64 (cnt + Z.of_nat (length (seqZ v (Z.of_nat k) ≫= tris)))).
Proof.
  revert v visited cnt. induction k as [|k IH]; intros v visited cnt Hv Hk Hvis Hcnt; cbn [vertex_loop].
  { by rewrite Z.add_0_r, Hcnt. }
  rewrite (visited_load (v - 1)) by (done || lia). cbn [obind]. rewrite (proj2 (Z.leb_gt v _)) by lia. cbn [negb].
  destruct (trianglesCnt_run v visited) as (visited' & -> & Hvis'); [lia|done|]. cbn [obind].
  rewrite IH; [|lia|lia|by rewrite Z.add_simpl_r|by unfold u64; rewrite Zmod_mod].
  f_equal. rewrite u64_add_idemp_l. rewrite (seqZ_cons v) by lia. cbn [mbind list_bind].
  rewrite length_app, Nat2Z.inj_add, Z.add_assoc. replace (Z.pred (Z.of_nat (S k))) with (Z.of_nat k) by lia.
  unfold u64. rewrite (Z.add_comm cnt), <- (Z.add_assoc (_ mod _)), Zplus_mod_idemp_l. f_equal. unfold Z.succ.
  rewrite Z.add_assoc, (Z.add_comm cnt). done.
Qed.

(** ** The list of the triangles *)

Definition triangles : list (Z * Z * Z) := seqZ 1 n ≫= tris.

Lemma seqZ_sorted a k : StronglySorted Z.lt (seqZ a (Z.of_nat k)).
Proof.
  revert a. induction k as [|k IH]; intros a; [constructor|]. rewrite seqZ_cons by lia. constructor.
  - replace (Z.pred _) with (Z.of_nat k) by lia. apply IH.
  - apply Forall_forall. intros x Hx. apply elem_of_seqZ in Hx. lia.
Qed.

Lemma filter_sorted (P : Z -> Prop) `{!forall x, Decision (P x)} l :
  StronglySorted Z.lt l -> StronglySorted Z.lt (filter P l).
Proof.
  induction 1 as [|x l Hl IH Hx]; [constructor|]. rewrite filter_cons. destruct (decide (P x)); [|done].
  constructor; [done|]. apply Forall_forall. intros y [_ Hy]%list_elem_of_filter. rewrite Forall_forall in Hx. auto.
Qed.

Lemma tris_in v a b c :
  1 <= v <= n -> (a, b, c) ∈ tris v <-> a = v /\ v < b /\ b < c /\ adj es v b /\ adj es v c /\ adj es b c.
Proof.
  intros Hv. unfold tris. rewrite list_elem_of_fmap, <- !nbrs_adj.
  assert (Hsrt : StronglySorted Z.lt (filter (fun w => w ∈ nbrs es v) (seqZ (v + 1) (n - v)))).
  { apply filter_sorted. replace (n - v) with (Z.of_nat (Z.to_nat (n - v))) by lia. apply seqZ_sorted. }
  split.
  - intros ([x y] & [= -> -> ->] & Hp). apply (pairs_in es _ _ _ Hsrt) in Hp as (Hx & Hy & Hlt & Hn).
    apply list_elem_of_filter in Hx as [? Hx], Hy as [? Hy]. apply elem_of_seqZ in Hx, Hy. split_and!; done || lia.
  - intros (-> & Hb & Hbc & H1 & H2 & H3). exists (b, c). split; [done|]. apply (pairs_in es _ _ _ Hsrt).
    rewrite !list_elem_of_filter, !elem_of_seqZ. pose proof (nbrs_range n es v b Hs H1). pose proof (nbrs_range n es v c Hs H2).
    split_and!; done || lia.
Qed.

Lemma triangles_nodup : NoDup triangles.
Proof.
  apply NoDup_bind; [|intros v _|apply NoDup_seqZ].
  - intros v1 v2 [[a b] c] H1 H2. apply elem_of_seqZ in H1, H2. rewrite !tris_in by lia. intros [? _] [? _]. congruence.
  - apply NoDup_fmap; [intros [? ?] [? ?] [= -> ->]; done|]. apply pairs_nodup, NoDup_filter, NoDup_seqZ.
Qed.

Lemma triangles_in a b c :
  (a, b, c) ∈ triangles <-> a < b /\ b < c /\ adj es a b /\ adj es a c /\ adj es b c.
Proof.
  unfold triangles. rewrite list_elem_of_bind. split.
  - intros (v & Ht & Hv). apply elem_of_seqZ in Hv. apply tris_in in Ht; [|lia]. naive_solver.
  - intros (Hab & Hbc & H1 & H2 & H3). assert (1 <= a <= n).
    { apply nbrs_adj, nbrs_sym in H1. by apply (nbrs_range n es b a). }
    exists a. rewrite elem_of_seqZ, tris_in by lia. split; [|lia]. naive_solver.
Qed.

Lemma triangles_few : 0 <= n -> Z.of_nat (length triangles) <= n * n * n.
Proof.
  intros Hn. set (all := seqZ 1 n ≫= fun a => seqZ 1 n ≫= fun b => (fun c => (a, b, c)) <$> seqZ 1 n).
  assert (Hconst : forall A (l : list Z) (f : Z -> list A) k, (forall x, length (f x) = k) -> length (l ≫= f) = (length l * k)%nat).
  { intros A l f k Hf. induction l as [|x l IH]; [done|].
    change ((x :: l) ≫= f) with (f x ++ (l ≫= f)). rewrite length_app, Hf, IH. simpl. lia. }
  assert (Hall : Z.of_nat (length all) = n * n * n).
  { unfold all. rewrite (Hconst _ _ _ (Z.to_nat n * Z.to_nat n)%nat).
    - rewrite length_seqZ. nia.
    - intros a. rewrite (Hconst _ _ _ (Z.to_nat n)); [by rewrite length_seqZ|].
      intros b. by rewrite length_fmap, length_seqZ. }
  rewrite <- Hall. apply inj_le, submseteq_length, NoDup_submseteq; [apply triangles_nodup|].
  intros [[a b] c] (_ & _ & H1 & H2 & H3)%triangles_in. rewrite <- nbrs_adj in H1, H2, H3.
  assert (forall x y, y ∈ nbrs es x -> y ∈ seqZ 1 n).
  { intros x y Hy. apply elem_of_seqZ. apply (nbrs_range n es x y) in Hy; [lia|done]. }
  apply list_elem_of_bind. exists a. split; [|apply (H b); by apply nbrs_sym]. apply list_elem_of_bind.
  exists b. split; [|by apply (H a)]. apply list_elem_of_fmap. exists c. split; [done|by apply (H a)].
Qed.
End search.

(** C19: the program counts triangles.  For every graph without loops and
    multiple edges, whatever the order of its edges and of their ends, it
    prints the number of its triangles: the number of entries of any list that
    has each triple of pairwise adjacent vertices, in increasing order, exactly
    once. *)
Theorem main_counts_triangles n es :
  0 <= n <= 3000 -> simple_graph n es ->
  exists ts, NoDup ts /\
    (forall a b c, (a, b, c) ∈ ts <-> a < b /\ b < c /\ adj es a b /\ adj es a c /\ adj es b c) /\
    main (input_of n es) = Ok (Z.of_nat (length ts)).
Proof.
  intros Hn Hs. exists (triangles n es). split; [by apply triangles_nodup|]. split; [by apply triangles_in|].
  unfold main, input_of, add_int. rewrite !(proj2 (Z.leb_le _ _)) by (unfold INT_MAX; lia). cbn [andb obind].
  rewrite (proj2 (Z.ltb_ge _ 0)) by lia. rewrite Nat2Z.id.
  destruct (read_edges_lists n [] es (replicate (Z.to_nat (n + 1)) []) []) as (g & Hread & Hg).
  { split; [apply length_replicate|]. intros a Ha. rewrite lookup_replicate_2 by lia. done. }
  { apply (sg_range _ _ Hs). }
  rewrite app_nil_r in Hread. rewrite Hread. cbn [obind]. rewrite length_replicate.
  rewrite (vertex_loop_run n es g Hs Hg); [|lia|lia| |done].
  - f_equal. replace (Z.of_nat (Z.to_nat (n + 1) - 1)) with n by lia. rewrite Z.add_0_l. apply u64_small.
    pose proof (triangles_few n es Hs ltac:(lia)). unfold triangles in *. nia.
  - split; [apply length_replicate|]. intros w Hw. rewrite lookup_replicate_2 by lia. f_equal.
    symmetry. apply Z.leb_gt. lia.
Qed.

(** The example of the exercise: 1, 2, 3 and 1, 3, 4. *)
Lemma main_counts_triangles_witness :
  let es := [(1, 2); (2, 3); (3, 4); (4, 1); (1, 3)] in
  exists ts, main (input_of 4 es) = Ok (Z.of_nat (length ts)) /\ (1, 2, 3) ∈ ts /\ (1, 3, 4) ∈ ts /\ (2, 3, 4) ∉ ts.
Proof.
  intros es. destruct (main_counts_triangles 4 es) as (ts & _ & Hin & Hm).
  - lia.
  - split.
    + by repeat constructor.
    + apply (bool_decide_unpack _). by vm_compute.
    + intros a b Hab Hba. unfold es in *. set_solver by lia.
  - exists ts. split; [done|]. rewrite !Hin. unfold adj, es. split_and!; set_solver by lia.
Defined.
