(* ===== verification/BoundedStore.v ===== *)
(** * BoundedStore: a bounded store between two threads

    Models [src/pthreads-problems/problem-7]: the linked list of store_ll.cpp,
    filled at its head and drained at its tail, and the two threads of main.cpp
    that fill and drain it under one mutex and one condition variable.

    The store maps the addresses of allocated nodes to their contents; what
    [malloc] answers is an argument.  The threads are a step relation: the
    scheduler chooses which of them moves. *)

From S2P Require Import Prelude CInt Dll.
Open Scope Z_scope.

Record StoreNode := mk_node { next : Z; prev : Z; val : Z }.

Record Store := mk_store { head : Z; tail : Z; size : Z; capacity : Z }.

(** [inst] is [None] where a pointer to the store is null. *)
Record mem := mk_mem { nodes : gmap Z StoreNode; inst : option Store }.

#[export] Instance StoreNode_eq_dec : EqDecision StoreNode.
Proof. solve_decision. Defined.
#[export] Instance Store_eq_dec : EqDecision Store.
Proof. solve_decision. Defined.
#[export] Instance mem_eq_dec : EqDecision mem.
Proof. solve_decision. Defined.

(** ** Access *)

Definition node_at (p : Z) : M mem StoreNode := fun s =>
  if p =? 0 then Fault NullDeref
  else match nodes s !! p with Some n => Ok (n, s) | None => Fault Dangling end.

Definition set_node (p : Z) (n : StoreNode) : M mem unit := fun s =>
  if p =? 0 then Fault NullDeref
  else match nodes s !! p with
       | Some _ => Ok (tt, mk_mem (<[p := n]> (nodes s)) (inst s))
       | None => Fault Dangling
       end.

Definition set_next (p v : Z) : M mem unit := n <- node_at p ;; set_node p (mk_node v (prev n) (val n)).
Definition set_prev (p v : Z) : M mem unit := n <- node_at p ;; set_node p (mk_node (next n) v (val n)).

Definition set_store (st : Store) : M mem unit := modify (fun s => mk_mem (nodes s) (Some st)).

Definition free (p : Z) : M mem unit := fun s =>
  if p =? 0 then Ok (tt, s)
  else match nodes s !! p with
       | Some _ => Ok (tt, mk_mem (delete p (nodes s)) (inst s))
       | None => Fault Dangling
       end.

(** ** The operations of the store *)

(** [addr] is the answer of [malloc], here and below. *)
Definition store_init (addr cap : Z) : M mem Z :=
  if addr =? 0 then modify (fun s => mk_mem (nodes s) None) ;; ret 1
  else set_store (mk_store 0 0 0 cap) ;; ret 0.

(** The result and the new node. *)
Definition make_node (addr v : Z) : M mem (Z * Z) :=
  if addr =? 0 then ret (1, 0)
  else modify (fun s => mk_mem (<[addr := mk_node 0 0 v]> (nodes s)) (inst s)) ;; ret (0, addr).

Definition add_val (addr v : Z) : M mem Z :=
  oi <- gets inst ;;
  match oi with
  | None => ret 1
  | Some st =>
      r <- make_node addr v ;;
      let '(res, new_node) := r in
      if negb (res =? 0) then ret 1
      else
        (if head st =? 0 then set_store (mk_store new_node new_node (size st) (capacity st))
         else
           set_next new_node (head st) ;;
           set_prev (head st) new_node ;;
           set_store (mk_store new_node (tail st) (size st) (capacity st))) ;;
        modify (fun s => mk_mem (nodes s)
          ((fun st => mk_store (head st) (tail st) (u64 (size st + 1)) (capacity st)) <$> inst s)) ;;
        ret 0
  end.

(** The result and what [ret_val] points to afterwards. *)
Definition get_val (ret_val : Z) : M mem (Z * Z) :=
  oi <- gets inst ;;
  match oi with
  | None => ret (1, ret_val)
  | Some st =>
      let last_node := tail st in
      if last_node =? 0 then ret (1, ret_val)
      else
        n <- node_at last_node ;;
        (if negb (prev n =? 0) then
           set_next (prev n) 0 ;;
           set_store (mk_store (head st) (prev n) (size st) (capacity st))
         else set_store (mk_store 0 0 (size st) (capacity st))) ;;
        free last_node ;;
        modify (fun s => mk_mem (nodes s)
          ((fun st => mk_store (head st) (tail st) (u64 (size st - 1)) (capacity st)) <$> inst s)) ;;
        ret (0, val n)
  end.

Fixpoint free_loop (fuel : nat) (cur : Z) : M mem unit :=
  if cur =? 0 then ret tt
  else
    match fuel with
    | O => fail NoFuel
    | S fuel =>
        n <- node_at cur ;;
        free cur ;;
        modify (fun s => mk_mem (nodes s)
          ((fun st => mk_store (head st) (tail st) (u64 (size st - 1)) (capacity st)) <$> inst s)) ;;
        free_loop fuel (next n)
    end.

(** A chain has at most as many nodes as the store. *)
Definition free_store : M mem Z :=
  oi <- gets inst ;;
  match oi with
  | None => ret 1
  | Some st =>
      fuel <- gets (fun s => base.size (nodes s)) ;;
      free_loop fuel (head st) ;;
      modify (fun s => mk_mem (nodes s) None) ;;
      ret 0
  end.

(** The values [print_list] prints. *)
Fixpoint print_loop (fuel : nat) (cur : Z) : M mem (list Z) :=
  if cur =? 0 then ret []
  else
    match fuel with
    | O => fail NoFuel
    | S fuel =>
        n <- node_at cur ;;
        rest <- print_loop fuel (next n) ;;
        ret (val n :: rest)
    end.

Definition print_list : M mem (list Z) :=
  oi <- gets inst ;;
  match oi with
  | None => fail NullDeref
  | Some st => fuel <- gets (fun s => base.size (nodes s)) ;; print_loop fuel (head st)
  end.

(** ** The threads *)

Inductive thread := Setter | Getter.

(** Where [set_data] or [get_data] is. *)
Inductive pc :=
| Test        (* while (!exit_signal) *)
| Lock        (* pthread_mutex_lock, also on the way out of a wait *)
| Size        (* the condition of the inner while *)
| Wait        (* in pthread_cond_wait *)
| Work        (* add_val or get_val *)
| Signal      (* pthread_cond_signal *)
| Unlock.     (* pthread_mutex_unlock, then sleep *)

#[export] Instance thread_eq_dec : EqDecision thread.
Proof. solve_decision. Defined.
#[export] Instance pc_eq_dec : EqDecision pc.
Proof. solve_decision. Defined.

(** [added] and [gotten] record the values stored and taken, in order; [res] is
    the local variable of [get_data]. *)
Record config := mk_config {
  cm : mem;
  owner : option thread;
  at_ : thread -> pc;
  exit_signal : bool;
  res : Z;
  added : list Z;
  gotten : list Z
}.

Definition other (t : thread) : thread := match t with Setter => Getter | Getter => Setter end.

Definition move (c : config) (t : thread) (p : pc) : config :=
  mk_config (cm c) (owner c) (fun u => if decide (u = t) then p else at_ c u)
    (exit_signal c) (res c) (added c) (gotten c).
Definition with_owner (c : config) (o : option thread) : config :=
  mk_config (cm c) o (at_ c) (exit_signal c) (res c) (added c) (gotten c).
Definition with_mem (c : config) (m : mem) (r : Z) (more taken : list Z) : config :=
  mk_config m (owner c) (at_ c) (exit_signal c) r (added c ++ more) (gotten c ++ taken).

(** What the inner loop of each thread waits for. *)
Definition must_wait (t : thread) (st : Store) : bool :=
  match t with Setter => capacity st <=? size st | Getter => size st =? 0 end.

(** The call between the wait and the signal.  [addr] is the answer of
    [malloc]. *)
Definition work (t : thread) (addr : Z) (c : config) : outcome config :=
  match t with
  | Setter =>
      let? (r, m) := add_val addr 2 (cm c) in
      Ok (with_mem c m (res c) (if r =? 0 then [2] else []) [])
  | Getter =>
      let? (rv, m) := get_val (res c) (cm c) in
      Ok (with_mem c m (snd rv) [] (if fst rv =? 0 then [snd rv] else []))
  end.

(** One step of a thread: [Ok None] when it cannot move.  [malloc] answers null
    or an address that is not in use.  A thread that leaves its loop runs off
    the end of a function that returns a pointer. *)
Definition exec (t : thread) (addr : Z) (c : config) : outcome (option config) :=
  match at_ c t with
  | Test => if exit_signal c then Fault Indeterminate else Ok (Some (move c t Lock))
  | Lock =>
      match owner c with
      | None => Ok (Some (with_owner (move c t Size) (Some t)))
      | Some _ => Ok None
      end
  | Size =>
      match inst (cm c) with
      | None => Fault NullDeref
      | Some st =>
          if must_wait t st then Ok (Some (with_owner (move c t Wait) None))
          else Ok (Some (move c t Work))
      end
  | Wait => Ok None
  | Work =>
      if decide (addr = 0 \/ nodes (cm c) !! addr = None) then
        let? c := work t addr c in Ok (Some (move c t Signal))
      else Ok None
  | Signal =>
      let c := if decide (at_ c (other t) = Wait) then move c (other t) Lock else c in
      Ok (Some (move c t Unlock))
  | Unlock => Ok (Some (with_owner (move c t Test) None))
  end.

(** A thread moves, a wait ends without a signal, or the handler runs. *)
Inductive step (c : config) : config -> Prop :=
| step_exec t addr c' : exec t addr c = Ok (Some c') -> step c c'
| step_spurious t : at_ c t = Wait -> step c (move c t Lock)
| step_exit : step c (mk_config (cm c) (owner c) (at_ c) true (res c) (added c) (gotten c)).

Definition initial (cap : Z) : config :=
  mk_config (mk_mem ∅ (Some (mk_store 0 0 0 cap))) None (fun _ => Test) false 0 [] [].

(** ** The store as a list *)

Definition links (ns : gmap Z StoreNode) (a : Z) : option (Z * Z) := (fun n => (next n, prev n)) <$> ns !! a.

(** The nodes [l], from the head, hold the values [vs], the newest first. *)
Record store_rep (s : mem) (cap : Z) (l vs : list Z) : Prop := mk_rep {
  rep_inst : inst s = Some (mk_store (hdZ 0 l) (lastZ 0 l) (Z.of_nat (length l)) cap);
  rep_dll : dll (links (nodes s)) 0 l 0;
  rep_nodup : NoDup l;
  rep_vals : Forall2 (fun a v => val <$> nodes s !! a = Some v) l vs
}.

Lemma node_run s p n : p <> 0 -> nodes s !! p = Some n -> node_at p s = Ok (n, s).
Proof. intros Hp Hn. unfold node_at. by rewrite (proj2 (Z.eqb_neq _ _) Hp), Hn. Qed.

Lemma link_next_run s p v n :
  p <> 0 -> nodes s !! p = Some n ->
  set_next p v s = Ok (tt, mk_mem (<[p := mk_node v (prev n) (val n)]> (nodes s)) (inst s)).
Proof.
  intros Hp Hn. unfold set_next. run (node_run s p n Hp Hn). unfold set_node.
  by rewrite (proj2 (Z.eqb_neq _ _) Hp), Hn.
Qed.

Lemma link_prev_run s p v n :
  p <> 0 -> nodes s !! p = Some n ->
  set_prev p v s = Ok (tt, mk_mem (<[p := mk_node (next n) v (val n)]> (nodes s)) (inst s)).
Proof.
  intros Hp Hn. unfold set_prev. run (node_run s p n Hp Hn). unfold set_node.
  by rewrite (proj2 (Z.eqb_neq _ _) Hp), Hn.
Qed.

Lemma free_node_run s p n :
  p <> 0 -> nodes s !! p = Some n -> free p s = Ok (tt, mk_mem (delete p (nodes s)) (inst s)).
Proof. intros Hp Hn. unfold free. by rewrite (proj2 (Z.eqb_neq _ _) Hp), Hn. Qed.

Lemma node_links ns a x y : links ns a = Some (x, y) -> exists v, ns !! a = Some (mk_node x y v).
Proof. unfold links. destruct (ns !! a) as [[? ? v]|]; [|done]. simpl. naive_solver. Qed.

Lemma store_node s cap l1 a l2 vs1 v vs2 :
  store_rep s cap (l1 ++ a :: l2) (vs1 ++ v :: vs2) -> length vs1 = length l1 ->
  a <> 0 /\ (a ∉ l1) /\ (a ∉ l2) /\ nodes s !! a = Some (mk_node (hdZ 0 l2) (lastZ 0 l1) v).
Proof.
  intros H Hl. pose proof (dll_lookup _ _ _ _ _ _ (rep_dll _ _ _ _ H)) as Hk.
  pose proof (dll_nonnull _ _ _ _ (rep_dll _ _ _ _ H)) as Hnn. apply Forall_app in Hnn as [_ Hnn].
  pose proof (rep_nodup _ _ _ _ H) as (_ & H1 & H2)%NoDup_app. apply NoDup_cons in H2 as [H2 _].
  pose proof (rep_vals _ _ _ _ H) as Hv. apply Forall2_app_inv in Hv as [_ Hv]; [|done]. inversion Hv as [|? ? ? ? E]; subst.
  split; [by inversion Hnn|]. split; [set_solver|]. split; [done|].
  apply node_links in Hk as [w Hw]. rewrite Hw in *. simpl in E. congruence.
Qed.

Lemma vals_frame (ns ns' : gmap Z StoreNode) l vs :
  (forall a, a ∈ l -> val <$> ns' !! a = val <$> ns !! a) ->
  Forall2 (fun a v => val <$> ns !! a = Some v) l vs -> Forall2 (fun a v => val <$> ns' !! a = Some v) l vs.
Proof.
  intros Hf Hv. induction Hv as [|a v l vs Ha _ IH]; constructor.
  - rewrite Hf by set_solver. done.
  - apply IH. set_solver.
Qed.

Lemma store_fresh s cap l vs a : store_rep s cap l vs -> nodes s !! a = None -> a ∉ l.
Proof.
  intros H Ha Hin. apply list_elem_of_lookup in Hin as [i Hi].
  destruct (Forall2_lookup_l _ _ _ _ _ (rep_vals _ _ _ _ H) Hi) as (v & _ & Hv). by rewrite Ha in Hv.
Qed.

(** *** [add_val] puts a value in front. *)

Lemma add_val_refused s v : is_Some (inst s) -> add_val 0 v s = Ok (1, s).
Proof. intros [st Hst]. unfold add_val, gets, bind. by rewrite Hst. Qed.

Lemma add_val_run s cap l vs a v :
  store_rep s cap l vs -> a <> 0 -> nodes s !! a = None -> Z.of_nat (length l) + 1 < 2 ^ 64 ->
  exists s', add_val a v s = Ok (0, s') /\ store_rep s' cap (a :: l) (v :: vs) /\
    (forall b, b ∉ a :: l -> nodes s' !! b = nodes s !! b).
Proof.
  intros H Ha Hf Hsz. pose proof (store_fresh _ _ _ _ _ H Hf) as Hal. unfold add_val.
  erewrite (bind_ok (gets inst)); [|done]. rewrite (rep_inst _ _ _ _ H). unfold make_node.
  rewrite (proj2 (Z.eqb_neq _ _) Ha). rewrite bind_assoc.
  erewrite (bind_ok (modify _)); [|done]. rewrite bind_ret_l. cbn [negb Z.eqb head].
  destruct l as [|b l]; cbn [hdZ].
  - unfold set_store, modify, bind, ret. cbn [Z.eqb nodes inst fmap option_fmap option_map head tail size capacity]. eexists. split; [done|]. split.
    + split; cbn [nodes inst hdZ lastZ length].
      * by rewrite u64_small.
      * simpl. split; [done|]. split; [|done]. unfold links. by rewrite lookup_insert_eq.
      * apply NoDup_singleton.
      * pose proof (rep_vals _ _ _ _ H) as Hv. inversion_clear Hv. constructor; [|constructor]. by rewrite lookup_insert_eq.
    + intros b Hb. cbn [nodes]. rewrite lookup_insert_ne; [done|set_solver].
  - destruct vs as [|w vs]; [pose proof (rep_vals _ _ _ _ H) as Hv; by inversion Hv|].
    destruct (store_node s cap [] b l [] w vs H eq_refl) as (Hb0 & _ & Hbl & Hb).
    assert (Hab : a <> b) by set_solver. rewrite (proj2 (Z.eqb_neq _ _) Hb0).
    erewrite bind_ok. 2:{ run (link_next_run _ a b _ Ha (lookup_insert_eq _ _ _)).
      erewrite (bind_ok (set_prev b a)). 2:{ apply link_prev_run; [done|]. cbn [nodes]. by rewrite !lookup_insert_ne. }
      unfold set_store, modify. reflexivity. }
    unfold modify, bind, ret. cbn [nodes inst fmap option_fmap option_map prev val next head tail size capacity].
    rewrite insert_insert_eq. eexists. split; [done|]. split.
    + split; cbn [nodes inst].
      * rewrite u64_small by (simpl length in *; lia). cbn [hdZ lastZ]. do 2 f_equal. simpl length. lia.
      * change (a <> 0 /\ links (<[b:=mk_node (hdZ 0 l) a w]> (<[a:=mk_node b 0 v]> (nodes s))) a = Some (b, 0) /\
          dll (links (<[b:=mk_node (hdZ 0 l) a w]> (<[a:=mk_node b 0 v]> (nodes s)))) a (b :: l) 0).
        split; [done|]. split; [unfold links; by rewrite lookup_insert_ne, lookup_insert_eq|].
        eapply (dll_set_first _ _ 0); [apply (rep_dll _ _ _ _ H)| |].
        -- intros x Hx. unfold links. rewrite !lookup_insert_ne; set_solver.
        -- unfold links. by rewrite lookup_insert_eq.
      * constructor; [done|apply (rep_nodup _ _ _ _ H)].
      * constructor; [by rewrite lookup_insert_ne, lookup_insert_eq|].
        eapply vals_frame; [|apply (rep_vals _ _ _ _ H)]. intros x Hx. destruct (decide (x = b)) as [->|Hxb].
        -- rewrite lookup_insert_eq. by rewrite Hb.
        -- rewrite !lookup_insert_ne; set_solver.
    + intros x Hx. cbn [nodes]. rewrite !lookup_insert_ne; set_solver.
Qed.

(** *** [get_val] takes the last value. *)

Lemma get_val_empty s cap r : store_rep s cap [] [] -> get_val r s = Ok ((1, r), s).
Proof. intros H. unfold get_val, gets, bind. by rewrite (rep_inst _ _ _ _ H). Qed.

(** The state after the last node [a] went. *)
Lemma rep_without s cap l a vs v ns :
  store_rep s cap (l ++ [a]) (vs ++ [v]) -> length vs = length l ->
  (forall x n, nodes s !! x = Some n -> x ∈ l ->
     ns !! x = Some (mk_node (if decide (x = lastZ 0 l) then 0 else next n) (prev n) (val n))) ->
  store_rep (mk_mem ns (Some (mk_store (hdZ 0 l) (lastZ 0 l) (Z.of_nat (length l)) cap))) cap l vs.
Proof.
  intros H Hl Hns. pose proof (rep_vals _ _ _ _ H) as Hv. apply Forall2_app_inv in Hv as [Hv _]; [|done].
  pose proof (rep_nodup _ _ _ _ H) as (Hnd & _ & _)%NoDup_app.
  pose proof (rep_dll _ _ _ _ H) as Hd. apply dll_app in Hd as [Hd _]. cbn [hdZ] in Hd. split; [done|..|done|].
  - cbn [nodes]. destruct l as [|x l] using rev_ind; [done|]. clear IHl. rewrite lastZ_snoc in Hns.
    pose proof (dll_lookup _ _ l x [] a Hd) as Hx. apply node_links in Hx as [w Hw].
    apply NoDup_app in Hnd as (_ & Hd1 & _).
    assert (Hsame : forall b, b ∈ l -> links ns b = links (nodes s) b).
    { intros b Hb. unfold links. pose proof (dll_nonnull _ _ _ _ Hd).
      destruct (nodes s !! b) as [n|] eqn:Eb.
      - rewrite (Hns b n Eb) by set_solver. rewrite decide_False; [by destruct n|]. intros ->. apply (Hd1 x); set_solver.
      - apply list_elem_of_lookup in Hb as [i Hi].
        destruct (Forall2_lookup_l _ _ _ _ _ Hv (lookup_app_l_Some _ _ _ _ Hi)) as (u & _ & Hu). by rewrite Eb in Hu. }
    eapply (dll_set_last _ _ _ _ _ a); [exact Hd|exact Hsame|]. unfold links.
    rewrite (Hns x _ Hw) by set_solver. by rewrite decide_True.
  - cbn [nodes]. eapply vals_frame; [|exact Hv]. intros x Hx. apply list_elem_of_lookup in Hx as [i Hi].
    destruct (Forall2_lookup_l _ _ _ _ _ Hv Hi) as (u & _ & Hu). destruct (nodes s !! x) as [n|] eqn:Ex; [|done].
    rewrite (Hns x n Ex); [done|]. by apply list_elem_of_lookup; eauto.
Qed.

Lemma get_val_run s cap l a vs v r :
  store_rep s cap (l ++ [a]) (vs ++ [v]) -> length vs = length l -> Z.of_nat (length l) < 2 ^ 64 ->
  exists s', get_val r s = Ok ((0, v), s') /\ store_rep s' cap l vs /\ nodes s' !! a = None /\
    (forall b, b ∉ l ++ [a] -> nodes s' !! b = nodes s !! b).
Proof.
  intros H Hl Hsz. destruct (store_node s cap l a [] vs v [] H Hl) as (Ha0 & Hal & _ & Ha). cbn [hdZ] in Ha.
  unfold get_val. erewrite (bind_ok (gets inst)); [|done]. rewrite (rep_inst _ _ _ _ H). cbn [tail head size capacity].
  rewrite lastZ_snoc, (proj2 (Z.eqb_neq _ _) Ha0). run (node_run s a _ Ha0 Ha). cbn [prev val].
  rewrite hdZ_app, length_app. cbn [hdZ length]. rewrite Nat2Z.inj_add.
  assert (Hu : u64 (Z.of_nat (length l) + Z.of_nat 1 - 1) = Z.of_nat (length l)) by (rewrite u64_small; lia).
  destruct l as [|x l] using rev_ind.
  - cbn [lastZ negb Z.eqb hdZ length] in *. erewrite (bind_ok (set_store _)); [|done].
    erewrite (bind_ok (free a)); [|by eapply free_node_run]. erewrite (bind_ok (modify _)); [|done].
    eexists. split; [done|]. cbn [nodes inst fmap option_fmap option_map head tail size capacity]. rewrite Hu. split; [|split].
    + eapply (rep_without s cap []); [done..|]. set_solver.
    + apply lookup_delete_eq.
    + intros b Hb. rewrite lookup_delete_ne; [done|set_solver].
  - clear IHl. rewrite lastZ_snoc in *.
    assert (exists vs0 w, vs = vs0 ++ [w]) as (vs0 & w & ->).
    { destruct vs as [|w vs0] using rev_ind; [rewrite length_app in Hl; simpl in Hl; lia|]. eauto. }
    rewrite !length_app in Hl. rewrite <- !app_assoc in H.
    destruct (store_node s cap l x [a] vs0 w [v]) as (Hx0 & Hxl & Hxa & Hx); [done|simpl in Hl; lia|].
    rewrite !app_assoc in H. cbn [hdZ] in Hx.
    rewrite (proj2 (Z.eqb_neq x 0) Hx0). cbn [negb]. rewrite bind_assoc. run (link_next_run s x 0 _ Hx0 Hx).
    erewrite (bind_ok (set_store _)); [|done]. cbn [prev val nodes].
    erewrite (bind_ok (free a)); [|eapply free_node_run; [done|]; cbn [nodes]; rewrite lookup_insert_ne; set_solver].
    erewrite (bind_ok (modify _)); [|done].
    eexists. split; [done|]. cbn [nodes inst fmap option_fmap option_map head tail size capacity]. rewrite Hu. split; [|split].
    + replace (hdZ a (l ++ [x])) with (hdZ 0 (l ++ [x])) by (by destruct l). rewrite <- (lastZ_snoc 0 l x) at 3.
      apply (rep_without s cap (l ++ [x]) a (vs0 ++ [w]) v); [done|by rewrite !length_app|].
      rewrite lastZ_snoc. intros y n Hy Hin. rewrite lookup_delete_ne by set_solver. destruct (decide (y = x)) as [->|Hne].
      * rewrite lookup_insert_eq. by simplify_eq/=.
      * rewrite lookup_insert_ne by done. rewrite Hy. by destruct n.
    + apply lookup_delete_eq.
    + intros b Hb. rewrite lookup_delete_ne, lookup_insert_ne; set_solver.
Qed.

(** *** Freeing and printing walk the whole chain. *)

Lemma free_chain fuel p l s :
  dll (links (nodes s)) p l 0 -> NoDup l -> (length l <= fuel)%nat ->
  exists s', free_loop fuel (hdZ 0 l) s = Ok (tt, s') /\
    forall a, nodes s' !! a = if decide (a ∈ l) then None else nodes s !! a.
Proof.
  revert p l s. induction fuel as [|fuel IH]; intros p l s Hd Hnd Hf; (destruct l as [|a l]; [by exists s|simpl in Hf; try lia]).
  destruct Hd as (Ha0 & Ha & Hd). apply NoDup_cons in Hnd as [Hal Hnd]. apply node_links in Ha as [v Ha].
  cbn [free_loop hdZ]. rewrite (proj2 (Z.eqb_neq _ _) Ha0). run (node_run s a _ Ha0 Ha).
  run (free_node_run s a _ Ha0 Ha). erewrite (bind_ok (modify _)); [|done]. cbn [next nodes inst].
  edestruct (IH a l) as (s' & -> & Hs'); [|done|lia|].
  - cbn [nodes]. eapply dll_ext; [|exact Hd]. intros x Hx. unfold links. rewrite lookup_delete_ne; [done|set_solver].
  - exists s'. split; [done|]. intros x. rewrite Hs'. cbn [nodes].
    destruct (decide (x ∈ l)), (decide (x ∈ a :: l)); try set_solver.
    + assert (x = a) as -> by set_solver. apply lookup_delete_eq.
    + rewrite lookup_delete_ne; [done|set_solver].
Qed.

Lemma chain_size s cap l vs : store_rep s cap l vs -> (length l <= base.size (nodes s))%nat.
Proof.
  intros H. rewrite <- size_dom, <- (size_list_to_set (C := gset Z) l) by apply H.
  apply subseteq_size. intros a Ha%elem_of_list_to_set. apply elem_of_dom. destruct (nodes s !! a) eqn:E; [by eexists|].
  by apply (store_fresh _ _ _ _ _ H) in E.
Qed.

Lemma free_store_run s cap l vs :
  store_rep s cap l vs -> (forall a, is_Some (nodes s !! a) -> a ∈ l) -> free_store s = Ok (0, mk_mem ∅ None).
Proof.
  intros H Hown. unfold free_store. erewrite (bind_ok (gets inst)); [|done]. rewrite (rep_inst _ _ _ _ H).
  erewrite (bind_ok (gets _)); [|done]. cbn [head].
  destruct (free_chain (base.size (nodes s)) 0 l s) as (s' & E & Hs'); [apply H..|by eapply chain_size|].
  run E. unfold modify, bind, ret. do 3 f_equal. apply map_eq. intros a. rewrite Hs', lookup_empty.
  destruct (decide (a ∈ l)); [done|]. destruct (nodes s !! a) eqn:Ea; [|done]. exfalso. eauto.
Qed.

Lemma print_chain fuel p l vs s :
  dll (links (nodes s)) p l 0 -> Forall2 (fun a v => val <$> nodes s !! a = Some v) l vs -> (length l <= fuel)%nat ->
  print_loop fuel (hdZ 0 l) s = Ok (vs, s).
Proof.
  intros Hd Hv. revert p fuel Hd. induction Hv as [|a v l vs Ha Hv IH]; intros p fuel Hd Hf; [by destruct fuel|].
  destruct fuel as [|fuel]; simpl in Hf; [lia|]. destruct Hd as (Ha0 & Hl & Hd). apply node_links in Hl as [w Hw].
  cbn [print_loop hdZ]. rewrite (proj2 (Z.eqb_neq _ _) Ha0). run (node_run s a _ Ha0 Hw). cbn [next val].
  erewrite bind_ok; [|apply (IH a); [done|lia]]. rewrite Hw in Ha. by injection Ha as ->.
Qed.

Lemma print_list_run s cap l vs : store_rep s cap l vs -> print_list s = Ok (vs, s).
Proof.
  intros H. unfold print_list. erewrite (bind_ok (gets inst)); [|done]. rewrite (rep_inst _ _ _ _ H).
  erewrite (bind_ok (gets _)); [|done]. cbn [head]. eapply print_chain; [apply H..|by eapply chain_size].
Qed.

(** ** The invariant of the threads *)

Definition in_cs (p : pc) : bool := match p with Size | Work | Signal | Unlock => true | _ => false end.

(** Thread [t] has nothing to do with [k] values in the store. *)
Definition idle (t : thread) (cap k : Z) : bool := match t with Setter => cap <=? k | Getter => k =? 0 end.

(** A thread that waits has nothing to do, unless a signal is on its way. *)
Definition thread_ok (cap k : Z) (t : thread) (p q : pc) : Prop :=
  (p = Work -> idle t cap k = false) /\ (p = Wait -> idle t cap k = true \/ q = Signal).

Record inv (cap : Z) (c : config) (l vs : list Z) : Prop := mk_inv {
  inv_rep : store_rep (cm c) cap l vs;
  inv_room : Z.of_nat (length l) <= cap;
  inv_fifo : added c = gotten c ++ rev vs;
  inv_owner : forall t, in_cs (at_ c t) = true <-> owner c = Some t;
  inv_thread : forall t, thread_ok cap (Z.of_nat (length l)) t (at_ c t) (at_ c (other t))
}.

Lemma at_move c t p u : at_ (move c t p) u = if decide (u = t) then p else at_ c u.
Proof. done. Qed.

Lemma at_same c t p : at_ (move c t p) t = p.
Proof. rewrite at_move. by rewrite decide_True. Qed.

Lemma at_other c t p : at_ (move c t p) (other t) = at_ c (other t).
Proof. rewrite at_move. by destruct t. Qed.

Lemma thread_cases t u : u = t \/ u = other t.
Proof. destruct t, u; auto. Qed.

Lemma other_other t : other (other t) = t.
Proof. by destruct t. Qed.

(** A thread moves and leaves the store alone. *)
Lemma thread_moves cap c l vs t p o :
  inv cap c l vs -> (in_cs p = true <-> o = Some t) -> (in_cs (at_ c (other t)) = true <-> o = Some (other t)) ->
  thread_ok cap (Z.of_nat (length l)) t p (at_ c (other t)) ->
  thread_ok cap (Z.of_nat (length l)) (other t) (at_ c (other t)) p ->
  inv cap (with_owner (move c t p) o) l vs.
Proof.
  intros H Ho Ho' Ht Ht'. split; [apply H..| |].
  - intros u. cbn [owner with_owner]. change (at_ (with_owner ?x ?y)) with (at_ x).
    destruct (thread_cases t u) as [->| ->]; [by rewrite at_same|by rewrite at_other].
  - intros u. change (at_ (with_owner ?x ?y)) with (at_ x).
    destruct (thread_cases t u) as [->| ->]; rewrite ?other_other, ?at_same, ?at_other; done.
Qed.

Lemma inv_excl cap c l vs t : inv cap c l vs -> owner c = Some t -> in_cs (at_ c (other t)) = false.
Proof.
  intros H Ho. destruct (in_cs (at_ c (other t))) eqn:E; [|done]. apply (inv_owner _ _ _ _ H) in E. rewrite Ho in E.
  by destruct t.
Qed.

Lemma inv_must cap c l vs t st : inv cap c l vs -> inst (cm c) = Some st -> must_wait t st = idle t cap (Z.of_nat (length l)).
Proof. intros H Hst. rewrite (rep_inst _ _ _ _ (inv_rep _ _ _ _ H)) in Hst. injection Hst as <-. by destruct t. Qed.

(** The store after the call of a thread. *)
Lemma work_inv cap c l vs t addr :
  inv cap c l vs -> 0 <= cap < 2 ^ 64 -> at_ c t = Work -> addr = 0 \/ nodes (cm c) !! addr = None ->
  exists c' l' vs', work t addr c = Ok c' /\ inv cap (move c' t Signal) l' vs' /\ exit_signal c' = exit_signal c.
Proof.
  intros H Hcap Hp Haddr. pose proof (inv_rep _ _ _ _ H) as Hr. pose proof (inv_room _ _ _ _ H) as Hroom.
  pose proof (proj1 (inv_owner _ _ _ _ H t)) as Ho. rewrite Hp in Ho. specialize (Ho eq_refl).
  pose proof (inv_excl _ _ _ _ _ H Ho) as Hex. pose proof (proj1 (inv_thread _ _ _ _ H t) Hp) as Hidle.
  assert (Hafter : forall m r more taken l' vs', store_rep m cap l' vs' -> Z.of_nat (length l') <= cap ->
    added c ++ more = (gotten c ++ taken) ++ rev vs' -> inv cap (move (with_mem c m r more taken) t Signal) l' vs').
  { intros m r more taken l' vs' Hr' Hroom' Hfifo. split; [done..| |].
    - intros u. destruct (thread_cases t u) as [->| ->]; rewrite ?at_same, ?at_other.
      + change (owner (move (with_mem c m r more taken) t Signal)) with (owner c). by rewrite Ho.
      + change (at_ (with_mem c m r more taken)) with (at_ c). apply (inv_owner _ _ _ _ H).
    - intros u. destruct (thread_cases t u) as [->| ->]; rewrite ?other_other, ?at_same, ?at_other; [by split|].
      split; [|by right]. intros E. change (at_ (with_mem c m r more taken)) with (at_ c) in E. by rewrite E in Hex. }
  destruct t; unfold work; cbn [idle] in Hidle.
  - destruct (decide (addr = 0)) as [->|Ha0].
    { rewrite add_val_refused by (rewrite (rep_inst _ _ _ _ Hr); eauto). cbn [obind Z.eqb].
      eexists _, l, vs. split; [done|]. split; [|done]. apply Hafter; [done..|]. rewrite !app_nil_r. apply H. }
    destruct (add_val_run (cm c) cap l vs addr 2) as (m & -> & Hr' & _); [done..|naive_solver|lia|]. cbn [obind Z.eqb].
    eexists _, (addr :: l), (2 :: vs). split; [done|]. split; [|done]. apply Hafter; [done|simpl length; lia|].
    rewrite (inv_fifo _ _ _ _ H), app_nil_r. simpl. by rewrite app_assoc.
  - assert (exists l0 a vs0 v, l = l0 ++ [a] /\ vs = vs0 ++ [v] /\ length vs0 = length l0) as (l0 & a & vs0 & v & -> & -> & Hl).
    { pose proof (Forall2_length _ _ _ (rep_vals _ _ _ _ Hr)) as Hlen.
      destruct l as [|a l0 _] using rev_ind; [done|]. rewrite length_app in Hlen. simpl in Hlen.
      destruct vs as [|v vs0 _] using rev_ind; [simpl in Hlen; lia|]. rewrite length_app in Hlen. simpl in Hlen.
      exists l0, a, vs0, v. split_and!; [done..|lia]. }
    rewrite length_app in Hroom. destruct (get_val_run (cm c) cap l0 a vs0 v (res c)) as (m & -> & Hr' & _); [done..|lia|].
    cbn [obind fst snd Z.eqb]. eexists _, l0, vs0. split; [done|]. split; [|done]. apply Hafter; [done|lia|].
    rewrite (inv_fifo _ _ _ _ H), rev_app_distr, app_nil_r. simpl. by rewrite <- app_assoc.
Qed.

(** A step of a thread keeps the invariant, and only leaving the loop faults. *)
Lemma exec_spec cap c l vs t addr :
  inv cap c l vs -> 0 <= cap < 2 ^ 64 ->
  match exec t addr c with
  | Ok (Some c') => exists l' vs', inv cap c' l' vs' /\ exit_signal c' = exit_signal c
  | Ok None => True
  | Fault _ => exit_signal c = true /\ at_ c t = Test
  end.
Proof.
  intros H Hcap. pose proof (inv_owner _ _ _ _ H t) as Ho. pose proof (inv_owner _ _ _ _ H (other t)) as Ho'.
  pose proof (inv_thread _ _ _ _ H t) as Ht. pose proof (inv_thread _ _ _ _ H (other t)) as Ht'. rewrite other_other in Ht'.
  assert (Hne : Some t <> Some (other t)) by (by destruct t).
  unfold exec. destruct (at_ c t) eqn:Ep; cbn [in_cs] in Ho.
  - destruct (exit_signal c) eqn:Ee; [done|]. exists l, vs. split; [|done].
    apply (thread_moves cap c l vs t Lock (owner c) H); [done..|]. split; [by apply Ht'|]. intros E. left.
    by destruct (proj2 Ht' E).
  - destruct (owner c) eqn:Eo; [done|]. exists l, vs. split; [|done]. apply thread_moves; [done..| | |].
    + rewrite Ho'. naive_solver.
    + done.
    + split; [by apply Ht'|]. intros E. left. by destruct (proj2 Ht' E).
  - destruct (inst (cm c)) as [st|] eqn:Ei; [|by rewrite (rep_inst _ _ _ _ (inv_rep _ _ _ _ H)) in Ei].
    rewrite (inv_must cap c l vs t st H Ei). pose proof (proj1 Ho eq_refl) as Eo.
    pose proof (inv_excl _ _ _ _ _ H Eo) as Hex. destruct (idle t cap (Z.of_nat (length l))) eqn:Eidle.
    + exists l, vs. split; [|done]. apply thread_moves; [done..|by rewrite Hex| |].
      * split; [done|]. by left.
      * split; [by apply Ht'|]. intros E. left. by destruct (proj2 Ht' E).
    + exists l, vs. split; [|done]. apply (thread_moves cap c l vs t Work (owner c) H); [by rewrite Eo|done|by split|].
      split; [by apply Ht'|]. intros E. left. by destruct (proj2 Ht' E).
  - done.
  - destruct (decide (addr = 0 \/ nodes (cm c) !! addr = None)) as [Haddr|]; [|done].
    destruct (work_inv cap c l vs t addr H Hcap Ep Haddr) as (c' & l' & vs' & -> & Hi & He). cbn [obind].
    exists l', vs'. split; [done|]. by rewrite <- He.
  - pose proof (proj1 Ho eq_refl) as Eo. pose proof (inv_excl _ _ _ _ _ H Eo) as Hex.
    assert (Hstay : at_ c (other t) <> Wait -> inv cap (move c t Unlock) l vs).
    { intros Hw. apply (thread_moves cap c l vs t Unlock (owner c) H); [by rewrite Eo|done|by split|].
      split; [|by intros E]. intros E. by rewrite E in Hex. }
    destruct (decide (at_ c (other t) = Wait)) as [Ew|Ew]; [|by exists l, vs; split; [apply Hstay|]].
    exists l, vs. split; [|done].
    assert (H1 : inv cap (move c (other t) Lock) l vs).
    { apply (thread_moves cap c l vs (other t) Lock (owner c) H); rewrite ?other_other.
      - rewrite Eo. naive_solver.
      - rewrite Ep, Eo. done.
      - by split.
      - rewrite Ep. by split. }
    apply (thread_moves cap _ l vs t Unlock (owner c) H1).
    + by rewrite Eo.
    + rewrite at_same, Eo. naive_solver.
    + by split.
    + rewrite at_same. by split.
  - pose proof (proj1 Ho eq_refl) as Eo. pose proof (inv_excl _ _ _ _ _ H Eo) as Hex.
    exists l, vs. split; [|done]. apply thread_moves; [done..|by rewrite Hex|by split|].
    split; [by apply Ht'|]. intros E. left. by destruct (proj2 Ht' E).
Qed.

Definition reachable (cap : Z) (c : config) : Prop := rtc step (initial cap) c.

Lemma initial_holds cap : 0 <= cap -> inv cap (initial cap) [] [].
Proof.
  intros Hc. split; [|done|done|..].
  - split; [done|done|constructor|constructor].
  - intros t. done.
  - intros t. by split.
Qed.

Lemma step_inv cap c c' l vs : 0 <= cap < 2 ^ 64 -> inv cap c l vs -> step c c' -> exists l' vs', inv cap c' l' vs'.
Proof.
  intros Hcap H [t addr c1 He|t Ew|].
  - pose proof (exec_spec cap c l vs t addr H Hcap) as Hs. rewrite He in Hs. naive_solver.
  - exists l, vs. pose proof (inv_thread _ _ _ _ H (other t)) as Ht'. rewrite other_other, Ew in Ht'.
    apply (thread_moves cap c l vs t Lock (owner c) H).
    + pose proof (inv_owner _ _ _ _ H t) as Ho. by rewrite Ew in Ho.
    + apply (inv_owner _ _ _ _ H).
    + by split.
    + split; [by apply Ht'|]. intros E. left. by destruct (proj2 Ht' E).
  - exists l, vs. by destruct H.
Qed.

Lemma reachable_holds cap c : 0 <= cap < 2 ^ 64 -> reachable cap c -> exists l vs, inv cap c l vs.
Proof.
  intros Hcap Hr. assert (H0 : exists l vs, inv cap (initial cap) l vs).
  { exists [], []. apply initial_holds. lia. }
  unfold reachable in Hr. revert H0. induction Hr as [|c1 c2 c3 Hs _ IH]; [done|].
  intros (l & vs & H). apply IH. apply (step_inv cap c1 c2 l vs Hcap H Hs).
Qed.

(** ** Progress *)

Definition rank_of (p : pc) : nat :=
  match p with Wait => 0 | Work => 0 | Size => 1 | Lock => 2 | Test => 3 | Unlock => 4 | Signal => 7 end.

(** Steps to the next call of [add_val] or [get_val] at most. *)
Definition rank (c : config) : nat := rank_of (at_ c Setter) + rank_of (at_ c Getter).

Lemma rank_move c t p : rank (move c t p) = (rank_of p + rank_of (at_ c (other t)))%nat.
Proof. unfold rank, move. destruct t; simpl; lia. Qed.

Lemma rank_now c t : rank c = (rank_of (at_ c t) + rank_of (at_ c (other t)))%nat.
Proof. unfold rank. destruct t; simpl; lia. Qed.

Lemma exec_rank t addr c c' : exec t addr c = Ok (Some c') -> at_ c t <> Work -> (rank c' < rank c)%nat.
Proof.
  unfold exec. destruct (at_ c t) eqn:Ep; intros He Hw; rewrite (rank_now c t), Ep; try done.
  - destruct (exit_signal c); [done|]. injection He as <-. rewrite rank_move. simpl. lia.
  - destruct (owner c); [done|]. injection He as <-. change (rank (with_owner ?x ?y)) with (rank x). rewrite rank_move. simpl. lia.
  - destruct (inst (cm c)) as [st|]; [|done]. destruct (must_wait t st); injection He as <-;
      try change (rank (with_owner ?x ?y)) with (rank x); rewrite rank_move; simpl; lia.
  - injection He as <-. destruct (decide (at_ c (other t) = Wait)) as [E|E]; rewrite rank_move.
    + rewrite at_same, E. simpl. lia.
    + simpl. lia.
  - injection He as <-. change (rank (with_owner ?x ?y)) with (rank x). rewrite rank_move. simpl. lia.
Qed.

(** [k] steps of the threads without a call of [add_val] or [get_val]. *)
Inductive quiet : nat -> config -> config -> Prop :=
| quiet_here c : quiet 0 c c
| quiet_step k t addr c c1 c2 :
    at_ c t <> Work -> exec t addr c = Ok (Some c1) -> quiet k c1 c2 -> quiet (S k) c c2.

Lemma quiet_rank k c c' : quiet k c c' -> (k + rank c' <= rank c)%nat.
Proof. induction 1 as [|k t addr c c1 c2 Hw He _ IH]; [lia|]. apply exec_rank in He; [lia|done]. Qed.

(** Unless the exit signal came, some thread can move: they never wait for each
    other. *)
Lemma some_thread_moves cap c l vs :
  inv cap c l vs -> 0 < cap < 2 ^ 64 -> exit_signal c = false -> exists t addr c', exec t addr c = Ok (Some c').
Proof.
  intros H Hcap He. pose proof (rep_inst _ _ _ _ (inv_rep _ _ _ _ H)) as Hi.
  assert (Hgo : forall t, at_ c t <> Wait -> at_ c t <> Lock -> exists addr c', exec t addr c = Ok (Some c')).
  { intros t H1 H2. pose proof (exec_spec cap c l vs t 0 H ltac:(lia)) as Hs. exists 0. revert Hs. unfold exec.
    destruct (at_ c t) eqn:Ep; try done.
    - rewrite He. eauto.
    - rewrite Hi. destruct (must_wait t _); eauto.
    - rewrite decide_True by (by left). destruct (work t 0 c); cbn [obind]; [eauto|]. intros [? _]. congruence.
    - eauto.
    - eauto. }
  assert (Hlock : forall t, at_ c t = Lock -> exists t addr c', exec t addr c = Ok (Some c')).
  { intros t Ep. destruct (owner c) as [u|] eqn:Eo.
    - pose proof (proj2 (inv_owner _ _ _ _ H u) Eo) as Hu. exists u. apply Hgo; intros E; by rewrite E in Hu.
    - exists t, 0. unfold exec. rewrite Ep, Eo. eauto. }
  destruct (decide (at_ c Setter = Lock)); [eauto|]. destruct (decide (at_ c Getter = Lock)); [eauto|].
  destruct (decide (at_ c Setter = Wait)) as [Es|]; [|eauto]. destruct (decide (at_ c Getter = Wait)) as [Eg|]; [|eauto].
  destruct (proj2 (inv_thread _ _ _ _ H Setter) Es) as [H1|H1]; cbn [other] in *; [|congruence].
  destruct (proj2 (inv_thread _ _ _ _ H Getter) Eg) as [H2|H2]; cbn [other idle] in *; [|congruence]. lia.
Qed.

Lemma quiet_inv cap k c c' l vs :
  0 <= cap < 2 ^ 64 -> quiet k c c' -> inv cap c l vs -> exists l' vs', inv cap c' l' vs' /\ exit_signal c' = exit_signal c.
Proof.
  intros Hcap Hq. revert l vs. induction Hq as [|k t addr c c1 c2 _ He _ IH]; intros l vs H; [eauto|].
  pose proof (exec_spec cap c l vs t addr H Hcap) as Hs. rewrite He in Hs. destruct Hs as (l1 & vs1 & H1 & E1).
  destruct (IH _ _ H1) as (l2 & vs2 & H2 & E2). exists l2, vs2. split; [done|congruence].
Qed.

(** C20: under every interleaving of the two threads, spurious wake-ups and
    failing allocations included, the values taken are those added, in the
    same order, and what is left is in the store; the store never holds more
    than its capacity; the two threads are never both in the critical section;
    and no step faults, except when a thread leaves its loop after the exit
    signal, which runs off the end of a function that should return a
    pointer. *)
Theorem store_threads_safe cap c :
  0 <= cap < 2 ^ 64 -> reachable cap c ->
  (exists vs, print_list (cm c) = Ok (vs, cm c) /\ added c = gotten c ++ rev vs /\ Z.of_nat (length vs) <= cap) /\
  ~ (in_cs (at_ c Setter) = true /\ in_cs (at_ c Getter) = true) /\
  (forall t addr f, exec t addr c = Fault f -> exit_signal c = true /\ at_ c t = Test).
Proof.
  intros Hcap Hr. destruct (reachable_holds cap c Hcap Hr) as (l & vs & H). split; [|split].
  - exists vs. split; [by eapply print_list_run, H|]. split; [apply H|].
    rewrite <- (Forall2_length _ _ _ (rep_vals _ _ _ _ (inv_rep _ _ _ _ H))). apply H.
  - intros [H1 H2]. apply (inv_owner _ _ _ _ H) in H1, H2. congruence.
  - intros t addr f E. pose proof (exec_spec cap c l vs t addr H Hcap) as Hs. by rewrite E in Hs.
Qed.

(** C21: the threads keep exchanging values.  Until the exit signal, in every
    reachable state, some thread can move: they never both wait.  And at most
    fourteen steps pass before one of them calls [add_val] or [get_val], if no
    wait ends without a signal. *)
Theorem store_flows cap c k c' :
  0 < cap < 2 ^ 64 -> reachable cap c -> exit_signal c = false -> quiet k c c' ->
  (k <= 14)%nat /\ exists t addr c'', exec t addr c' = Ok (Some c'').
Proof.
  intros Hcap Hr He Hq. destruct (reachable_holds cap c ltac:(lia) Hr) as (l & vs & H). split.
  - pose proof (quiet_rank _ _ _ Hq). unfold rank in *. destruct (at_ c Setter) eqn:E1, (at_ c Getter) eqn:E2; simpl in *; lia.
  - destruct (quiet_inv cap k c c' l vs ltac:(lia) Hq H) as (l' & vs' & H' & E'). eapply some_thread_moves; [done..|congruence].
Qed.

(** ** Witnesses *)

Fixpoint run_sched (l : list (thread * Z)) (c : config) : option config :=
  match l with
  | [] => Some c
  | (t, addr) :: l => match exec t addr c with Ok (Some c) => run_sched l c | _ => None end
  end.

Lemma run_sched_steps l c c' : run_sched l c = Some c' -> rtc step c c'.
Proof.
  revert c. induction l as [|[t addr] l IH]; intros c; simpl; [intros [= ->]; reflexivity|].
  destruct (exec t addr c) as [[c1|]|] eqn:E; [|done..]. intros Hr. eapply rtc_l; [by eapply step_exec|]. by apply IH.
Qed.

(** The getter finds nothing and waits; a value comes and wakes it up. *)
Definition exchange : list (thread * Z) :=
  [(Getter, 0); (Getter, 0); (Getter, 0); (Setter, 0); (Setter, 0); (Setter, 0); (Setter, 16); (Setter, 0); (Setter, 0);
   (Getter, 0); (Getter, 0); (Getter, 0)].

Definition exchanged : config := default (initial 10) (run_sched exchange (initial 10)).

Lemma exchanged_reachable : reachable 10 exchanged.
Proof. apply (run_sched_steps exchange). by vm_compute. Qed.

Lemma store_threads_safe_witness :
  gotten exchanged = [2] /\ added exchanged = [2] /\
  ~ (in_cs (at_ exchanged Setter) = true /\ in_cs (at_ exchanged Getter) = true).
Proof.
  split; [by vm_compute|]. split; [by vm_compute|].
  apply (store_threads_safe 10 exchanged); [lia|apply exchanged_reachable].
Defined.

Lemma store_flows_witness :
  let c := with_owner (move (move (initial 10) Setter Lock) Setter Size) (Some Setter) in
  (2 <= 14)%nat /\ exists t addr c'', exec t addr c = Ok (Some c'').
Proof.
  intros c. apply (store_flows 10 (initial 10) 2 c).
  - lia.
  - apply rtc_refl.
  - done.
  - eapply (quiet_step _ Setter 0); [done|done|]. eapply (quiet_step _ Setter 0); [done|done|]. constructor.
Defined.
