(* ===== verification/MapReduce.v ===== *)
(** * MapReduce: one round of a breadth-first search

    Models [src/c++/map-reduce/BFS-non-weighted-graph]: the mapper and the
    reducer of a search for distances in a graph, and the functions of
    shortest_path_utils that read and print the lines they exchange.  A line
    has a vertex, its distance and its neighbours.  The mapper repeats each
    line and offers each neighbour a distance one larger; the lines are then
    grouped by vertex; the reducer prints one line for each group.

    Exceptions are caught where the code catches them.  What they print is a
    parameter, since the text of an exception is up to the library; a function
    that goes on to return a variable it never wrote is a fault. *)

From S2P Require Import Prelude CInt CString CBuf CppString.
Open Scope Z_scope.

(** Characters of the format. *)
Definition TAB : Z := 9.
Definition NL : Z := 10.
Definition COMMA : Z := 44.
Definition LBRACE : Z := 123.
Definition RBRACE : Z := 125.

Record vertex_info := mk_info { vertex_id : Z; dist : Z; adj_vertex : list cstr }.

#[export] Instance vertex_info_eq_dec : EqDecision vertex_info.
Proof. solve_decision. Defined.

(** ** Reading a line *)

Fixpoint split_loop (line : cstr) (separator : Z) (v : cstr) (res : list cstr) : list cstr :=
  match line with
  | [] => if bool_decide (v = []) then res else res ++ [v]
  | c :: line =>
      if negb (c =? separator) then split_loop line separator (v ++ [c]) res
      else split_loop line separator [] (if bool_decide (v = []) then res else res ++ [v])
  end.

Definition split_line (line : cstr) (separator : Z) : list cstr := split_loop line separator [] [].

(** The result is not initialised when [stoi] throws. *)
Definition get_vertex_id (line : cstr) : outcome Z :=
  let tab_pos := find line TAB 0 in
  let? t := substr line 0 tab_pos in
  match stoi t with Some v => Ok (u64 v) | None => Fault Indeterminate end.

(** [substr] may throw too. *)
Definition get_distance_value (line : cstr) : outcome Z :=
  let start := u64 (find line TAB 0 + 1) in
  let end_ := find line TAB start in
  match substr line start (u64 (end_ - start)) with
  | Fault _ => Fault Indeterminate
  | Ok d =>
      if bool_decide (d = bytes_of "INF") then Ok INT_MAX
      else match stoi d with Some v => Ok v | None => Fault Indeterminate end
  end.

Section code.
(** The text of an exception. *)
Context (what : cstr).

(** What is printed and the result. *)
Definition get_adj_list (line : cstr) : cstr * list cstr :=
  let start := u64 (find line LBRACE 0 + 1) in
  let end_ := find line RBRACE 0 in
  match substr line start (u64 (end_ - start)) with
  | Ok list_line => ([], split_line list_line COMMA)
  | Fault _ => (what ++ [NL], [])
  end.

Definition parse_line (line : cstr) : outcome (cstr * vertex_info) :=
  let? i := get_vertex_id line in
  let? d := get_distance_value line in
  let '(out, adj) := get_adj_list line in
  Ok (out, mk_info i d adj).

(** ** Printing *)

Definition print_vertex_id (vertex_id : Z) : cstr := print_dec vertex_id ++ [TAB].

Definition print_dist (dist : Z) : cstr :=
  if dist =? INT_MAX then bytes_of "INF" ++ [TAB] else print_dec dist ++ [TAB].

(** The loop over the neighbours. *)
Fixpoint print_vect (vect : list cstr) : cstr :=
  match vect with
  | [] => []
  | [el] => el ++ [RBRACE; NL]
  | el :: vect => el ++ [COMMA] ++ print_vect vect
  end.

Definition print_adj_vertex (vect : list cstr) : cstr :=
  match vect with
  | [] => [LBRACE; RBRACE; NL]
  | _ => [LBRACE] ++ print_vect vect
  end.

Definition print_data (vertex_id dist : Z) (vect : list cstr) : cstr :=
  print_vertex_id vertex_id ++ print_dist dist ++ print_adj_vertex vect.

Definition print_adj_vertex_info (vect : list cstr) (dist : Z) : cstr :=
  let dist_str := if dist =? INT_MAX then bytes_of "INF" else print_dec (dist + 1) in
  flat_map (fun el => el ++ [TAB] ++ dist_str ++ [TAB] ++ [LBRACE; RBRACE; NL]) vect.

(** ** Merging neighbours *)

(** The map holds the elements [dest] had before the loop. *)
Definition merge_vects (dest source : list cstr) : list cstr :=
  let mp := dest in
  foldl (fun dest el => if bool_decide (el ∈ mp) then dest else dest ++ [el]) dest source.

Definition add_to_end (dest source : list cstr) : list cstr := dest ++ source.

(** ** The mapper and the reducer *)

Fixpoint mapper_loop (lines : list cstr) : outcome cstr :=
  match lines with
  | [] => Ok []
  | line :: lines =>
      let? (out, cur_info) := parse_line line in
      let offers := match adj_vertex cur_info with
                    | [] => []
                    | _ => print_adj_vertex_info (adj_vertex cur_info) (dist cur_info)
                    end in
      let? rest := mapper_loop lines in
      Ok (line ++ [NL] ++ out ++ offers ++ rest)
  end.

(** What is printed for an input. *)
Definition mapper (input : cstr) : outcome cstr := mapper_loop (getlines input []).

Fixpoint reducer_loop (lines : list cstr) (prev_info : vertex_info) (min_dist : Z) (total_adj_vertexes : list cstr)
  : outcome cstr :=
  match lines with
  | [] => Ok (print_data (vertex_id prev_info) min_dist total_adj_vertexes)
  | line :: lines =>
      let? (out, cur_info) := parse_line line in
      if negb (vertex_id cur_info =? vertex_id prev_info) then
        let? rest := reducer_loop lines cur_info (dist cur_info) (add_to_end [] (adj_vertex cur_info)) in
        Ok (out ++ print_data (vertex_id prev_info) min_dist total_adj_vertexes ++ rest)
      else
        let? rest := reducer_loop lines cur_info (if dist cur_info <=? min_dist then dist cur_info else min_dist)
                       (merge_vects total_adj_vertexes (adj_vertex cur_info)) in
        Ok (out ++ rest)
  end.

(** The first line is read before the loop, also when there is none. *)
Definition reducer (input : cstr) : outcome cstr :=
  let '(line, lines) := match getlines input [] with l :: ls => (l, ls) | [] => ([], []) end in
  let? (out, prev_info) := parse_line line in
  let? rest := reducer_loop lines prev_info (dist prev_info) (add_to_end [] (adj_vertex prev_info)) in
  Ok (out ++ rest).

(** ** The reference *)

(** A vertex, its distance ([INT_MAX] when none is known) and its neighbours. *)
Record vertex := mk_vertex { vid : Z; vdist : Z; vadj : list Z }.

Definition info_of (v : vertex) : vertex_info := mk_info (vid v) (vdist v) (map print_dec (vadj v)).

(** A line of the file stands for a vertex. *)
Definition reads (line : cstr) (v : vertex) : Prop :=
  ~ (NL ∈ line) /\ parse_line line = Ok ([], info_of v) /\
  0 <= vid v < 2 ^ 31 /\ 0 <= vdist v <= INT_MAX /\ Forall (fun a => 0 <= a < 2 ^ 31) (vadj v) /\
  Z.of_nat (length (vadj v)) < 2 ^ 32.

(** The distance offered to the neighbours. *)
Definition far (d : Z) : Z := if d =? INT_MAX then INT_MAX else d + 1.

Definition offers (v : vertex) : list vertex := map (fun a => mk_vertex a (far (vdist v)) []) (vadj v).

(** What the mapper makes of a vertex. *)
Definition expand (v : vertex) : list vertex := v :: offers v.

(** ** Formatted lines *)

Fixpoint commas (names : list cstr) : cstr :=
  match names with
  | [] => []
  | [x] => x
  | x :: names => x ++ [COMMA] ++ commas names
  end.

Lemma print_adj_commas names : print_adj_vertex names = [LBRACE] ++ commas names ++ [RBRACE; NL].
Proof.
  destruct names as [|x names]; [done|]. unfold print_adj_vertex. f_equal. revert x.
  induction names as [|y names IH]; intros x; [done|].
  change (print_vect (x :: y :: names)) with (x ++ [COMMA] ++ print_vect (y :: names)). rewrite IH.
  change (commas (x :: y :: names)) with (x ++ [COMMA] ++ commas (y :: names)). by rewrite <- !app_assoc.
Qed.

Lemma split_loop_name x rest v res :
  ~ (COMMA ∈ x) -> split_loop (x ++ rest) COMMA v res = split_loop rest COMMA (v ++ x) res.
Proof.
  revert v. induction x as [|c x IH]; intros v Hx; [by rewrite app_nil_r|].
  apply not_elem_of_cons in Hx as [Hc Hx]. cbn [app split_loop]. rewrite (proj2 (Z.eqb_neq c COMMA)) by done.
  cbn [negb]. rewrite IH by done. by rewrite <- app_assoc.
Qed.

Lemma split_commas names res :
  Forall (fun x => x <> [] /\ ~ (COMMA ∈ x)) names -> split_loop (commas names) COMMA [] res = res ++ names.
Proof.
  intros Hn. revert res. induction Hn as [|x names [Hx Hc] Hn IH]; intros res; [by rewrite app_nil_r|].
  destruct names as [|y names].
  - cbn [commas]. rewrite <- (app_nil_r x) at 1. rewrite split_loop_name by done. cbn [split_loop app].
    by rewrite bool_decide_false.
  - change (commas (x :: y :: names)) with (x ++ COMMA :: commas (y :: names)). rewrite split_loop_name by done.
    cbn [split_loop app]. rewrite Z.eqb_refl. cbn [negb]. rewrite bool_decide_false by done. rewrite IH.
    by rewrite <- app_assoc.
Qed.

Lemma commas_length names k :
  Forall (fun x => (length x <= k)%nat) names -> (length (commas names) <= length names * S k)%nat.
Proof.
  induction 1 as [|x names Hx Hn IH]; [done|]. destruct names as [|y names]; [simpl; lia|].
  change (commas (x :: y :: names)) with (x ++ COMMA :: commas (y :: names)). rewrite length_app. cbn [length] in *. lia.
Qed.

Lemma commas_avoid c names : c <> COMMA -> Forall (fun x => ~ (c ∈ x)) names -> ~ (c ∈ commas names).
Proof.
  intros Hc. induction 1 as [|x names Hx Hn IH]; [set_solver|]. destruct names as [|y names]; [done|].
  change (commas (x :: y :: names)) with (x ++ COMMA :: commas (y :: names)). rewrite elem_of_app, elem_of_cons. tauto.
Qed.

Lemma print_dec_digits_len z : (length (print_dec z) <= 21)%nat.
Proof.
  assert (Hl : forall fuel z acc, (length (dec_digits fuel z acc) <= fuel + length acc)%nat).
  { induction fuel as [|fuel IH]; intros y acc; cbn [dec_digits]; [lia|].
    destruct (y <? 10); [simpl; lia|]. etrans; [apply IH|]. simpl. lia. }
  unfold print_dec. pose proof (Hl 20%nat z []). pose proof (Hl 20%nat (- z) []). destruct (z <? 0); simpl length in *; lia.
Qed.

(** The texts of a distance. *)
Inductive dist_text : Z -> cstr -> Prop :=
| text_inf : dist_text INT_MAX (bytes_of "INF")
| text_num d : 0 <= d <= INT_MAX -> dist_text d (print_dec d).

Lemma dist_text_facts d t :
  dist_text d t -> 0 <= d <= INT_MAX /\ (length t <= 21)%nat /\
  (forall c, isdigit c = false -> ~ (c ∈ bytes_of "INF") -> ~ (c ∈ t)) /\
  (if bool_decide (t = bytes_of "INF") then d = INT_MAX else stoi t = Some d).
Proof.
  intros [|d' Hd].
  - split; [unfold INT_MAX; lia|]. split; [vm_compute; lia|]. split; [by intros c _ Hc|]. by rewrite bool_decide_true.
  - split; [done|]. split; [apply print_dec_digits_len|]. split; [intros c Hc _; apply print_dec_avoids; lia || done|].
    destruct (print_dec_digits d') as [_ Hds]; [lia|]. rewrite bool_decide_false.
    + apply stoi_print_end. unfold INT_MAX in Hd. lia.
    + intros E. rewrite E in Hds. by inversion Hds.
Qed.

Definition line_text (i : Z) (dt : cstr) (names : list cstr) : cstr :=
  print_dec i ++ TAB :: dt ++ TAB :: LBRACE :: commas names ++ [RBRACE].

Lemma reads_text i d dt adj :
  0 <= i < 2 ^ 31 -> dist_text d dt -> Forall (fun a => 0 <= a < 2 ^ 31) adj -> Z.of_nat (length adj) < 2 ^ 32 ->
  reads (line_text i dt (map print_dec adj)) (mk_vertex i d adj).
Proof.
  intros Hi Hdt Hadj Hlen. destruct (dist_text_facts d dt Hdt) as (Hd & Hdl & Hdc & Hds).
  pose proof (print_dec_digits_len i) as Hil. set (names := map print_dec adj).
  assert (Hav : forall c, isdigit c = false -> ~ (c ∈ print_dec i)) by (intros c; apply print_dec_avoids; lia).
  assert (Hnames : forall c, isdigit c = false -> Forall (fun x => ~ (c ∈ x)) names).
  { intros c Hc. apply Forall_map. eapply Forall_impl; [exact Hadj|]. intros a [Ha _]. by apply print_dec_avoids. }
  assert (Hnl : (length (commas names) <= length adj * 22)%nat).
  { etrans; [apply (commas_length names 21)|]; [|unfold names; rewrite length_map; done].
    apply Forall_map, Forall_forall. intros a _. apply print_dec_digits_len. }
  assert (E1 : find (line_text i dt names) TAB 0 = Z.of_nat (length (print_dec i))).
  { apply (find_first TAB [] (print_dec i) (dt ++ TAB :: LBRACE :: commas names ++ [RBRACE]) 0 eq_refl). by apply Hav. }
  assert (Hsplit : line_text i dt names = (print_dec i ++ [TAB]) ++ dt ++ TAB :: LBRACE :: commas names ++ [RBRACE])
    by (unfold line_text; by rewrite <- app_assoc).
  split; [|split; [|split; [done|split; [done|split; done]]]].
  - unfold line_text. rewrite elem_of_app, elem_of_cons, elem_of_app, !elem_of_cons, elem_of_app, list_elem_of_singleton.
    intros [H|[H|[H|[H|[H|[H|H]]]]]]; try done.
    + by apply (Hav NL).
    + revert H. apply Hdc; [done|]. vm_compute. set_solver.
    + revert H. apply commas_avoid; [done|by apply Hnames].
  - unfold parse_line. assert (Hid : get_vertex_id (line_text i dt names) = Ok i).
    { unfold get_vertex_id. rewrite E1. unfold line_text. rewrite substr_head by done. cbn [obind].
      rewrite stoi_print_end by lia. by rewrite u64_small by lia. }
    rewrite Hid. cbn [obind].
    assert (Hdist : get_distance_value (line_text i dt names) = Ok d).
    { unfold get_distance_value. rewrite E1. rewrite u64_small by lia. rewrite Hsplit.
      rewrite find_first; [|rewrite length_app; simpl; lia|apply Hdc; [done|vm_compute; set_solver]].
      rewrite !length_app. cbn [length]. rewrite u64_small by lia.
      rewrite substr_mid; [|rewrite length_app; simpl; lia|lia].
      destruct (bool_decide (dt = bytes_of "INF")); [by rewrite Hds|by rewrite Hds]. }
    rewrite Hdist. cbn [obind].
    assert (Hl : get_adj_list (line_text i dt names) = ([], names)).
    { unfold get_adj_list.
      set (pre := print_dec i ++ TAB :: dt ++ [TAB]).
      assert (Hs2 : line_text i dt names = pre ++ LBRACE :: commas names ++ [RBRACE])
        by (unfold pre, line_text; by rewrite <- !app_assoc; cbn [app]; rewrite <- app_assoc).
      assert (Hpre : forall c, isdigit c = false -> ~ (c ∈ bytes_of "INF") -> c <> TAB -> ~ (c ∈ pre)).
      { intros c Hc1 Hc2 Hc3. unfold pre. rewrite elem_of_app, elem_of_cons, elem_of_app, list_elem_of_singleton.
        intros [H|[H|[H|H]]]; [by apply (Hav c)|done|by apply (Hdc c)|done]. }
      assert (Hpl : (length pre <= 44)%nat) by (unfold pre; rewrite length_app; cbn [length]; rewrite length_app; cbn [length]; lia).
      rewrite Hs2. pose proof (find_first LBRACE [] pre (commas names ++ [RBRACE]) 0 eq_refl) as E2. cbn [app] in E2.
      rewrite E2 by (apply Hpre; [done|vm_compute; set_solver|done]).
      pose proof (find_first RBRACE [] (pre ++ LBRACE :: commas names) [] 0 eq_refl) as E3. cbn [app] in E3.
      rewrite <- app_assoc in E3. cbn [app] in E3. rewrite E3.
      - rewrite length_app. cbn [length]. rewrite (u64_small (Z.of_nat (length pre) + 1)) by lia.
        replace (pre ++ LBRACE :: commas names ++ [RBRACE]) with ((pre ++ [LBRACE]) ++ commas names ++ [RBRACE])
          by (by rewrite <- app_assoc).
        rewrite substr_mid; [|rewrite length_app; simpl; lia|rewrite u64_small; lia].
        unfold split_line. rewrite split_commas; [done|]. apply Forall_map. eapply Forall_impl; [exact Hadj|].
        intros a [Ha _]. split; [by apply print_dec_digits|by apply print_dec_avoids].
      - rewrite elem_of_app, elem_of_cons. intros [H|[H|H]]; [|done|].
        + revert H. apply Hpre; [done|vm_compute; set_solver|done].
        + revert H. apply commas_avoid; [done|by apply Hnames]. }
    by rewrite Hl.
Qed.

Lemma print_data_text i d adj :
  0 <= i < 2 ^ 31 -> 0 <= d <= INT_MAX -> Forall (fun a => 0 <= a < 2 ^ 31) adj -> Z.of_nat (length adj) < 2 ^ 32 ->
  exists line, print_data i d (map print_dec adj) = line ++ [NL] /\ reads line (mk_vertex i d adj).
Proof.
  intros Hi Hd Hadj Hl.
  assert (exists dt, dist_text d dt /\ print_dist d = dt ++ [TAB]) as (dt & Hdt & E).
  { unfold print_dist. destruct (Z.eqb_spec d INT_MAX) as [->|]; eexists; (split; [|done]); by constructor. }
  exists (line_text i dt (map print_dec adj)). split; [|by apply reads_text].
  unfold print_data, print_vertex_id, line_text. rewrite E, print_adj_commas.
  repeat (rewrite <- !app_assoc; cbn [app]). done.
Qed.

(** ** The mapper *)

Lemma offers_text v :
  Forall (fun a => 0 <= a < 2 ^ 31) (vadj v) -> 0 <= vdist v <= INT_MAX ->
  exists ls, print_adj_vertex_info (map print_dec (vadj v)) (vdist v) = unlines ls /\ Forall2 reads ls (offers v).
Proof.
  intros Ha Hd. unfold print_adj_vertex_info, offers.
  set (dt := if vdist v =? INT_MAX then bytes_of "INF" else print_dec (vdist v + 1)).
  assert (Hdt : dist_text (far (vdist v)) dt).
  { unfold dt, far. destruct (Z.eqb_spec (vdist v) INT_MAX); constructor. lia. }
  exists (map (fun a => line_text a dt []) (vadj v)). split.
  - unfold unlines. induction (vadj v) as [|a l IH]; [done|]. cbn [map flat_map]. inversion Ha; subst. rewrite <- IH by done.
    unfold line_text. cbn [commas]. by repeat (rewrite <- !app_assoc; cbn [app]).
  - induction Ha as [|a l Ha _ IH]; [constructor|]. cbn [map]. constructor; [|done]. by apply (reads_text a _ dt []).
Qed.

Lemma mapper_loop_run lines vs :
  Forall2 reads lines vs ->
  exists mapped, mapper_loop lines = Ok (unlines mapped) /\ Forall2 reads mapped (flat_map expand vs).
Proof.
  induction 1 as [|line v lines vs Hv _ IH]; [by exists []|]. destruct IH as (mapped & Hm & Hr).
  destruct Hv as (Hnl & Hp & Hi & Hd & Ha & Hlen). destruct (offers_text v Ha Hd) as (ls & Hls & Hlr).
  exists ((line :: ls) ++ mapped). split.
  - cbn [mapper_loop]. rewrite Hp. cbn [obind]. rewrite Hm. cbn [obind]. unfold info_of. cbn [adj_vertex dist].
    rewrite unlines_app. cbn [unlines flat_map]. fold (unlines ls). rewrite <- Hls.
    destruct (map print_dec (vadj v)) eqn:E; by repeat (rewrite <- !app_assoc; cbn [app]).
  - cbn [flat_map]. apply Forall2_app; [|done]. constructor; [done|done].
Qed.

Lemma reads_lines ls vs : Forall2 reads ls vs -> Forall (fun l => ~ (NL ∈ l)) ls.
Proof. induction 1 as [|l v ls vs [Hl _]]; by constructor. Qed.

Lemma mapper_run lines vs :
  Forall2 reads lines vs ->
  exists mapped, mapper (unlines lines) = Ok (unlines mapped) /\ Forall2 reads mapped (flat_map expand vs).
Proof.
  intros H. unfold mapper. rewrite getlines_unlines by (by eapply reads_lines). by apply mapper_loop_run.
Qed.

(** ** The reducer *)

Definition nonempty (v : vertex) : bool := negb (bool_decide (vadj v = [])).

(** At most one list of neighbours in a group. *)
Definition one_list (g : list vertex) : Prop := (length (filter (fun v => nonempty v = true) g) <= 1)%nat.

Lemma merge_nil_l a : merge_vects [] a = a.
Proof.
  unfold merge_vects. assert (H : forall d, foldl (fun dest el => if bool_decide (el ∈ @nil cstr) then dest else dest ++ [el]) d a = d ++ a).
  { induction a as [|x a IH]; intros d; cbn [foldl]; [by rewrite app_nil_r|]. rewrite bool_decide_false by set_solver.
    rewrite IH. by rewrite <- app_assoc. }
  apply (H []).
Qed.

Lemma merge_nil_r t : merge_vects t [] = t.
Proof. done. Qed.

Lemma one_list_cons v g : one_list (v :: g) -> (vadj v = [] /\ one_list g) \/ Forall (fun u => vadj u = []) g.
Proof.
  unfold one_list. rewrite filter_cons. unfold nonempty at 1.
  destruct (decide (vadj v = [])) as [E|E].
  - rewrite decide_False by (unfold nonempty; by rewrite bool_decide_true). by left.
  - rewrite decide_True by (unfold nonempty; by rewrite bool_decide_false). cbn [length]. intros Hl. right.
    induction g as [|u g IH]; [constructor|]. rewrite filter_cons in Hl.
    destruct (decide (nonempty u = true)) as [Hu|Hu]; cbn [length] in Hl; [lia|]. constructor; [|by apply IH].
    unfold nonempty in Hu. destruct (decide (vadj u = [])) as [|N]; [done|]. by rewrite bool_decide_false in Hu.
Qed.

Lemma obind_same {A} (o : outcome (list A)) : (let? rest := o in Ok ([] ++ rest)) = o.
Proof. by destruct o. Qed.

(** The rest of a group. *)
Lemma reducer_loop_group lg g i rest prev m t :
  Forall2 reads lg g -> Forall (fun v => vid v = i) g -> vertex_id prev = i ->
  (t = [] /\ one_list g) \/ Forall (fun u => vadj u = []) g ->
  exists prev', vertex_id prev' = i /\
    reducer_loop (lg ++ rest) prev m (map print_dec t) =
    reducer_loop rest prev' (foldl Z.min m (map vdist g)) (map print_dec (t ++ flat_map vadj g)).
Proof.
  intros Hr. revert prev m t. induction Hr as [|l v lg g Hv Hr IH]; intros prev m t Hi Hp Ht.
  { exists prev. by rewrite app_nil_r. }
  apply Forall_cons in Hi as [Hvi Hi]. destruct Hv as (_ & Hpar & _). cbn [app reducer_loop]. rewrite Hpar. cbn [obind].
  unfold info_of. cbn [vertex_id dist adj_vertex]. rewrite Hvi, Hp, Z.eqb_refl. cbn [negb]. rewrite obind_same.
  assert (Hm : merge_vects (map print_dec t) (map print_dec (vadj v)) = map print_dec (t ++ vadj v)).
  { rewrite map_app. destruct Ht as [[-> _]|Hg]; [apply merge_nil_l|]. apply Forall_cons in Hg as [-> _]. cbn [map].
    by rewrite app_nil_r, merge_nil_r. }
  rewrite Hm. replace (if vdist v <=? m then vdist v else m) with (Z.min m (vdist v)).
  2:{ destruct (Z.leb_spec (vdist v) m); lia. }
  destruct (IH (mk_info i (vdist v) (map print_dec (vadj v))) (Z.min m (vdist v)) (t ++ vadj v) Hi eq_refl) as (prev' & Hp' & E').
  { destruct Ht as [[-> H1]|Hg]; [|right; by apply Forall_cons in Hg as [_ ?]].
    apply one_list_cons in H1 as [[E H1]|H1]; [left; by rewrite E|by right]. }
  exists prev'. split; [done|]. rewrite E'. cbn [map foldl flat_map]. by rewrite app_assoc.
Qed.

Lemma flat_map_one {A B} (f : A -> list B) x : flat_map f [x] = f x.
Proof. apply app_nil_r. Qed.

Definition summary (i : Z) (g : list vertex) : vertex :=
  mk_vertex i (foldl Z.min INT_MAX (map vdist g)) (flat_map vadj g).

Definition group_of (i : Z) (g : list vertex) : Prop := g <> [] /\ Forall (fun v => vid v = i) g /\ one_list g.

Lemma summary_cons i v g :
  vdist v <= INT_MAX -> summary i (v :: g) = mk_vertex i (foldl Z.min (vdist v) (map vdist g)) (vadj v ++ flat_map vadj g).
Proof. intros Hd. unfold summary. cbn [map foldl flat_map]. by rewrite Z.min_r. Qed.

(** The whole input, from the first line of a group on. *)
Lemma reducer_loop_groups ids gs lgs i l v lg g :
  Forall2 (Forall2 reads) lgs gs -> Forall2 group_of ids gs -> NoDup (i :: ids) ->
  Forall2 reads (l :: lg) (v :: g) -> group_of i (v :: g) ->
  reducer_loop (lg ++ concat lgs) (info_of v) (vdist v) (map print_dec (vadj v)) =
  Ok (flat_map (fun w => print_data (vid w) (vdist w) (map print_dec (vadj w))) (zip_with summary (i :: ids) ((v :: g) :: gs))).
Proof.
  intros Hls Hgs. revert i l v lg g lgs Hls. induction Hgs as [|j g2 ids gs Hg2 Hgs IH]; intros i l v lg g lgs Hls Hnd Hr (_ & Hi & H1).
  all: inversion_clear Hr as [|? ? ? ? Hv Hr']; pose proof Hv as (_ & _ & _ & Hd & _).
  all: apply Forall_cons in Hi as [Hvi Hi]; apply one_list_cons in H1.
  all: assert (Hgo : (vadj v = [] /\ one_list g) \/ Forall (fun u => vadj u = []) g) by done.
  all: edestruct (reducer_loop_group lg g i (concat lgs) (info_of v) (vdist v) (vadj v) Hr' Hi Hvi Hgo) as (prev' & Hp' & ->).
  - inversion Hls; subst. cbn [concat zip_with]. rewrite flat_map_one, summary_cons by lia. cbn [reducer_loop flat_map]. by rewrite Hp'.
  - inversion Hls as [|lg2 ? lgs2 ? Hr2 Hls2]; subst. destruct Hg2 as (Hne2 & Hi2 & H12).
    destruct g2 as [|v2 g2]; [done|]. inversion Hr2 as [|l2 ? lg2' ? Hv2 Hr2']; subst.
    pose proof Hv2 as (_ & Hpar & _). cbn [concat app reducer_loop]. rewrite Hpar. cbn [obind].
    apply Forall_cons in Hi2 as [Hv2i Hi2'].
    apply NoDup_cons in Hnd as [Hni Hnd]. assert (Hne : j <> vid v) by set_solver.
    change (vertex_id (info_of v2)) with (vid v2). change (dist (info_of v2)) with (vdist v2).
    change (add_to_end [] (adj_vertex (info_of v2))) with (map print_dec (vadj v2)).
    rewrite Hp', Hv2i, (proj2 (Z.eqb_neq j _) Hne). cbn [negb].
    rewrite (IH j l2 v2 lg2' g2 lgs2 Hls2 Hnd Hr2).
    + cbn [obind zip_with flat_map]. rewrite (summary_cons _ v g) by lia. done.
    + split; [done|]. split; [by constructor|done].
Qed.
(** ** One round *)

Lemma forall2_perm {A B} (R : A -> B -> Prop) l l' k :
  l ≡ₚ l' -> Forall2 R l k -> exists k', Forall2 R l' k' /\ k ≡ₚ k'.
Proof.
  intros Hp. revert k. induction Hp as [|x l l' _ IH|x y l|l1 l2 l3 _ IH1 _ IH2]; intros k Hk.
  - by exists k.
  - inversion_clear Hk as [|? b ? k0 Hx Hl]. destruct (IH k0 Hl) as (k' & Hk' & Hp'). exists (b :: k'). split; [by constructor|by constructor].
  - inversion_clear Hk as [|? b ? k0 Hx Hl]. inversion_clear Hl as [|? c ? k1 Hy Hl']. exists (c :: b :: k1).
    split; [by repeat constructor|constructor].
  - destruct (IH1 k Hk) as (k1 & Hk1 & Hp1). destruct (IH2 k1 Hk1) as (k2 & Hk2 & Hp2). exists k2. split; [done|by etrans].
Qed.

Lemma forall2_concat {A B} (R : A -> B -> Prop) ls k :
  Forall2 R (concat ls) k -> exists ks, k = concat ks /\ Forall2 (Forall2 R) ls ks.
Proof.
  revert k. induction ls as [|l ls IH]; intros k Hk; cbn [concat] in Hk.
  - inversion Hk; subst. by exists [].
  - apply Forall2_app_inv_l in Hk as (k1 & k2 & H1 & H2 & ->). destruct (IH k2 H2) as (ks & -> & Hks).
    exists (k1 :: ks). split; [done|by constructor].
Qed.

Lemma elem_of_concat {A} (x : A) ls : x ∈ concat ls <-> exists l, x ∈ l /\ l ∈ ls.
Proof. induction ls as [|l ls IH]; cbn [concat]; [set_solver|]. rewrite elem_of_app, IH. set_solver. Qed.

Lemma same_vid vs u v : NoDup (map vid vs) -> u ∈ vs -> v ∈ vs -> vid u = vid v -> u = v.
Proof.
  induction vs as [|x vs IH]; [set_solver|]. cbn [map]. intros [Hx Hnd]%NoDup_cons Hu Hv E.
  assert (Hin : forall y, y ∈ vs -> vid y ∈ map vid vs).
  { intros y Hy. change (vid y ∈ vid <$> vs). apply list_elem_of_fmap. eauto. }
  apply elem_of_cons in Hu as [->|Hu], Hv as [->|Hv].
  - done.
  - destruct Hx. rewrite E. by apply Hin.
  - destruct Hx. rewrite <- E. by apply Hin.
  - by apply IH.
Qed.


(** The lines between the mapper and the reducer come grouped by vertex. *)
Definition grouped (gs : list (list cstr)) : Prop :=
  exists ids, NoDup ids /\ Forall2 (fun i g => g <> [] /\ Forall (fun l => get_vertex_id l = Ok i) g) ids gs.

(** [d] is the distance of vertex [i], or one that a neighbour offers it. *)
Definition offered (vs : list vertex) (i d : Z) : Prop :=
  exists v, v ∈ vs /\ ((vid v = i /\ vdist v = d) \/ (i ∈ vadj v /\ far (vdist v) = d)).

Record relaxed (vs ws : list vertex) : Prop := mk_relaxed {
  rx_once : NoDup (map vid ws);
  rx_all : forall i, i ∈ map vid ws <-> exists d, offered vs i d;
  rx_dist : forall w, w ∈ ws -> offered vs (vid w) (vdist w) /\ forall d, offered vs (vid w) d -> vdist w <= d;
  rx_adj : forall w v, w ∈ ws -> v ∈ vs -> vid v = vid w -> vadj w = vadj v;
  rx_new : forall w, w ∈ ws -> (forall v, v ∈ vs -> vid v <> vid w) -> vadj w = []
}.

Lemma expand_in vs x : x ∈ flat_map expand vs <-> exists v, v ∈ vs /\ (x = v \/ exists a, a ∈ vadj v /\ x = mk_vertex a (far (vdist v)) []).
Proof.
  induction vs as [|v vs IH]; cbn [flat_map]; [set_solver|]. rewrite elem_of_app, IH. unfold expand, offers.
  rewrite elem_of_cons. change (map ?f (vadj v)) with (f <$> vadj v). rewrite list_elem_of_fmap. set_solver.
Qed.

Lemma offered_expand vs i d : offered vs i d <-> exists x, x ∈ flat_map expand vs /\ vid x = i /\ vdist x = d.
Proof.
  unfold offered. split.
  - intros (v & Hv & [[<- <-]|[Hi <-]]).
    + exists v. split; [apply expand_in; exists v; by auto|done].
    + exists (mk_vertex i (far (vdist v)) []). split; [apply expand_in; exists v; by eauto|done].
  - intros (x & (v & Hv & [->|(a & Ha & ->)])%expand_in & <- & <-); exists v; auto.
Qed.

Lemma own_line vs i :
  NoDup (map vid vs) -> (length (filter (fun v => nonempty v = true /\ vid v = i) (flat_map expand vs)) <= 1)%nat.
Proof.
  assert (Hoff : forall v, filter (fun v => nonempty v = true /\ vid v = i) (offers v) = []).
  { intros v. unfold offers. induction (vadj v) as [|a l IH]; [done|]. cbn [map]. rewrite filter_cons, decide_False; [done|].
    intros [H _]. unfold nonempty in H. cbn [vadj] in H. by rewrite bool_decide_true in H. }
  assert (Hnone : forall us, (i ∉ map vid us) -> filter (fun v => nonempty v = true /\ vid v = i) (flat_map expand us) = []).
  { induction us as [|u us IH]; [done|]. cbn [map flat_map expand]. intros [Hu Hus]%not_elem_of_cons.
    rewrite filter_app. unfold expand. rewrite filter_cons, decide_False by (intros [_ ?]; congruence). rewrite Hoff. by apply IH. }
  induction vs as [|v vs IH]; [cbn; lia|]. cbn [map]. intros [Hv Hnd]%NoDup_cons. cbn [flat_map expand].
  rewrite filter_app. unfold expand. rewrite filter_cons, Hoff. destruct (decide _) as [[_ <-]|_].
  - rewrite Hnone by done. simpl. lia.
  - by apply IH.
Qed.

Lemma min_fold ds m :
  Forall (fun d => d <= m) ds -> ds <> [] ->
  foldl Z.min m ds ∈ ds /\ Forall (fun d => foldl Z.min m ds <= d) ds.
Proof.
  assert (H : forall ds m, (foldl Z.min m ds = m \/ foldl Z.min m ds ∈ ds) /\ foldl Z.min m ds <= m /\ Forall (fun d => foldl Z.min m ds <= d) ds).
  { clear. induction ds as [|d ds IH]; intros m; [split_and!; [by left|done|constructor]|]. cbn [foldl].
    destruct (IH (Z.min m d)) as (H1 & H2 & H3). split; [|split; [lia|constructor; [lia|done]]].
    destruct H1 as [->|H1]; [|right; by right]. destruct (Z.min_spec m d) as [[_ ->]|[_ ->]]; [by left|right; by left]. }
  intros Hm Hne. destruct (H ds m) as ([E|Hin] & _ & Hle); [|done]. split; [|done]. destruct ds as [|d ds]; [done|].
  apply Forall_cons in Hm as [Hd _]. apply Forall_cons in Hle as [Hd' _]. apply elem_of_cons. left. lia.
Qed.

Lemma group_adj g v :
  v ∈ g -> one_list g -> (forall u, u ∈ g -> vadj u <> [] -> u = v) -> flat_map vadj g = vadj v.
Proof.
  induction g as [|u g IH]; [set_solver|]. intros Hv H1 Hu. cbn [flat_map].
  assert (Hempty : Forall (fun u => vadj u = []) g -> flat_map vadj g = []).
  { clear. induction 1 as [|u g Hu _ IH]; [done|]. cbn [flat_map]. by rewrite Hu, IH. }
  destruct (one_list_cons _ _ H1) as [[E H1']|Hg].
  - rewrite E. cbn [app]. apply elem_of_cons in Hv as [->|Hv].
    + rewrite E. apply Hempty, Forall_forall. intros x Hx. destruct (decide (vadj x = [])) as [|N]; [done|].
      rewrite (Hu x) in N; [done|by right|done].
    + apply IH; [done..|]. intros x Hx. apply Hu. by right.
  - rewrite (Hempty Hg), app_nil_r. destruct (decide (vadj u = [])) as [E|N]; [|by rewrite (Hu u ltac:(by left) N)].
    apply elem_of_cons in Hv as [->|Hv]; [done|]. rewrite Forall_forall in Hg. by rewrite E, Hg.
Qed.
Lemma reads_id l v : reads l v -> get_vertex_id l = Ok (vid v).
Proof.
  intros (_ & Hp & _). unfold parse_line in Hp. destruct (get_vertex_id l) as [i|]; [|done]. cbn [obind] in Hp.
  destruct (get_distance_value l) as [d|]; [|done]. cbn [obind] in Hp. destruct (get_adj_list l). by injection Hp as -> -> -> ->.
Qed.

(** The groups of lines as groups of vertices. *)
Lemma read_groups gs mapped exp :
  Forall2 reads mapped exp -> concat gs ≡ₚ mapped -> grouped gs ->
  exists ids vgs, NoDup ids /\ concat vgs ≡ₚ exp /\ Forall2 (Forall2 reads) gs vgs /\
    Forall2 (fun i g => g <> [] /\ Forall (fun v => vid v = i) g) ids vgs.
Proof.
  intros Hr Hp (ids & Hnd & Hg). symmetry in Hp. destruct (forall2_perm _ _ _ _ Hp Hr) as (exp' & Hr' & He).
  destruct (forall2_concat _ _ _ Hr') as (vgs & -> & Hv). exists ids, vgs. split_and!; [done|by symmetry|done|].
  clear -Hg Hv. revert vgs Hv. induction Hg as [|i g ids gs [Hne Hi] _ IH]; intros vgs Hv; inversion Hv as [|? vg ? vgs' Hg Hvs]; subst; constructor.
  - split; [by intros ->; inversion Hg; subst|]. clear -Hi Hg. induction Hg as [|l v g vg Hv _ IH]; constructor.
    + apply Forall_cons in Hi as [Hi _]. apply reads_id in Hv. congruence.
    + apply IH. by apply Forall_cons in Hi as [_ ?].
  - by apply IH.
Qed.

Section round.
Context (vs : list vertex) (ids : list Z) (vgs : list (list vertex)).
Context (Hvs : NoDup (map vid vs)) (Hids : NoDup ids) (Hexp : concat vgs ≡ₚ flat_map expand vs).
Context (Hgs : Forall2 (fun i g => g <> [] /\ Forall (fun v => vid v = i) g) ids vgs).

Lemma in_group x : x ∈ flat_map expand vs <-> exists k g, vgs !! k = Some g /\ x ∈ g.
Proof.
  rewrite <- Hexp, elem_of_concat. split.
  - intros (g & Hx & Hg). apply list_elem_of_lookup in Hg as [k Hk]. eauto.
  - intros (k & g & Hk & Hx). exists g. split; [done|]. by eapply list_elem_of_lookup_2.
Qed.

Lemma group_ids k i g : ids !! k = Some i -> vgs !! k = Some g -> g <> [] /\ forall x, x ∈ g -> vid x = i.
Proof.
  intros Hi Hg. destruct (Forall2_lookup_lr _ _ _ _ _ _ Hgs Hi Hg) as [Hne Hf]. split; [done|]. by apply Forall_forall.
Qed.

(** Everything about vertex [i] is in its group. *)
Lemma own_group k i g x : ids !! k = Some i -> vgs !! k = Some g -> x ∈ flat_map expand vs -> vid x = i -> x ∈ g.
Proof.
  intros Hi Hg (k' & g' & Hg' & Hx)%in_group Hv.
  destruct (Forall2_lookup_r _ _ _ _ _ Hgs Hg') as (i' & Hi' & _).
  destruct (group_ids k' i' g' Hi' Hg') as [_ Hall]. rewrite (Hall x Hx) in Hv. subst i'.
  rewrite (NoDup_lookup _ _ _ _ Hids Hi Hi') in Hg. by simplify_eq.
Qed.

Lemma group_one k g : vgs !! k = Some g -> one_list g.
Proof.
  intros Hg. destruct (Forall2_lookup_r _ _ _ _ _ Hgs Hg) as (i & Hi & _). destruct (group_ids k i g Hi Hg) as [_ Hall].
  pose proof (own_line vs i Hvs) as Ho. rewrite <- Hexp in Ho. apply list_elem_of_split_length in Hg as (a & b & -> & _).
  rewrite concat_app in Ho. cbn [concat] in Ho. rewrite !filter_app, !length_app in Ho.
  assert (E : filter (fun v => nonempty v = true /\ vid v = i) g = filter (fun v => nonempty v = true) g).
  { clear -Hall. induction g as [|x g IH]; [done|]. rewrite !filter_cons, IH by (intros y Hy; apply Hall; by right).
    pose proof (Hall x ltac:(by left)).
    destruct (decide (nonempty x = true /\ vid x = i)), (decide (nonempty x = true)); tauto || done. }
  rewrite E in Ho. unfold one_list. lia.
Qed.

Lemma group_ofs : Forall2 group_of ids vgs.
Proof.
  apply Forall2_same_length_lookup. split; [by eapply Forall2_length|]. intros k i g Hi Hg.
  destruct (Forall2_lookup_lr _ _ _ _ _ _ Hgs Hi Hg) as [Hne Hf]. split_and!; [done..|by eapply group_one].
Qed.

Lemma summaries_vid : map vid (zip_with summary ids vgs) = ids.
Proof.
  pose proof Hgs as H. revert H. clear. induction 1 as [|i g ids vgs _ _ IH]; [done|].
  cbn [zip_with map summary vid]. f_equal. exact IH.
Qed.

Lemma summaries_in w : w ∈ zip_with summary ids vgs -> exists k i g, ids !! k = Some i /\ vgs !! k = Some g /\ w = summary i g.
Proof. intros [k Hk]%list_elem_of_lookup. apply lookup_zip_with_Some in Hk as (i & g & -> & ? & ?). eauto 10. Qed.

Lemma round_relaxed : Forall (fun x => vdist x <= INT_MAX) (flat_map expand vs) -> relaxed vs (zip_with summary ids vgs).
Proof.
  intros Hle. split.
  - by rewrite summaries_vid.
  - intros i. rewrite summaries_vid. split.
    + intros [k Hi]%list_elem_of_lookup. destruct (Forall2_lookup_l _ _ _ _ _ Hgs Hi) as (g & Hg & _).
      destruct (group_ids k i g Hi Hg) as [Hne Hall]. destruct g as [|x g]; [done|]. exists (vdist x). apply offered_expand.
      exists x. split_and!; [|apply Hall; by left|done]. apply in_group. exists k, (x :: g). split; [done|by left].
    + intros (d & (x & Hx & <- & _)%offered_expand). apply in_group in Hx as (k & g & Hg & Hx).
      destruct (Forall2_lookup_r _ _ _ _ _ Hgs Hg) as (i & Hi & _). destruct (group_ids k i g Hi Hg) as [_ Hall].
      rewrite (Hall x Hx). by eapply list_elem_of_lookup_2.
  - intros w (k & i & g & Hi & Hg & ->)%summaries_in. destruct (group_ids k i g Hi Hg) as [Hne Hall]. cbn [summary vid vdist].
    assert (Hexp_g : forall x, x ∈ g -> x ∈ flat_map expand vs) by (intros x Hx; apply in_group; eauto).
    destruct (min_fold (map vdist g) INT_MAX) as [Hin Hmin].
    + apply Forall_map, Forall_forall. intros x Hx. rewrite Forall_forall in Hle. by apply Hle, Hexp_g.
    + by destruct g.
    + split.
      * change (map vdist g) with (vdist <$> g) in *. apply list_elem_of_fmap in Hin as (x & E & Hx). apply offered_expand.
        exists x. split_and!; [by apply Hexp_g|by apply Hall|done].
      * intros d (x & Hx & Hxi & <-)%offered_expand. rewrite Forall_map, Forall_forall in Hmin. by apply Hmin, (own_group k i g).
  - intros w v (k & i & g & Hi & Hg & ->)%summaries_in Hv Hvi. cbn [summary vid vadj] in *.
    assert (Hve : v ∈ flat_map expand vs) by (apply expand_in; eauto).
    apply group_adj; [by apply (own_group k i g)|by eapply group_one|]. intros u Hu Hnon.
    assert (Hue : u ∈ flat_map expand vs) by (apply in_group; eauto).
    apply expand_in in Hue as (v' & Hv' & [->|(a & _ & ->)]); [|done].
    destruct (group_ids k i g Hi Hg) as [_ Hall]. apply (same_vid vs); [done..|]. by rewrite (Hall v' Hu).
  - intros w (k & i & g & Hi & Hg & ->)%summaries_in Hno. cbn [summary vid vadj] in *.
    destruct (group_ids k i g Hi Hg) as [_ Hall].
    assert (He : forall u, u ∈ g -> vadj u = []).
    { intros u Hu. assert (Hue : u ∈ flat_map expand vs) by (apply in_group; eauto).
      apply expand_in in Hue as (v & Hv & [->|(a & _ & ->)]); [|done]. by destruct (Hno v Hv), (Hall v Hu). }
    clear -He. induction g as [|u g IH]; [done|]. cbn [flat_map]. rewrite He by (by left). apply IH. intros x Hx. apply He. by right.
Qed.
End round.

(** The vertices a round leaves can be printed. *)
Lemma summary_lines vs ws :
  (forall x, x ∈ flat_map expand vs -> exists l, reads l x) -> relaxed vs ws ->
  exists out, flat_map (fun w => print_data (vid w) (vdist w) (map print_dec (vadj w))) ws = unlines out /\ Forall2 reads out ws.
Proof.
  intros Hread Hrx.
  assert (Hl : Forall (fun w => exists line, print_data (vid w) (vdist w) (map print_dec (vadj w)) = line ++ [NL] /\ reads line w) ws).
  { apply Forall_forall. intros w Hw. destruct (rx_dist _ _ Hrx w Hw) as [(x & Hx & Hi & Hd)%offered_expand _].
    destruct (Hread x Hx) as (lx & _ & _ & Hxi & Hxd & _).
    assert (Hadj : Forall (fun a => 0 <= a < 2 ^ 31) (vadj w) /\ Z.of_nat (length (vadj w)) < 2 ^ 32).
    { destruct (decide (vid w ∈ vid <$> vs)) as [(v & Hv & Hvs)%list_elem_of_fmap|Hno].
      - rewrite (rx_adj _ _ Hrx w v) by done. destruct (Hread v) as (l & _ & _ & _ & _ & ? & ?); [apply expand_in; eauto|done].
      - rewrite (rx_new _ _ Hrx w Hw); [done|]. intros v Hv E. apply Hno, list_elem_of_fmap. eauto. }
    destruct Hadj as [Ha Hlen]. rewrite Hi in Hxi. rewrite Hd in Hxd.
    destruct (print_data_text (vid w) (vdist w) (vadj w)) as (line & E & Hline); [done..|]. exists line. split; [done|].
    by destruct w. }
  clear -Hl. induction Hl as [|w ws (line & E & Hr) _ (out & Ho & Hor)]; [by exists []|].
  exists (line :: out). cbn [flat_map unlines]. rewrite E, Ho. split; [done|by constructor].
Qed.

(** What a round does to the lines of a graph. *)
Lemma round_run lines vs :
  Forall2 reads lines vs -> vs <> [] -> NoDup (map vid vs) ->
  exists mapped, mapper (unlines lines) = Ok (unlines mapped) /\ Forall2 reads mapped (flat_map expand vs) /\
    forall gs, concat gs ≡ₚ mapped -> grouped gs ->
    exists out ws, reducer (unlines (concat gs)) = Ok (unlines out) /\ Forall2 reads out ws /\ relaxed vs ws.
Proof.
  intros Hr Hne Hnd. destruct (mapper_run lines vs Hr) as (mapped & Hm & Hmr). exists mapped. split; [done|]. split; [done|].
  intros gs Hp Hg. destruct (read_groups gs mapped _ Hmr Hp Hg) as (ids & vgs & Hids & Hexp & Hrg & Hgs).
  pose proof (group_ofs vs ids vgs Hnd Hexp Hgs) as Hof.
  assert (Hread : forall x, x ∈ flat_map expand vs -> exists l, reads l x).
  { intros x [k Hk]%list_elem_of_lookup. destruct (Forall2_lookup_r _ _ _ _ _ Hmr Hk) as (l & _ & Hl). eauto. }
  assert (Hrx : relaxed vs (zip_with summary ids vgs)).
  { apply round_relaxed; [done..|]. apply Forall_forall. intros x Hx. destruct (Hread x Hx) as (l & _ & _ & _ & Hd & _). lia. }
  destruct (summary_lines vs (zip_with summary ids vgs) Hread Hrx) as (out & Hout & Hor).
  exists out, (zip_with summary ids vgs). split; [|done].
  assert (Hno : Forall (fun l => ~ (NL ∈ l)) (concat gs)).
  { apply Forall_forall. intros l (g & Hl & [k Hk]%list_elem_of_lookup)%elem_of_concat.
    destruct (Forall2_lookup_l _ _ _ _ _ Hrg Hk) as (vg & _ & Hvg). pose proof (reads_lines _ _ Hvg) as Hf.
    rewrite Forall_forall in Hf. by apply Hf. }
  unfold reducer. rewrite getlines_unlines by done. rewrite <- Hout. clear Hout Hno Hp Hg Hrx Hor.
  destruct Hof as [|i vg ids vgs Hof1 Hof].
  { cbn [concat] in Hexp. apply Permutation_nil in Hexp. by destruct vs. }
  inversion Hrg as [|g ? gs' ? Hg1 Hrg']; subst. destruct vg as [|v vg]; [by destruct Hof1|].
  inversion Hg1 as [|l ? lg ? Hl Hlg]; subst. cbn [concat app]. pose proof Hl as (_ & Hpar & _). rewrite Hpar. cbn [obind].
  change (dist (info_of v)) with (vdist v). change (add_to_end [] (adj_vertex (info_of v))) with (map print_dec (vadj v)).
  rewrite (reducer_loop_groups ids vgs gs' i l v lg vg); done.
Qed.
(** A round: the mapper, the grouping, which may order the groups and the lines
    of a group in any way, and the reducer. *)
Definition round (a b : list cstr) : Prop :=
  exists text gs out, mapper (unlines a) = Ok text /\ concat gs ≡ₚ getlines text [] /\ grouped gs /\
    reducer (unlines (concat gs)) = Ok out /\ b = getlines out [].

(** Lines can be grouped. *)
Lemma grouping_exists mapped vs : Forall2 reads mapped vs -> exists gs, concat gs ≡ₚ mapped /\ grouped gs.
Proof.
  induction 1 as [|l v mapped vs Hv _ (gs & Hp & ids & Hnd & Hg)]; [by exists []; split; [|exists []; split; constructor]|].
  apply reads_id in Hv. destruct (decide (vid v ∈ ids)) as [[k Hk]%list_elem_of_lookup|Hnew].
  - destruct (Forall2_lookup_l _ _ _ _ _ Hg Hk) as (g & Hgk & Hne & Hall).
    exists (<[k := l :: g]> gs). split.
    + apply list_elem_of_split_length in Hgk as (a & b & -> & ->). rewrite insert_app_r_alt, Nat.sub_diag by lia. cbn [insert list_insert].
      rewrite concat_app in *. cbn [concat app] in *. rewrite <- Hp. symmetry. apply Permutation_middle.
    + exists ids. split; [done|]. rewrite <- (list_insert_id ids k (vid v)) by done. apply Forall2_insert; [done|].
      split; [done|]. by constructor.
  - exists ([l] :: gs). split; [cbn [concat app]; by rewrite Hp|]. exists (vid v :: ids). split; [by constructor|].
    constructor; [|done]. split; [done|by repeat constructor].
Qed.

Lemma round_spec lines vs :
  Forall2 reads lines vs -> vs <> [] -> NoDup (map vid vs) ->
  (exists b, round lines b) /\ forall b, round lines b -> exists ws, Forall2 reads b ws /\ relaxed vs ws.
Proof.
  intros Hr Hne Hnd. destruct (round_run lines vs Hr Hne Hnd) as (mapped & Hm & Hmr & Hround).
  assert (Hlines : getlines (unlines mapped) [] = mapped) by (apply getlines_unlines; by eapply reads_lines).
  split.
  - destruct (grouping_exists mapped _ Hmr) as (gs & Hp & Hg). destruct (Hround gs Hp Hg) as (out & ws & Hred & _).
    exists (getlines (unlines out) []), (unlines mapped), gs, (unlines out). by rewrite Hlines.
  - intros b (text & gs & out & Hm' & Hp & Hg & Hred & ->). rewrite Hm in Hm'. injection Hm' as <-. rewrite Hlines in Hp.
    destruct (Hround gs Hp Hg) as (out' & ws & Hred' & Hor & Hrx). rewrite Hred in Hred'. injection Hred' as ->.
    exists ws. split; [|done]. rewrite getlines_unlines by (by eapply reads_lines). done.
Qed.

(** ** Rounds *)

Definition edge (vs : list vertex) (x y : Z) : Prop := exists v, v ∈ vs /\ vid v = x /\ y ∈ vadj v.

(** After [k] rounds from [s]: distances are lengths of walks, and no walk of
    at most [k] edges is shorter. *)
Record searched (vs0 : list vertex) (s : Z) (k : nat) (ws : list vertex) : Prop := mk_searched {
  se_once : NoDup (map vid ws);
  se_kept : forall v, v ∈ vs0 -> exists w, w ∈ ws /\ vid w = vid v /\ vadj w = vadj v;
  se_new : forall w, w ∈ ws -> (forall v, v ∈ vs0 -> vid v <> vid w) -> vadj w = [];
  se_walk : forall w, w ∈ ws -> vdist w = INT_MAX \/ (0 <= vdist w <= Z.of_nat k /\ nsteps (edge vs0) (Z.to_nat (vdist w)) s (vid w));
  se_least : forall j i, (j <= k)%nat -> nsteps (edge vs0) j s i -> exists w, w ∈ ws /\ vid w = i /\ vdist w <= Z.of_nat j
}.

Lemma searched_edge vs0 s k ws x y :
  NoDup (map vid vs0) -> searched vs0 s k ws -> edge ws x y <-> edge vs0 x y.
Proof.
  intros Hnd H. split.
  - intros (w & Hw & <- & Hy). destruct (decide (vid w ∈ vid <$> vs0)) as [(v & E & Hv)%list_elem_of_fmap|Hno].
    + destruct (se_kept _ _ _ _ H v Hv) as (w' & Hw' & E' & Ha). exists v. split_and!; [done..|].
      rewrite <- Ha. replace w' with w; [done|]. apply (same_vid ws); [apply H|done..|congruence].
    + rewrite (se_new _ _ _ _ H w Hw) in Hy; [set_solver|]. intros v Hv E. apply Hno, list_elem_of_fmap. eauto.
  - intros (v & Hv & <- & Hy). destruct (se_kept _ _ _ _ H v Hv) as (w & Hw & E & Ha). exists w. by rewrite Ha.
Qed.

Lemma searched_step vs0 s k ws ws' :
  NoDup (map vid vs0) -> Z.of_nat (S k) < INT_MAX -> searched vs0 s k ws -> relaxed ws ws' -> searched vs0 s (S k) ws'.
Proof.
  intros Hnd Hk H Hrx.
  assert (Hfind : forall i d, offered ws i d -> exists w', w' ∈ ws' /\ vid w' = i /\ vdist w' <= d).
  { intros i d Ho. assert (Hin : i ∈ vid <$> ws') by (apply (rx_all _ _ Hrx); eauto).
    apply list_elem_of_fmap in Hin as (w' & -> & Hw'). exists w'. split_and!; [done..|]. by apply (rx_dist _ _ Hrx w' Hw'). }
  split.
  - apply Hrx.
  - intros v Hv. destruct (se_kept _ _ _ _ H v Hv) as (w & Hw & E & Ha).
    destruct (Hfind (vid w) (vdist w)) as (w' & Hw' & E' & _); [exists w; by auto|]. exists w'. split_and!; [done|congruence|].
    rewrite (rx_adj _ _ Hrx w' w); done.
  - intros w' Hw' Hno. destruct (decide (vid w' ∈ vid <$> ws)) as [(w & E & Hw)%list_elem_of_fmap|Hni].
    + rewrite (rx_adj _ _ Hrx w' w) by done. apply (se_new _ _ _ _ H w Hw). by rewrite <- E.
    + apply (rx_new _ _ Hrx w' Hw'). intros w Hw E. apply Hni, list_elem_of_fmap. eauto.
  - intros w' Hw'. destruct (rx_dist _ _ Hrx w' Hw') as [(w & Hw & Ho) _]. destruct (se_walk _ _ _ _ H w Hw) as [Ei|[Hd Hn]].
    + left. destruct Ho as [[_ <-]|[_ <-]]; [done|]. unfold far. by rewrite Ei.
    + right. destruct Ho as [[E <-]|[Hi <-]].
      * rewrite <- E. split; [lia|done].
      * unfold far. rewrite (proj2 (Z.eqb_neq _ _)) by lia. split; [lia|].
        replace (Z.to_nat (vdist w + 1)) with (S (Z.to_nat (vdist w))) by lia. eapply nsteps_r; [done|].
        apply (searched_edge vs0 s k ws); [done..|]. by exists w.
  - intros j i Hj Hn. destruct (decide (j <= k)%nat) as [Hle|Hgt].
    + destruct (se_least _ _ _ _ H j i Hle Hn) as (w & Hw & <- & Hd).
      destruct (Hfind (vid w) (vdist w)) as (w' & Hw' & E & Hd'); [exists w; by auto|]. exists w'. split_and!; [done..|lia].
    + assert (j = S k) as -> by lia. apply nsteps_inv_r in Hn as (x & Hn & He).
      destruct (se_least _ _ _ _ H k x ltac:(lia) Hn) as (w & Hw & <- & Hd).
      apply (searched_edge vs0 s k ws) in He as (w2 & Hw2 & E2 & Hi); [|done..].
      assert (w2 = w) as -> by (apply (same_vid ws); [apply H|done..]).
      destruct (Hfind i (vdist w + 1)) as (w' & Hw' & E' & Hd').
      { exists w. split; [done|]. right. split; [done|]. unfold far. by rewrite (proj2 (Z.eqb_neq _ _)) by lia. }
      exists w'. split_and!; [done..|lia].
Qed.

Lemma rounds_run k : forall lines vs0 s b j ws,
  NoDup (map vid vs0) -> vs0 <> [] -> Forall2 reads lines ws -> searched vs0 s j ws -> Z.of_nat (j + k) < INT_MAX ->
  nsteps round k lines b -> exists ws', Forall2 reads b ws' /\ searched vs0 s (j + k) ws'.
Proof.
  induction k as [|k IH]; intros lines vs0 s b j ws Hnd Hne Hr H Hk Hn.
  - inversion Hn; subst. rewrite Nat.add_0_r. eauto.
  - inversion Hn as [|? ? lines' ? Hround Hrest]; subst.
    assert (Hws : ws <> []).
    { destruct vs0 as [|v vs0]; [done|]. destruct (se_kept _ _ _ _ H v ltac:(by left)) as (w & Hw & _). intros ->. set_solver. }
    destruct (round_spec lines ws Hr Hws (se_once _ _ _ _ H)) as [_ Hs]. destruct (Hs _ Hround) as (ws1 & Hr1 & Hrx).
    rewrite Nat.add_succ_r. apply (IH lines' vs0 s b (S j) ws1); [done..| |lia|done].
    apply (searched_step vs0 s j ws); [done|lia|done..].
Qed.
(** one round relaxes a graph.  On any lines that stand for a graph the
    mapper and the reducer run to the end, however the lines between them are
    grouped, and the lines they leave stand for a graph with one line for each
    vertex that had a line or was somebody's neighbour; its distance is the
    least of its own and those one larger than its neighbours'; and its
    neighbours are the ones it had. *)
Theorem round_relaxes lines vs :
  Forall2 reads lines vs -> vs <> [] -> NoDup (map vid vs) ->
  (exists b, round lines b) /\ forall b, round lines b -> exists ws, Forall2 reads b ws /\ relaxed vs ws.
Proof. apply round_spec. Qed.

(** C25: rounds search breadth first.  From a graph in which the source has
    distance 0 and no other distance is known, after [k] rounds every vertex of
    the graph has a line, no distance is larger than the length of a walk of at
    most [k] edges from the source, and every known distance is the length of
    one. *)
Theorem rounds_distances lines vs s k b :
  Forall2 reads lines vs -> NoDup (map vid vs) -> s ∈ map vid vs ->
  Forall (fun v => vdist v = if vid v =? s then 0 else INT_MAX) vs ->
  Z.of_nat k < INT_MAX -> nsteps round k lines b ->
  exists ws, Forall2 reads b ws /\
    (forall v, v ∈ vs -> exists w, w ∈ ws /\ vid w = vid v /\ vadj w = vadj v) /\
    (forall w, w ∈ ws -> vdist w = INT_MAX \/ nsteps (edge vs) (Z.to_nat (vdist w)) s (vid w)) /\
    (forall j w, (j <= k)%nat -> w ∈ ws -> nsteps (edge vs) j s (vid w) -> vdist w <= Z.of_nat j).
Proof.
  intros Hr Hnd Hs Hd Hk Hn. rewrite Forall_forall in Hd.
  change (s ∈ vid <$> vs) in Hs. apply list_elem_of_fmap in Hs as (v0 & -> & Hv0).
  assert (H0 : searched vs (vid v0) 0 vs).
  { split; [done|by eauto|by intros w Hw Hno; destruct (Hno w Hw)|..].
    - intros w Hw. pose proof (Hd w Hw) as E. destruct (Z.eqb_spec (vid w) (vid v0)) as [Ei|]; [right|by left].
      rewrite E, Ei. split; [lia|constructor].
    - intros j i Hj Hw. assert (j = 0%nat) as -> by lia. inversion Hw; subst. exists v0. split_and!; [done..|].
      rewrite (Hd v0 Hv0), Z.eqb_refl. lia. }
  destruct (rounds_run k lines vs (vid v0) b 0 vs) as (ws & Hbr & H); [done|by intros ->; set_solver|done..|].
  exists ws. split; [done|]. split; [by apply H|]. split.
  - intros w Hw. destruct (se_walk _ _ _ _ H w Hw) as [?|[_ ?]]; auto.
  - intros j w Hj Hw Hjn. destruct (se_least _ _ _ _ H j (vid w) Hj Hjn) as (w' & Hw' & E & Hle).
    by rewrite (same_vid ws w w' (se_once _ _ _ _ H) Hw Hw') by done.
Qed.
End code.

(** ** Witnesses *)

(** The text of the exceptions of [std::stoi]. *)
Definition stoi_what : cstr := bytes_of "stoi".

Definition tabs (s : String.string) : cstr := map (fun c => if c =? 32 then TAB else c) (bytes_of s).

Arguments tabs s%_string_scope.

(** 1 has the neighbours 2 and 3, and 2 has the neighbour 3. *)
Definition demo_lines : list cstr := [tabs "1 0 {2,3}"; tabs "2 INF {3}"; tabs "3 INF {}"].
Definition demo_graph : list vertex := [mk_vertex 1 0 [2; 3]; mk_vertex 2 INT_MAX [3]; mk_vertex 3 INT_MAX []].

Lemma demo_reads : Forall2 (reads stoi_what) demo_lines demo_graph.
Proof. repeat constructor; try (by vm_compute); vm_compute; set_solver by lia. Qed.

Lemma round_relaxes_witness :
  exists b, round stoi_what demo_lines b /\ exists ws, Forall2 (reads stoi_what) b ws /\ relaxed demo_graph ws.
Proof.
  destruct (round_relaxes stoi_what demo_lines demo_graph demo_reads) as [[b Hb] Hall].
  - done.
  - apply (bool_decide_unpack _). by vm_compute.
  - exists b. split; [done|by apply Hall].
Defined.

(** The groups of one shuffle of the mapper's output. *)
Definition demo_groups : list (list cstr) :=
  [[tabs "3 INF {}"; tabs "3 1 {}"; tabs "3 INF {}"]; [tabs "1 0 {2,3}"]; [tabs "2 1 {}"; tabs "2 INF {3}"]].

Lemma rounds_distances_witness :
  let b := [tabs "3 1 {}"; tabs "1 0 {2,3}"; tabs "2 1 {3}"] in
  nsteps (round stoi_what) 1 demo_lines b /\ exists ws, Forall2 (reads stoi_what) b ws.
Proof.
  intros b. assert (Hn : nsteps (round stoi_what) 1 demo_lines b).
  { apply nsteps_once. eexists _, demo_groups, _. split; [by vm_compute|]. split; [|split; [|split; [by vm_compute|by vm_compute]]].
    - apply (bool_decide_unpack _). by vm_compute.
    - exists [3; 1; 2]. split; [apply (bool_decide_unpack _); by vm_compute|]. by repeat constructor. }
  split; [done|].
  destruct (rounds_distances stoi_what demo_lines demo_graph 1 1 b demo_reads) as (ws & Hws & _).
  - apply (bool_decide_unpack _). by vm_compute.
  - apply (bool_decide_unpack _). by vm_compute.
  - by repeat constructor.
  - done.
  - done.
  - by exists ws.
Defined.
