(* ===== verification/LRUCache.v ===== *)
(** * LRUCache: a cache of key and value pairs

    Models [src/c++/LRUCache/LRUCache.cpp]: a map from keys to the nodes of a
    doubly linked list, ordered by use.  The store holds the nodes that exist;
    the answers of [new] are arguments.  Reading a node after [delete] is a
    fault. *)

From S2P Require Import Prelude CInt.
Open Scope Z_scope.

Record Node := mk_node { next : Z; prev : Z; value : Z; key : Z }.

Record Cache := mk_cache {
  nodes : gmap Z Node;
  mp : gmap Z Z;
  cp : Z;
  tail : Z;
  head : Z;
  act_size : Z
}.

(** ** Access *)

Definition node_at (p : Z) : M Cache Node := fun c =>
  if p =? 0 then Fault NullDeref
  else match nodes c !! p with Some n => Ok (n, c) | None => Fault Dangling end.

Definition with_nodes (c : Cache) (ns : gmap Z Node) : Cache :=
  mk_cache ns (mp c) (cp c) (tail c) (head c) (act_size c).

Definition set_node (p : Z) (n : Node) : M Cache unit := fun c =>
  if p =? 0 then Fault NullDeref
  else match nodes c !! p with
       | Some _ => Ok (tt, with_nodes c (<[p := n]> (nodes c)))
       | None => Fault Dangling
       end.

Definition set_next (p v : Z) : M Cache unit :=
  n <- node_at p ;; set_node p (mk_node v (prev n) (value n) (key n)).
Definition set_prev (p v : Z) : M Cache unit :=
  n <- node_at p ;; set_node p (mk_node (next n) v (value n) (key n)).
Definition set_value (p v : Z) : M Cache unit :=
  n <- node_at p ;; set_node p (mk_node (next n) (prev n) v (key n)).

Definition set_head (h : Z) : M Cache unit :=
  modify (fun c => mk_cache (nodes c) (mp c) (cp c) (tail c) h (act_size c)).
Definition set_tail (t : Z) : M Cache unit :=
  modify (fun c => mk_cache (nodes c) (mp c) (cp c) t (head c) (act_size c)).
Definition grow : M Cache unit :=
  modify (fun c => mk_cache (nodes c) (mp c) (cp c) (tail c) (head c) (u64 (act_size c + 1))).
Definition set_mp (m : gmap Z Z) : M Cache unit :=
  modify (fun c => mk_cache (nodes c) m (cp c) (tail c) (head c) (act_size c)).

Definition delete_node (p : Z) : M Cache unit := fun c =>
  if p =? 0 then Ok (tt, c)
  else match nodes c !! p with
       | Some _ => Ok (tt, with_nodes c (delete p (nodes c)))
       | None => Fault Dangling
       end.

(** [mp[k]] of a key that is in the map. *)
Definition mp_at (k : Z) : M Cache Z := fun c =>
  match mp c !! k with Some a => Ok (a, c) | None => Fault NullDeref end.

(** ** The members *)

Definition LRUCache (cp : Z) : Cache := mk_cache ∅ ∅ cp 0 0 0.

Definition moveToHead (node : Z) : M Cache unit :=
  n <- node_at node ;;
  (if negb (next n =? 0) then set_prev (next n) (prev n) else ret tt) ;;
  n <- node_at node ;;
  (if negb (prev n =? 0) then set_next (prev n) (next n) else ret tt) ;;
  h <- gets head ;;
  set_next h node ;;
  set_next node 0 ;;
  set_prev node h ;;
  set_head node.

(** [new Node(key, value)] *)
Definition new_node (addr k v : Z) : M Cache unit :=
  modify (fun c => with_nodes c (<[addr := mk_node 0 0 v k]> (nodes c))).

(** The branch of [set] for a full cache. *)
Definition evict : M Cache unit :=
  temp <- gets tail ;;
  n <- node_at temp ;;
  (if negb (next n =? 0) then set_tail (next n) else ret tt) ;;
  delete_node temp ;;
  n <- node_at temp ;;
  m <- gets mp ;;
  set_mp (delete (key n) m).

Definition set (addr k v : Z) : M Cache unit :=
  new_node addr k v ;;
  c <- gets id ;;
  match mp c !! k with
  | None =>
      (if tail c =? 0 then
         set_head addr ;; set_tail addr ;; grow
       else
         set_next (head c) addr ;;
         set_prev addr (head c) ;;
         set_head addr ;;
         if act_size c <? u64 (cp c) then grow else evict) ;;
      m <- gets mp ;;
      set_mp (<[k := addr]> m)
  | Some _ =>
      a <- mp_at k ;;
      moveToHead a ;;
      a <- mp_at k ;;
      set_value a v
  end.

Definition get (k : Z) : M Cache Z :=
  c <- gets id ;;
  match mp c !! k with
  | None => ret (-1)
  | Some _ =>
      a <- mp_at k ;;
      moveToHead a ;;
      a <- mp_at k ;;
      n <- node_at a ;;
      ret (value n)
  end.

(** ** Programs and their reference *)

Inductive op := Set_ (addr k v : Z) | Get (k : Z).

(** What the calls of [get] answer. *)
Fixpoint run_ops (ops : list op) (c : Cache) : outcome (list Z) :=
  match ops with
  | [] => Ok []
  | Set_ addr k v :: ops => let? (_, c) := set addr k v c in run_ops ops c
  | Get k :: ops => let? (r, c) := get k c in let? rs := run_ops ops c in Ok (r :: rs)
  end.

(** A map without an order of use.  A key more than it has room for is a use of
    freed memory. *)
Fixpoint map_ops (ops : list op) (cap : Z) (m : gmap Z Z) : outcome (list Z) :=
  match ops with
  | [] => Ok []
  | Set_ _ k v :: ops =>
      if bool_decide (is_Some (m !! k)) || bool_decide (m = ∅) || (Z.of_nat (size m) <? u64 cap)
      then map_ops ops cap (<[k := v]> m)
      else Fault Dangling
  | Get k :: ops => let? rs := map_ops ops cap m in Ok (default (-1) (m !! k) :: rs)
  end.

(** The addresses [new] answers. *)
Definition addrs (ops : list op) : list Z := omap (fun o => match o with Set_ a _ _ => Some a | Get _ => None end) ops.

(** ** The invariant *)

(** Null or a node that exists. *)
Definition live (ns : gmap Z Node) (p : Z) : Prop := p = 0 \/ is_Some (ns !! p).

Record rep (c : Cache) (m : gmap Z Z) : Prop := mk_rep {
  rp_keys : forall k, is_Some (mp c !! k) <-> is_Some (m !! k);
  rp_node : forall k a, mp c !! k = Some a -> a <> 0 /\ exists n, nodes c !! a = Some n /\ m !! k = Some (value n);
  rp_apart : forall k1 k2 a, mp c !! k1 = Some a -> mp c !! k2 = Some a -> k1 = k2;
  rp_links : forall a n, nodes c !! a = Some n -> live (nodes c) (next n) /\ live (nodes c) (prev n);
  rp_ends : live (nodes c) (head c) /\ live (nodes c) (tail c) /\ (head c = 0 <-> m = ∅) /\ (tail c = 0 <-> m = ∅);
  rp_size : act_size c = Z.of_nat (size m)
}.

(** ** Changing links *)

Definition closed (ns : gmap Z Node) : Prop := forall a n, ns !! a = Some n -> live ns (next n) /\ live ns (prev n).

(** The same nodes with the same values. *)
Definition same_vals (ns ns' : gmap Z Node) : Prop := forall a, value <$> ns' !! a = value <$> ns !! a.

Lemma same_vals_trans ns1 ns2 ns3 : same_vals ns1 ns2 -> same_vals ns2 ns3 -> same_vals ns1 ns3.
Proof. intros H1 H2 a. by rewrite H2. Qed.

Lemma same_vals_some ns ns' a : same_vals ns ns' -> is_Some (ns !! a) <-> is_Some (ns' !! a).
Proof. intros H. specialize (H a). destruct (ns !! a), (ns' !! a); simpl in H; split; eauto; by intros []. Qed.

Lemma same_vals_live ns ns' p : same_vals ns ns' -> live ns p -> live ns' p.
Proof. intros H [->|Hp]; [by left|right]. by apply (same_vals_some ns). Qed.

(** A node that exists gets links that are live. *)
Lemma relink ns p n n' :
  closed ns -> ns !! p = Some n -> value n' = value n -> live ns (next n') -> live ns (prev n') ->
  closed (<[p := n']> ns) /\ same_vals ns (<[p := n']> ns).
Proof.
  intros Hc Hp Hv Hn Hr. assert (Hs : same_vals ns (<[p := n']> ns)).
  { intros a. destruct (decide (a = p)) as [->|Hne]; [by rewrite lookup_insert_eq, Hp; simpl; f_equal|by rewrite lookup_insert_ne]. }
  split; [|done]. intros a m Ha. apply lookup_insert_Some in Ha as [[_ <-]|[_ Ha]].
  - split; by apply (same_vals_live ns).
  - destruct (Hc a m Ha). split; by apply (same_vals_live ns).
Qed.

Section access.
Context (c : Cache) (p : Z) (n : Node).
Context (Hp : p <> 0) (Hn : nodes c !! p = Some n) (Hc : closed (nodes c)).

Lemma lru_node_run : node_at p c = Ok (n, c).
Proof. unfold node_at. by rewrite (proj2 (Z.eqb_neq _ _) Hp), Hn. Qed.

Lemma set_node_run m : set_node p m c = Ok (tt, with_nodes c (<[p := m]> (nodes c))).
Proof. unfold set_node. by rewrite (proj2 (Z.eqb_neq _ _) Hp), Hn. Qed.

Lemma set_next_live v :
  live (nodes c) v -> exists ns, set_next p v c = Ok (tt, with_nodes c ns) /\ closed ns /\ same_vals (nodes c) ns.
Proof.
  intros Hv. unfold set_next. run lru_node_run. rewrite set_node_run. eexists. split; [done|].
  by apply (relink _ p n); [done|done|done|done|apply (Hc p n Hn)].
Qed.

Lemma set_prev_live v :
  live (nodes c) v -> exists ns, set_prev p v c = Ok (tt, with_nodes c ns) /\ closed ns /\ same_vals (nodes c) ns.
Proof.
  intros Hv. unfold set_prev. run lru_node_run. rewrite set_node_run. eexists. split; [done|].
  by apply (relink _ p n); [done|done|done|apply (Hc p n Hn)|done].
Qed.
End access.

Lemma with_nodes_twice c a b : with_nodes (with_nodes c a) b = with_nodes c b.
Proof. done. Qed.

(** A test of a link followed by a change of the node it points to. *)
Lemma set_prev_if c p v :
  closed (nodes c) -> live (nodes c) p -> live (nodes c) v ->
  exists ns, (if negb (p =? 0) then set_prev p v else ret tt) c = Ok (tt, with_nodes c ns) /\
    closed ns /\ same_vals (nodes c) ns.
Proof.
  intros Hc Hp Hv. destruct (Z.eqb_spec p 0) as [->|Hne]; cbn [negb].
  - exists (nodes c). split; [by destruct c|]. by split.
  - destruct Hp as [?|[n Hn]]; [done|]. by eapply set_prev_live.
Qed.

Lemma set_next_if c p v :
  closed (nodes c) -> live (nodes c) p -> live (nodes c) v ->
  exists ns, (if negb (p =? 0) then set_next p v else ret tt) c = Ok (tt, with_nodes c ns) /\
    closed ns /\ same_vals (nodes c) ns.
Proof.
  intros Hc Hp Hv. destruct (Z.eqb_spec p 0) as [->|Hne]; cbn [negb].
  - exists (nodes c). split; [by destruct c|]. by split.
  - destruct Hp as [?|[n Hn]]; [done|]. by eapply set_next_live.
Qed.

Lemma moveToHead_run c a :
  closed (nodes c) -> a <> 0 -> is_Some (nodes c !! a) -> head c <> 0 -> live (nodes c) (head c) ->
  exists ns, moveToHead a c = Ok (tt, mk_cache ns (mp c) (cp c) (tail c) a (act_size c)) /\
    closed ns /\ same_vals (nodes c) ns.
Proof.
  intros Hc Ha [n Hn] Hh Hhl. unfold moveToHead. run (lru_node_run c a n Ha Hn). destruct (Hc a n Hn) as [L1 L2].
  destruct (set_prev_if c (next n) (prev n)) as (ns1 & E1 & C1 & S1); [done..|]. run E1.
  destruct (proj1 (same_vals_some _ _ a S1) ltac:(by eexists)) as [n1 Hn1].
  run (lru_node_run (with_nodes c ns1) a n1 Ha Hn1). destruct (C1 a n1 Hn1) as [L3 L4].
  destruct (set_next_if (with_nodes c ns1) (prev n1) (next n1)) as (ns2 & E2 & C2 & S2); [done..|]. run E2.
  cbn [nodes with_nodes] in S2. pose proof (same_vals_trans _ _ _ S1 S2) as S12.
  erewrite (bind_ok (gets head)); [|done]. rewrite with_nodes_twice. cbn [head with_nodes].
  destruct (same_vals_live _ _ _ S12 Hhl) as [?|[h Hh2]]; [done|].
  assert (La : forall ns, same_vals (nodes c) ns -> is_Some (ns !! a)) by (intros ns S; apply (same_vals_some _ _ a S); eauto).
  destruct (set_next_live (with_nodes c ns2) (head c) h Hh Hh2 C2 a) as (ns3 & E3 & C3 & S3); [right; by apply La|]. run E3.
  cbn [nodes with_nodes] in S3. pose proof (same_vals_trans _ _ _ S12 S3) as S13. rewrite with_nodes_twice.
  destruct (La ns3 S13) as [n3 Hn3].
  destruct (set_next_live (with_nodes c ns3) a n3 Ha Hn3 C3 0) as (ns4 & E4 & C4 & S4); [by left|]. run E4.
  cbn [nodes with_nodes] in S4. pose proof (same_vals_trans _ _ _ S13 S4) as S14. rewrite with_nodes_twice.
  destruct (La ns4 S14) as [n4 Hn4].
  destruct (set_prev_live (with_nodes c ns4) a n4 Ha Hn4 C4 (head c)) as (ns5 & E5 & C5 & S5).
  { by apply (same_vals_live (nodes c)). }
  run E5. cbn [nodes with_nodes] in S5. exists ns5. split; [done|]. split; [done|]. by eapply same_vals_trans.
Qed.

(** ** The operations *)

Lemma rep_touch c m a ns :
  rep c m -> closed ns -> same_vals (nodes c) ns -> a <> 0 -> is_Some (nodes c !! a) -> m <> ∅ ->
  rep (mk_cache ns (mp c) (cp c) (tail c) a (act_size c)) m.
Proof.
  intros H Hc Hs Ha Hl Hm. split; cbn [nodes mp head tail act_size]; [apply H|..|apply H|done| |apply H].
  - intros k b Hb. destruct (rp_node _ _ H k b Hb) as (Hb0 & n & Hn & Hv). split; [done|]. specialize (Hs b). rewrite Hn in Hs.
    destruct (ns !! b) as [n'|]; [|done]. exists n'. split; [done|]. injection Hs as ->. done.
  - destruct (rp_ends _ _ H) as (_ & Ht & _ & Ht0). split; [right; by apply (same_vals_some (nodes c))|].
    split; [by apply (same_vals_live (nodes c))|]. split; [done|done].
Qed.

Lemma rep_key c m k v : rep c m -> m !! k = Some v ->
  exists a, mp c !! k = Some a /\ a <> 0 /\ (exists n, nodes c !! a = Some n /\ value n = v) /\ m <> ∅ /\ head c <> 0.
Proof.
  intros H Hk. destruct (proj2 (rp_keys _ _ H k) ltac:(by eexists)) as [a Ha].
  destruct (rp_node _ _ H k a Ha) as (Ha0 & n & Hn & Hv). exists a. split; [done|]. split; [done|].
  split; [exists n; split; [done|congruence]|]. assert (m <> ∅) by (by intros ->). split; [done|].
  destruct (rp_ends _ _ H) as (_ & _ & Hh & _). by rewrite Hh.
Qed.

Lemma lru_get_run c m k : rep c m -> exists c', get k c = Ok (default (-1) (m !! k), c') /\ rep c' m /\ cp c' = cp c /\ dom (nodes c') = dom (nodes c).
Proof.
  intros H. unfold get. erewrite (bind_ok (gets id)); [|done]. cbn [id]. destruct (mp c !! k) as [a|] eqn:Ea.
  - destruct (rp_node _ _ H k a Ea) as (Ha0 & n & Hn & Hv). destruct (rep_key c m k _ H Hv) as (a' & Ea' & _ & _ & Hm & Hh).
    erewrite (bind_ok (mp_at k)); [|unfold mp_at; by rewrite Ea].
    destruct (moveToHead_run c a) as (ns & E & Hc & Hs); [exact (rp_links _ _ H)|done|by eexists|done|apply (rp_ends _ _ H)|]. run E.
    pose proof (rep_touch c m a ns H Hc Hs Ha0 ltac:(by eexists) Hm) as H'.
    erewrite (bind_ok (mp_at k)); [|unfold mp_at; cbn [mp]; by rewrite Ea].
    destruct (rp_node _ _ H' k a Ea) as (_ & n' & Hn' & Hv'). erewrite (bind_ok (node_at a)); [|by apply lru_node_run].
    rewrite Hv'. eexists. split; [done|]. split; [done|]. split; [done|]. cbn [nodes].
    apply set_eq. intros x. rewrite !elem_of_dom. symmetry. by apply same_vals_some.
  - assert (m !! k = None) as ->.
    { destruct (m !! k) eqn:E; [|done]. apply (rep_key c m) in E as (a & E & _); [congruence|done]. }
    exists c. done.
Qed.

(** A new node that nothing points to. *)
Lemma lru_rep_new c m a k v :
  rep c m -> a <> 0 -> nodes c !! a = None -> rep (with_nodes c (<[a := mk_node 0 0 v k]> (nodes c))) m.
Proof.
  intros H Ha Hf. assert (Hl : forall p, live (nodes c) p -> live (<[a := mk_node 0 0 v k]> (nodes c)) p).
  { intros p [->|Hp]; [by left|right]. destruct (decide (p = a)) as [->|]; [by rewrite lookup_insert_eq; eexists|by rewrite lookup_insert_ne]. }
  split; cbn [with_nodes nodes mp head tail act_size]; [apply H|..|apply H| | |apply H].
  - intros j b Hb. destruct (rp_node _ _ H j b Hb) as (? & n & Hn & ?). split; [done|]. exists n.
    rewrite lookup_insert_ne; [done|]. intros <-. congruence.
  - intros b n Hb. apply lookup_insert_Some in Hb as [[_ <-]|[_ Hb]]; [by split; left|].
    destruct (rp_links _ _ H b n Hb). split; by apply Hl.
  - destruct (rp_ends _ _ H) as (? & ? & ?). split_and!; [by apply Hl..|tauto|tauto].
Qed.

(** The key of a new node enters the map. *)
Lemma rep_enter c m a k v n :
  rep c m -> m !! k = None -> nodes c !! a = Some n -> value n = v -> (forall j, mp c !! j <> Some a) -> a <> 0 ->
  forall t, live (nodes c) t -> t <> 0 -> act_size c + 1 < 2 ^ 64 ->
  rep (mk_cache (nodes c) (<[k := a]> (mp c)) (cp c) t a (u64 (act_size c + 1))) (<[k := v]> m).
Proof.
  intros H Hk Hn Hv Hfree Ha t Ht Ht0 Hsz. split; cbn [nodes mp head tail act_size].
  - intros j. destruct (decide (j = k)) as [->|]; [rewrite !lookup_insert_eq|rewrite !lookup_insert_ne by done; apply H].
    split; by eexists.
  - intros j b. destruct (decide (j = k)) as [->|Hne].
    + rewrite !lookup_insert_eq. intros [= <-]. split; [done|]. exists n. by subst v.
    + rewrite !lookup_insert_ne by done. apply (rp_node _ _ H).
  - intros j1 j2 b. destruct (decide (j1 = k)) as [->|N1], (decide (j2 = k)) as [->|N2];
      rewrite ?lookup_insert_eq, ?lookup_insert_ne by done; intros E1 E2; simplify_eq; try done.
    + by destruct (Hfree j2).
    + by destruct (Hfree j1).
    + by apply (rp_apart _ _ H j1 j2 b).
  - exact (rp_links _ _ H).
  - pose proof (insert_non_empty m k v). split; [right; eauto|]. split; [done|]. tauto.
  - rewrite (rp_size _ _ H) in *. rewrite map_size_insert_None by done. rewrite u64_small by lia. lia.
Qed.

Section set_run.
Context (c : Cache) (m : gmap Z Z) (a k v : Z).
Context (H : rep c m) (Ha : a <> 0) (Hf : nodes c !! a = None) (Hsz : Z.of_nat (size m) + 1 < 2 ^ 64).

Let c1 := with_nodes c (<[a := mk_node 0 0 v k]> (nodes c)).

Lemma new_run : rep c1 m /\ nodes c1 !! a = Some (mk_node 0 0 v k) /\ forall j, mp c1 !! j <> Some a.
Proof.
  split; [by apply lru_rep_new|]. split; [apply lookup_insert_eq|]. intros j Hj.
  destruct (rp_node _ _ H j a Hj) as (_ & n & Hn & _). congruence.
Qed.

Lemma set_present w :
  m !! k = Some w -> exists c', set a k v c = Ok (tt, c') /\ rep c' (<[k := v]> m) /\ cp c' = cp c /\ dom (nodes c') = {[a]} ∪ dom (nodes c).
Proof.
  intros Hk. destruct new_run as (H1 & Hn1 & _). unfold set. erewrite (bind_ok (new_node a k v)); [|done]. fold c1.
  erewrite (bind_ok (gets id)); [|done]. cbn [id]. destruct (rep_key c1 m k w H1 Hk) as (b & Eb & Hb0 & (n & Hn & _) & Hm & Hh).
  rewrite Eb. erewrite (bind_ok (mp_at k)); [|unfold mp_at; by rewrite Eb].
  destruct (moveToHead_run c1 b) as (ns & E & Hc & Hs); [exact (rp_links _ _ H1)|done|by eexists|done|apply (rp_ends _ _ H1)|]. run E.
  pose proof (rep_touch c1 m b ns H1 Hc Hs Hb0 ltac:(by eexists) Hm) as H2.
  erewrite (bind_ok (mp_at k)); [|unfold mp_at; cbn [mp]; by rewrite Eb].
  destruct (rp_node _ _ H2 k b Eb) as (_ & n2 & Hn2 & _). cbn [nodes] in Hn2.
  unfold set_value. erewrite (bind_ok (node_at b)); [|by apply lru_node_run]. erewrite set_node_run; [|done|done].
  eexists. split; [done|]. split; [|split; [done|]].
  - split; cbn [with_nodes nodes mp head tail act_size].
    + intros j. rewrite (rp_keys _ _ H1). destruct (decide (j = k)) as [->|]; [rewrite lookup_insert_eq|by rewrite lookup_insert_ne].
      split; by eexists.
    + intros j b' Hb'. destruct (decide (j = k)) as [->|Hne].
      * assert (b' = b) as -> by congruence. split; [done|]. rewrite !lookup_insert_eq. by eexists.
      * assert (b' <> b) by (intros ->; by destruct Hne; apply (rp_apart _ _ H1 j k b)). rewrite !lookup_insert_ne by done.
        apply (rp_node _ _ H2 j b' Hb').
    + apply (rp_apart _ _ H1).
    + destruct (Hc b n2 Hn2) as [L1 L2]. intros x y Hxy.
      assert (Hlv : forall p, live ns p -> live (<[b := mk_node (next n2) (prev n2) v (key n2)]> ns) p).
      { intros p [->|Hp]; [by left|right]. destruct (decide (p = b)) as [->|]; [by rewrite lookup_insert_eq; eexists|by rewrite lookup_insert_ne]. }
      apply lookup_insert_Some in Hxy as [[_ <-]|[_ Hxy]]; [split; by apply Hlv|]. destruct (Hc x y Hxy). split; by apply Hlv.
    + pose proof (insert_non_empty m k v). destruct (rp_ends _ _ H2) as (_ & Ht & _ & Ht0). cbn [nodes tail] in Ht, Ht0.
      split; [right; rewrite lookup_insert_eq; by eexists|]. split; [|tauto].
      destruct Ht as [->|Ht]; [by left|right]. destruct (decide (tail c1 = b)) as [->|]; [by rewrite lookup_insert_eq; eexists|by rewrite lookup_insert_ne].
    + rewrite map_size_insert_Some by (by eexists). apply (rp_size _ _ H).
  - cbn [with_nodes nodes]. rewrite dom_insert_lookup_L by (by eexists).
    transitivity (dom (nodes c1)); [|cbn [c1 with_nodes nodes]; by rewrite dom_insert_L].
    apply set_eq. intros x. rewrite !elem_of_dom. symmetry. by apply same_vals_some.
Qed.

Lemma set_first :
  m = ∅ -> exists c', set a k v c = Ok (tt, c') /\ rep c' (<[k := v]> m) /\ cp c' = cp c /\ dom (nodes c') = {[a]} ∪ dom (nodes c).
Proof.
  intros Hm. destruct new_run as (H1 & Hn1 & Hfree). unfold set. erewrite (bind_ok (new_node a k v)); [|done]. fold c1.
  erewrite (bind_ok (gets id)); [|done]. cbn [id].
  assert (Ek : mp c1 !! k = None).
  { destruct (mp c1 !! k) eqn:E; [|done]. destruct (proj1 (rp_keys _ _ H1 k) ltac:(by eexists)) as [w Hw]. by rewrite Hm in Hw. }
  rewrite Ek. destruct (rp_ends _ _ H1) as (_ & _ & _ & Ht). rewrite (proj2 (Z.eqb_eq (tail c1) 0) (proj2 Ht Hm)).
  eexists. split; [done|]. split; [|split; [done|by cbn [nodes with_nodes c1]; rewrite dom_insert_L]].
  apply (rep_enter c1 m a k v (mk_node 0 0 v k) H1); [by rewrite Hm|done|done|done|done|right; by eexists|done|]. by rewrite (rp_size _ _ H1).
Qed.

(** Before the size is looked at: the new node is linked as the head. *)
Lemma set_linked :
  m !! k = None -> m <> ∅ ->
  exists ns, closed ns /\ same_vals (nodes c1) ns /\
    set a k v c =
    bind (if act_size c1 <? u64 (cp c1) then grow else evict) (fun _ => m <- gets mp ;; set_mp (<[k := a]> m))
      (mk_cache ns (mp c1) (cp c1) (tail c1) a (act_size c1)).
Proof.
  intros Hk Hm. destruct new_run as (H1 & Hn1 & Hfree). unfold set. erewrite (bind_ok (new_node a k v)); [|done]. fold c1.
  erewrite (bind_ok (gets id)); [|done]. cbn [id].
  assert (Ek : mp c1 !! k = None).
  { destruct (mp c1 !! k) eqn:E; [|done]. destruct (proj1 (rp_keys _ _ H1 k) ltac:(by eexists)) as [w Hw]. congruence. }
  rewrite Ek. destruct (rp_ends _ _ H1) as (Hhl & _ & Hh0 & Ht0).
  assert (Hh : head c1 <> 0) by tauto. rewrite (proj2 (Z.eqb_neq (tail c1) 0)) by tauto.
  destruct Hhl as [?|[h Hh1]]; [done|].
  destruct (set_next_live c1 (head c1) h Hh Hh1 (rp_links _ _ H1) a) as (ns2 & E2 & C2 & S2); [right; by eexists|].
  destruct (proj1 (same_vals_some _ _ a S2) ltac:(by eexists)) as [n2 Hn2].
  destruct (set_prev_live (with_nodes c1 ns2) a n2 Ha Hn2 C2 (head c1)) as (ns3 & E3 & C3 & S3).
  { apply (same_vals_live (nodes c1)); [done|]. right. by eexists. }
  exists ns3. split; [done|]. split; [by eapply same_vals_trans|]. rewrite with_nodes_twice in E3.
  rewrite bind_assoc. run E2. rewrite bind_assoc. run E3. rewrite bind_assoc. by erewrite (bind_ok (set_head a)).
Qed.

Lemma set_new :
  m !! k = None -> m <> ∅ -> Z.of_nat (size m) < u64 (cp c) ->
  exists c', set a k v c = Ok (tt, c') /\ rep c' (<[k := v]> m) /\ cp c' = cp c /\ dom (nodes c') = {[a]} ∪ dom (nodes c).
Proof.
  intros Hk Hm Hroom. destruct new_run as (H1 & Hn1 & Hfree). destruct (set_linked Hk Hm) as (ns & Hc & Hs & ->).
  assert (Hlt : (act_size c1 <? u64 (cp c1)) = true) by (apply Z.ltb_lt; by rewrite (rp_size _ _ H1)). rewrite Hlt.
  eexists. split; [done|]. destruct (rp_ends _ _ H1) as (_ & _ & _ & Ht0).
  assert (H3 : rep (mk_cache ns (mp c1) (cp c1) (tail c1) a (act_size c1)) m) by (apply rep_touch; done || by eexists).
  split; [|split; [done|]].
  - destruct (proj1 (same_vals_some _ _ a Hs) ltac:(by eexists)) as [n3 Hn3].
    apply (rep_enter _ m a k v n3 H3); [done|done| |done|done| |tauto|].
    + specialize (Hs a). rewrite Hn3, Hn1 in Hs. by injection Hs.
    + apply (rp_ends _ _ H3).
    + cbn [act_size]. by rewrite (rp_size _ _ H1).
  - cbn [nodes with_nodes]. transitivity (dom (nodes c1)); [|cbn [c1 with_nodes nodes]; by rewrite dom_insert_L].
    apply set_eq. intros x. rewrite !elem_of_dom. symmetry. by apply same_vals_some.
Qed.

(** The eviction reads the key of the node it has just deleted. *)
Lemma set_full : m !! k = None -> m <> ∅ -> u64 (cp c) <= Z.of_nat (size m) -> set a k v c = Fault Dangling.
Proof.
  intros Hk Hm Hfull. destruct new_run as (H1 & Hn1 & Hfree). destruct (set_linked Hk Hm) as (ns & _ & Hs & ->).
  assert (Hlt : (act_size c1 <? u64 (cp c1)) = false) by (apply Z.ltb_ge; by rewrite (rp_size _ _ H1)). rewrite Hlt.
  apply bind_fault. destruct (rp_ends _ _ H1) as (_ & Htl & _ & Ht0). assert (Ht : tail c1 <> 0) by tauto.
  destruct (same_vals_live _ _ _ Hs Htl) as [?|[t Ht3]]; [done|].
  unfold evict, gets, bind, node_at, set_tail, modify, ret. cbn [tail with_nodes nodes]. rewrite (proj2 (Z.eqb_neq _ _) Ht), Ht3.
  unfold delete_node. destruct (negb (next t =? 0)); cbn [tail with_nodes nodes];
    rewrite (proj2 (Z.eqb_neq _ _) Ht), Ht3; cbn [nodes with_nodes]; by rewrite lookup_delete_eq.
Qed.
End set_run.

Lemma start_rep cap : rep (LRUCache cap) ∅.
Proof. split; try done. split_and!; try done; by left. Qed.

Lemma ops_refine ops : forall c m,
  rep c m -> NoDup (addrs ops) -> Forall (fun a => a <> 0 /\ nodes c !! a = None) (addrs ops) ->
  Z.of_nat (size m) + Z.of_nat (length ops) < 2 ^ 64 -> run_ops ops c = map_ops ops (cp c) m.
Proof.
  induction ops as [|o ops IH]; intros c m H Hnd Hfresh Hlen; [done|]. destruct o as [a k v|k]; cbn [run_ops map_ops addrs omap list_omap] in *.
  - fold (addrs ops) in *. apply NoDup_cons in Hnd as [Hna Hnd]. apply Forall_cons in Hfresh as [[Ha Hf] Hfresh]. cbn [length] in Hlen.
    assert (Hgo : forall c', set a k v c = Ok (tt, c') -> rep c' (<[k := v]> m) -> cp c' = cp c -> dom (nodes c') = {[a]} ∪ dom (nodes c) ->
      (let? (_, c) := set a k v c in run_ops ops c) = map_ops ops (cp c) (<[k := v]> m)).
    { intros c' -> H' Hcp Hdom. cbn [obind]. rewrite <- Hcp. apply IH; [done|done| |].
      - rewrite Forall_forall in Hfresh |- *. intros x Hx. destruct (Hfresh x Hx) as [Hx0 Hxn]. split; [done|].
        apply not_elem_of_dom. rewrite Hdom. apply not_elem_of_dom in Hxn. set_solver.
      - destruct (m !! k) eqn:Ek; [rewrite map_size_insert_Some by (by eexists)|rewrite map_size_insert_None by done]; lia. }
    destruct (m !! k) as [w|] eqn:Ek.
    + rewrite bool_decide_true by (by eexists). cbn [orb].
      destruct (set_present c m a k v H Ha Hf w Ek) as (c' & ? & ? & ? & ?). by eapply Hgo.
    + rewrite bool_decide_false by (by intros []). cbn [orb]. destruct (decide (m = ∅)) as [Hm|Hm].
      * rewrite bool_decide_true by done. cbn [orb]. destruct (set_first c m a k v H Ha Hf ltac:(lia) Hm) as (c' & ? & ? & ? & ?). by eapply Hgo.
      * rewrite bool_decide_false by done. cbn [orb]. destruct (Z.ltb_spec (Z.of_nat (size m)) (u64 (cp c))) as [Hlt|Hge].
        -- destruct (set_new c m a k v H Ha Hf ltac:(lia) Ek Hm Hlt) as (c' & ? & ? & ? & ?). by eapply Hgo.
        -- by rewrite (set_full c m a k v H Ha Hf Ek Hm Hge).
  - destruct (lru_get_run c m k H) as (c' & -> & H' & Hcp & Hdom). cbn [obind length] in *. rewrite <- Hcp.
    rewrite (IH c' m); [done|done|done| |lia]. rewrite Forall_forall in Hfresh |- *. intros x Hx. destruct (Hfresh x Hx) as [Hx0 Hxn].
    split; [done|]. apply not_elem_of_dom. rewrite Hdom. by apply not_elem_of_dom.
Qed.

(** C26: as long as the keys fit, the cache is a map: every [get] answers the
    value last set for its key, or -1, whatever order of use the list is in,
    and no freed memory is used.  One key more than the capacity makes the
    cache read the node that it has just deleted, at whatever point of the
    program that happens. *)
Theorem lru_is_map ops cap :
  NoDup (addrs ops) -> Forall (fun a => a <> 0) (addrs ops) -> Z.of_nat (length ops) < 2 ^ 64 ->
  run_ops ops (LRUCache cap) = map_ops ops cap ∅.
Proof.
  intros Hnd Ha Hl. apply (ops_refine ops (LRUCache cap)); [apply start_rep|done| |by rewrite map_size_empty].
  eapply Forall_impl; [exact Ha|]. done.
Qed.

(** Two keys fit; the third is fatal. *)
Lemma lru_is_map_witness :
  let ops := [Set_ 16 1 10; Set_ 32 2 20; Get 1; Set_ 48 1 11; Get 1; Get 2; Get 3] in
  run_ops ops (LRUCache 2) = Ok [10; 11; 20; -1] /\
  run_ops (ops ++ [Set_ 64 3 30]) (LRUCache 2) = Fault Dangling.
Proof.
  intros ops. split; rewrite lru_is_map; try (by vm_compute); apply (bool_decide_unpack _); by vm_compute.
Defined.
