(* ===== verification/Any.v ===== *)
(** * Any: a holder of one value of any type

    Models [src/c++/any/any.cpp].  The heap holds the [ValueHolder] objects
    that exist, each with its dynamic type; an [Any] object is a name with its
    pointer [_value].  Types, their values and the addresses [new] chooses are
    parameters; a [new] that is refused throws. *)

From Stdlib Require Import Eqdep_dec.
From S2P Require Import Prelude.
Open Scope Z_scope.

Section any.
Context {ty : Type} `{!EqDecision ty} (val : ty -> Type).

(** ** State *)

(** [ValueHolder<T>] with its [_data]. *)
Definition ValueHolder : Type := { T : ty & val T }.

(** A variable, or ([None]) the temporary of an expression. *)
Abbreviation name := (option nat).

Record world := mk_world {
  heap : gmap Z ValueHolder;
  anys : gmap name Z
}.

Context (addr_of : gmap Z ValueHolder -> Z).

(** Computations that may throw: [None] is an exception on its way up. *)
Definition E (A : Type) : Type := M world (option A).
Definition ebind {A B} (m : E A) (k : A -> E B) : E B :=
  r <- m ;; match r with Some a => k a | None => ret None end.
Definition pure {A} (m : M world A) : E A := a <- m ;; ret (Some a).

(** [new ValueHolder<T>(v)]; [avail] tells whether there is memory. *)
Definition new_holder (avail : bool) (h : ValueHolder) : E Z := fun w =>
  if avail then
    let p := addr_of (heap w) in
    Ok (Some p, mk_world (<[p := h]> (heap w)) (anys w))
  else Ok (None, w).

Definition holder_at (p : Z) : M world ValueHolder := fun w =>
  if p =? 0 then Fault NullDeref
  else match heap w !! p with Some h => Ok (h, w) | None => Fault Dangling end.

Definition clone (avail : bool) (p : Z) : E Z :=
  h <- holder_at p ;; new_holder avail h.

(** [delete]: nothing for a null pointer. *)
Definition delete_holder (p : Z) : M world unit :=
  if p =? 0 then ret tt
  else _ <- holder_at p ;; modify (fun w => mk_world (delete p (heap w)) (anys w)).

(** ** The members of Any *)

Definition get_value (x : name) : M world Z := fun w =>
  match anys w !! x with Some p => Ok (p, w) | None => Fault Dangling end.

Definition set_value (x : name) (p : Z) : M world unit :=
  modify (fun w => mk_world (heap w) (<[x := p]> (anys w))).

Definition Any_default (x : name) : M world unit := set_value x 0.

Definition Any_value (avail : bool) (x : name) (h : ValueHolder) : E unit :=
  ebind (new_holder avail h) (fun p => pure (set_value x p)).

(** The end of the object: its destructor, then its storage. *)
Definition Any_destroy (x : name) : M world unit :=
  p <- get_value x ;;
  delete_holder p ;;
  modify (fun w => mk_world (heap w) (delete x (anys w))).

Definition Any_copy (avail : bool) (x any : name) : E unit :=
  v <- get_value any ;;
  if negb (v =? 0) then ebind (clone avail v) (fun p => pure (set_value x p))
  else pure (set_value x 0).

Definition swap (x inst : name) : M world unit :=
  a <- get_value x ;;
  b <- get_value inst ;;
  set_value x b ;;
  set_value inst a.

Definition assign (avail : bool) (x other : name) : E unit :=
  if decide (x <> other) then
    ebind (Any_copy avail None other) (fun _ =>
      pure (swap None x ;; Any_destroy None))
  else ret (Some tt).

(** [dynamic_cast<ValueHolder<T>*>], then the address of [_data]. *)
Definition cast (T : ty) (x : name) : M world Z :=
  p <- get_value x ;;
  if p =? 0 then ret 0
  else h <- holder_at p ;; ret (if decide (projT1 h = T) then p else 0).

(** ** Clients *)

(** What a holder holds, seen as a [T]; nothing when it is of another type. *)
Definition as_type (T : ty) (h : ValueHolder) : option (val T) :=
  match decide (projT1 h = T) with
  | left e => Some (eq_rect _ val (projT2 h) T e)
  | right _ => None
  end.

(** Reading and writing through a [T*]; through one that points to an object of
    another type the language gives no meaning to it. *)
Definition load (T : ty) (p : Z) : M world (val T) :=
  h <- holder_at p ;; lift (of_option Indeterminate (as_type T h)).
Definition store (T : ty) (p : Z) (v : val T) : M world unit :=
  _ <- load T p ;; modify (fun w => mk_world (<[p := existT T v]> (heap w)) (anys w)).

Inductive op :=
| New (x : nat)                          (* Any x; *)
| Put (x : nat) (T : ty) (v : val T)     (* Any x(v); *)
| Copy (x y : nat)                       (* Any x(y); *)
| Assign (x y : nat)                     (* x = y; *)
| Swap (x y : nat)                       (* x.swap(y); *)
| Drop_ (x : nat)                        (* the end of the scope of x *)
| Read (x : nat) (T : ty)                (* x.cast<T>(), read unless null *)
| Update (x : nat) (T : ty) (v : val T). (* x.cast<T>(), written unless null *)

(** What the client of one operation sees: nothing, an exception, a null
    pointer, a value. *)
Inductive seen := Quiet | Exn | Null | Saw (h : ValueHolder).

Definition quiet (m : M world unit) : M world seen := _ <- m ;; ret Quiet.
Definition caught (m : E unit) : M world seen :=
  r <- m ;; ret (match r with Some _ => Quiet | None => Exn end).

Definition run_op (o : op) (avail : bool) : M world seen :=
  match o with
  | New x => quiet (Any_default (Some x))
  | Put x T v => caught (Any_value avail (Some x) (existT T v))
  | Copy x y => caught (Any_copy avail (Some x) (Some y))
  | Assign x y => caught (assign avail (Some x) (Some y))
  | Swap x y => quiet (swap (Some x) (Some y))
  | Drop_ x => quiet (Any_destroy (Some x))
  | Read x T =>
      p <- cast T (Some x) ;;
      if p =? 0 then ret Null else v <- load T p ;; ret (Saw (existT T v))
  | Update x T v =>
      p <- cast T (Some x) ;;
      if p =? 0 then ret Null else _ <- store T p v ;; ret Quiet
  end.

Fixpoint run_prog (ops : list (op * bool)) : M world (list seen) :=
  match ops with
  | [] => ret []
  | (o, avail) :: ops => s <- run_op o avail ;; l <- run_prog ops ;; ret (s :: l)
  end.

(** ** The reference: variables that hold values *)

Abbreviation env := (gmap nat (option ValueHolder)).

Definition put (x : nat) (c : option ValueHolder) (avail : bool) (e : env) : seen * env :=
  match c, avail with
  | Some _, false => (Exn, e)
  | _, _ => (Quiet, <[x := c]> e)
  end.

Definition spec_op (o : op) (avail : bool) (e : env) : seen * env :=
  let at_ x := default None (e !! x) in
  match o with
  | New x => (Quiet, <[x := None]> e)
  | Put x T v => put x (Some (existT T v)) avail e
  | Copy x y => put x (at_ y) avail e
  | Assign x y => if decide (x = y) then (Quiet, e) else put x (at_ y) avail e
  | Swap x y => (Quiet, <[y := at_ x]> (<[x := at_ y]> e))
  | Drop_ x => (Quiet, delete x e)
  | Read x T =>
      (match at_ x ≫= as_type T with Some v => Saw (existT T v) | None => Null end, e)
  | Update x T v =>
      match at_ x ≫= as_type T with
      | Some _ => (Quiet, <[x := Some (existT T v)]> e)
      | None => (Null, e)
      end
  end.

Fixpoint spec_prog (ops : list (op * bool)) (e : env) : list seen * env :=
  match ops with
  | [] => ([], e)
  | (o, avail) :: ops =>
      let (s, e) := spec_op o avail e in
      let (l, e) := spec_prog ops e in (s :: l, e)
  end.

(** The rules of scope: a constructor makes a new variable, everything else
    uses one that exists. *)
Definition scoped_op (o : op) (e : env) : bool :=
  let has x := bool_decide (is_Some (e !! x)) in
  match o with
  | New x | Put x _ _ => negb (has x)
  | Copy x y => negb (has x) && has y
  | Assign x y | Swap x y => has x && has y
  | Drop_ x | Read x _ | Update x _ _ => has x
  end.

Fixpoint scoped (ops : list (op * bool)) (e : env) : bool :=
  match ops with
  | [] => true
  | (o, avail) :: ops => scoped_op o e && scoped ops (spec_op o avail e).2
  end.

(** ** Proofs *)

Hypothesis addr_of_fresh : forall h, addr_of h <> 0 /\ h !! addr_of h = None.

(** What the pointer of an object says about its contents. *)
Definition points (w : world) (c : option (option ValueHolder)) (q : option Z) : Prop :=
  match c, q with
  | None, None => True
  | Some None, Some p => p = 0
  | Some (Some h), Some p => p <> 0 /\ heap w !! p = Some h
  | _, _ => False
  end.

(** The heap holds the contents of the objects and nothing else, and no two
    objects share a holder. *)
Record rep (w : world) (e : gmap name (option ValueHolder)) : Prop := {
  rep_points : forall x, points w (e !! x) (anys w !! x);
  rep_apart : forall x y p, anys w !! x = Some p -> anys w !! y = Some p -> p <> 0 -> x = y;
  rep_owned : forall p h, heap w !! p = Some h -> p <> 0 /\ exists x, anys w !! x = Some p
}.

Lemma rep_inv w e x c :
  rep w e -> e !! x = Some c ->
  exists p, anys w !! x = Some p /\
    match c with None => p = 0 | Some h => p <> 0 /\ heap w !! p = Some h end.
Proof.
  intros Hr He. pose proof (rep_points _ _ Hr x) as Hp. rewrite He in Hp.
  destruct (anys w !! x) as [p|], c; naive_solver.
Qed.

Lemma rep_none w e x : rep w e -> e !! x = None -> anys w !! x = None.
Proof.
  intros Hr He. pose proof (rep_points _ _ Hr x) as Hp. rewrite He in Hp.
  by destruct (anys w !! x).
Qed.

(** A variable other than the one that points to a holder does not see it
    change or go. *)
Lemma points_other w w' e x y p :
  rep w e -> anys w !! x = Some p -> p <> 0 -> x <> y ->
  (forall q, q <> p -> heap w' !! q = heap w !! q) ->
  points w' (e !! y) (anys w !! y).
Proof.
  intros Hr Hx Hp Hxy Hheap. pose proof (rep_points _ _ Hr y) as Hy.
  destruct (e !! y) as [[h|]|], (anys w !! y) as [q|] eqn:Hq; try done.
  destruct Hy as [Hq0 Hh]. split; [done|]. rewrite Hheap; [done|].
  intros ->. by destruct Hxy, (rep_apart _ _ Hr x y p).
Qed.

Lemma rep_null w e x :
  rep w e -> e !! x = None ->
  rep (mk_world (heap w) (<[x := 0]> (anys w))) (<[x := None]> e).
Proof.
  intros Hr He. pose proof (rep_none _ _ _ Hr He) as Hx. split; simpl.
  - intros y. destruct (decide (x = y)) as [->|]; simplify_map_eq; [done|].
    apply (rep_points _ _ Hr y).
  - intros y z p. rewrite !lookup_insert_Some.
    intros [[-> <-]|[? ?]] [[-> ?]|[? ?]] ?; try done. by eapply (rep_apart _ _ Hr).
  - intros p h Hh. destruct (rep_owned _ _ Hr _ _ Hh) as (? & y & Hy). split; [done|].
    exists y. rewrite lookup_insert_ne; [done|]. congruence.
Qed.

Lemma rep_holder w e x h :
  rep w e -> e !! x = None ->
  rep (mk_world (<[addr_of (heap w) := h]> (heap w)) (<[x := addr_of (heap w)]> (anys w)))
      (<[x := Some h]> e).
Proof.
  intros Hr He. pose proof (rep_none _ _ _ Hr He) as Hx.
  destruct (addr_of_fresh (heap w)) as [Hne Hfresh]. set (p := addr_of (heap w)) in *.
  assert (Hun : forall y, anys w !! y <> Some p).
  { intros y Hy. pose proof (rep_points _ _ Hr y) as Hp. rewrite Hy in Hp.
    destruct (e !! y) as [[?|]|]; naive_solver. }
  split; simpl.
  - intros y. destruct (decide (x = y)) as [->|]; simplify_map_eq; [done|].
    pose proof (rep_points _ _ Hr y) as Hy.
    destruct (e !! y) as [[?|]|], (anys w !! y) as [q|] eqn:Hq; try done; simpl in *.
    rewrite lookup_insert_ne; [done|]. naive_solver.
  - intros y z q. rewrite !lookup_insert_Some.
    intros [[-> <-]|[? ?]] [[-> ?]|[? ?]] ?; try done; [naive_solver..|].
    by eapply (rep_apart _ _ Hr).
  - intros q h'. rewrite lookup_insert_Some. intros [[<- <-]|[Hq Hh]].
    + split; [done|]. exists x. by simplify_map_eq.
    + destruct (rep_owned _ _ Hr _ _ Hh) as (? & y & Hy). split; [done|].
      exists y. rewrite lookup_insert_ne; [done|]. congruence.
Qed.

Lemma rep_swap w e x y a b c d :
  rep w e -> anys w !! x = Some a -> anys w !! y = Some b ->
  e !! x = Some c -> e !! y = Some d ->
  rep (mk_world (heap w) (<[y := a]> (<[x := b]> (anys w)))) (<[y := c]> (<[x := d]> e)).
Proof.
  intros Hr Ha Hb Hc Hd.
  pose proof (rep_points _ _ Hr x) as Hx. pose proof (rep_points _ _ Hr y) as Hy.
  rewrite Ha, Hc in Hx. rewrite Hb, Hd in Hy. split; simpl.
  - intros z. destruct (decide (y = z)) as [->|]; simplify_map_eq; [exact Hx|].
    destruct (decide (x = z)) as [->|]; simplify_map_eq; [exact Hy|].
    apply (rep_points _ _ Hr z).
  - intros u v p. rewrite !lookup_insert_Some. pose proof (rep_apart _ _ Hr).
    intros [[-> <-]|[? [[-> <-]|[? ?]]]] [[-> ?]|[? [[-> ?]|[? ?]]]] ?; naive_solver.
  - intros p h Hh. destruct (rep_owned _ _ Hr _ _ Hh) as (? & z & Hz). split; [done|].
    destruct (decide (x = z)) as [->|].
    + exists y. simplify_map_eq. done.
    + destruct (decide (y = z)) as [->|].
      * exists x. destruct (decide (x = z)); simplify_map_eq; done.
      * exists z. simplify_map_eq. done.
Qed.

Lemma rep_write w e x p h h' :
  rep w e -> anys w !! x = Some p -> e !! x = Some (Some h) ->
  rep (mk_world (<[p := h']> (heap w)) (anys w)) (<[x := Some h']> e).
Proof.
  intros Hr Hx He. destruct (rep_inv _ _ _ _ Hr He) as (p' & Hx' & Hp & Hh).
  rewrite Hx in Hx'. simplify_eq. split; simpl.
  - intros y. destruct (decide (x = y)) as [->|].
    { rewrite lookup_insert_eq, Hx. simpl. by rewrite lookup_insert_eq. }
    rewrite lookup_insert_ne by done.
    apply (points_other w _ e x y p'); try done. intros q Hq. by apply lookup_insert_ne.
  - exact (rep_apart _ _ Hr).
  - intros q k. rewrite lookup_insert_Some. intros [[<- <-]|[_ Hk]]; [by eauto|].
    by apply (rep_owned _ _ Hr _ k).
Qed.

Lemma Any_destroy_rep w e x c :
  rep w e -> e !! x = Some c ->
  exists w', Any_destroy x w = Ok (tt, w') /\ rep w' (delete x e).
Proof.
  intros Hr He. destruct (rep_inv _ _ _ _ Hr He) as (p & Hx & Hp).
  unfold Any_destroy, get_value, bind, delete_holder. rewrite Hx. destruct c as [h|].
  - destruct Hp as [Hp Hh]. rewrite (proj2 (Z.eqb_neq _ _) Hp). unfold bind, holder_at; cbn beta.
    rewrite (proj2 (Z.eqb_neq _ _) Hp), Hh. simpl. eexists; split; [done|]. split; simpl.
    + intros y. destruct (decide (x = y)) as [->|]; simplify_map_eq; [done|].
      apply (points_other w _ e x y p); try done. intros q Hq. by apply lookup_delete_ne.
    + intros y z q. rewrite !lookup_delete_Some. intros [? ?] [? ?] ?.
      by eapply (rep_apart _ _ Hr).
    + intros q k. rewrite lookup_delete_Some. intros [Hq Hk].
      destruct (rep_owned _ _ Hr _ _ Hk) as (? & y & Hy). split; [done|].
      exists y. apply lookup_delete_Some. split; [congruence|done].
  - subst p. simpl. eexists; split; [done|]. split; simpl.
    + intros y. destruct (decide (x = y)) as [->|]; simplify_map_eq; [done|].
      apply (rep_points _ _ Hr y).
    + intros y z q. rewrite !lookup_delete_Some. intros [? ?] [? ?] ?.
      by eapply (rep_apart _ _ Hr).
    + intros q k Hk. destruct (rep_owned _ _ Hr _ _ Hk) as (? & y & Hy). split; [done|].
      exists y. apply lookup_delete_Some. split; [congruence|done].
Qed.

(** The variables of the reference, among the names. *)
Definition lifted (e : env) : gmap name (option ValueHolder) := kmap Some e.

Lemma lifted_at e x : lifted e !! Some x = e !! x.
Proof. apply (lookup_kmap Some). Qed.

Lemma lifted_temp e : lifted e !! None = None.
Proof. apply lookup_kmap_None; [apply _|]. by intros. Qed.

Lemma Any_copy_rep w e avail x y c :
  rep w e -> e !! x = None -> e !! y = Some c ->
  exists w', Any_copy avail x y w =
      Ok (if negb avail && bool_decide (is_Some c) then None else Some tt, w') /\
    rep w' (if negb avail && bool_decide (is_Some c) then e else <[x := c]> e).
Proof.
  intros Hr Hx Hy. destruct (rep_inv _ _ _ _ Hr Hy) as (p & Hp & Hc).
  unfold Any_copy, bind, get_value. rewrite Hp. destruct c as [h|].
  - destruct Hc as [Hp0 Hh]. rewrite (proj2 (Z.eqb_neq _ _) Hp0). simpl.
    unfold ebind, clone, bind, new_holder, holder_at.
    rewrite (proj2 (Z.eqb_neq _ _) Hp0), Hh. destruct avail; simpl.
    + eexists; split; [reflexivity|]. exact (rep_holder w e x h Hr Hx).
    + by exists w.
  - subst p. rewrite andb_false_r. simpl. eexists; split; [done|]. by apply rep_null.
Qed.

Lemma swap_rep w e x y c d :
  rep w e -> e !! x = Some c -> e !! y = Some d ->
  exists w', swap x y w = Ok (tt, w') /\ rep w' (<[y := c]> (<[x := d]> e)).
Proof.
  intros Hr Hx Hy. destruct (rep_inv _ _ _ _ Hr Hx) as (p & Hp & _).
  destruct (rep_inv _ _ _ _ Hr Hy) as (q & Hq & _).
  unfold swap, bind, get_value. rewrite Hp, Hq.
  eexists; split; [reflexivity|]. exact (rep_swap w e x y p q c d Hr Hp Hq Hx Hy).
Qed.

Lemma assign_rep w e avail x y c d :
  rep w e -> e !! None = None -> e !! x = Some d -> e !! y = Some c -> x <> y ->
  exists w', assign avail x y w =
      Ok (if negb avail && bool_decide (is_Some c) then None else Some tt, w') /\
    rep w' (if negb avail && bool_decide (is_Some c) then e else <[x := c]> e).
Proof.
  intros Hr Ht Hx Hy Hxy. unfold assign. rewrite decide_True by done. unfold ebind.
  destruct (Any_copy_rep w e avail None y c Hr Ht Hy) as (w1 & E1 & R1). run E1.
  destruct (negb avail && bool_decide (is_Some c)); [by exists w1|].
  destruct (swap_rep w1 (<[None := c]> e) None x c d R1) as (w2 & E2 & R2);
    [by simplify_map_eq|rewrite lookup_insert_ne; [done|congruence]|].
  destruct (Any_destroy_rep w2 _ None d R2) as (w3 & E3 & R3).
  { rewrite lookup_insert_ne by congruence. by simplify_map_eq. }
  unfold pure. erewrite (bind_ok (bind _ _)); [|run E2; exact E3].
  exists w3. split; [done|]. replace (<[x:=c]> e) with
    (delete None (<[x:=c]> (<[None:=d]> (<[None:=c]> e)))); [done|].
  apply map_eq. intros z. destruct (decide (z = None)) as [->|Hz].
  - rewrite lookup_delete_eq, lookup_insert_ne by congruence. done.
  - rewrite lookup_delete_ne by congruence. destruct (decide (x = z)) as [->|];
      by simplify_map_eq.
Qed.

(** [cast] gives the address of the data when the contents have the type asked
    for, and a null pointer otherwise. *)
Lemma cast_rep w e x c T :
  rep w e -> e !! x = Some c ->
  exists p, anys w !! x = Some p /\
    cast T x w = Ok (if bool_decide (projT1 <$> c = Some T) then p else 0, w) /\
    (match c with Some h => p <> 0 /\ heap w !! p = Some h | None => True end).
Proof.
  intros Hr Hx. destruct (rep_inv _ _ _ _ Hr Hx) as (p & Hp & Hc). exists p.
  split; [done|]. unfold cast, bind, get_value. rewrite Hp. destruct c as [h|].
  - destruct Hc as [Hp0 Hh]. rewrite (proj2 (Z.eqb_neq _ _) Hp0). unfold bind, holder_at; cbn beta.
    rewrite (proj2 (Z.eqb_neq _ _) Hp0), Hh. simpl. split; [|done]. unfold ret.
    case_decide; case_bool_decide; naive_solver.
  - by subst p.
Qed.

Lemma as_type_some T h : is_Some (as_type T h) <-> projT1 h = T.
Proof. unfold as_type. destruct (decide _); split; try done; intros [??]; done. Qed.

Lemma as_type_exact T h v : as_type T h = Some v <-> h = existT T v.
Proof.
  unfold as_type. destruct h as [T' v']. simpl. destruct (decide (T' = T)) as [<-|Hne].
  - simpl. split; [by intros [= ->]|]. intros H.
    apply (inj_pair2_eq_dec _ (fun a b => decide (a = b))) in H. by f_equal.
  - split; [done|]. intros [=]. done.
Qed.

Lemma lifted_insert e x c : lifted (<[x := c]> e) = <[Some x := c]> (lifted e).
Proof. apply (kmap_insert Some). Qed.

Lemma lifted_delete e x : lifted (delete x e) = delete (Some x) (lifted e).
Proof. apply (kmap_delete Some). Qed.

Lemma put_cases x c avail e :
  put x c avail e =
  if negb avail && bool_decide (is_Some c) then (Exn, e) else (Quiet, <[x := c]> e).
Proof. by destruct c, avail. Qed.

(** A copy of [c] into [x], whether by a constructor or by an assignment. *)
Lemma put_rep (m : E unit) w e avail x c :
  (exists w', m w = Ok (if negb avail && bool_decide (is_Some c) then None else Some tt, w') /\
     rep w' (if negb avail && bool_decide (is_Some c) then lifted e
             else <[Some x := c]> (lifted e))) ->
  exists w', caught m w = Ok ((put x c avail e).1, w') /\ rep w' (lifted (put x c avail e).2).
Proof.
  intros (w' & Hm & Hr). rewrite put_cases. unfold caught. run Hm. exists w'.
  destruct (_ && _); simpl; [done|]. by rewrite lifted_insert.
Qed.

Lemma scope_at e x :
  bool_decide (is_Some (e !! x)) = true ->
  lifted e !! Some x = Some (default None (e !! x)).
Proof. rewrite bool_decide_eq_true, lifted_at. by intros [c ->]. Qed.

Lemma scope_free e x :
  negb (bool_decide (is_Some (e !! x))) = true -> lifted e !! Some x = None.
Proof.
  rewrite negb_true_iff, bool_decide_eq_false, lifted_at. intros H.
  by apply eq_None_not_Some.
Qed.

(** Reading and writing through the pointer that [cast] gives. *)
Lemma load_rep w p h T v :
  p <> 0 -> heap w !! p = Some h -> as_type T h = Some v -> load T p w = Ok (v, w).
Proof.
  intros Hp Hh Hv. unfold load, bind, holder_at.
  rewrite (proj2 (Z.eqb_neq _ _) Hp), Hh. cbn. by rewrite Hv.
Qed.

Lemma cast_access {A} w e x c T (k : Z -> M world A) :
  rep w (lifted e) -> lifted e !! Some x = Some c ->
  exists p, anys w !! Some x = Some p /\
    (bind (cast T (Some x)) k w = k 0 w /\ (c ≫= as_type T) = None \/
     exists h v, bind (cast T (Some x)) k w = k p w /\ c = Some h /\ as_type T h = Some v /\
       p <> 0 /\ load T p w = Ok (v, w)).
Proof.
  intros Hr Hc. destruct (cast_rep w _ _ c T Hr Hc) as (p & Hp & Ec & Hh). exists p.
  split; [done|]. run Ec. case_bool_decide as Hd.
  - right. destruct c as [h|]; [|done]. simpl in Hd. simplify_eq. destruct Hh as [Hp0 Hh].
    destruct (proj2 (as_type_some _ h) eq_refl) as [v Hv].
    exists h, v. split_and!; try done. by eapply load_rep.
  - left. split; [done|]. destruct c as [h|]; [|done]. simpl in *.
    apply eq_None_not_Some. rewrite as_type_some. naive_solver.
Qed.

Lemma run_op_rep o avail w e :
  rep w (lifted e) -> scoped_op o e = true ->
  exists w', run_op o avail w = Ok ((spec_op o avail e).1, w') /\
    rep w' (lifted (spec_op o avail e).2).
Proof.
  intros Hr. destruct o as [x|x T v|x y|x y|x y|x|x T|x T v]; simpl; intros Hs.
  - eexists; split; [reflexivity|]. rewrite lifted_insert.
    apply (rep_null w _ _ Hr), scope_free, Hs.
  - apply (put_rep _ w e avail x (Some (existT T v))). destruct avail; [|by exists w].
    eexists; split; [reflexivity|]. simpl. apply (rep_holder w _ _ _ Hr), scope_free, Hs.
  - apply andb_true_iff in Hs as [Hx Hy].
    apply put_rep, Any_copy_rep; [done|by apply scope_free|by apply scope_at].
  - apply andb_true_iff in Hs as [Hx Hy]. case_decide as Hd.
    + subst y. unfold assign, caught. rewrite decide_False by congruence. by exists w.
    + apply put_rep. eapply assign_rep; [done|apply lifted_temp|by apply scope_at..|congruence].
  - apply andb_true_iff in Hs as [Hx Hy].
    destruct (swap_rep w _ _ _ _ _ Hr (scope_at _ _ Hx) (scope_at _ _ Hy)) as (w' & Es & Rs).
    unfold quiet. run Es. exists w'. by rewrite !lifted_insert.
  - destruct (Any_destroy_rep w _ _ _ Hr (scope_at _ _ Hs)) as (w' & Ed & Rd).
    unfold quiet. run Ed. exists w'. by rewrite lifted_delete.
  - destruct (cast_access w e x _ T
      (fun p => if p =? 0 then ret Null else v <- load T p ;; ret (Saw (existT T v)))
      Hr (scope_at _ _ Hs)) as (p & Hp & [[-> ->]|(h & v & -> & Hc & Hv & Hp0 & Hl)]).
    { by exists w. }
    rewrite (proj2 (Z.eqb_neq _ _) Hp0), Hc. run Hl. simpl. rewrite Hv. by exists w.
  - destruct (cast_access w e x _ T
      (fun p => if p =? 0 then ret Null else _ <- store T p v ;; ret Quiet)
      Hr (scope_at _ _ Hs)) as (p & Hp & [[-> ->]|(h & v' & -> & Hc & Hv & Hp0 & Hl)]).
    { by exists w. }
    rewrite (proj2 (Z.eqb_neq _ _) Hp0), Hc. simpl. rewrite Hv. unfold store.
    rewrite bind_assoc. run Hl. eexists; split; [reflexivity|].
    simpl. rewrite lifted_insert. apply (rep_write w _ _ p h); [done..|]. by rewrite (scope_at _ _ Hs), Hc.
Qed.

Lemma run_prog_rep ops w e :
  rep w (lifted e) -> scoped ops e = true ->
  exists w', run_prog ops w = Ok ((spec_prog ops e).1, w') /\
    rep w' (lifted (spec_prog ops e).2).
Proof.
  revert w e. induction ops as [|[o avail] ops IH]; simpl; intros w e Hr Hs.
  { by exists w. }
  apply andb_true_iff in Hs as [Ho Hs].
  destruct (run_op_rep o avail w e Hr Ho) as (w1 & E1 & R1). run E1.
  destruct (spec_op o avail e) as [s e1]. simpl in *.
  destruct (IH w1 e1 R1 Hs) as (w2 & E2 & R2). run E2. exists w2.
  by destruct (spec_prog ops e1).
Qed.

Definition empty_world : world := mk_world ∅ ∅.

Lemma rep_empty_world : rep empty_world (lifted ∅).
Proof.
  split; simpl.
  - intros x. unfold lifted. rewrite kmap_empty, !lookup_empty. done.
  - done.
  - done.
Qed.

(** ** Properties *)

(** C27: an [Any] behaves as a variable that owns its value.  In every program
    over constructors, copies, assignments (also to itself), exchanges, casts
    and destructors the operations run without a fault, each answers what the
    same program over plain values answers, and at the end the heap holds the
    values of the variables that are left and nothing else: nothing is shared,
    lost or freed twice.  An operation for which there is no memory throws and
    changes nothing. *)
Theorem any_owns_its_value ops :
  scoped ops ∅ = true ->
  exists w, run_prog ops empty_world = Ok ((spec_prog ops ∅).1, w) /\
    (forall x, match (spec_prog ops ∅).2 !! x with
               | None => anys w !! Some x = None
               | Some None => anys w !! Some x = Some 0
               | Some (Some h) => exists p, anys w !! Some x = Some p /\ p <> 0 /\ heap w !! p = Some h
               end) /\
    (forall p h, heap w !! p = Some h ->
       exists x, anys w !! Some x = Some p /\ forall y, anys w !! Some y = Some p -> y = x).
Proof.
  intros Hs. destruct (run_prog_rep ops _ _ rep_empty_world Hs) as (w & Hrun & Hr).
  exists w. split; [done|]. split.
  - intros x. destruct (_ !! x) as [c|] eqn:Hx; rewrite <- lifted_at in Hx.
    + destruct (rep_inv _ _ _ _ Hr Hx) as (p & Hp & Hc). destruct c; naive_solver.
    + by apply (rep_none _ _ _ Hr).
  - intros p h Hh. destruct (rep_owned _ _ Hr _ _ Hh) as (Hp & [x|] & Hx).
    + exists x. split; [done|]. intros y Hy. eapply (inj Some), (rep_apart _ _ Hr); done.
    + rewrite (rep_none _ _ _ Hr (lifted_temp _)) in Hx. done.
Qed.

(** C28: casts are checked.  After any program, [cast<T>] of a variable that
    holds a value gives the address of that value when [T] is the type it was
    stored with, and a null pointer for every other [T]; of a variable that
    holds none it gives a null pointer.  Through the pointer a [T] can be read,
    which gives the value, and written, which changes this variable and no
    other. *)
Theorem any_cast_typed ops x c T :
  scoped ops ∅ = true -> (spec_prog ops ∅).2 !! x = Some c ->
  exists w, run_prog ops empty_world = Ok ((spec_prog ops ∅).1, w) /\
  match c with
  | None => cast T (Some x) w = Ok (0, w)
  | Some h => exists p, p <> 0 /\ heap w !! p = Some h /\
      cast T (Some x) w = Ok (if decide (projT1 h = T) then p else 0, w) /\
      forall v v' : val T, h = existT T v ->
        load T p w = Ok (v, w) /\
        exists w', store T p v' w = Ok (tt, w') /\ heap w' !! p = Some (existT T v') /\
          forall y h', y <> x -> (spec_prog ops ∅).2 !! y = Some (Some h') ->
            exists q, anys w' !! Some y = Some q /\ heap w' !! q = Some h'
  end.
Proof.
  intros Hs Hx. destruct (run_prog_rep ops _ _ rep_empty_world Hs) as (w & Hrun & Hr).
  exists w. split; [done|]. rewrite <- lifted_at in Hx.
  destruct (cast_rep w _ _ c T Hr Hx) as (p & Hp & Ec & Hh). destruct c as [h|]; [|done].
  destruct Hh as [Hp0 Hh]. exists p. split; [done|]. split; [done|]. split.
  { rewrite Ec. destruct (decide (projT1 h = T)) as [Hd|Hd].
    - by rewrite bool_decide_eq_true_2 by (by rewrite <- Hd).
    - rewrite bool_decide_eq_false_2; [done|]. intros [=]. by apply Hd. }
  intros v v' ->. assert (Hl : load T p w = Ok (v, w)) by (eapply load_rep; [done|exact Hh|]; by apply as_type_exact).
  split; [done|]. exists (mk_world (<[p := existT T v']> (heap w)) (anys w)).
  split; [unfold store; by rewrite (bind_ok _ _ _ _ _ Hl)|]. split; [apply lookup_insert_eq|]. intros y h' Hy Hh'.
  pose proof (rep_write w _ (Some x) p _ (existT T v') Hr Hp Hx) as Hr'. rewrite <- lifted_at in Hh'.
  destruct (rep_inv _ _ (Some y) (Some h') Hr') as (q & Hq & _ & Hq'); [|by exists q].
  rewrite lookup_insert_ne; [done|congruence].
Qed.
End any.

Definition first_free (h : gmap Z (ValueHolder (fun b : bool => if b then Z else list Z))) : Z :=
  fresh ({[0]} ∪ dom h : gset Z).

Lemma first_free_fresh h : first_free h <> 0 /\ h !! first_free h = None.
Proof.
  pose proof (is_fresh ({[0]} ∪ dom h : gset Z)) as H. unfold first_free.
  split; [set_solver|]. apply not_elem_of_dom. set_solver.
Qed.

(** Integers and strings; an assignment that is refused, one that is not. *)
Definition sample : list (op (fun b : bool => if b then Z else list Z) * bool) :=
  [(Put _ 0%nat true 7, true); (Put _ 1%nat false [1; 2], true);
   (Assign _ 0%nat 1%nat, false); (Read _ 0%nat true, true);
   (Assign _ 0%nat 1%nat, true); (Read _ 0%nat true, true);
   (Update _ 1%nat false [3], true); (Read _ 0%nat false, true)].

Lemma any_owns_its_value_witness :
  exists w, run_prog _ first_free sample (empty_world _) =
    Ok ([Quiet _; Quiet _; Exn _; Saw _ (existT true 7); Quiet _; Null _; Quiet _;
         Saw _ (existT false [1; 2])], w).
Proof.
  destruct (any_owns_its_value _ first_free first_free_fresh sample) as (w & H & _);
    [by vm_compute|].
  exists w. rewrite H. by vm_compute.
Defined.

Lemma any_cast_typed_witness :
  exists w p, run_prog _ first_free sample (empty_world _) = Ok ((spec_prog _ sample ∅).1, w) /\
    p <> 0 /\ cast _ false (Some 1%nat) w = Ok (p, w) /\ load _ false p w = Ok ([3], w).
Proof.
  destruct (any_cast_typed _ first_free first_free_fresh sample 1%nat (Some (existT false [3])) false)
    as (w & Hw & p & Hp & _ & Hc & H); [by vm_compute|by vm_compute|].
  exists w, p. split; [done|]. split; [done|]. split; [exact Hc|]. by apply (H [3] [4]).
Defined.
