(* ===== verification/HTTPClient.v ===== *)
(** * HTTPClient: taking a URL apart and building requests

    Models [src/pthreads-problems/problem-6-HTTP-Client/HTTPClient.c].  The heap
    holds strings, as bytes, and list nodes, as the 8-byte cells [str_val],
    [next] and [index]; an access outside the block the allocator gave is a
    fault.  The allocator answers null or a block with unknown contents, by the
    number of bytes asked for; the C library and the network answer through
    arguments. *)

From S2P Require Import Prelude CInt CString CBuf.
Open Scope Z_scope.

(** ** State *)

Inductive obj := Bytes (b : block) | Words (w : list Z).

Record st := mk_st {
  heap : gmap Z obj;
  top : Z;        (* the next address the allocator hands out *)
  out : cstr      (* what was written to the standard output *)
}.

Definition BUF_SIZE : Z := 512.
Definition CNT_RETRIES : Z := 5.
Definition MAX_DIGITS : Z := 20.
Definition NEW_LINE_CHARS_CNT : Z := 8.

Definition crlf : cstr := [13; 10].
Definition NEW_LINE : cstr := crlf ++ crlf.
Definition PROTOCOL_STR : cstr := bytes_of "HTTP/1.1" ++ crlf.
Definition HOST_STR : cstr := bytes_of "Host: ".
Definition GET_METHOD_STR : cstr := bytes_of "GET /".
Definition CONN_TYPE_STR : cstr := crlf ++ bytes_of "Connection: close" ++ crlf ++ crlf.
Definition POST_METHOD_STR : cstr := bytes_of "POST /".
Definition CONTENT_TYPE_TEXT_STR : cstr :=
  crlf ++ bytes_of "Content-Type: text/html; charset=utf-8" ++ crlf.
Definition CONTETN_LEN_STR : cstr := bytes_of "Content-Length: ".

Definition NO_ERR : Z := 0.
Definition EMPTY_STR_ERR : Z := 1.
Definition ALLOC_ERR : Z := 2.
Definition SOCK_ERR_WRITE : Z := 3.
Definition SOCK_ERR_READ : Z := 4.
Definition NO_ARGS_ERR : Z := 5.

Inductive request_method_type := GET | POST.

(** ** Memory and strings *)

Definition emit (s : cstr) : M st unit :=
  modify (fun s0 => mk_st (heap s0) (top s0) (out s0 ++ s)).
Definition puts (s : cstr) : M st unit := emit (s ++ [10]).

Definition obj_at (p : Z) : M st obj := fun s =>
  if p =? 0 then Fault NullDeref
  else match heap s !! p with Some o => Ok (o, s) | None => Fault Dangling end.

Definition put_obj (p : Z) (o : obj) : M st unit :=
  modify (fun s => mk_st (<[p := o]> (heap s)) (top s) (out s)).

(** The string a pointer points to: its bytes up to the first NUL, which has to
    be inside the block. *)
Definition terminated (b : block) : outcome cstr :=
  if decide (0 ∈ b) then Ok (c_str b) else Fault OutOfBounds.

Definition str_at (p : Z) : M st cstr :=
  o <- obj_at p ;;
  match o with Bytes b => lift (terminated b) | Words _ => fail Indeterminate end.

(** A field of a node, by the number of its cell. *)
Definition word_at (p i : Z) : M st Z :=
  o <- obj_at p ;;
  match o with Words w => lift (load w i) | Bytes _ => fail Indeterminate end.

Definition set_word (p i v : Z) : M st unit :=
  o <- obj_at p ;;
  match o with
  | Words w => w <- lift (store w i v) ;; put_obj p (Words w)
  | Bytes _ => fail Indeterminate
  end.

Definition str_val (p : Z) : M st Z := word_at p 0.
Definition next (p : Z) : M st Z := word_at p 1.
Definition index (p : Z) : M st Z := word_at p 2.

(** [strcpy(b + off, s)] and [strcat(b, s)] *)
Definition strcpy (b : block) (off : Z) (s : cstr) : outcome block :=
  if (off <? 0) || (Z.of_nat (length b) <? off + strlen s + 1) then Fault OutOfBounds
  else Ok (take (Z.to_nat off) b ++ s ++ [0] ++ drop (Z.to_nat (off + strlen s + 1)) b).

Definition strcat (b : block) (s : cstr) : outcome block :=
  let? t := terminated b in strcpy b (strlen t) s.

Definition free (p : Z) : M st unit :=
  if p =? 0 then ret tt
  else _ <- obj_at p ;; modify (fun s => mk_st (delete p (heap s)) (top s) (out s)).

Section client.
(** The allocator for strings and for nodes: for a number of bytes, null or the
    block. *)
Context (malloc malloc_node : Z -> option (list Z)).
(** The value of a call whose function ends without a return statement. *)
Context (no_return : outcome Z).

Definition new_obj (o : obj) : M st Z := fun s =>
  Ok (top s, mk_st (<[top s := o]> (heap s)) (top s + 1) (out s)).

(** ** The list of tokens *)

(** The answer is the error code and the new string. *)
Definition cpy_str (old_str : option cstr) : M st (Z * Z) :=
  match old_str with
  | None => ret (0, 0)
  | Some s =>
      let str_len := u64 (strlen s + 1) in
      match malloc str_len with
      | None => ret (1, 0)
      | Some b => b <- lift (memcpy b (s ++ [0]) 0 str_len) ;; p <- new_obj (Bytes b) ;; ret (0, p)
      end
  end.

(** [malloc(sizeof(struct Node* ))] *)
Definition make_node (v : cstr) : M st (Z * Z) :=
  match malloc_node 8 with
  | None => ret (1, 0)
  | Some w =>
      node <- new_obj (Words w) ;;
      r <- cpy_str (Some v) ;;
      if negb (r.1 =? 0) then ret (1, node)
      else
        set_word node 0 r.2 ;;
        set_word node 1 0 ;;
        c <- lift no_return ;;
        ret (c, node)
  end.

Fixpoint last_node (fuel : nat) (cur : Z) : M st Z :=
  match fuel with
  | O => fail NoFuel
  | S fuel => n <- next cur ;; if n =? 0 then ret cur else last_node fuel n
  end.

(** The error code and the new value of the list head. *)
Definition add (head : Z) (v : cstr) : M st (Z * Z) :=
  r <- make_node v ;;
  let new_node := r.2 in
  if r.1 =? 0 then ret (1, head)
  else if head =? 0 then ret (0, new_node)
  else
    fuel <- gets (fun s => S (size (heap s))) ;;
    cur <- last_node fuel head ;;
    set_word cur 1 new_node ;;
    i <- index cur ;;
    set_word new_node 2 (u64 (i + 1)) ;;
    c <- lift no_return ;;
    ret (c, head).

Fixpoint get_node_loop (fuel : nat) (cur i : Z) : M st Z :=
  if cur =? 0 then ret 0
  else match fuel with
  | O => fail NoFuel
  | S fuel =>
      j <- index cur ;;
      if j =? i then ret cur else n <- next cur ;; get_node_loop fuel n i
  end.

Definition get_node (list i : Z) : M st Z :=
  fuel <- gets (fun s => S (size (heap s))) ;; get_node_loop fuel list i.

Fixpoint print_loop (fuel : nat) (cur : Z) : M st unit :=
  if cur =? 0 then ret tt
  else match fuel with
  | O => fail NoFuel
  | S fuel =>
      p <- str_val cur ;; v <- str_at p ;; i <- index cur ;;
      emit (bytes_of "val " ++ v ++ bytes_of " index: " ++ print_dec (i64 i) ++ [10]) ;;
      n <- next cur ;; print_loop fuel n
  end.

Definition print_list (list : Z) : M st unit :=
  fuel <- gets (fun s => S (size (heap s))) ;; print_loop fuel list.

Fixpoint free_loop (fuel : nat) (cur : Z) : M st unit :=
  if cur =? 0 then ret tt
  else match fuel with
  | O => fail NoFuel
  | S fuel =>
      n <- next cur ;;
      p <- str_val cur ;; free p ;; free cur ;;
      free_loop fuel n
  end.

Definition free_list (list : Z) : M st unit :=
  fuel <- gets (fun s => S (size (heap s))) ;; free_loop fuel list.

(** A comparison with a literal compares addresses, and no caller passes the
    address of that literal. *)
Definition empty (str : option cstr) : bool :=
  match str with None => true | Some _ => false end.

(** [memset(b, 0, n)] *)
Definition zero_bytes (b : block) (n : Z) : outcome block :=
  if Z.of_nat (length b) <? n then Fault OutOfBounds
  else Ok (replicate (Z.to_nat n) 0 ++ drop (Z.to_nat n) b).

(** The loop over the characters of the URL; [rest] is what is left of it. *)
Fixpoint parse_loop (rest : cstr) (str_buff : block) (buff_ptr list : Z) : M st Z :=
  match rest with
  | [] => ret list
  | c :: rest =>
      if negb (buff_ptr <? 2047) then ret list
      else
        let last := match rest with [] => true | _ => false end in
        if (c =? 47) || last then
          b <- lift (if last then store str_buff buff_ptr c else Ok str_buff) ;;
          let buff_ptr := u64 ((if last then buff_ptr + 1 else buff_ptr) + 1) in
          b <- lift (store b buff_ptr 0) ;;
          t <- lift (terminated b) ;;
          puts t ;;
          r <- add list t ;;
          b <- lift (zero_bytes b buff_ptr) ;;
          parse_loop rest b 0 r.2
        else
          b <- lift (store str_buff buff_ptr c) ;;
          parse_loop rest b (u64 (buff_ptr + 1)) list
  end.

Definition parseURL (list : Z) (URLstr : cstr) : M st Z :=
  puts (bytes_of "parseURL") ;;
  parse_loop URLstr (replicate 2048 0) 0 list.

Definition check_protocol (list : Z) : M st bool :=
  n <- get_node list 1 ;; p <- str_val n ;; s <- str_at p ;; puts s ;; ret true.

(** The error code and the domain name. *)
Definition make_domain_name (list : Z) : M st (Z * Z) :=
  n <- get_node list 2 ;;
  if n =? 0 then ret (1, 0)
  else p <- str_val n ;; s <- str_at p ;; puts s ;; p <- str_val n ;; ret (0, p).

Fixpoint total_loop (fuel : nat) (start total_len : Z) : M st Z :=
  if start =? 0 then ret total_len
  else match fuel with
  | O => fail NoFuel
  | S fuel =>
      p <- str_val start ;; s <- str_at p ;;
      n <- next start ;; total_loop fuel n (u64 (total_len + strlen s))
  end.

Fixpoint join_loop (fuel : nat) (start offset : Z) (buff : block) : M st block :=
  if start =? 0 then ret buff
  else match fuel with
  | O => fail NoFuel
  | S fuel =>
      p <- str_val start ;; s <- str_at p ;;
      b <- lift (strcpy buff offset s) ;;
      let offset := u64 (offset + strlen s) in
      b <- lift (strcpy b offset [47]) ;;
      n <- next start ;; join_loop fuel n (u64 (offset + 1)) b
  end.

(** The error code and the resource. *)
Definition make_resource_url (list start_pos end_pos : Z) : M st (Z * Z) :=
  fuel <- gets (fun s => S (size (heap s))) ;;
  start <- get_node list start_pos ;;
  if start =? 0 then ret (1, 0)
  else
    total_len <- total_loop fuel start 0 ;;
    let buff := malloc (u64 (total_len + 1)) in
    start <- get_node list 3 ;;
    match buff with
    | None => fail NullDeref
    | Some b =>
        b <- join_loop fuel start 0 b ;;
        b <- lift (store b total_len 0) ;;
        p <- new_obj (Bytes b) ;;
        ret (NO_ERR, p)
    end.

(** ** Requests *)

(** The block that [strcpy] and then [strcat]s fill. *)
Fixpoint strcats (b : block) (ss : list cstr) : outcome block :=
  match ss with
  | [] => Ok b
  | s :: ss => let? b := strcat b s in strcats b ss
  end.

(** The error code and the request. *)
Definition make_get_request (domain_name resource_url : option cstr) : M st (Z * Z) :=
  if empty domain_name || empty resource_url then ret (EMPTY_STR_ERR, 0)
  else
    domain_name <- lift (of_option NullDeref domain_name) ;;
    resource_url <- lift (of_option NullDeref resource_url) ;;
    let total_len := u64 (strlen domain_name + strlen resource_url + strlen PROTOCOL_STR
      + strlen CONN_TYPE_STR + strlen HOST_STR + strlen GET_METHOD_STR) in
    match malloc (u64 (total_len + 1)) with
    | None => ret (ALLOC_ERR, 0)
    | Some b =>
        b <- lift (strcpy b 0 GET_METHOD_STR) ;;
        b <- lift (strcats b [resource_url; PROTOCOL_STR; HOST_STR; domain_name; CONN_TYPE_STR]) ;;
        p <- new_obj (Bytes b) ;;
        ret (NO_ERR, p)
    end.

(** [garbage] is the uninitialised array of digits. *)
Definition make_content_len_str (garbage : block) (body_len : Z) : M st (Z * Z) :=
  let digits := snprintf (Z.to_nat MAX_DIGITS) (print_dec (i64 body_len)) in
  body_len_str <- lift (strcpy garbage 0 digits) ;;
  body_len_str <- lift (store body_len_str MAX_DIGITS 0) ;;
  let content_len_str_len := u64 (strlen CONTETN_LEN_STR + NEW_LINE_CHARS_CNT + MAX_DIGITS + 1) in
  match malloc (u64 (content_len_str_len + 1)) with
  | None => ret (ALLOC_ERR, 0)
  | Some b =>
      b <- lift (strcpy b 0 CONTETN_LEN_STR) ;;
      t <- lift (terminated body_len_str) ;;
      b <- lift (strcats b [t; NEW_LINE]) ;;
      p <- new_obj (Bytes b) ;;
      ret (NO_ERR, p)
  end.

Definition make_post_request (garbage : block) (domain_name resource_url body : option cstr)
  : M st (Z * Z) :=
  if empty domain_name || empty resource_url then ret (EMPTY_STR_ERR, 0)
  else
    domain_name <- lift (of_option NullDeref domain_name) ;;
    resource_url <- lift (of_option NullDeref resource_url) ;;
    body <- lift (of_option NullDeref body) ;;
    let body_len := strlen body in
    r <- make_content_len_str garbage body_len ;;
    if negb (r.1 =? 0) then ret (r.1, 0)
    else
      content_len_str <- str_at r.2 ;;
      let total_len := u64 (strlen domain_name + strlen resource_url + strlen PROTOCOL_STR
        + strlen HOST_STR + strlen POST_METHOD_STR + strlen CONTENT_TYPE_TEXT_STR
        + strlen content_len_str + body_len) in
      match malloc (u64 (total_len + 1)) with
      | None => ret (ALLOC_ERR, 0)
      | Some b =>
          b <- lift (strcpy b 0 POST_METHOD_STR) ;;
          b <- lift (strcats b [resource_url; PROTOCOL_STR; HOST_STR; domain_name;
                                CONTENT_TYPE_TEXT_STR; content_len_str; body]) ;;
          (if r.2 =? 0 then ret tt else free r.2) ;;
          p <- new_obj (Bytes b) ;;
          ret (NO_ERR, p)
      end.

(** ** The connection *)

(** One address of the answer of [getaddrinfo]: what [socket] returns for it,
    and whether [connect] succeeds. *)
Record addrinfo := mk_addr { socket : Z; connects : bool }.

(** The addresses of a name, if [getaddrinfo] finds it. *)
Definition get_ip_from_domain (resolved : option (list addrinfo)) : Z * list addrinfo :=
  match resolved with None => (1, []) | Some result => (NO_ERR, result) end.

(** The error code, the socket and the sockets that were closed. *)
Fixpoint try_connect (rp : list addrinfo) (sockfd : Z) : Z * Z * list Z :=
  match rp with
  | [] => (1, sockfd, [])
  | a :: rp =>
      if socket a =? -1 then try_connect rp (socket a)
      else if connects a then (NO_ERR, socket a, [])
      else let '(c, fd, closed) := try_connect rp (socket a) in (c, fd, socket a :: closed)
  end.

(** [send] is asked again with the whole message until it takes it at once;
    [sends] are its answers.  The error code and what was put on the wire. *)
Fixpoint send_loop (sends : list Z) (len : Z) (msg : cstr) (retries : Z) : outcome (Z * cstr) :=
  match sends with
  | [] => Fault NoFuel
  | bytes_sent :: sends =>
      let wire := take (Z.to_nat bytes_sent) msg in
      if u64 (i32 bytes_sent) =? len then Ok (NO_ERR, wire)
      else if CNT_RETRIES <=? retries then Ok (SOCK_ERR_WRITE, wire)
      else let? (c, w) := send_loop sends len msg (u64 (retries + 1)) in Ok (c, wire ++ w)
  end.

Definition send_request (sends : list Z) (msg : cstr) : outcome (Z * cstr) :=
  send_loop sends (strlen msg) msg 0.

(** What one call of [recv] does; when there are no more, the peer has closed. *)
Inductive received := Data (bs : list Z) | Again | Broken.

Fixpoint response_loop (recvs : list received) (buff : block) : M st Z :=
  match recvs with
  | [] | Data [] :: _ => ret NO_ERR
  | Data bs :: recvs =>
      b <- lift (memcpy buff bs 0 (Z.of_nat (length bs))) ;;
      t <- lift (terminated b) ;; puts t ;;
      response_loop recvs b
  | Again :: recvs => t <- lift (terminated buff) ;; puts t ;; response_loop recvs buff
  | Broken :: _ => t <- lift (terminated buff) ;; puts t ;; ret SOCK_ERR_READ
  end.

(** [buff] is the uninitialised array of [8 * BUF_SIZE] bytes. *)
Definition get_response (recvs : list received) (buff : block) : M st Z :=
  puts (bytes_of "response") ;; response_loop recvs buff.

(** ** main *)

(** What the environment decides: the answers of [getaddrinfo], [socket],
    [connect] and [recv], the uninitialised arrays. *)
Record net := mk_net {
  resolved : option (list addrinfo);
  recvs : list received;
  digits_garbage : block;
  buff_garbage : block
}.

Definition main_tail (n : net) (method_type : request_method_type) (argv3 : option cstr)
  (list domain_name resource_url : Z) (resource_text : cstr) : M st Z :=
  d <- str_at domain_name ;;
  puts d ;;
  puts resource_text ;;
  r <- match method_type with
       | GET => make_get_request (Some d) (Some resource_text)
       | POST => make_post_request (digits_garbage n) (Some d) (Some resource_text) argv3
       end ;;
  msg <- str_at r.2 ;;
  puts msg ;;
  if negb (r.1 =? 0) then ret 1
  else
    get_response (recvs n) (buff_garbage n) ;;
    (if resource_url =? 0 then fail Indeterminate else free resource_url) ;;
    free r.2 ;;
    free_list list ;;
    ret 0.

(** [main] from the parsed URL on.  A [resource_url] of 0 stands for the literal
    that [main] starts with, which [free] is not defined on. *)
Definition main_connect (n : net) (method_type : request_method_type) (argv3 : option cstr)
  (list : Z) : M st Z :=
  puts (bytes_of "test1") ;;
  _ <- check_protocol list ;;
  puts (bytes_of "test2") ;;
  r <- make_domain_name list ;;
  if negb (r.1 =? 0) then ret 1
  else
    puts (bytes_of "test3") ;;
    u <- make_resource_url list 3 10 ;;
    resource_text <- (if u.1 =? 0 then str_at u.2 else ret [32]) ;;
    puts (bytes_of "test4") ;;
    let (err, result) := get_ip_from_domain (resolved n) in
    if negb (err =? 0) then ret 1
    else
      puts (bytes_of "test5") ;;
      let '(err, _, _) := try_connect result 0 in
      if negb (err =? 0) then ret 1
      else
        puts (bytes_of "Success") ;;
        main_tail n method_type argv3 list r.2 u.2 resource_text.

(** The exit status. *)
Definition main (n : net) (argv : list cstr) : M st Z :=
  puts (bytes_of "test000000") ;;
  match argv !! 1%nat, argv !! 2%nat with
  | Some argv1, Some argv2 =>
      puts argv2 ;;
      let method_type := if strcmp argv1 (bytes_of "GET") =? 0 then GET else POST in
      (if (match method_type with POST => true | GET => false end)
          && bool_decide (argv !! 3%nat = None)
       then puts (bytes_of "POST_ARGS_ERR") else ret tt) ;;
      puts (bytes_of "test000") ;;
      puts (bytes_of "test0") ;;
      list <- parseURL 0 argv2 ;;
      main_connect n method_type (argv !! 3%nat) list
  | _, _ => emit (bytes_of "NO_ARGS_ERR") ;; ret NO_ARGS_ERR
  end.

(** ** Proofs: strings in blocks *)

Lemma terminated_app t pad : is_cstr t -> terminated (t ++ 0 :: pad) = Ok t.
Proof.
  intros Ht. unfold terminated. rewrite decide_True by set_solver. by rewrite c_str_app.
Qed.

Lemma strcpy_start b s :
  (length s < length b)%nat -> strcpy b 0 s = Ok (s ++ 0 :: drop (S (length s)) b).
Proof.
  intros Hl. unfold strcpy, strlen. simpl.
  rewrite (proj2 (Z.ltb_ge _ _)) by lia. do 4 f_equal. lia.
Qed.

Lemma strcat_ok t pad s :
  is_cstr t -> (length s <= length pad)%nat ->
  strcat (t ++ 0 :: pad) s = Ok ((t ++ s) ++ 0 :: drop (length s) pad).
Proof.
  intros Ht Hl. unfold strcat. rewrite terminated_app by done. simpl. unfold strcpy, strlen.
  rewrite length_app. simpl. rewrite (proj2 (Z.ltb_ge (Z.of_nat (length t)) 0)) by lia.
  rewrite (proj2 (Z.ltb_ge _ _)) by lia. simpl. f_equal.
  rewrite Nat2Z.id, take_app_length, <- app_assoc. do 3 f_equal.
  replace (Z.to_nat _) with (length t + S (length s))%nat by lia.
  by rewrite <- drop_drop, drop_app_length.
Qed.

Lemma strcats_ok ss t pad :
  is_cstr t -> Forall is_cstr ss -> (length (concat ss) <= length pad)%nat ->
  strcats (t ++ 0 :: pad) ss =
  Ok ((t ++ concat ss) ++ 0 :: drop (length (concat ss)) pad).
Proof.
  intros Ht Hss. revert t pad Ht. induction Hss as [|s ss Hs Hss IH]; simpl; intros t pad Ht Hl.
  { by rewrite app_nil_r. }
  rewrite length_app in *. rewrite strcat_ok by (done || lia). simpl.
  rewrite IH; [|by apply Forall_app|rewrite length_drop; lia].
  by rewrite <- !app_assoc, drop_drop.
Qed.

(** [strcpy] and [strcat]s together, into a block that has room. *)
Lemma fill_ok b s ss :
  is_cstr s -> Forall is_cstr ss -> (length (s ++ concat ss) < length b)%nat ->
  (let? b := strcpy b 0 s in strcats b ss) =
  Ok ((s ++ concat ss) ++ 0 :: drop (S (length (s ++ concat ss))) b).
Proof.
  intros Hs Hss. rewrite length_app. intros Hl. rewrite strcpy_start by lia. simpl.
  rewrite strcats_ok by (done || (rewrite length_drop; lia)). by rewrite drop_drop.
Qed.

Lemma lift_lift {A B C} (o : outcome A) (f : A -> outcome B) (k : B -> M st C) s :
  bind (lift o) (fun a => bind (lift (f a)) k) s = bind (lift (obind o f)) k s.
Proof. by destruct o. Qed.

(** ** Proofs: the text of a request *)

Definition get_text (domain_name resource_url : cstr) : cstr :=
  GET_METHOD_STR ++
  concat [resource_url; PROTOCOL_STR; HOST_STR; domain_name; CONN_TYPE_STR].

Definition length_text (body_len : Z) : cstr :=
  CONTETN_LEN_STR ++ concat [print_dec body_len; NEW_LINE].

Definition post_text (domain_name resource_url body : cstr) : cstr :=
  POST_METHOD_STR ++
  concat [resource_url; PROTOCOL_STR; HOST_STR; domain_name; CONTENT_TYPE_TEXT_STR;
          length_text (strlen body); body].

(** The allocator gives at least the bytes it was asked for. *)
Definition allocates (malloc : Z -> option (list Z)) : Prop :=
  forall n b, malloc n = Some b -> n <= Z.of_nat (length b).

(** A new string with text [t] in a block [b]. *)
Definition with_string (t : cstr) (b : block) (s : st) : st :=
  mk_st (<[top s := Bytes (t ++ 0 :: drop (S (length t)) b)]> (heap s)) (top s + 1) (out s).

Lemma new_string_ok (b : block) (t : cstr) (ts : list cstr) (s : st) (c : Z) :
  is_cstr t -> Forall is_cstr ts -> strlen (t ++ concat ts) < Z.of_nat (length b) ->
  (b <- lift (strcpy b 0 t) ;; b <- lift (strcats b ts) ;; p <- new_obj (Bytes b) ;; ret (c, p)) s =
  Ok ((c, top s), with_string (t ++ concat ts) b s).
Proof.
  unfold strlen. intros Ht Hts Hl. rewrite lift_lift, fill_ok by (done || lia). done.
Qed.

Ltac literal := apply (bool_decide_unpack _); by vm_compute.

Lemma is_cstr_print n : 0 <= n < 10 ^ 19 -> is_cstr (print_dec n) /\ (length (print_dec n) <= 19)%nat.
Proof.
  intros Hn. unfold print_dec. rewrite (proj2 (Z.ltb_ge _ _)) by lia.
  assert (H : forall fuel k z acc, 0 <= z < 10 ^ Z.of_nat k -> is_cstr acc -> (k <= fuel)%nat ->
    (1 <= k)%nat ->
    is_cstr (dec_digits fuel z acc) /\ (length (dec_digits fuel z acc) <= k + length acc)%nat).
  { clear n Hn. induction fuel as [|fuel IH]; intros k z acc Hz Ha Hk H1; [lia|]. simpl.
    assert (Hc : is_cstr ((48 + z mod 10) :: acc)).
    { apply Forall_cons. split; [|done]. pose proof (Z.mod_pos_bound z 10). lia. }
    destruct (Z.ltb_spec z 10); [split; [done|simpl; lia]|].
    destruct k as [|[|k]]; [lia|simpl in Hz; lia|].
    destruct (IH (S k) (z / 10) ((48 + z mod 10) :: acc)) as [Hc' Hl]; [|done|lia..|].
    - rewrite Nat2Z.inj_succ, Z.pow_succ_r in Hz by lia.
      split; [apply Z.div_pos; lia|apply Z.div_lt_upper_bound; lia].
    - split; [done|]. simpl in Hl. lia. }
  apply (H 20%nat 19%nat n []); [done|constructor|lia..].
Qed.

Lemma make_get_request_ok d r s :
  allocates malloc -> is_cstr d -> is_cstr r -> strlen (get_text d r) + 1 < 2 ^ 64 ->
  make_get_request (Some d) (Some r) s =
  match malloc (strlen (get_text d r) + 1) with
  | None => Ok ((ALLOC_ERR, 0), s)
  | Some b => Ok ((NO_ERR, top s), with_string (get_text d r) b s)
  end.
Proof.
  intros Hm Hd Hr Hl. unfold make_get_request, empty. simpl (_ || _). cbn iota.
  autorewrite with c_monad. simpl of_option. autorewrite with c_monad. cbv zeta.
  assert (E : strlen d + strlen r + strlen PROTOCOL_STR + strlen CONN_TYPE_STR
    + strlen HOST_STR + strlen GET_METHOD_STR = strlen (get_text d r)).
  { unfold get_text, strlen. cbn [concat]. rewrite !length_app. cbn [length]. lia. }
  rewrite E, (u64_small (strlen (get_text d r))), u64_small by (unfold strlen in *; lia).
  destruct (malloc (strlen (get_text d r) + 1)) as [b|] eqn:Hb; [|done].
  apply Hm in Hb. apply new_string_ok; [literal|rewrite !Forall_cons, Forall_nil; split_and!; [done|literal|literal|done|literal|done]|].
  fold (get_text d r). lia.
Qed.

(** A NUL written behind the end of a string leaves the string. *)
Lemma store_nul_behind t pad i :
  (length t <= i < length t + S (length pad))%nat ->
  exists pad', store (t ++ 0 :: pad) (Z.of_nat i) 0 = Ok (t ++ 0 :: pad') /\
    length pad' = length pad.
Proof.
  intros Hi. rewrite store_nat by (rewrite length_app; simpl; lia).
  rewrite insert_app_r_alt by lia. destruct (i - length t)%nat as [|j] eqn:E; simpl.
  - by exists pad.
  - exists (<[j := 0]> pad). by rewrite length_insert.
Qed.

Lemma make_content_len_str_ok garbage n s :
  allocates malloc -> length garbage = 21%nat -> 0 <= n < 2 ^ 63 ->
  make_content_len_str garbage n s =
  match malloc 46 with
  | None => Ok ((ALLOC_ERR, 0), s)
  | Some b => Ok ((NO_ERR, top s), with_string (length_text n) b s)
  end.
Proof.
  intros Hm Hg Hn. destruct (is_cstr_print n) as [Hc Hl]; [lia|].
  unfold make_content_len_str. rewrite i64_small by lia.
  rewrite (snprintf_short (Z.to_nat MAX_DIGITS)) by (unfold MAX_DIGITS; simpl; lia).
  rewrite strcpy_start by (rewrite Hg; lia). autorewrite with c_monad.
  destruct (store_nul_behind (print_dec n) (drop (S (length (print_dec n))) garbage) 20)
    as (pad & Hs & _); [rewrite length_drop; lia|].
  change (Z.of_nat 20) with MAX_DIGITS in Hs. rewrite Hs. autorewrite with c_monad.
  change (u64 (u64 _ + 1)) with 46. destruct (malloc 46) as [b|] eqn:Hb; [|done].
  apply Hm in Hb. rewrite terminated_app by done.
  transitivity ((b <- lift (strcpy b 0 CONTETN_LEN_STR) ;; b <- lift (strcats b [print_dec n; NEW_LINE]) ;;
    p <- new_obj (Bytes b) ;; ret (NO_ERR, p)) s).
  { apply bind_ext. intros b' s'. by autorewrite with c_monad. }
  apply new_string_ok;
    [literal|rewrite !Forall_cons, Forall_nil; split_and!; [done|literal|done]|].
  cbn [concat]. unfold strlen. rewrite !length_app. simpl length. lia.
Qed.

Lemma is_cstr_app a b : is_cstr (a ++ b) <-> is_cstr a /\ is_cstr b.
Proof. apply Forall_app. Qed.

Lemma is_cstr_length_text n : 0 <= n < 2 ^ 63 -> is_cstr (length_text n).
Proof.
  intros Hn. unfold length_text. cbn [concat]. rewrite !is_cstr_app.
  split_and!; [literal|apply is_cstr_print; lia|literal..].
Qed.

(** Addresses from [top] on are free. *)
Definition wf (s : st) : Prop := 0 < top s /\ forall p, top s <= p -> heap s !! p = None.

Lemma with_string_at t b s :
  0 < top s -> is_cstr t -> str_at (top s) (with_string t b s) = Ok (t, with_string t b s).
Proof.
  intros Ht Hc. unfold str_at, bind, obj_at. rewrite (proj2 (Z.eqb_neq _ _)) by lia.
  simpl. rewrite lookup_insert_eq. rewrite terminated_app by done. done.
Qed.

(** The string with the length is released once it is copied. *)
Lemma make_post_request_ok garbage d r body s :
  allocates malloc -> length garbage = 21%nat -> wf s ->
  is_cstr d -> is_cstr r -> is_cstr body -> strlen body < 2 ^ 63 ->
  strlen (post_text d r body) + 1 < 2 ^ 64 ->
  make_post_request garbage (Some d) (Some r) (Some body) s =
  match malloc 46, malloc (strlen (post_text d r body) + 1) with
  | None, _ => Ok ((ALLOC_ERR, 0), s)
  | Some b, None => Ok ((ALLOC_ERR, 0), with_string (length_text (strlen body)) b s)
  | Some _, Some b => Ok ((NO_ERR, top s + 1),
      with_string (post_text d r body) b (mk_st (heap s) (top s + 1) (out s)))
  end.
Proof.
  intros Hm Hg [Ht Hfree] Hd Hr Hb Hbl Hl. unfold make_post_request, empty.
  simpl (_ || _). cbn iota. simpl of_option. autorewrite with c_monad. cbv zeta.
  assert (Hsb : 0 <= strlen body) by (unfold strlen; lia).
  pose proof (make_content_len_str_ok garbage (strlen body) s Hm Hg (conj Hsb Hbl)) as Hc.
  destruct (malloc 46) as [b1|] eqn:Hb1; run Hc; [|done]. cbn [fst snd].
  change (negb (NO_ERR =? 0)) with false. cbn iota.
  run (with_string_at _ b1 s Ht (is_cstr_length_text (strlen body) (conj Hsb Hbl))).
  assert (E : strlen d + strlen r + strlen PROTOCOL_STR + strlen HOST_STR + strlen POST_METHOD_STR
    + strlen CONTENT_TYPE_TEXT_STR + strlen (length_text (strlen body)) + strlen body
    = strlen (post_text d r body)).
  { unfold post_text, strlen. cbn [concat]. rewrite !length_app. cbn [length]. lia. }
  rewrite E, (u64_small (strlen (post_text d r body))), u64_small by (unfold strlen in *; lia).
  destruct (malloc (strlen (post_text d r body) + 1)) as [b|] eqn:Hb2; [|done].
  apply Hm in Hb2. rewrite lift_lift, fill_ok.
  - fold (post_text d r body). autorewrite with c_monad.
    rewrite (proj2 (Z.eqb_neq (top s) 0)) by lia. unfold free.
    rewrite (proj2 (Z.eqb_neq (top s) 0)) by lia. unfold bind, obj_at.
    rewrite (proj2 (Z.eqb_neq (top s) 0)) by lia. simpl heap. rewrite lookup_insert_eq.
    unfold with_string, new_obj, modify, ret. cbn [heap top out].
    rewrite delete_insert_id; [done|]. by apply Hfree.
  - literal.
  - rewrite !Forall_cons, Forall_nil.
    split_and!; [done|literal|literal|done|literal| |done|done]. by apply is_cstr_length_text.
  - fold (post_text d r body). unfold strlen in Hb2. lia.
Qed.

(** ** Proofs: the network *)

Definition usable (a : addrinfo) : bool := negb (socket a =? -1) && connects a.
Definition opened (l : list addrinfo) : list Z := filter (fun fd => fd <> -1) (socket <$> l).

Lemma try_connect_first pre a post fd :
  Forall (fun b => usable b = false) pre -> usable a = true ->
  try_connect (pre ++ a :: post) fd = (NO_ERR, socket a, opened pre).
Proof.
  intros Hpre Ha. revert fd. unfold opened. induction Hpre as [|b pre Hb Hpre IH]; intros fd; simpl.
  - apply andb_true_iff in Ha as [Ha ->]. apply negb_true_iff in Ha. by rewrite Ha.
  - rewrite IH, filter_cons. unfold usable in Hb.
    destruct (Z.eqb_spec (socket b) (-1)) as [E|E]; simpl in Hb.
    + by rewrite decide_False by (intros []; done).
    + by rewrite Hb, decide_True.
Qed.

Lemma try_connect_none l fd :
  Forall (fun b => usable b = false) l ->
  exists fd', try_connect l fd = (1, fd', opened l).
Proof.
  intros Hl. revert fd. unfold opened. induction Hl as [|b l Hb Hl IH]; intros fd; simpl.
  - by eexists.
  - rewrite filter_cons. unfold usable in Hb.
    destruct (IH (socket b)) as [fd' ->], (Z.eqb_spec (socket b) (-1)) as [E|E]; simpl in Hb.
    + rewrite decide_False by (intros []; done). by eexists.
    + rewrite Hb, decide_True by done. by eexists.
Qed.

(** The elements up to and with the first that is [x]. *)
Fixpoint until (x : Z) (l : list Z) : list Z :=
  match l with
  | [] => []
  | y :: l => y :: if y =? x then [] else until x l
  end.

Lemma send_loop_ok sends msg retries :
  strlen msg < 2 ^ 31 -> 0 <= retries <= CNT_RETRIES ->
  (CNT_RETRIES - retries < Z.of_nat (length sends)) ->
  Forall (fun r => -1 <= r <= strlen msg) sends ->
  let tried := until (strlen msg) (take (Z.to_nat (CNT_RETRIES - retries + 1)) sends) in
  send_loop sends (strlen msg) msg retries =
  Ok (if decide (last tried = Some (strlen msg)) then NO_ERR else SOCK_ERR_WRITE,
      concat ((fun r => take (Z.to_nat r) msg) <$> tried)).
Proof.
  unfold CNT_RETRIES. intros Hm Hr Hl Hs. revert retries Hr Hl.
  induction Hs as [|r sends Hr' Hs IH]; simpl; intros k Hk Hl; [lia|].
  replace (Z.to_nat (5 - k + 1)) with (S (Z.to_nat (5 - k))) by lia. simpl.
  assert (E : (u64 (i32 r) =? strlen msg) = (r =? strlen msg)).
  { rewrite i32_small by (unfold strlen in *; lia).
    destruct (decide (r = -1)) as [->|]; [|rewrite u64_small by (unfold strlen in *; lia); done].
    change (u64 (-1)) with (2 ^ 64 - 1). unfold strlen in *.
    destruct (Z.eqb_spec (2 ^ 64 - 1) (Z.of_nat (length msg))), (Z.eqb_spec (-1) (Z.of_nat (length msg)));
      lia || done. }
  rewrite E. change CNT_RETRIES with 5. destruct (Z.eqb_spec r (strlen msg)) as [->|Hne].
  { rewrite decide_True by done. by rewrite app_nil_r. }
  destruct (Z.leb_spec 5 k).
  { replace (Z.to_nat (5 - k)) with 0%nat by lia. rewrite take_0. simpl.
    rewrite decide_False by (intros [= ?]; done). by rewrite app_nil_r. }
  rewrite u64_small, IH by lia. simpl.
  replace (Z.to_nat (5 - (k + 1) + 1)) with (Z.to_nat (5 - k)) by lia.
  destruct (until _ _) as [|y l] eqn:Eu; [|done].
  destruct sends as [|z sends]; [simpl in *; lia|].
  replace (Z.to_nat (5 - k)) with (S (Z.to_nat (5 - k - 1))) in Eu by lia. done.
Qed.

(** ** Proofs: the list *)

(** A node: its address, the address of its string, the string, the index. *)
Record tok := mk_tok { ta : Z; tsp : Z; text : cstr; ti : Z }.

Definition head_addr (l : list tok) : Z := match l with [] => 0 | k :: _ => ta k end.

Definition node_in (h : gmap Z obj) (k : tok) (nx : Z) : Prop :=
  0 < ta k /\ 0 < tsp k /\ is_cstr (text k) /\
  (exists rest, h !! ta k = Some (Words (tsp k :: nx :: ti k :: rest))) /\
  (exists pad, h !! tsp k = Some (Bytes (text k ++ 0 :: pad))).

Fixpoint chain (h : gmap Z obj) (l : list tok) : Prop :=
  match l with
  | [] => True
  | k :: l => node_in h k (head_addr l) /\ chain h l
  end.

Lemma chain_app h l1 k l2 :
  chain h (l1 ++ k :: l2) -> node_in h k (head_addr l2) /\ chain h (k :: l2).
Proof. induction l1 as [|j l1 IH]; simpl; [by intros []|]. intros [_ H]. by apply IH. Qed.

Lemma chain_mono h h' l :
  (forall k, k ∈ l -> h' !! ta k = h !! ta k /\ h' !! tsp k = h !! tsp k) ->
  chain h l -> chain h' l.
Proof.
  induction l as [|k l IH]; simpl; [done|]. intros Hh [Hk Hl]. split.
  - destruct Hk as (? & ? & ? & ? & ?), (Hh k) as [E1 E2]; [set_solver|].
    unfold node_in. by rewrite E1, E2.
  - apply IH; [|done]. intros j Hj. apply Hh. set_solver.
Qed.

Lemma chain_in h l k : chain h l -> k ∈ l -> exists nx, node_in h k nx.
Proof. intros Hc (l1 & l2 & ->)%list_elem_of_split. apply chain_app in Hc as [H _]. by eexists. Qed.

Lemma chain_fuel h l : chain h l -> NoDup (ta <$> l) -> (length l < S (size h))%nat.
Proof.
  intros Hc Hn. rewrite <- (length_fmap ta), <- size_dom, <- (size_list_to_set (C := gset Z)) by done.
  assert (H : (list_to_set (ta <$> l) : gset Z) ⊆ dom h); [|apply subseteq_size in H; lia].
  intros a (k & -> & Hk)%elem_of_list_to_set%list_elem_of_fmap.
  destruct (chain_in h l k Hc Hk) as (nx & _ & _ & _ & (r & Hr) & _).
  by apply elem_of_dom_2 in Hr.
Qed.

(** The fields of a node in a list. *)
Lemma node_fields h k nx s :
  node_in h k nx -> heap s = h ->
  str_val (ta k) s = Ok (tsp k, s) /\ next (ta k) s = Ok (nx, s) /\
  index (ta k) s = Ok (ti k, s) /\ str_at (tsp k) s = Ok (text k, s) /\
  (ta k =? 0) = false.
Proof.
  intros (Ha & Hs & Hc & (r & Hr) & (pad & Hp)) <-.
  unfold str_val, next, index, word_at, str_at, bind, obj_at. cbn beta.
  rewrite !(proj2 (Z.eqb_neq _ 0)), Hr, Hp by lia. by rewrite terminated_app.
Qed.

(** What a walk over the list reads is this. *)
Ltac node_step H s := destruct (node_fields _ _ _ s H eq_refl) as (Hsv & Hnx & Hix & Hst & Hnz).

Lemma last_node_ok l k s fuel :
  chain (heap s) (l ++ [k]) -> (length l < fuel)%nat ->
  last_node fuel (head_addr (l ++ [k])) s = Ok (ta k, s).
Proof.
  revert fuel. induction l as [|j l IH]; intros [|fuel] Hc Hf; try (simpl in Hf; lia); simpl.
  - destruct Hc as [Hk _]. node_step Hk s. by run Hnx.
  - destruct Hc as [Hj Hc]. node_step Hj s. run Hnx.
    assert (Hne : (head_addr (l ++ [k]) =? 0) = false).
    { apply Z.eqb_neq. destruct l as [|j' l]; destruct Hc as [[??] _]; simpl; lia. }
    simpl in Hne |- *. rewrite Hne. apply IH; [done|simpl in Hf; lia].
Qed.

(** Indices that count from [g]. *)
Definition counted (g : Z) (l : list tok) : Prop :=
  forall i k, l !! i = Some k -> ti k = g + Z.of_nat i.

Lemma get_node_ok g l s i :
  chain (heap s) l -> NoDup (ta <$> l) -> counted g l -> g <= i ->
  get_node (head_addr l) i s = Ok (head_addr (drop (Z.to_nat (i - g)) l), s).
Proof.
  intros Hc Hn. unfold get_node, bind, gets. pose proof (chain_fuel _ _ Hc Hn) as Hf.
  revert Hf. generalize (S (size (heap s))) as fuel. clear Hn. intros fuel. revert g fuel.
  induction l as [|k l IH]; intros g fuel Hf Hg Hi; simpl.
  { destruct fuel; by rewrite drop_nil. }
  destruct Hc as [Hk Hc]. node_step Hk s. destruct fuel as [|fuel]; [simpl in Hf; lia|].
  simpl. rewrite Hnz. run Hix. pose proof (Hg 0%nat k eq_refl) as H0.
  destruct (Z.eqb_spec (ti k) i) as [E|E].
  - replace (Z.to_nat (i - g)) with 0%nat by lia. done.
  - run Hnx. rewrite (IH Hc (g + 1)); [|simpl in Hf; lia| |lia].
    + replace (Z.to_nat (i - g)) with (S (Z.to_nat (i - (g + 1)))) by lia. done.
    + intros j k' Hj. rewrite (Hg (S j) k' Hj). lia.
Qed.

Definition upd (s : st) (p : Z) (o : obj) : st := mk_st (<[p := o]> (heap s)) (top s) (out s).

Lemma set_word_ok s p i v w :
  0 < p -> heap s !! p = Some (Words w) -> 0 <= i < Z.of_nat (length w) ->
  set_word p i v s = Ok (tt, upd s p (Words (<[Z.to_nat i := v]> w))).
Proof.
  intros Hp Hw Hi. unfold set_word, bind, obj_at. rewrite (proj2 (Z.eqb_neq p 0)), Hw by lia.
  by rewrite store_z by lia.
Qed.

(** The allocator has memory for every request below [2 ^ 62], and hands out
    [slack] bytes more than it is asked for. *)
Definition plenty (slack : Z) (malloc : Z -> option (list Z)) : Prop :=
  forall n, 0 <= n < 2 ^ 62 ->
    exists b, malloc n = Some b /\ n + slack <= Z.of_nat (length b) < 2 ^ 63.

(** The addresses a list uses. *)
Definition addrs (l : list tok) : list Z := concat ((fun k => [ta k; tsp k]) <$> l).

Lemma addrs_app l1 l2 : addrs (l1 ++ l2) = addrs l1 ++ addrs l2.
Proof. unfold addrs. by rewrite fmap_app, concat_app. Qed.

Lemma addrs_in l a : a ∈ addrs l <-> exists k, k ∈ l /\ (a = ta k \/ a = tsp k).
Proof.
  unfold addrs. induction l as [|k l IH]; cbn [fmap list_fmap concat].
  - set_solver.
  - rewrite elem_of_app, IH. set_solver.
Qed.

Lemma addrs_ta l : NoDup (addrs l) -> NoDup (ta <$> l).
Proof.
  unfold addrs. induction l as [|k l IH]; cbn [fmap list_fmap concat]; [constructor|].
  intros (H1 & H2 & H)%NoDup_app. constructor; [|by apply IH].
  intros (j & Ej & Hj)%list_elem_of_fmap. apply (H2 (ta k)); [set_solver|].
  apply addrs_in. exists j. auto.
Qed.

Lemma addrs_allocated s l a : wf s -> chain (heap s) l -> a ∈ addrs l -> 0 < a < top s.
Proof.
  intros [_ Hw] Hch (k & Hk & Ha)%addrs_in.
  destruct (chain_in _ _ _ Hch Hk) as (nx & H1 & H2 & _ & (r & Hr) & (p & Hp)).
  destruct (decide (top s <= a)) as [Hle|]; [|destruct Ha; subst; lia].
  specialize (Hw a Hle). destruct Ha; subst; congruence.
Qed.

(** Everything but the two new objects and the last node is as before. *)
Lemma chain_extend h h' l k nw pad :
  chain h (l ++ [k]) -> NoDup (addrs (l ++ [k])) ->
  ta nw ∉ addrs (l ++ [k]) -> tsp nw ∉ addrs (l ++ [k]) ->
  0 < ta nw -> 0 < tsp nw -> is_cstr (text nw) ->
  (forall p, p ∈ addrs (l ++ [k]) -> p <> ta k -> h' !! p = h !! p) ->
  (exists rest, h' !! ta k = Some (Words (tsp k :: ta nw :: ti k :: rest))) ->
  (exists rest, h' !! ta nw = Some (Words (tsp nw :: 0 :: ti nw :: rest))) ->
  h' !! tsp nw = Some (Bytes (text nw ++ 0 :: pad)) ->
  chain h' (l ++ [k; nw]).
Proof.
  intros Hch Hn H1 H2 H3 H4 H5 Hsame Hk Hnw Hp.
  assert (Hl : forall j, j ∈ l -> h' !! ta j = h !! ta j /\ h' !! tsp j = h !! tsp j).
  { intros j Hj. rewrite addrs_app in Hn, Hsame. apply NoDup_app in Hn as (_ & Hn & _).
    assert (Hj1 : ta j ∈ addrs l) by (apply addrs_in; eauto).
    assert (Hj2 : tsp j ∈ addrs l) by (apply addrs_in; eauto).
    assert (Hne : forall a, a ∈ addrs l -> a <> ta k).
    { intros a Ha ->. apply (Hn _ Ha). cbn. set_solver. }
    split; apply Hsame; try (by apply Hne); apply elem_of_app; by left. }
  destruct (chain_app h l k [] Hch) as [(K1 & K2 & K3 & _ & (pk & Kp)) _].
  assert (Hkp : h' !! tsp k = h !! tsp k).
  { apply Hsame; [rewrite addrs_app; cbn; set_solver|]. intros E.
    rewrite addrs_app in Hn. apply NoDup_app in Hn as (_ & _ & Hn). cbn in Hn.
    rewrite E in Hn. apply NoDup_cons in Hn. set_solver. }
  clear Hn Hsame H1 H2. revert Hch Hl. induction l as [|j l IH]; simpl; intros Hch Hl.
  - split; [|split; [|done]].
    + unfold node_in. rewrite Hkp, Kp. split_and!; eauto.
    + unfold node_in. split_and!; eauto.
  - destruct Hch as [Hj Hch]. split; [|apply IH; [done|]; intros; apply Hl; set_solver].
    destruct (Hl j) as [E1 E2]; [set_solver|]. unfold node_in in *. rewrite E1, E2.
    replace (head_addr (l ++ [k; nw])) with (head_addr (l ++ [k])) by (by destruct l). done.
Qed.

Section roomy.
Context (slack w0 w1 g c : Z) (wr : list Z).
Hypothesis Hslack : 0 <= slack.
Hypothesis Hmalloc : plenty slack malloc.
Hypothesis Halloc : allocates malloc.
(** The 8 bytes asked for a node come with at least 16 more. *)
Hypothesis Hnode : malloc_node 8 = Some (w0 :: w1 :: g :: wr).
Hypothesis Hret : no_return = Ok c.
Hypothesis Hc : c <> 0.
Hypothesis Hg : 0 <= g.

Lemma cpy_str_ok t s :
  strlen t + 1 < 2 ^ 62 ->
  exists pad, cpy_str (Some t) s =
    Ok ((0, top s), mk_st (<[top s := Bytes (t ++ 0 :: pad)]> (heap s)) (top s + 1) (out s)).
Proof.
  intros Hl. unfold cpy_str. rewrite u64_small by (unfold strlen in *; lia).
  destruct (Hmalloc (strlen t + 1)) as (b & -> & Hb); [unfold strlen in *; lia|].
  pose proof (memcpy_mid b [] (t ++ [0]) []) as Hcpy. rewrite !app_nil_l, app_nil_r in Hcpy.
  unfold strlen. rewrite length_app in Hcpy. simpl length in Hcpy.
  replace (Z.of_nat (length t) + 1) with (Z.of_nat (length t + 1)) by lia.
  change (Z.of_nat 0) with 0 in Hcpy.
  rewrite Hcpy by (unfold strlen in Hb; lia). exists (drop (length t + 1) b).
  rewrite bind_lift, <- app_assoc. done.
Qed.

Lemma make_node_ok t s :
  0 < top s -> strlen t + 1 < 2 ^ 62 ->
  exists pad, make_node t s = Ok ((c, top s),
    mk_st (<[top s := Words (top s + 1 :: 0 :: g :: wr)]>
            (<[top s + 1 := Bytes (t ++ 0 :: pad)]> (heap s))) (top s + 2) (out s)).
Proof.
  intros Ht Hl. unfold make_node. rewrite Hnode. unfold new_obj at 1.
  set (s1 := mk_st (<[top s := Words (w0 :: w1 :: g :: wr)]> (heap s)) (top s + 1) (out s)).
  destruct (cpy_str_ok t s1 Hl) as [pad Hcpy]. exists pad. unfold bind at 1. fold s1.
  run Hcpy. simpl. set (s2 := mk_st _ _ _).
  assert (E2 : heap s2 !! top s = Some (Words (w0 :: w1 :: g :: wr))).
  { simpl. rewrite lookup_insert_ne by lia. by rewrite lookup_insert_eq. }
  run (set_word_ok s2 (top s) 0 (top s + 1) _ Ht E2 ltac:(simpl; lia)). simpl.
  set (s3 := upd _ _ _).
  assert (E3 : heap s3 !! top s = Some (Words (top s + 1 :: w1 :: g :: wr)))
    by (simpl; by rewrite lookup_insert_eq).
  run (set_word_ok s3 (top s) 1 0 _ Ht E3 ltac:(simpl; lia)). simpl.
  rewrite Hret, bind_lift. unfold ret, upd. simpl.
  rewrite insert_insert_eq, (insert_insert_ne _ (top s + 1) (top s)) by lia.
  rewrite insert_insert_eq, insert_insert_ne by lia. do 3 f_equal. lia.
Qed.

(** The heap holds the list and nothing else. *)
Record holds (s : st) (l : list tok) : Prop := {
  holds_wf : wf s;
  holds_chain : chain (heap s) l;
  holds_nodup : NoDup (addrs l);
  holds_counted : counted g l;
  holds_only : forall p, is_Some (heap s !! p) -> p ∈ addrs l
}.

Lemma holds_new s l t pad h' :
  holds s l -> is_cstr t ->
  let nw := mk_tok (top s) (top s + 1) t (g + Z.of_nat (length l)) in
  chain h' (l ++ [nw]) ->
  (forall p, is_Some (h' !! p) -> is_Some (heap s !! p) \/ p = top s \/ p = top s + 1) ->
  h' !! (top s + 1) = Some (Bytes (t ++ 0 :: pad)) ->
  holds (mk_st h' (top s + 2) (out s)) (l ++ [nw]).
Proof.
  intros [[Ht Hw] Hch Hn Hcnt Ho] Hcs nw Hch' Hdom Hp. split; simpl.
  - split; simpl; [lia|]. intros p Hle. apply eq_None_not_Some.
    intros [?|[?|?]]%Hdom; [|lia..]. specialize (Hw p). rewrite Hw in H by lia. by destruct H.
  - done.
  - rewrite addrs_app. apply NoDup_app. split; [done|]. split.
    + intros a Ha. apply (addrs_allocated s l a) in Ha; [|by split|done]. cbn. set_unfold. lia.
    + cbn. repeat constructor; set_unfold; lia.
  - intros i k [Hi|[Hi Hk]]%lookup_app_Some; [by apply Hcnt|].
    destruct (i - length l)%nat as [|?] eqn:E; [|done]. simpl in Hk. simplify_eq. simpl. lia.
  - intros p Hs. rewrite addrs_app, elem_of_app. destruct (Hdom p Hs) as [?|[->| ->]].
    + left. by apply Ho.
    + right. cbn. set_solver.
    + right. cbn. set_solver.
Qed.

(** The end of [add]: the node at [a] is linked behind the last one. *)
Lemma link_last_ok l k a sp r s :
  chain (heap s) (l ++ [k]) -> NoDup (ta <$> (l ++ [k])) -> 0 < a -> a <> ta k ->
  heap s !! a = Some (Words (sp :: 0 :: g :: r)) ->
  exists kr,
    (fuel <- gets (fun s => S (size (heap s))) ;;
     cur <- last_node fuel (head_addr (l ++ [k])) ;;
     set_word cur 1 a ;;
     i <- index cur ;;
     set_word a 2 (u64 (i + 1)) ;;
     c <- lift no_return ;;
     ret (c, head_addr (l ++ [k]))) s =
    Ok ((c, head_addr (l ++ [k])),
      upd (upd s (ta k) (Words (tsp k :: a :: ti k :: kr))) a (Words (sp :: 0 :: u64 (ti k + 1) :: r))).
Proof.
  intros Hch Hn Ha Hne Hw. destruct (chain_app _ l k [] Hch) as [Hk _]. node_step Hk s.
  destruct Hk as (K1 & K2 & K3 & (kr & K4) & K5). exists kr.
  unfold gets at 1. unfold bind at 1.
  run (last_node_ok l k s (S (size (heap s))) Hch
    ltac:(pose proof (chain_fuel _ _ Hch Hn) as H; rewrite length_app in H; simpl in H; lia)).
  run (set_word_ok s (ta k) 1 a _ K1 K4 ltac:(simpl; lia)). simpl (<[_ := _]> (_ :: _)).
  set (s2 := upd _ _ _).
  assert (E2 : index (ta k) s2 = Ok (ti k, s2)).
  { unfold index, word_at, bind, obj_at. rewrite (proj2 (Z.eqb_neq _ 0)) by lia.
    unfold s2; simpl. by rewrite lookup_insert_eq. }
  run E2.
  assert (E3 : heap s2 !! a = Some (Words (sp :: 0 :: g :: r))).
  { unfold s2; simpl. by rewrite lookup_insert_ne. }
  run (set_word_ok s2 a 2 (u64 (ti k + 1)) _ Ha E3 ltac:(simpl; lia)).
  rewrite Hret, bind_lift. done.
Qed.

Lemma add_ok l t s :
  holds s l -> is_cstr t -> strlen t + 1 < 2 ^ 62 -> g + Z.of_nat (length l) < 2 ^ 64 ->
  let l' := l ++ [mk_tok (top s) (top s + 1) t (g + Z.of_nat (length l))] in
  exists r s', add (head_addr l) t s = Ok ((r, head_addr l'), s') /\
    holds s' l' /\ out s' = out s.
Proof.
  intros Hh Hcs Hl Hlen. cbv zeta. pose proof (holds_wf _ _ Hh) as [Ht Hw].
  destruct (make_node_ok t s Ht Hl) as [pad Hmk]. unfold add. run Hmk. cbn [fst snd].
  rewrite (proj2 (Z.eqb_neq c 0)) by done.
  set (h1 := <[top s := _]> _). set (s1 := mk_st h1 _ _).
  assert (Hsame : forall p, p < top s -> h1 !! p = heap s !! p).
  { intros p H1. unfold h1. by rewrite !lookup_insert_ne by lia. }
  assert (Hnew : h1 !! (top s + 1) = Some (Bytes (t ++ 0 :: pad))).
  { unfold h1. rewrite lookup_insert_ne by lia. by rewrite lookup_insert_eq. }
  assert (Hnd : h1 !! top s = Some (Words (top s + 1 :: 0 :: g :: wr)))
    by (unfold h1; by rewrite lookup_insert_eq).
  assert (Hdom : forall p, is_Some (h1 !! p) -> is_Some (heap s !! p) \/ p = top s \/ p = top s + 1).
  { intros p. unfold h1. rewrite !lookup_insert_is_Some. naive_solver. }
  destruct l as [|k l _] using rev_ind.
  { exists 0, s1. split; [done|]. split; [|done]. eapply (holds_new s [] t pad h1); try done.
    simpl. unfold node_in; simpl. rewrite Z.add_0_r. split_and!; eauto; lia. }
  pose proof (holds_chain _ _ Hh) as Hch. pose proof (holds_nodup _ _ Hh) as Hn.
  assert (Hb : forall a, a ∈ addrs (l ++ [k]) -> 0 < a < top s) by (intros a; by apply addrs_allocated).
  assert (Hkin : ta k ∈ addrs (l ++ [k])) by (apply addrs_in; exists k; set_solver).
  assert (Hch1 : chain (heap s1) (l ++ [k])).
  { apply (chain_mono (heap s)); [|done]. intros j Hj.
    split; apply Hsame, Hb, addrs_in; eauto. }
  pose proof (Hb _ Hkin).
  destruct (link_last_ok l k (top s) (top s + 1) wr s1 Hch1 (addrs_ta _ Hn) Ht ltac:(lia) Hnd)
    as (kr & Hlink).
  rewrite (proj2 (Z.eqb_neq (head_addr _) 0)), Hlink.
  2: { destruct l as [|j l]; simpl; [lia|]. destruct Hch as [[? _] _]. lia. }
  replace (u64 (ti k + 1)) with (g + Z.of_nat (length (l ++ [k]))).
  2: { rewrite (holds_counted _ _ Hh (length l) k) by (by apply list_lookup_middle).
       rewrite length_app in *. simpl in *. rewrite u64_small; lia. }
  eexists c, _. split; [by destruct l|]. split; [|done].
  assert (Hapart : forall a, a ∈ addrs (l ++ [k]) -> a <> top s /\ a <> top s + 1)
    by (intros a Ha; apply Hb in Ha; lia).
  apply (holds_new s (l ++ [k]) t pad); [done|done| | |].
  - rewrite <- app_assoc. apply (chain_extend (heap s) _ l k _ pad); simpl; try done; try lia.
    + intros Ha. by apply Hapart in Ha as [].
    + intros Ha. by apply Hapart in Ha as [].
    + intros p Hp Hpk. destruct (Hapart _ Hp). rewrite !lookup_insert_ne by done.
      apply Hsame, Hb, Hp.
    + exists kr. rewrite lookup_insert_ne by lia. by rewrite lookup_insert_eq.
    + exists wr. by rewrite lookup_insert_eq.
    + rewrite !lookup_insert_ne by lia. done.
  - simpl. intros p. rewrite !lookup_insert_is_Some. intros [->|[_ [<-|[_ Hp]]]]; [auto| |by apply Hdom].
    apply Hdom. destruct (chain_app _ l k [] Hch1) as [(_ & _ & _ & (? & E) & _) _]. simpl in E.
    by rewrite E.
  - simpl. by rewrite !lookup_insert_ne by lia.
Qed.

(** *** Splitting the URL *)

Fixpoint join_slash (ts : list cstr) : cstr :=
  match ts with
  | [] => []
  | [t] => t
  | t :: ts => t ++ 47 :: join_slash ts
  end.

Definition buf (acc : cstr) : block := acc ++ replicate (2048 - length acc) 0.

Lemma parse_loop_chars t acc rest list s :
  ~ (47 ∈ t) -> rest <> [] -> (length acc + length t <= 2046)%nat ->
  parse_loop (t ++ rest) (buf acc) (Z.of_nat (length acc)) list s =
  parse_loop rest (buf (acc ++ t)) (Z.of_nat (length (acc ++ t))) list s.
Proof.
  intros Ht Hr. revert acc. induction t as [|x t IH]; intros acc Hl; simpl in Hl.
  { by rewrite app_nil_r. }
  cbn [parse_loop app]. rewrite (proj2 (Z.ltb_lt _ _)) by lia. cbn [negb].
  rewrite (proj2 (Z.eqb_neq x 47)) by set_solver.
  assert (Hm : match t ++ rest with [] => true | _ :: _ => false end = false)
    by (destruct t; [by destruct rest|done]).
  rewrite Hm.
  cbn [orb]. unfold buf at 1.
  replace (2048 - length acc)%nat with (S (2047 - length acc)) by lia. cbn [replicate].
  rewrite store_app_r, bind_lift, u64_small by (done || lia).
  assert (Hl' : length (acc ++ [x]) = S (length acc)) by (rewrite length_app; simpl; lia).
  assert (Hb : acc ++ x :: replicate (2047 - length acc) 0 = buf (acc ++ [x])).
  { unfold buf. rewrite Hl', <- app_assoc. simpl. done. }
  rewrite Hb. replace (Z.of_nat (length acc) + 1) with (Z.of_nat (length (acc ++ [x]))) by lia.
  rewrite IH; [by rewrite <- app_assoc|by intros ?; apply Ht; right|lia].
Qed.

(** The NUL after the token changes nothing, and the buffer is cleared. *)
Lemma buf_close acc :
  is_cstr acc -> (length acc <= 2046)%nat ->
  store (buf acc) (Z.of_nat (length acc) + 1) 0 = Ok (buf acc) /\
  terminated (buf acc) = Ok acc /\
  zero_bytes (buf acc) (Z.of_nat (length acc) + 1) = Ok (buf []).
Proof.
  intros Hcs Hl. unfold buf. destruct (2048 - length acc)%nat as [|[|n]] eqn:E; [lia..|].
  cbn [replicate]. split_and!.
  - replace (acc ++ 0 :: 0 :: replicate n 0) with ((acc ++ [0]) ++ 0 :: replicate n 0)
      by (by rewrite <- app_assoc).
    apply store_app_r. rewrite length_app. simpl. lia.
  - by apply terminated_app.
  - unfold zero_bytes. rewrite (proj2 (Z.ltb_ge _ _)).
    2: { rewrite length_app. simpl. rewrite length_replicate. lia. }
    replace (Z.to_nat (Z.of_nat (length acc) + 1)) with (length acc + 1)%nat by lia.
    rewrite <- drop_drop, drop_app_length. simpl drop.
    change (0 :: replicate n 0) with (replicate (S n) 0).
    rewrite <- replicate_add. cbn [app length]. do 2 f_equal. lia.
Qed.

(** [l'] extends [l] by a token. *)
Lemma parse_token l acc s :
  holds s l -> is_cstr acc -> (length acc <= 2046)%nat -> g + Z.of_nat (length l) < 2 ^ 64 ->
  exists l' s' r, holds s' l' /\ text <$> l' = (text <$> l) ++ [acc] /\
    out s' = out s ++ acc ++ [10] /\
    forall k : Z * Z -> M st Z,
      (puts acc ;; r <- add (head_addr l) acc ;; k r) s = k (r, head_addr l') s'.
Proof.
  intros Hh Hcs Hl Hlen. set (s1 := mk_st (heap s) (top s) (out s ++ acc ++ [10])).
  assert (Hh1 : holds s1 l) by (destruct Hh; by split).
  destruct (add_ok l acc s1 Hh1 Hcs) as (r & s' & Ha & Hh' & Ho); [unfold strlen; lia|done|].
  eexists _, s', r. split; [exact Hh'|]. split; [by rewrite fmap_app|]. split; [done|].
  intros k. rewrite (bind_ok (puts acc) _ s tt s1 eq_refl). by run Ha.
Qed.

Lemma parse_loop_ok ts l s :
  ts <> [] -> last ts <> Some [] ->
  Forall (fun t => is_cstr t /\ ~ (47 ∈ t) /\ (length t < 2047)%nat) ts ->
  holds s l -> g + Z.of_nat (length l + length ts) < 2 ^ 64 ->
  exists l' s', parse_loop (join_slash ts) (buf []) 0 (head_addr l) s = Ok (head_addr l', s') /\
    holds s' l' /\ text <$> l' = (text <$> l) ++ ts /\
    out s' = out s ++ concat ((fun t => t ++ [10]) <$> ts).
Proof.
  intros Hne Hlast Hts. revert l s Hne Hlast.
  induction Hts as [|t ts (Hcs & Hsl & Hl) Hts IH]; intros l s Hne Hlast Hh Hlen; [done|].
  simpl in Hlen. destruct ts as [|t2 ts].
  - cbn [join_slash]. destruct t as [|x t _] using rev_ind; [done|].
    apply is_cstr_app in Hcs as Hcs'. destruct Hcs' as [Ht Hx].
    rewrite length_app in Hl. simpl in Hl.
    pose proof (parse_loop_chars t [] [x] (head_addr l) s) as Hch.
    change ([] ++ t) with t in Hch. change (Z.of_nat (length [])) with 0 in Hch.
    rewrite Hch; [|by intros ?; apply Hsl, elem_of_app; left|done|simpl; lia]. clear Hch.
    cbn [parse_loop]. rewrite (proj2 (Z.ltb_lt _ _)) by lia. cbn [negb]. rewrite orb_true_r.
    replace (store (buf t) (Z.of_nat (length t)) x) with (Ok (buf (t ++ [x]))).
    2: { symmetry. unfold buf. rewrite length_app. simpl length.
         replace (2048 - length t)%nat with (S (2048 - (length t + 1))) by lia. cbn [replicate].
         rewrite store_app_r by done. by rewrite <- app_assoc. }
    rewrite bind_lift, u64_small by lia.
    assert (Hl' : Z.of_nat (length t) + 1 + 1 = Z.of_nat (length (t ++ [x])) + 1)
      by (rewrite length_app; simpl; lia).
    rewrite Hl'. destruct (buf_close (t ++ [x])) as (E1 & E2 & E3);
      [done|rewrite length_app; simpl; lia|].
    rewrite E1, bind_lift, E2, bind_lift.
    destruct (parse_token l (t ++ [x]) s) as (l' & s' & r & Hh' & Htx & Ho & Hk);
      [done|done|rewrite length_app; simpl; lia|simpl in Hlen; lia|].
    rewrite Hk, E3, bind_lift. exists l', s'. cbn [fmap list_fmap concat snd]. rewrite app_nil_r.
    done.
  - change (join_slash (t :: t2 :: ts)) with (t ++ 47 :: join_slash (t2 :: ts)).
    pose proof (parse_loop_chars t [] (47 :: join_slash (t2 :: ts)) (head_addr l) s) as Hch.
    change ([] ++ t) with t in Hch. change (Z.of_nat (length [])) with 0 in Hch.
    rewrite Hch; [|done|done|simpl; lia]. clear Hch.
    remember (join_slash (t2 :: ts)) as rest eqn:Er. cbn [parse_loop].
    rewrite (proj2 (Z.ltb_lt _ _)) by lia. cbn [negb].
    assert (Hrest : rest <> []).
    { subst rest. destruct ts; simpl; [|by destruct t2]. intros ->. done. }
    destruct rest as [|y rest]; [done|]. change ((47 =? 47) || false) with true. cbn iota.
    rewrite bind_lift, u64_small by lia.
    destruct (buf_close t Hcs ltac:(lia)) as (E1 & E2 & E3). rewrite E1, bind_lift, E2, bind_lift.
    destruct (parse_token l t s) as (l1 & s1 & r & Hh1 & Htx & Ho & Hk); [done|done|lia|lia|].
    rewrite Hk, E3, bind_lift. cbn [snd].
    destruct (IH l1 s1) as (l' & s' & Hp & Hh' & Ht' & Ho'); [done|by destruct ts|done| |].
    { apply (f_equal length) in Htx. rewrite length_app, !length_fmap in Htx. simpl in *. lia. }
    exists l', s'. split; [exact Hp|]. split; [done|]. rewrite Ht', Htx, Ho', Ho. split.
    + by rewrite <- app_assoc.
    + cbn [fmap list_fmap concat]. by rewrite <- !app_assoc.
Qed.

(** *** The resource *)

(** The tokens, each followed by a slash. *)
Definition slashed (ts : list cstr) : cstr := concat ((fun t => t ++ [47]) <$> ts).

Lemma strcpy_at acc pad t :
  (length t < length pad)%nat ->
  strcpy (acc ++ pad) (Z.of_nat (length acc)) t = Ok (acc ++ t ++ 0 :: drop (S (length t)) pad).
Proof.
  intros Hl. unfold strcpy, strlen. rewrite length_app, (proj2 (Z.ltb_ge _ 0)) by lia.
  rewrite (proj2 (Z.ltb_ge _ _)) by lia. cbn [orb].
  replace (Z.to_nat (_ + _ + 1)) with (length acc + S (length t))%nat by lia.
  by rewrite Nat2Z.id, take_app_length, <- drop_drop, drop_app_length.
Qed.

Lemma total_loop_ok l s fuel total :
  chain (heap s) l -> (length l < fuel)%nat -> 0 <= total ->
  total + strlen (concat (text <$> l)) < 2 ^ 64 ->
  total_loop fuel (head_addr l) total s = Ok (total + strlen (concat (text <$> l)), s).
Proof.
  revert fuel total. unfold strlen. induction l as [|k l IH]; intros fuel total Hch Hf H0 Hl.
  { destruct fuel; simpl; by rewrite Z.add_0_r. }
  destruct fuel as [|fuel]; [simpl in Hf; lia|]. destruct Hch as [Hk Hch]. node_step Hk s.
  rewrite fmap_cons in Hl |- *. cbn [concat total_loop head_addr] in Hl |- *.
  rewrite length_app in Hl |- *. rewrite Hnz. run Hsv. run Hst. run Hnx.
  unfold strlen. rewrite u64_small by lia. rewrite IH; [|done|simpl in Hf; lia|lia|lia].
  do 2 f_equal. lia.
Qed.

(** One token and its slash are copied, and what is left has room for a NUL. *)
Lemma join_loop_step k nx s fuel acc pad :
  node_in (heap s) k nx -> (length (text k) + 1 < length pad)%nat ->
  Z.of_nat (length acc + length (text k)) + 1 < 2 ^ 64 ->
  join_loop (S fuel) (ta k) (Z.of_nat (length acc)) (acc ++ pad) s =
  join_loop fuel nx (Z.of_nat (length (acc ++ text k ++ [47])))
    ((acc ++ text k ++ [47]) ++ 0 :: drop (S (S (length (text k)))) pad) s.
Proof.
  intros Hk Hl Hs. node_step Hk s. cbn [join_loop]. rewrite Hnz. run Hsv. run Hst.
  rewrite strcpy_at, bind_lift by lia. unfold strlen.
  replace (u64 (Z.of_nat (length acc) + Z.of_nat (length (text k))))
    with (Z.of_nat (length (acc ++ text k))) by (rewrite length_app, u64_small; lia).
  rewrite (app_assoc acc), strcpy_at, bind_lift by (simpl; rewrite length_drop; lia). run Hnx.
  replace (u64 (Z.of_nat (length (acc ++ text k)) + 1))
    with (Z.of_nat (length (acc ++ text k ++ [47])))
    by (rewrite !length_app, u64_small; simpl; lia).
  assert (E : forall x y : list Z, x = y ->
    (acc ++ text k) ++ [47] ++ 0 :: x = (acc ++ text k ++ [47]) ++ 0 :: y)
    by (intros x y ->; by rewrite <- !app_assoc).
  rewrite (E _ (drop (S (S (length (text k)))) pad)); [done|]. simpl. rewrite drop_drop.
  f_equal. lia.
Qed.

Lemma join_loop_ok l s fuel acc pad :
  chain (heap s) l -> (length l < fuel)%nat ->
  (length (slashed (text <$> l)) < length pad)%nat ->
  Z.of_nat (length acc + length pad) < 2 ^ 64 ->
  exists pad', length pad' = (length pad - length (slashed (text <$> l)))%nat /\
    join_loop fuel (head_addr l) (Z.of_nat (length acc)) (acc ++ pad) s =
    Ok (acc ++ slashed (text <$> l) ++ pad', s).
Proof.
  revert fuel acc pad. unfold slashed. induction l as [|k l IH]; intros fuel acc pad Hch Hf Hl Hs.
  { exists pad. simpl. split; [lia|]. by destruct fuel. }
  destruct fuel as [|fuel]; [simpl in Hf; lia|]. destruct Hch as [Hk Hch].
  cbn [fmap list_fmap concat] in Hl |- *. rewrite !length_app in Hl. simpl in Hl.
  cbn [head_addr]. rewrite (join_loop_step k (head_addr l)) by (done || lia).
  destruct (IH fuel (acc ++ text k ++ [47]) (0 :: drop (S (S (length (text k)))) pad))
    as (pad' & Hp' & Hj); [done|simpl in Hf; lia|simpl; rewrite length_drop; lia|
      rewrite !length_app; simpl; rewrite length_drop; lia|].
  exists pad'. rewrite Hj. split; [|by rewrite <- !app_assoc].
  rewrite Hp', !length_app. simpl. rewrite length_drop. lia.
Qed.

Lemma get_node_at l s i :
  holds s l -> g <= i ->
  get_node (head_addr l) i s = Ok (head_addr (drop (Z.to_nat (i - g)) l), s).
Proof.
  intros [Hw Hch Hn Hcnt _] Hi. by apply (get_node_ok g); [|apply addrs_ta| |].
Qed.

Lemma chain_drop h l n : chain h l -> chain h (drop n l).
Proof.
  revert n. induction l as [|k l IH]; intros [|n]; simpl; try done. intros [_ H]. by apply IH.
Qed.

(** What the code makes of the path: the slashes are not counted, so as many
    characters are cut off at the end as there are tokens. *)
Definition resource_text (path : list cstr) : cstr :=
  take (length (concat path)) (slashed path).

Lemma length_slashed ts : length (slashed ts) = (length (concat ts) + length ts)%nat.
Proof.
  unfold slashed. induction ts as [|t ts IH]; [done|]. cbn [fmap list_fmap concat].
  rewrite !length_app, IH. simpl. lia.
Qed.

Lemma is_cstr_slashed ts : Forall is_cstr ts -> is_cstr (slashed ts).
Proof.
  unfold slashed. induction 1 as [|t ts Ht Hts IH]; [constructor|]. cbn [fmap list_fmap concat].
  rewrite !is_cstr_app. split; [split; [done|literal]|done].
Qed.

Lemma make_resource_url_ok l path s e :
  g = 0 -> holds s l -> text <$> drop 3 l = path -> path <> [] ->
  Z.of_nat (length path) <= slack -> strlen (slashed path) + 1 < 2 ^ 62 ->
  exists pad, make_resource_url (head_addr l) 3 e s =
    Ok ((NO_ERR, top s),
        mk_st (<[top s := Bytes (resource_text path ++ 0 :: pad)]> (heap s)) (top s + 1) (out s)).
Proof.
  intros Hg0 Hh Hp Hne Hsl Hlen. unfold strlen in Hlen. rewrite length_slashed in Hlen.
  pose proof (holds_chain _ _ Hh) as Hch. pose proof (chain_drop _ _ 3 Hch) as Hch3.
  pose proof (chain_fuel _ _ Hch (addrs_ta _ (holds_nodup _ _ Hh))) as Hf.
  assert (Hf3 : (length (drop 3 l) < S (size (heap s)))%nat) by (rewrite length_drop; lia).
  unfold make_resource_url, gets at 1. unfold bind at 1.
  pose proof (get_node_at l s 3 Hh ltac:(lia)) as Hgn. rewrite Hg0 in Hgn.
  change (Z.to_nat (3 - 0)) with 3%nat in Hgn. run Hgn.
  assert (Hnz : (head_addr (drop 3 l) =? 0) = false).
  { apply Z.eqb_neq. destruct (drop 3 l) as [|k l3]; [by subst path|].
    destruct Hch3 as [(? & _) _]. simpl. lia. }
  rewrite Hnz.
  run (total_loop_ok (drop 3 l) s _ 0 Hch3 Hf3 ltac:(lia) ltac:(rewrite Hp; unfold strlen; lia)).
  rewrite Hp, Z.add_0_l. unfold strlen. rewrite u64_small by lia.
  destruct (Hmalloc (Z.of_nat (length (concat path)) + 1)) as (b & Hb & Hbl); [lia|].
  rewrite Hb. run Hgn.
  destruct (join_loop_ok (drop 3 l) s _ [] b Hch3 Hf3) as (pad & Hpad & Hj).
  { rewrite Hp, length_slashed. lia. }
  { simpl. lia. }
  simpl app in Hj. change (Z.of_nat (length [])) with 0 in Hj. run Hj. rewrite Hp in *.
  rewrite length_slashed in Hpad.
  rewrite store_z, bind_lift by (rewrite length_app, length_slashed; lia). rewrite Nat2Z.id.
  rewrite insert_take_drop by (rewrite length_app, length_slashed; lia).
  rewrite take_app_le by (rewrite length_slashed; lia). by eexists.
Qed.

(** *** The end of main *)

Lemma free_obj_ok p s o :
  0 < p -> heap s !! p = Some o ->
  free p s = Ok (tt, mk_st (delete p (heap s)) (top s) (out s)).
Proof.
  intros Hp Ho. unfold free. rewrite (proj2 (Z.eqb_neq p 0)) by lia. unfold bind, obj_at.
  by rewrite (proj2 (Z.eqb_neq p 0)), Ho by lia.
Qed.

Lemma free_loop_ok l s fuel :
  chain (heap s) l -> NoDup (addrs l) -> (length l < fuel)%nat ->
  exists s', free_loop fuel (head_addr l) s = Ok (tt, s') /\ out s' = out s /\
    forall p, heap s' !! p = if decide (p ∈ addrs l) then None else heap s !! p.
Proof.
  revert s fuel. induction l as [|k l IH]; intros s fuel Hch Hn Hf.
  { exists s. by destruct fuel. }
  destruct fuel as [|fuel]; [simpl in Hf; lia|]. destruct Hch as [Hk Hch]. node_step Hk s.
  destruct Hk as (K1 & K2 & _ & (r & Kr) & (pad & Kp)).
  cbn [free_loop head_addr]. rewrite Hnz. run Hnx. run Hsv. run (free_obj_ok _ s _ K2 Kp).
  set (s1 := mk_st _ _ _). unfold addrs in Hn. cbn [fmap list_fmap concat app] in Hn.
  fold (addrs l) in Hn. apply NoDup_cons in Hn as [N1 Hn]. apply NoDup_cons in Hn as [N2 Hn].
  apply not_elem_of_cons in N1 as [N0 N1].
  assert (E1 : heap s1 !! ta k = Some (Words (tsp k :: head_addr l :: ti k :: r))).
  { simpl. by rewrite lookup_delete_ne. }
  run (free_obj_ok _ s1 _ K1 E1). set (s2 := mk_st _ _ _).
  destruct (IH s2 fuel) as (s' & Hfree & Ho & Hp); [|done|simpl in Hf; lia|].
  { apply (chain_mono (heap s)); [|done]. intros j Hj.
    assert (ta j ∈ addrs l) by (apply addrs_in; eauto).
    assert (tsp j ∈ addrs l) by (apply addrs_in; eauto).
    simpl. rewrite !lookup_delete_ne; [done|by intros E; rewrite E in *..]. }
  exists s'. split; [done|]. split; [done|]. intros p. rewrite Hp. simpl.
  unfold addrs. cbn [fmap list_fmap concat app]. fold (addrs l).
  destruct (decide (p = ta k)) as [->|H1]; [|destruct (decide (p = tsp k)) as [->|H2]].
  - rewrite lookup_delete_eq, decide_False by done. by rewrite decide_True by (by left).
  - rewrite (lookup_delete_ne (delete _ _)), lookup_delete_eq, decide_False by done.
    by rewrite decide_True by (by right; left).
  - rewrite !lookup_delete_ne by done. case_decide as Hd; [by rewrite decide_True by (by do 2 right)|].
    by rewrite decide_False by (rewrite !elem_of_cons; tauto).
Qed.

(** The last byte of the array is a NUL that no answer reaches. *)
Lemma response_loop_ok rs buff s :
  length buff = 4096%nat -> last buff = Some 0 ->
  Forall (fun r => match r with Data bs => (length bs < 4096)%nat | _ => True end) rs ->
  exists r o, response_loop rs buff s = Ok (r, mk_st (heap s) (top s) (out s ++ o)).
Proof.
  intros Hl Hlast Hrs. revert buff s Hl Hlast.
  assert (Hterm : forall b : block, last b = Some 0 -> exists t, terminated b = Ok t).
  { intros b Hb. unfold terminated. rewrite decide_True; [by eexists|].
    apply last_Some in Hb as [b' ->]. set_solver. }
  induction Hrs as [|[bs| |] rs Hr Hrs IH]; intros buff s Hl Hlast.
  - exists NO_ERR, []. rewrite app_nil_r. by destruct s.
  - destruct bs as [|x bs].
    { exists NO_ERR, []. rewrite app_nil_r. by destruct s. }
    cbn [response_loop]. set (d := x :: bs) in *.
    pose proof (memcpy_mid buff [] d []) as Hm. rewrite app_nil_l, app_nil_r in Hm.
    change (Z.of_nat (length [])) with 0 in Hm. rewrite Hm, bind_lift by lia.
    assert (Hlast' : last (d ++ drop (length d) buff) = Some 0).
    { apply last_Some in Hlast as [b' ->]. rewrite length_app in Hl. simpl in Hl.
      rewrite drop_app_le by lia. by rewrite app_assoc, last_snoc. }
    destruct (Hterm _ Hlast') as [t Ht]. rewrite Ht, bind_lift.
    destruct (IH (d ++ drop (length d) buff) (mk_st (heap s) (top s) (out s ++ t ++ [10])))
      as (r & o & Ho); [rewrite length_app, length_drop; lia|done|].
    erewrite (bind_ok (puts t)); [|done]. rewrite Ho. simpl. exists r, (t ++ [10] ++ o).
    by rewrite <- !app_assoc.
  - cbn [response_loop]. destruct (Hterm _ Hlast) as [t Ht]. rewrite Ht, bind_lift.
    destruct (IH buff (mk_st (heap s) (top s) (out s ++ t ++ [10]))) as (r & o & Ho); [done..|].
    erewrite (bind_ok (puts t)); [|done]. rewrite Ho. simpl. exists r, (t ++ [10] ++ o).
    by rewrite <- !app_assoc.
  - cbn [response_loop]. destruct (Hterm _ Hlast) as [t Ht]. rewrite Ht, bind_lift.
    exists SOCK_ERR_READ, (t ++ [10]). done.
Qed.

Definition say (s : st) (o : cstr) : st := mk_st (heap s) (top s) (out s ++ o).

Lemma puts_ok t s : puts t s = Ok (tt, say s (t ++ [10])).
Proof. done. Qed.

Lemma holds_say s l o : holds s l -> holds (say s o) l.
Proof. intros []. by split. Qed.

Lemma lookup_node s l i k :
  holds s l -> l !! i = Some k ->
  exists nx, node_in (heap s) k nx /\ head_addr (drop i l) = ta k.
Proof.
  intros Hh Hi. destruct (chain_in _ l k (holds_chain _ _ Hh)) as [nx Hn].
  { by apply list_elem_of_lookup_2 with i. }
  exists nx. split; [done|]. by rewrite (drop_S _ _ _ Hi).
Qed.

Lemma check_protocol_ok s l k :
  g = 0 -> holds s l -> l !! 1%nat = Some k ->
  check_protocol (head_addr l) s = Ok (true, say s (text k ++ [10])).
Proof.
  intros Hg0 Hh Hk. unfold check_protocol. destruct (lookup_node _ _ _ _ Hh Hk) as (nx & Hn & Ha).
  pose proof (get_node_at l s 1 Hh ltac:(lia)) as Hgn. rewrite Hg0 in Hgn.
  change (Z.to_nat (1 - 0)) with 1%nat in Hgn. rewrite Ha in Hgn. run Hgn.
  node_step Hn s. run Hsv. by run Hst.
Qed.

Lemma make_domain_name_ok s l k :
  g = 0 -> holds s l -> l !! 2%nat = Some k ->
  make_domain_name (head_addr l) s = Ok ((0, tsp k), say s (text k ++ [10])).
Proof.
  intros Hg0 Hh Hk. unfold make_domain_name. destruct (lookup_node _ _ _ _ Hh Hk) as (nx & Hn & Ha).
  pose proof (get_node_at l s 2 Hh ltac:(lia)) as Hgn. rewrite Hg0 in Hgn.
  change (Z.to_nat (2 - 0)) with 2%nat in Hgn. rewrite Ha in Hgn. run Hgn.
  node_step Hn s. rewrite Hnz. run Hsv. run Hst. run (puts_ok (text k) s).
  destruct (node_fields _ _ _ (say s (text k ++ [10])) Hn eq_refl) as (Hsv' & _). by run Hsv'.
Qed.

(** The end of [main] releases everything that was allocated. *)
Lemma release_all l s s4 oa ob :
  holds s l -> heap s4 = <[top s + 1 := ob]> (<[top s := oa]> (heap s)) ->
  exists s', (free (top s) ;; free (top s + 1) ;; free_list (head_addr l) ;; ret 0) s4 = Ok (0, s') /\
    heap s' = ∅ /\ out s' = out s4.
Proof.
  intros Hh H4. pose proof (holds_wf _ _ Hh) as [Ht Hw].
  assert (E1 : heap s4 !! top s = Some oa).
  { rewrite H4, lookup_insert_ne by lia. by rewrite lookup_insert_eq. }
  run (free_obj_ok (top s) s4 _ Ht E1). set (s5 := mk_st _ _ _).
  assert (E2 : heap s5 !! (top s + 1) = Some ob).
  { simpl. rewrite lookup_delete_ne, H4 by lia. by rewrite lookup_insert_eq. }
  run (free_obj_ok (top s + 1) s5 _ ltac:(lia) E2). set (s6 := mk_st _ _ _).
  assert (E6 : heap s6 = heap s).
  { simpl. rewrite H4, delete_insert_ne by lia.
    rewrite (delete_insert_id (heap s)) by (apply Hw; lia).
    rewrite delete_insert_id; [done|]. apply Hw. lia. }
  unfold free_list. unfold gets at 1. rewrite bind_assoc. unfold bind at 1.
  destruct (free_loop_ok l s6 (S (size (heap s6)))) as (s' & Hf & Ho & Hp);
    [rewrite E6; apply (holds_chain _ _ Hh)|by apply (holds_nodup _ _ Hh)|
     rewrite E6; apply chain_fuel; [apply (holds_chain _ _ Hh)|by apply addrs_ta, (holds_nodup _ _ Hh)]|].
  run Hf. exists s'. split; [done|]. split; [|done].
  apply map_empty. intros p. rewrite Hp, E6. case_decide as Hd; [done|].
  apply eq_None_not_Some. intros Hs. by apply Hd, (holds_only _ _ Hh).
Qed.

(** [main] once the list, the name and the resource are there: the request is
    printed, and everything allocated is released. *)
Lemma main_tail_ok n l k s res pad :
  holds s l -> k ∈ l -> is_cstr res ->
  strlen (get_text (text k) res) + 1 < 2 ^ 62 ->
  length (buff_garbage n) = 4096%nat -> last (buff_garbage n) = Some 0 ->
  Forall (fun r => match r with Data bs => (length bs < 4096)%nat | _ => True end) (recvs n) ->
  let s1 := mk_st (<[top s := Bytes (res ++ 0 :: pad)]> (heap s)) (top s + 1) (out s) in
  exists s' o1 o2, main_tail n GET None (head_addr l) (tsp k) (top s) res s1 = Ok (0, s') /\
    heap s' = ∅ /\ out s' = o1 ++ get_text (text k) res ++ [10] ++ o2.
Proof.
  intros Hh Hk Hres Hlen Hb1 Hb2 Hrecv s1. pose proof (holds_wf _ _ Hh) as [Ht Hw].
  pose proof (holds_chain _ _ Hh) as Hch.
  assert (Hk2 : 0 < tsp k < top s)
    by (apply (addrs_allocated s l); [by split|done|]; apply addrs_in; eauto).
  destruct (chain_in _ _ _ Hch Hk) as (nx & Hn).
  assert (Hkc : is_cstr (text k)) by apply Hn.
  assert (Hst : str_at (tsp k) s1 = Ok (text k, s1)).
  { destruct Hn as (_ & _ & _ & _ & (pk & Kp)). unfold str_at, bind, obj_at.
    rewrite (proj2 (Z.eqb_neq _ 0)) by lia. simpl. rewrite lookup_insert_ne, Kp by lia.
    by rewrite terminated_app. }
  unfold main_tail. run Hst. run (puts_ok (text k) s1). run (puts_ok res _).
  set (s2 := say (say s1 _) _).
  pose proof (make_get_request_ok (text k) res s2 Halloc Hkc Hres ltac:(lia)) as Hreq.
  destruct (Hmalloc (strlen (get_text (text k) res) + 1)) as (b & Hmb & _); [unfold strlen in *; lia|].
  rewrite Hmb in Hreq. run Hreq. cbn [fst snd].
  assert (Hgt : is_cstr (get_text (text k) res)).
  { unfold get_text. cbn [concat]. rewrite !is_cstr_app.
    split_and!; [literal|done|literal|literal|done|literal|literal]. }
  run (with_string_at _ b s2 ltac:(simpl; lia) Hgt). run (puts_ok _ _).
  change (negb (NO_ERR =? 0)) with false. cbn iota.
  unfold get_response. rewrite bind_assoc. run (puts_ok _ _).
  set (s3 := say (say _ _) _).
  destruct (response_loop_ok (recvs n) (buff_garbage n) s3 Hb1 Hb2 Hrecv) as (r & o & Hresp).
  run Hresp. rewrite (proj2 (Z.eqb_neq (top s) 0)) by lia. set (s4 := mk_st _ _ _).
  destruct (release_all l s s4 _ _ Hh eq_refl) as (s' & Hrel & Hemp & Ho).
  exists s', (out s2), ((bytes_of "response" ++ [10]) ++ o). split; [exact Hrel|]. split; [done|].
  rewrite Ho. change (out s4) with
    (((out s2 ++ get_text (text k) res ++ [10]) ++ bytes_of "response" ++ [10]) ++ o).
  by rewrite <- !app_assoc.
Qed.

(** A token of a URL, as the code can hold it. *)
Definition url_token (t : cstr) : Prop := is_cstr t /\ ~ (47 ∈ t) /\ (length t < 2047)%nat.

Definition init : st := mk_st ∅ 1 [].

Lemma holds_empty o : holds (mk_st ∅ 1 o) [].
Proof.
  split; simpl; [|done|constructor|done|].
  - split; [done|]. intros p _. apply lookup_empty.
  - intros p [o' Ho]. by rewrite lookup_empty in Ho.
Qed.

Lemma parseURL_ok ts o :
  ts <> [] -> last ts <> Some [] -> Forall url_token ts -> g + Z.of_nat (length ts) < 2 ^ 64 ->
  exists l s', parseURL 0 (join_slash ts) (mk_st ∅ 1 o) = Ok (head_addr l, s') /\
    holds s' l /\ text <$> l = ts /\
    out s' = (o ++ bytes_of "parseURL" ++ [10]) ++ concat ((fun t => t ++ [10]) <$> ts).
Proof.
  intros Hne Hlast Hts Hlen. unfold parseURL. run (puts_ok _ _).
  destruct (parse_loop_ok ts [] (say (mk_st ∅ 1 o) (bytes_of "parseURL" ++ [10])))
    as (l & s' & Hp & Hh & Ht & Ho); try done.
  - apply holds_empty.
  - by exists l, s'.
Qed.

Lemma last_app_ne {A} (l1 l2 : list A) : l2 <> [] -> last (l1 ++ l2) = last l2.
Proof. intros H. rewrite last_app. destruct (last l2) eqn:E; [done|]. by apply last_None in E. Qed.

Definition benign (n : net) : Prop :=
  length (buff_garbage n) = 4096%nat /\ last (buff_garbage n) = Some 0 /\
  Forall (fun r => match r with Data bs => (length bs < 4096)%nat | _ => True end) (recvs n).

Lemma main_connect_ok n s l t0 t1 host path pre a post :
  g = 0 -> holds s l -> text <$> l = t0 :: t1 :: host :: path ->
  path <> [] -> is_cstr host -> Forall is_cstr path ->
  Z.of_nat (length path) <= slack -> strlen (slashed path) + strlen host + 1 < 2 ^ 61 ->
  resolved n = Some (pre ++ a :: post) ->
  Forall (fun b => usable b = false) pre -> usable a = true -> benign n ->
  exists s' o1 o2, main_connect n GET None (head_addr l) s = Ok (0, s') /\
    heap s' = ∅ /\ out s' = o1 ++ get_text host (resource_text path) ++ [10] ++ o2.
Proof.
  intros Hg0 Hh Ht Hne Hhost Hpath Hsl Hlen Hres Hpre Ha (Hb1 & Hb2 & Hrecv).
  destruct l as [|k0 [|k1 [|k2 l]]]; try done. injection Ht as E0 E1 E2 Ep.
  unfold main_connect. run (puts_ok _ _). apply (holds_say s _ (bytes_of "test1" ++ [10])) in Hh.
  run (check_protocol_ok _ _ _ Hg0 Hh eq_refl). apply (holds_say _ _ (text k1 ++ [10])) in Hh.
  run (puts_ok _ _). apply (holds_say _ _ (bytes_of "test2" ++ [10])) in Hh.
  run (make_domain_name_ok _ _ _ Hg0 Hh eq_refl). apply (holds_say _ _ (text k2 ++ [10])) in Hh.
  cbn [fst snd]. change (negb (0 =? 0)) with false. cbn iota.
  run (puts_ok _ _). apply (holds_say _ _ (bytes_of "test3" ++ [10])) in Hh.
  set (s2 := say _ (bytes_of "test3" ++ [10])) in *.
  destruct (make_resource_url_ok (k0 :: k1 :: k2 :: l) path s2 10 Hg0 Hh Ep Hne Hsl) as [pad Hru];
    [unfold strlen in *; lia|].
  run Hru. cbn [fst snd]. change (NO_ERR =? 0) with true. cbn iota. set (s3 := mk_st _ _ _).
  assert (Hrc : is_cstr (resource_text path)) by (by apply Forall_take, is_cstr_slashed).
  assert (Est : str_at (top s2) s3 = Ok (resource_text path, s3)).
  { unfold str_at, bind, obj_at. pose proof (holds_wf _ _ Hh) as [Htop _].
    rewrite (proj2 (Z.eqb_neq _ 0)) by lia. unfold s3. cbn [heap]. rewrite lookup_insert_eq.
    by rewrite terminated_app. }
  run Est. run (puts_ok _ _). rewrite Hres. cbn [get_ip_from_domain].
  change (negb (NO_ERR =? 0)) with false. cbn iota. run (puts_ok _ _).
  rewrite (try_connect_first pre a post 0 Hpre Ha).
  change (negb (NO_ERR =? 0)) with false. cbn iota. run (puts_ok _ _).
  apply (holds_say _ _ (bytes_of "test4" ++ [10])), (holds_say _ _ (bytes_of "test5" ++ [10])),
    (holds_say _ _ (bytes_of "Success" ++ [10])) in Hh.
  destruct (main_tail_ok n _ k2 _ (resource_text path) pad Hh) as (s' & o1 & o2 & Hm & He & Ho);
    [set_solver|done| |done..|].
  - unfold get_text, strlen, resource_text in *. rewrite length_slashed in Hlen.
    cbn [concat]. rewrite !length_app, length_take, length_slashed, E2.
    simpl length. lia.
  - rewrite E2 in Ho. by exists s', o1, o2.
Qed.

Lemma strcpy_overruns b off t :
  0 <= off -> Z.of_nat (length b) <= off + strlen t -> strcpy b off t = Fault OutOfBounds.
Proof.
  intros H0 Hl. unfold strcpy. rewrite (proj2 (Z.ltb_lt (Z.of_nat (length b)) _)) by lia.
  by rewrite orb_true_r.
Qed.

Lemma join_loop_overruns l s fuel acc pad :
  l <> [] -> chain (heap s) l -> (length l < fuel)%nat ->
  (length pad <= length (slashed (text <$> l)))%nat ->
  Z.of_nat (length acc + length (slashed (text <$> l))) < 2 ^ 64 ->
  join_loop fuel (head_addr l) (Z.of_nat (length acc)) (acc ++ pad) s = Fault OutOfBounds.
Proof.
  revert fuel acc pad. unfold slashed. induction l as [|k l IH]; intros fuel acc pad Hne Hch Hf Hl Hs; [done|].
  destruct fuel as [|fuel]; [simpl in Hf; lia|]. destruct Hch as [Hk Hch]. node_step Hk s.
  cbn [fmap list_fmap concat] in Hl, Hs. rewrite !length_app in Hl, Hs. simpl in Hl, Hs.
  cbn [head_addr]. destruct (decide (length (text k) + 1 < length pad)%nat).
  { rewrite (join_loop_step k (head_addr l)) by (done || lia).
    apply IH; [intros ->; simpl in Hl; lia|done|simpl in Hf; lia| |].
    - simpl. rewrite length_drop. lia.
    - rewrite !length_app. simpl. lia. }
  cbn [join_loop]. rewrite Hnz. run Hsv. run Hst.
  destruct (decide (length pad <= length (text k))%nat).
  { rewrite strcpy_overruns; [done|lia|rewrite length_app; unfold strlen; lia]. }
  rewrite strcpy_at, bind_lift by lia. rewrite strcpy_overruns; [done|apply u64_range|].
  unfold strlen. rewrite u64_small by lia. rewrite !length_app. simpl. rewrite length_drop. lia.
Qed.
End roomy.

(** ** Blocks without room to spare *)

(** The structure does not fit into the eight bytes asked for. *)
Lemma make_node_overruns w t s :
  malloc_node 8 = Some [w] -> plenty 0 malloc -> 0 < top s -> strlen t + 1 < 2 ^ 62 ->
  make_node t s = Fault OutOfBounds.
Proof.
  intros Hn Hm Ht Hl. unfold make_node. rewrite Hn. unfold new_obj at 1. unfold bind at 1.
  set (s1 := mk_st _ _ _). destruct (cpy_str_ok 0 ltac:(lia) Hm t s1 Hl) as [pad Hc]. run Hc.
  simpl. set (s2 := mk_st _ _ _). assert (E2 : heap s2 !! top s = Some (Words [w])).
  { simpl. rewrite lookup_insert_ne by lia. by rewrite lookup_insert_eq. }
  run (set_word_ok s2 (top s) 0 (top s + 1) _ Ht E2 ltac:(simpl; lia)). simpl.
  apply bind_fault. unfold set_word, bind, obj_at. rewrite (proj2 (Z.eqb_neq _ 0)) by lia.
  simpl. by rewrite lookup_insert_eq.
Qed.

(** A path overruns the block counted without its slashes. *)
Lemma make_resource_url_overruns l s e :
  (forall n, 0 <= n < 2 ^ 62 -> exists b, malloc n = Some b /\ Z.of_nat (length b) = n) ->
  holds 0 s l -> (3 < length l)%nat -> strlen (slashed (text <$> drop 3 l)) + 1 < 2 ^ 62 ->
  make_resource_url (head_addr l) 3 e s = Fault OutOfBounds.
Proof.
  intros Hm Hh Hl Hlen. unfold strlen in Hlen. pose proof (holds_chain _ _ _ Hh) as Hch.
  pose proof (chain_drop _ _ 3 Hch) as Hch3.
  pose proof (chain_fuel _ _ Hch (addrs_ta _ (holds_nodup _ _ _ Hh))) as Hf.
  assert (Hf3 : (length (drop 3 l) < S (size (heap s)))%nat) by (rewrite length_drop; lia).
  unfold make_resource_url, gets at 1. unfold bind at 1.
  pose proof (get_node_at 0 l s 3 Hh ltac:(lia)) as Hgn.
  change (Z.to_nat (3 - 0)) with 3%nat in Hgn. run Hgn.
  assert (Hne : drop 3 l <> []) by (intros E; apply (f_equal length) in E; rewrite length_drop in E; simpl in E; lia).
  assert (Hnz : (head_addr (drop 3 l) =? 0) = false).
  { apply Z.eqb_neq. destruct (drop 3 l) as [|k l3]; [done|].
    destruct Hch3 as [(? & _) _]. simpl. lia. }
  rewrite Hnz. rewrite length_slashed in Hlen.
  run (total_loop_ok (drop 3 l) s _ 0 Hch3 Hf3 ltac:(lia) ltac:(unfold strlen; lia)).
  rewrite Z.add_0_l. unfold strlen. rewrite u64_small by lia.
  destruct (Hm (Z.of_nat (length (concat (text <$> drop 3 l))) + 1)) as (b & Hb & Hbl); [lia|].
  rewrite Hb. run Hgn. apply bind_fault.
  apply (join_loop_overruns (drop 3 l) s _ [] b Hne Hch3 Hf3); rewrite length_slashed; simpl; [|lia].
  rewrite length_fmap in *. destruct (drop 3 l); simpl in *; [done|lia].
Qed.

(** ** Properties *)

(** C29: both request builders write exactly the text they mean to, and fill the
    block they ask for without leaving it, whatever it held.  For strings whose
    lengths add up within a [size_t], with a body below 2^63 bytes,
    [make_get_request] and [make_post_request] either report that there is no
    memory or return a new string: the request line, the host and, for a post,
    the type, the decimal length and the body.  The text of the length that a
    post builds on the way is freed, unless the request itself is refused.
    (The request line has no space before the protocol.) *)
Theorem requests_text garbage d r body s :
  allocates malloc -> length garbage = 21%nat -> wf s ->
  is_cstr d -> is_cstr r -> is_cstr body -> strlen body < 2 ^ 63 ->
  strlen (get_text d r) + 1 < 2 ^ 64 -> strlen (post_text d r body) + 1 < 2 ^ 64 ->
  make_get_request (Some d) (Some r) s =
    match malloc (strlen (get_text d r) + 1) with
    | None => Ok ((ALLOC_ERR, 0), s)
    | Some b => Ok ((NO_ERR, top s), with_string (get_text d r) b s)
    end /\
  make_post_request garbage (Some d) (Some r) (Some body) s =
    match malloc 46, malloc (strlen (post_text d r body) + 1) with
    | None, _ => Ok ((ALLOC_ERR, 0), s)
    | Some b, None => Ok ((ALLOC_ERR, 0), with_string (length_text (strlen body)) b s)
    | Some _, Some b => Ok ((NO_ERR, top s + 1),
        with_string (post_text d r body) b (mk_st (heap s) (top s + 1) (out s)))
    end.
Proof. intros. split; [by apply make_get_request_ok|by apply make_post_request_ok]. Qed.

(** what [main] does with a URL of a protocol, a host and a path.  Suppose
    that blocks come with room to spare (24 bytes for a node, a byte for each
    token of the path), that a fresh block starts with the index 0, and that a
    call without a return statement hands back something other than 0.  Then
    the URL is split at its slashes, the client connects to the first address
    that answers, prints the request it built, releases everything it
    allocated and ends with status 0.  The request has the path without as
    many characters at its end as it has tokens, less the slash behind it; it
    is never sent. *)
Theorem main_prints_request slack w0 w1 c wr n prog t0 t1 host path pre a post :
  0 <= slack -> plenty slack malloc -> allocates malloc -> malloc_node 8 = Some (w0 :: w1 :: 0 :: wr) ->
  no_return = Ok c -> c <> 0 ->
  Forall url_token (t0 :: t1 :: host :: path) -> path <> [] -> last path <> Some [] ->
  Z.of_nat (length path) <= slack -> strlen (slashed path) + strlen host + 1 < 2 ^ 61 ->
  resolved n = Some (pre ++ a :: post) ->
  Forall (fun b => usable b = false) pre -> usable a = true -> benign n ->
  exists s' o1 o2,
    main n [prog; bytes_of "GET"; join_slash (t0 :: t1 :: host :: path)] init = Ok (0, s') /\
    heap s' = ∅ /\ out s' = o1 ++ get_text host (resource_text path) ++ [10] ++ o2.
Proof.
  intros Hs Hm Hal Hn Hr Hc Hts Hne Hlast Hsl Hlen Hres Hpre Ha Hnet.
  pose proof (length_slashed path) as Hls. unfold main. run (puts_ok _ _).
  cbn [lookup list_lookup]. set (url := join_slash _). run (puts_ok url _).
  change (strcmp (bytes_of "GET") (bytes_of "GET") =? 0) with true. cbn iota. cbn [andb].
  autorewrite with c_monad. run (puts_ok _ _). run (puts_ok _ _).
  destruct (parseURL_ok slack w0 w1 0 c wr Hs Hm Hal Hn Hr Hc ltac:(lia) (t0 :: t1 :: host :: path)
    (out (say (say (say (say init (bytes_of "test000000" ++ [10])) (url ++ [10]))
      (bytes_of "test000" ++ [10])) (bytes_of "test0" ++ [10]))))
    as (l & s1 & Hp & Hh & Ht & _); [done|by destruct path|done|unfold strlen in *; simpl; lia|].
  run Hp. rewrite !Forall_cons in Hts. destruct Hts as (_ & _ & [Hhost _] & Hpath).
  eapply main_connect_ok; try done. eapply Forall_impl; [done|]. by intros ? [].
Qed.

(** [send_request] asks at most six times.  It succeeds when [send] takes
    the whole message in one of the first six calls, and every call before
    that one has put its part of the message on the wire again. *)
Theorem send_request_retries sends msg :
  strlen msg < 2 ^ 31 -> (6 <= length sends)%nat ->
  Forall (fun r => -1 <= r <= strlen msg) sends ->
  let tried := until (strlen msg) (take 6 sends) in
  send_request sends msg =
  Ok (if decide (last tried = Some (strlen msg)) then NO_ERR else SOCK_ERR_WRITE,
      concat ((fun r => take (Z.to_nat r) msg) <$> tried)).
Proof.
  intros Hm Hl Hs. apply (send_loop_ok sends msg 0); [done|unfold CNT_RETRIES; lia..|done].
Qed.
End client.

(** An allocator with 16 bytes to spare, and one whose nodes have room. *)
Definition roomy_malloc (n : Z) : option (list Z) :=
  if n <? 2 ^ 62 then Some (replicate (Z.to_nat (n + 16)) 7) else None.

Lemma roomy_allocates : allocates roomy_malloc.
Proof.
  intros n b. unfold roomy_malloc. destruct (Z.ltb_spec n (2 ^ 62)); [|done].
  intros [= <-]. rewrite length_replicate. lia.
Qed.

Definition roomy_node (n : Z) : option (list Z) := Some [9; 9; 0].

Lemma requests_text_witness :
  exists b,
    make_get_request roomy_malloc (Some (bytes_of "ya.ru")) (Some (bytes_of "a")) init =
    Ok ((NO_ERR, 1), with_string
      (bytes_of "GET /aHTTP/1.1" ++ crlf ++ bytes_of "Host: ya.ru" ++ crlf ++
       bytes_of "Connection: close" ++ crlf ++ crlf) b init).
Proof.
  destruct (requests_text roomy_malloc (replicate 21 7) (bytes_of "ya.ru") (bytes_of "a") (bytes_of "x") init)
    as [H _]; [exact roomy_allocates|done| |apply (bool_decide_unpack _); by vm_compute..| | | |].
  - split; [done|]. intros. apply lookup_empty.
  - by vm_compute.
  - by vm_compute.
  - by vm_compute.
  - exists (default [] (roomy_malloc (strlen (get_text (bytes_of "ya.ru") (bytes_of "a")) + 1))).
    rewrite H. by vm_compute.
Defined.

Lemma send_request_retries_witness :
  send_request [1; -1; 2; 0; 0; 0] [71; 69] = Ok (NO_ERR, [71; 71; 69]).
Proof.
  rewrite (send_request_retries [1; -1; 2; 0; 0; 0] [71; 69]);
    [by vm_compute|by vm_compute|simpl; lia|apply (bool_decide_unpack _); by vm_compute].
Defined.

Definition sample_net : net :=
  mk_net (Some [mk_addr (-1) true; mk_addr 4 false; mk_addr 5 true]) [] [] (replicate 4096 0).

Lemma main_prints_request_witness :
  exists s' o1 o2,
    main roomy_malloc roomy_node (Ok 1) sample_net
      [bytes_of "client"; bytes_of "GET";
       join_slash [bytes_of "http:"; []; bytes_of "ya.ru"; bytes_of "index"]] init = Ok (0, s') /\
    heap s' = ∅ /\ out s' = o1 ++ get_text (bytes_of "ya.ru") (bytes_of "index") ++ [10] ++ o2.
Proof.
  apply (main_prints_request roomy_malloc roomy_node (Ok 1) 16 9 9 1 [] sample_net
    (bytes_of "client") (bytes_of "http:") [] (bytes_of "ya.ru") [bytes_of "index"]
    [mk_addr (-1) true; mk_addr 4 false] (mk_addr 5 true) []); try done.
  - intros n Hn. eexists. unfold roomy_malloc. rewrite (proj2 (Z.ltb_lt _ _)) by lia.
    split; [done|]. rewrite length_replicate. lia.
  - exact roomy_allocates.
  - apply (bool_decide_unpack _). by vm_compute.
  - by repeat constructor.
Defined.
