(* ===== verification/Widgets.v ===== *)
(** * Widgets: an assembly line of five threads

    Models [src/pthreads-problems/problem-5/solution.c]: three threads make
    parts, one joins two of them, one makes the widgets, and four semaphores
    hand the parts over.  A step is one call of a thread, of [main] or the
    arrival of the signal; the pauses are left to the interleaving. *)

From S2P Require Import Prelude.
Open Scope Z_scope.

Inductive thread := makeA | makeB | makeAB | makeC | makeWidget.
Inductive sem := a_sem | b_sem | widget_sem_1 | widget_sem_2.

#[export] Instance thread_eq_dec : EqDecision thread.
Proof. solve_decision. Defined.
#[export] Instance sem_eq_dec : EqDecision sem.
Proof. solve_decision. Defined.

(** The calls of a thread: the [puts] that reports a part, the semaphores. *)
Inductive call := Ready | Post (s : sem) | Wait (s : sem).

#[export] Instance call_eq_dec : EqDecision call.
Proof. solve_decision. Defined.

(** The body of the loop of each thread. *)
Definition body (t : thread) : list call :=
  match t with
  | makeA => [Ready; Post a_sem]
  | makeB => [Ready; Post b_sem]
  | makeAB => [Wait a_sem; Wait b_sem; Ready; Post widget_sem_1]
  | makeC => [Ready; Post widget_sem_2]
  | makeWidget => [Wait widget_sem_1; Wait widget_sem_2; Ready]
  end.

(** At the test of the loop, inside its body, or after [pthread_exit]. *)
Inductive pc := Test | At (rest : list call) | Ended.

(** What [sem_post] does not go beyond. *)
Definition SEM_VALUE_MAX : Z := 2 ^ 31 - 1.

Record config := mk_config {
  at_ : thread -> pc;
  value : sem -> Z;
  ready : thread -> Z;       (* parts reported so far *)
  exit_signal : bool;
  joined : nat               (* threads [main] has waited for *)
}.

Definition upd {A B} `{EqDecision A} (f : A -> B) (k : A) (v : B) : A -> B :=
  fun k' => if decide (k' = k) then v else f k'.

Definition with_pc (c : config) (t : thread) (p : pc) : config :=
  mk_config (upd (at_ c) t p) (value c) (ready c) (exit_signal c) (joined c).
Definition with_value (c : config) (s : sem) (v : Z) : config :=
  mk_config (at_ c) (upd (value c) s v) (ready c) (exit_signal c) (joined c).

(** After the last call of the body comes the test. *)
Definition behind (rest : list call) : pc :=
  match rest with [] => Test | _ => At rest end.

(** One call of a thread; nothing when it is blocked or has ended. *)
Definition run (c : config) (t : thread) : option config :=
  match at_ c t with
  | Test => Some (with_pc c t (if exit_signal c then Ended else At (body t)))
  | At (Ready :: rest) =>
      Some (mk_config (upd (at_ c) t (behind rest)) (value c)
              (upd (ready c) t (ready c t + 1)) (exit_signal c) (joined c))
  | At (Post s :: rest) =>
      let v := if value c s =? SEM_VALUE_MAX then value c s else value c s + 1 in
      Some (with_value (with_pc c t (behind rest)) s v)
  | At (Wait s :: rest) =>
      if 0 <? value c s then Some (with_value (with_pc c t (behind rest)) s (value c s - 1))
      else None
  | At [] => Some (with_pc c t Test)
  | Ended => None
  end.

Definition sigint_handler (c : config) : config :=
  mk_config (at_ c) (value c) (ready c) true (joined c).

(** [main] waits for the threads in this order. *)
Definition joins : list thread := [makeA; makeB; makeAB; makeC; makeWidget].

Definition main (c : config) : option config :=
  match joins !! joined c with
  | Some t =>
      match at_ c t with
      | Ended => Some (mk_config (at_ c) (value c) (ready c) (exit_signal c) (S (joined c)))
      | _ => None
      end
  | None => None
  end.

Inductive action := Run (t : thread) | Join | Signal.

Definition exec (c : config) (a : action) : option config :=
  match a with
  | Run t => run c t
  | Join => main c
  | Signal => Some (sigint_handler c)
  end.

(** All semaphores are 0 and all threads created. *)
Definition initial : config := mk_config (fun _ => Test) (fun _ => 0) (fun _ => 0) false 0.

Inductive reachable : config -> Prop :=
| reach_init : reachable initial
| reach_step c a c' : reachable c -> exec c a = Some c' -> reachable c'.

Fixpoint execs (c : config) (l : list action) : option config :=
  match l with [] => Some c | a :: l => c ← exec c a; execs c l end.

Lemma execs_reachable c l c' : reachable c -> execs c l = Some c' -> reachable c'.
Proof.
  revert c. induction l as [|a l IH]; simpl; intros c Hr H; [by simplify_eq|].
  destruct (exec c a) as [c1|] eqn:E; simpl in H; [|done]. eapply IH; [|done].
  by eapply reach_step.
Qed.

(** ** Accounting *)

Definition nb (b : bool) : Z := if b then 1 else 0.

(** The calls left in this round of the loop. *)
Definition rest_of (p : pc) : list call := match p with At r => r | _ => [] end.
Definition calls_left (c : config) (t : thread) (k : call) : bool :=
  existsb (fun k' => match k', k with
    | Ready, Ready => true
    | Post s, Post s' | Wait s, Wait s' => bool_decide (s = s')
    | _, _ => false end) (rest_of (at_ c t)).

Definition producer (s : sem) : thread :=
  match s with
  | a_sem => makeA | b_sem => makeB | widget_sem_1 => makeAB | widget_sem_2 => makeC
  end.
Definition consumer (s : sem) : thread :=
  match s with a_sem | b_sem => makeAB | _ => makeWidget end.

(** Parts reported and handed over; parts taken, reported or not. *)
Definition posted (c : config) (s : sem) : Z :=
  ready c (producer s)
  - nb (calls_left c (producer s) (Post s) && negb (calls_left c (producer s) Ready)).
Definition taken (c : config) (s : sem) : Z :=
  ready c (consumer s)
  + nb (calls_left c (consumer s) Ready && negb (calls_left c (consumer s) (Wait s))).

Record inv (c : config) : Prop := {
  inv_pc : forall t, match at_ c t with At r => r <> [] /\ r `suffix_of` body t | _ => True end;
  inv_ready : forall t, 0 <= ready c t;
  inv_value : forall s, 0 <= value c s;
  inv_sem : forall s, value c s + taken c s <= posted c s /\
    (posted c s <= SEM_VALUE_MAX -> value c s + taken c s = posted c s)
}.

Lemma widgets_inv_initial : inv initial.
Proof. by split. Qed.

(** The places a thread can be at. *)
Definition places (t : thread) : list pc :=
  match t with
  | makeA => [At [Ready; Post a_sem]; At [Post a_sem]]
  | makeB => [At [Ready; Post b_sem]; At [Post b_sem]]
  | makeAB => [At [Wait a_sem; Wait b_sem; Ready; Post widget_sem_1];
               At [Wait b_sem; Ready; Post widget_sem_1];
               At [Ready; Post widget_sem_1]; At [Post widget_sem_1]]
  | makeC => [At [Ready; Post widget_sem_2]; At [Post widget_sem_2]]
  | makeWidget => [At [Wait widget_sem_1; Wait widget_sem_2; Ready];
                   At [Wait widget_sem_2; Ready]; At [Ready]]
  end.

Lemma suffixes {A} (r l : list A) : r `suffix_of` l -> exists n, r = drop n l.
Proof. intros [k ->]. exists (length k). by rewrite drop_app_length. Qed.

Lemma inv_place c t : inv c -> at_ c t ∈ Test :: Ended :: places t.
Proof.
  intros Hi. pose proof (inv_pc _ Hi t) as Hp. destruct (at_ c t) as [|r|]; [set_solver| |set_solver].
  destruct Hp as [Hne [n Hn]%suffixes]. subst r.
  destruct t; do 5 (destruct n as [|n]; [simpl in *; set_solver|]); simpl in Hne;
    by rewrite drop_nil in Hne || done.
Qed.

Lemma upd_eq {A B} `{EqDecision A} (f : A -> B) k v : upd f k v k = v.
Proof. unfold upd. by rewrite decide_True. Qed.
Lemma upd_ne {A B} `{EqDecision A} (f : A -> B) k k' v : k' <> k -> upd f k v k' = f k'.
Proof. intros H. unfold upd. by rewrite decide_False. Qed.

(** A step of [t] changes the place of [t] only. *)
Lemma inv_update c t p (v : sem -> Z) (r : thread -> Z) :
  inv c -> p ∈ Test :: Ended :: places t -> (forall t, 0 <= r t) -> (forall s, 0 <= v s) ->
  let c' := mk_config (upd (at_ c) t p) v r (exit_signal c) (joined c) in
  (forall s, v s + taken c' s <= posted c' s /\
     (posted c' s <= SEM_VALUE_MAX -> v s + taken c' s = posted c' s)) ->
  inv c'.
Proof.
  intros Hi Hp Hn Hv c' Hs. split; simpl; [|done..].
  intros t'. destruct (decide (t' = t)) as [->|]; [|rewrite upd_ne by done; by apply inv_pc].
  rewrite upd_eq. destruct t; simpl in Hp;
    repeat (apply elem_of_cons in Hp as [->|Hp];
      [done || (split; [done|]; apply (bool_decide_unpack _); by vm_compute)|]);
    by apply elem_of_nil in Hp.
Qed.

Lemma upd_nonneg {A} `{EqDecision A} (f : A -> Z) k v :
  (forall x, 0 <= f x) -> 0 <= v -> forall x, 0 <= upd f k v x.
Proof. intros Hf Hv x. unfold upd. by case_decide. Qed.

Lemma taken_nonneg c s : inv c -> 0 <= taken c s.
Proof.
  intros Hi. pose proof (inv_ready c Hi (consumer s)). unfold taken, nb. destruct (_ && _); lia.
Qed.

(** The accounting of every semaphore, when a thread leaves a known place. *)
Ltac account Hi Hat Hs :=
  let s := fresh "s" in
  intros s; generalize (taken_nonneg _ s Hi) (Hs s);
  unfold posted, taken, calls_left; destruct s;
  cbn [at_ value ready producer consumer];
  repeat first [rewrite upd_eq | rewrite upd_ne by done];
  rewrite ?Hat; try destruct (exit_signal _); simpl; unfold SEM_VALUE_MAX; zcmp; lia.

Lemma run_inv c t c' : inv c -> run c t = Some c' -> inv c'.
Proof.
  intros Hi Hr. pose proof (inv_place c t Hi) as Hp. unfold run in Hr.
  pose proof (inv_ready c Hi) as Hn. pose proof (inv_value c Hi) as Hv.
  pose proof (inv_sem c Hi) as Hs. pose proof (Hn t) as Hnt.
  pose proof (Hv a_sem). pose proof (Hv b_sem).
  pose proof (Hv widget_sem_1). pose proof (Hv widget_sem_2).
  destruct t; simpl in Hp; repeat (apply elem_of_cons in Hp as [Hp|Hp]);
    try (by apply elem_of_nil in Hp); rewrite Hp in Hr; simpl in Hr;
    try match type of Hr with context [0 <? value c ?s] => destruct (Z.ltb_spec 0 (value c s)) end;
    simplify_eq.
  all: unfold with_value, with_pc in *; cbn [at_ value ready exit_signal joined].
  all: apply inv_update; [done|try destruct (exit_signal c); set_solver| | |].
  all: try done; try (apply upd_nonneg; [done|zcmp; lia]).
  all: account Hi Hp Hs.
Qed.

Lemma widgets_reachable_inv c : reachable c -> inv c.
Proof.
  induction 1 as [|c a c' _ IH Hx]; [apply widgets_inv_initial|]. destruct a as [t| |]; simpl in Hx.
  - by eapply run_inv.
  - unfold main in Hx. repeat case_match; simplify_eq. destruct IH. by split.
  - simplify_eq. destruct IH. by split.
Qed.

(** ** After the signal *)

Definition steps_left (p : pc) : nat :=
  match p with Test => 1 | At r => S (length r) | Ended => 0 end.

Definition threads : list thread := joins.
Definition budget (c : config) : nat :=
  (sum_list ((fun t => steps_left (at_ c t)) <$> threads) + (5 - joined c))%nat.

Lemma budget_pc (f : thread -> pc) t p :
  (steps_left p < steps_left (f t))%nat ->
  (sum_list ((fun t' => steps_left (upd f t p t')) <$> threads) <
   sum_list ((fun t' => steps_left (f t')) <$> threads))%nat.
Proof.
  intros H. destruct t; cbn -[upd]; repeat first [rewrite upd_eq | rewrite upd_ne by done]; lia.
Qed.

Lemma budget_step c a c' :
  inv c -> exit_signal c = true -> a <> Signal -> exec c a = Some c' ->
  (budget c' < budget c)%nat /\ exit_signal c' = true.
Proof.
  intros Hi Hx Ha H. unfold budget. destruct a as [t| |]; [| |done]; simpl in H.
  - unfold run in H. rewrite Hx in H. pose proof (inv_pc c Hi t) as Hp.
    assert (Hb : forall r k, at_ c t = At (k :: r) ->
      (steps_left (behind r) < steps_left (at_ c t))%nat) by (intros [|? ?] k ->; simpl; lia).
    destruct (at_ c t) as [|[|k r]|] eqn:E; [|by destruct Hp| |done].
    + simplify_eq. simpl. split; [|done]. pose proof (budget_pc (at_ c) t Ended) as Hb'.
      rewrite E in Hb'. simpl in Hb'. lia.
    + specialize (Hb r k eq_refl). rewrite <- E in Hb.
      pose proof (budget_pc (at_ c) t (behind r) Hb) as Hb'.
      destruct k as [|s|s]; [| |destruct (0 <? value c s)]; simplify_eq; simpl in *; split; done || lia.
  - unfold main in H. destruct (joins !! joined c) as [t|] eqn:Hj; [|done].
    apply lookup_lt_Some in Hj. simpl in Hj. destruct (at_ c t); simplify_eq. simpl.
    split; [lia|done].
Qed.

Lemma budget_bound c : inv c -> (budget c <= 23)%nat.
Proof.
  intros Hi. unfold budget.
  assert (Hb : forall t, (steps_left (at_ c t) <= S (length (body t)))%nat).
  { intros t. pose proof (inv_pc c Hi t) as Hp. destruct (at_ c t) as [|r|]; simpl; [lia| |lia].
    destruct Hp as [_ Hr]. apply suffix_length in Hr. lia. }
  simpl. pose proof (Hb makeA). pose proof (Hb makeB). pose proof (Hb makeAB).
  pose proof (Hb makeC). pose proof (Hb makeWidget). simpl in *. lia.
Qed.

(** The joiner holds an A and waits for a B when the signal comes. *)
Definition hang_trace : list action :=
  [Run makeA; Run makeA; Run makeA; Run makeAB; Run makeAB; Signal;
   Run makeA; Run makeB; Run makeC; Run makeWidget; Join; Join].

(** ** Properties *)

(** C30: the semaphores hand over every part once.  In every interleaving there
    are at most as many widgets as joined parts and as C parts, and at most as
    many joined parts as A parts and as B parts; and as long as no semaphore
    has reached its limit nothing is stranded: when the joiner and the widget
    maker both wait, there are exactly as many widgets as the scarcest of the
    three parts handed over allows. *)
Theorem widgets_match_parts c :
  reachable c ->
  ready c makeWidget <= Z.min (ready c makeAB) (ready c makeC) /\
  ready c makeAB <= Z.min (ready c makeA) (ready c makeB) /\
  ((forall s, posted c s <= SEM_VALUE_MAX) ->
   at_ c makeAB <> Ended -> run c makeAB = None ->
   at_ c makeWidget <> Ended -> run c makeWidget = None ->
   ready c makeWidget =
     Z.min (posted c widget_sem_2) (Z.min (posted c a_sem) (posted c b_sem))).
Proof.
  intros Hr%widgets_reachable_inv. pose proof (inv_place c makeAB Hr) as Hab.
  pose proof (inv_place c makeWidget Hr) as Hw. pose proof (inv_value c Hr) as Hv.
  pose proof (inv_sem c Hr) as Hs. unfold run.
  pose proof (Hv a_sem). pose proof (Hv b_sem). pose proof (Hv widget_sem_1). pose proof (Hv widget_sem_2).
  pose proof (Hs a_sem). pose proof (Hs b_sem). pose proof (Hs widget_sem_1). pose proof (Hs widget_sem_2).
  split_and!; [clear Hab| clear Hw|intros Hmax HnA HA HnW HW].
  - unfold taken, posted, nb in *; simpl in *. repeat case_match; lia.
  - unfold taken, posted, nb in *; simpl in *. repeat case_match; lia.
  - assert (Hall : forall s, value c s + taken c s = posted c s) by (intros s; by apply Hs, Hmax).
    pose proof (Hall a_sem). pose proof (Hall b_sem). pose proof (Hall widget_sem_1). pose proof (Hall widget_sem_2).
    unfold taken, posted, calls_left in *; cbn [producer consumer] in *.
    simpl in Hab, Hw.
    repeat (apply elem_of_cons in Hab as [Hab|Hab]); try (by apply elem_of_nil in Hab);
      rewrite Hab in *; try done;
      repeat (apply elem_of_cons in Hw as [Hw|Hw]); try (by apply elem_of_nil in Hw);
      rewrite Hw in *; try done; simpl in *; zcmp; try done; lia.
Qed.

(** after the signal the program comes to rest within 23 steps, whatever the
    interleaving; but it need not end: there is an interleaving after which the
    joiner waits for a part nobody will make, [main] waits for the joiner, and
    no thread can move. *)
Theorem widgets_shutdown :
  (forall c l c', reachable c -> exit_signal c = true -> Signal ∉ l ->
     execs c l = Some c' -> (length l <= 23)%nat) /\
  (exists c, reachable c /\ exit_signal c = true /\ (joined c < 5)%nat /\
     at_ c makeAB = At [Wait b_sem; Ready; Post widget_sem_1] /\
     forall a, a <> Signal -> exec c a = None).
Proof.
  split.
  - intros c l c' Hr%widgets_reachable_inv Hx Hl He. transitivity (budget c); [|by apply budget_bound].
    revert c Hr Hx He. induction l as [|a l IH]; simpl; intros c Hr Hx He; [lia|].
    apply not_elem_of_cons in Hl as [Ha Hl].
    destruct (exec c a) as [c1|] eqn:E; simpl in He; [|done].
    destruct (budget_step c a c1) as [Hb Hx1]; [done..|by intros ->|done|].
    assert (Hi1 : inv c1).
    { destruct a as [t| |]; simpl in E; [by eapply run_inv| |done].
      unfold main in E. repeat case_match; simplify_eq. destruct Hr. by split. }
    specialize (IH Hl c1 Hi1 Hx1 He). lia.
  - destruct (execs initial hang_trace) as [c|] eqn:E; [|by vm_compute in E].
    exists c. split; [by eapply execs_reachable; [constructor|]|].
    vm_compute in E. simplify_eq. split_and!; [done|simpl; lia|done|].
    intros [[]| |] Ha; done.
Qed.

(** One widget from one part of each kind. *)
Definition one_widget : list action :=
  [Run makeA; Run makeA; Run makeA; Run makeB; Run makeB; Run makeB; Run makeC; Run makeC; Run makeC;
   Run makeAB; Run makeAB; Run makeAB; Run makeAB; Run makeAB; Run makeAB;
   Run makeWidget; Run makeWidget; Run makeWidget; Run makeWidget; Run makeWidget].

Lemma widgets_match_parts_witness :
  exists c, execs initial one_widget = Some c /\ ready c makeWidget = 1 /\
    1 = Z.min (posted c widget_sem_2) (Z.min (posted c a_sem) (posted c b_sem)).
Proof.
  destruct (execs initial one_widget) as [c|] eqn:E; [|by vm_compute in E].
  exists c. split; [done|].
  destruct (widgets_match_parts c) as (_ & _ & H); [by eapply execs_reachable; [constructor|]|].
  vm_compute in E. simplify_eq. split; [done|].
  apply H; try done. by intros [].
Defined.
