(* ===== verification/PingPong.v ===== *)
(** * PingPong: two threads that print in turns

    Models [src/pthreads-problems/problem-1/solution.c], where a mutex, a
    condition variable and a flag order the two threads, and its variant
    [task-13/solution.c], where two semaphores do.  A step is one call of one
    thread.  Both programs have finitely many states, so what holds of every
    execution is found by exploring them: the checker below computes the states
    and is proved sound. *)

From S2P Require Import Prelude.

(** ** Programs with finitely many states *)

(** What the two programs have in common: an initial state, the steps of their
    threads, what the environment may do to them, what has been printed, the
    end, and a count of the work done. *)
Class Program (St Line : Type) := {
  start : St;
  moves : St -> list St;
  intrusions : St -> list St;
  printed : St -> list Line;
  ended : St -> bool;
  work : St -> nat
}.

Section checker.
Context {St Line : Type} `{!EqDecision St, !EqDecision Line, !Program St Line}.

Definition successors (s : St) : list St := moves s ++ intrusions s.

Inductive reach : St -> Prop :=
| reach_start : reach start
| reach_next s s' : reach s -> s' ∈ successors s -> reach s'.

(** The threads take [n] steps, with [k] intrusions. *)
Inductive runs : nat -> nat -> St -> St -> Prop :=
| runs_nil s : runs 0 0 s s
| runs_cons n k s s' s'' : s' ∈ moves s -> runs n k s' s'' -> runs (S n) k s s''
| runs_intruded n k s s' s'' : s' ∈ intrusions s -> runs n k s' s'' -> runs n (S k) s s''.

(** The states found from [todo], new ones first. *)
Fixpoint explore (fuel : nat) (todo seen : list St) : list St :=
  match fuel, todo with
  | S fuel, s :: todo =>
      if decide (s ∈ seen) then explore fuel todo seen
      else explore fuel (successors s ++ todo) (s :: seen)
  | _, _ => seen
  end.

Definition closed (l : list St) : bool :=
  bool_decide (start ∈ l) &&
  forallb (fun s => forallb (fun s' => bool_decide (s' ∈ l)) (successors s)) l.

Lemma closed_sound l s : closed l = true -> reach s -> s ∈ l.
Proof.
  unfold closed. rewrite andb_true_iff, bool_decide_eq_true, forallb_forall.
  intros [Hs Hl] Hr. induction Hr as [|s s' _ IH Hs']; [done|].
  apply list_elem_of_In, Hl in IH. rewrite forallb_forall in IH.
  apply list_elem_of_In, IH in Hs'. by apply bool_decide_eq_true in Hs'.
Qed.

(** One state: it has printed a beginning of one of the [texts], all of it when
    it is at its end; it can move unless it is at its end; every move is work,
    and an intrusion undoes at most [loss] of it. *)
Definition orderly (texts : list (list Line)) (bound loss : nat) (s : St) : bool :=
  existsb (fun text => bool_decide (printed s = take (length (printed s)) text)) texts &&
  (if ended s then bool_decide (printed s ∈ texts) else bool_decide (moves s <> [])) &&
  forallb (fun s' => work s <? work s')%nat (moves s) &&
  forallb (fun s' => work s <=? work s' + loss)%nat (intrusions s) && (work s <=? bound)%nat.

Definition checked (texts : list (list Line)) (bound loss : nat) (l : list St) : bool :=
  closed l && forallb (orderly texts bound loss) l.

(** The contract of a program that prints one of the [texts] under every
    schedule. *)
Record prints (texts : list (list Line)) (bound loss : nat) : Prop := {
  prints_prefix : forall s, reach s -> exists text, text ∈ texts /\ printed s `prefix_of` text;
  prints_progress : forall s, reach s -> ended s = false -> exists s', s' ∈ moves s;
  prints_bound : forall n k s s', reach s -> runs n k s s' -> (n <= bound + loss * k)%nat;
  prints_all : forall s, reach s -> ended s = true -> printed s ∈ texts
}.

Lemma runs_work texts bound loss n k s s' :
  (forall s, reach s -> orderly texts bound loss s = true) -> reach s -> runs n k s s' ->
  (n + work s <= bound + loss * k)%nat.
Proof.
  intros Ho Hr Hn.
  induction Hn as [s|n k s s' s'' Hm _ IH|n k s s' s'' Hm _ IH]; pose proof (Ho _ Hr) as H;
    unfold orderly in H; rewrite !andb_true_iff, !forallb_forall, Nat.leb_le in H;
    destruct H as [[[_ Hw] Hi] Hb].
  - lia.
  - assert (Hr' : reach s') by (eapply reach_next; [exact Hr|]; apply elem_of_app; by left).
    specialize (IH Hr'). apply list_elem_of_In, Hw, Nat.ltb_lt in Hm. lia.
  - assert (Hr' : reach s') by (eapply reach_next; [exact Hr|]; apply elem_of_app; by right).
    specialize (IH Hr'). apply list_elem_of_In, Hi, Nat.leb_le in Hm. lia.
Qed.

Lemma checked_sound texts bound loss l : checked texts bound loss l = true -> prints texts bound loss.
Proof.
  intros Hc. assert (Ho : forall s, reach s -> orderly texts bound loss s = true).
  { intros s Hr. unfold checked in Hc. apply andb_true_iff in Hc as [Hc Hl].
    apply (closed_sound l) in Hr; [|done]. rewrite forallb_forall in Hl.
    by apply Hl, list_elem_of_In. }
  assert (Hb := runs_work texts bound loss). unfold orderly in Ho. split.
  - intros s Hr. specialize (Ho s Hr). rewrite !andb_true_iff, existsb_exists in Ho.
    destruct Ho as [[[[(text & Hin & Ht%bool_decide_eq_true) _] _] _] _].
    exists text. split; [by apply list_elem_of_In|]. rewrite Ht. apply prefix_take.
  - intros s Hr He. specialize (Ho s Hr). rewrite He, !andb_true_iff, !bool_decide_eq_true in Ho.
    destruct Ho as [[[[_ Hm] _] _] _]. destruct (moves s) as [|s' ?]; [done|]. exists s'. by left.
  - intros n k s s' Hr Hn. specialize (Hb n k s s' Ho Hr Hn). lia.
  - intros s Hr He. specialize (Ho s Hr). rewrite He, !andb_true_iff, !bool_decide_eq_true in Ho.
    by destruct Ho as [[[[_ Hm] _] _] _].
Qed.
End checker.

(** ** What is printed *)

(** A line of a loop, the line behind the loop with the address of [line_num],
    the line of [main] behind the join. *)
Inductive line :=
| Main_line (line_num : Z) | Thread_line (line_num : Z)
| Main_pointer | Thread_pointer | Terminated_normally.

#[export] Instance line_eq_dec : EqDecision line.
Proof. solve_decision. Defined.

(** Line [k] of [main], then line [k] of the thread. *)
Definition turns (n : nat) : list line :=
  concat ((fun k => [Main_line (Z.of_nat k); Thread_line (Z.of_nat k)]) <$> seq 1 n).

(** Ten of them; only the place of [main]'s line behind its loop is open. *)
Definition in_turns : list (list line) :=
  (fun l => turns 9 ++ Main_line 10 :: l) <$>
  [[Main_pointer; Thread_line 10; Thread_pointer];
   [Thread_line 10; Main_pointer; Thread_pointer];
   [Thread_line 10; Thread_pointer; Main_pointer]].

Inductive who := Main | Thread.

#[export] Instance who_eq_dec : EqDecision who.
Proof. solve_decision. Defined.

Definition other (w : who) : who := match w with Main => Thread | Thread => Main end.

(** ** The condition variable *)

(** Where a thread is: at the lock, at the test of the flag, inside
    [pthread_cond_wait], at each call of the critical section, behind its
    loop, at the join or the return, at the last line of [main], at the end. *)
Inductive place := Lock | Check | Waiting | Print | Set_flag | Signal | Unlock | Behind | Join | Report | Gone.

#[export] Instance place_eq_dec : EqDecision place.
Proof. solve_decision. Defined.

Record state := mk_state {
  pm : place; pt : place;            (* the two threads *)
  im : nat; it : nat;                (* their loop counters *)
  cond_predictate : bool;
  m : option who;                    (* who holds the mutex *)
  out : list line
}.

#[export] Instance state_eq_dec : EqDecision state.
Proof. solve_decision. Defined.

Definition at_ (c : state) (w : who) : place := match w with Main => pm c | Thread => pt c end.
Definition go (c : state) (w : who) (p : place) : state :=
  match w with
  | Main => mk_state p (pt c) (im c) (it c) (cond_predictate c) (m c) (out c)
  | Thread => mk_state (pm c) p (im c) (it c) (cond_predictate c) (m c) (out c)
  end.
Definition set_m (c : state) (o : option who) : state :=
  mk_state (pm c) (pt c) (im c) (it c) (cond_predictate c) o (out c).

(** The condition of the inner loop. *)
Definition must_wait (c : state) (w : who) : bool :=
  match w with Main => cond_predictate c | Thread => negb (cond_predictate c) end.

Definition say (c : state) (l : line) : state :=
  mk_state (pm c) (pt c) (im c) (it c) (cond_predictate c) (m c) (out c ++ [l]).

Definition write (c : state) (w : who) : state :=
  say c (match w with
         | Main => Main_line (Z.of_nat (im c) + 1)
         | Thread => Thread_line (Z.of_nat (it c) + 1)
         end).

Definition set_flag (c : state) (w : who) : state :=
  mk_state (pm c) (pt c) (im c) (it c) (match w with Main => true | Thread => false end) (m c) (out c).

(** The end of a round: back to the lock or behind the loop. *)
Definition next_round (c : state) (w : who) : state :=
  let n := S (match w with Main => im c | Thread => it c end) in
  let p := if (n <? 10)%nat then Lock else Behind in
  match w with
  | Main => mk_state p (pt c) n (it c) (cond_predictate c) (m c) (out c)
  | Thread => mk_state (pm c) p (im c) n (cond_predictate c) (m c) (out c)
  end.

(** One call of thread [w]; behind its loop each prints a line, then the thread
    returns and [main] waits for it; [res] is 0 then. *)
Definition exec (c : state) (w : who) : option state :=
  match at_ c w with
  | Lock => match m c with None => Some (go (set_m c (Some w)) w Check) | Some _ => None end
  | Check => if must_wait c w then Some (go (set_m c None) w Waiting) else Some (go c w Print)
  | Waiting => None
  | Print => Some (go (write c w) w Set_flag)
  | Set_flag => Some (go (set_flag c w) w Signal)
  | Signal =>
      let c := if decide (at_ c (other w) = Waiting) then go c (other w) Lock else c in
      Some (go c w Unlock)
  | Unlock => Some (next_round (set_m c None) w)
  | Behind => Some (go (say c (match w with Main => Main_pointer | Thread => Thread_pointer end)) w Join)
  | Join =>
      match w with
      | Thread => Some (go c Thread Gone)
      | Main => if decide (pt c = Gone) then Some (go c Main Report) else None
      end
  | Report => Some (go (say c Terminated_normally) w Gone)
  | Gone => None
  end.

(** [pthread_cond_wait] may return without a signal. *)
Definition spurious (c : state) (w : who) : option state :=
  if decide (at_ c w = Waiting) then Some (go c w Lock) else None.

Definition progress (p : place) : nat :=
  match p with
  | Lock => 0 | Check => 1 | Waiting => 2 | Print => 3 | Set_flag => 4 | Signal => 5
  | Unlock => 10 | Behind => 0 | Join => 1 | Report => 2 | Gone => 3
  end.

Definition start_condition : state := mk_state Lock Lock 0 0 false None [].

#[export] Instance with_condition : Program state line := {
  start := start_condition;
  moves c := omap (exec c) [Main; Thread];
  intrusions c := omap (spurious c) [Main; Thread];
  printed := out;
  ended c := bool_decide (pm c = Gone);
  work c := (20 * (im c + it c) + progress (pm c) + progress (pt c))%nat
}.

(** ** The semaphores *)

Inductive sem_place := SWait | SPrint | SPost | SBehind | SJoin | SGone.

#[export] Instance sem_place_eq_dec : EqDecision sem_place.
Proof. solve_decision. Defined.

Record sem_state := mk_sem {
  qm : sem_place; qt : sem_place;
  jm : nat; jt : nat;
  sem1 : nat; sem2 : nat;
  sout : list line
}.

#[export] Instance sem_state_eq_dec : EqDecision sem_state.
Proof. solve_decision. Defined.

(** One call of [main], which waits on [sem2] and posts [sem1]. *)
Definition sem_main (c : sem_state) : option sem_state :=
  let upd q j s1 s2 o := Some (mk_sem q (qt c) j (jt c) s1 s2 o) in
  match qm c with
  | SWait => match sem2 c with O => None | S n => upd SPrint (jm c) (sem1 c) n (sout c) end
  | SPrint => upd SPost (jm c) (sem1 c) (sem2 c) (sout c ++ [Main_line (Z.of_nat (jm c) + 1)])
  | SPost => upd (if (S (jm c) <? 10)%nat then SWait else SBehind) (S (jm c)) (S (sem1 c)) (sem2 c) (sout c)
  | SBehind => upd SJoin (jm c) (sem1 c) (sem2 c) (sout c ++ [Main_pointer])
  | SJoin => if decide (qt c = SGone) then upd SGone (jm c) (sem1 c) (sem2 c) (sout c) else None
  | SGone => None
  end.

(** One call of the thread, the other way round. *)
Definition sem_thread (c : sem_state) : option sem_state :=
  let upd q j s1 s2 o := Some (mk_sem (qm c) q (jm c) j s1 s2 o) in
  match qt c with
  | SWait => match sem1 c with O => None | S n => upd SPrint (jt c) n (sem2 c) (sout c) end
  | SPrint => upd SPost (jt c) (sem1 c) (sem2 c) (sout c ++ [Thread_line (Z.of_nat (jt c) + 1)])
  | SPost => upd (if (S (jt c) <? 10)%nat then SWait else SBehind) (S (jt c)) (sem1 c) (S (sem2 c)) (sout c)
  | SBehind => upd SJoin (jt c) (sem1 c) (sem2 c) (sout c ++ [Thread_pointer])
  | SJoin => upd SGone (jt c) (sem1 c) (sem2 c) (sout c)
  | SGone => None
  end.

Definition sem_progress (p : sem_place) : nat :=
  match p with SWait => 0 | SPrint => 1 | SPost => 2 | SBehind => 0 | SJoin => 1 | SGone => 2 end.

Definition start_semaphores : sem_state := mk_sem SWait SWait 0 0 0 1 [].

#[export] Instance with_semaphores : Program sem_state line := {
  start := start_semaphores;
  moves c := omap (fun f => f c) [sem_main; sem_thread];
  intrusions _ := [];
  printed := sout;
  ended c := bool_decide (qm c = SGone);
  work c := (3 * (jm c + jt c) + sem_progress (qm c) + sem_progress (qt c))%nat
}.

(** ** Properties *)

(** C33: both programs print in turns.  Under every interleaving, and however
    often a wait on the condition variable ends without a signal, what has been
    printed is a beginning of: the twenty lines in turns, and behind its own
    tenth line each thread's line with a pointer, [main]'s before, between or
    after the last two of the thread; for the first program then the line that
    the thread has terminated normally (the second is followed up to the join).
    Until [main] is through some thread can move, and when it is through all
    these lines are there.  The threads take at most 406 steps of their own,
    and two more for each wait that ends without a signal (64 with semaphores,
    where no wait does). *)
Theorem both_print_in_turns :
  @prints state line _ ((fun text => text ++ [Terminated_normally]) <$> in_turns) 406 2 /\
  @prints sem_state line _ in_turns 64 0.
Proof. split; apply (checked_sound _ _ _ (explore 4000 [start] [])); by vm_compute. Qed.
