(* ===== verification/Primitives.v ===== *)
(** * Primitives: a spin lock, a barrier and a semaphore

    Models [src/c++/synchronization-primitive/primitives.cpp], each primitive
    with any number of threads that use it.  A step is one access to the shared
    state by one thread; [std::unique_lock] locks where it is declared and
    unlocks at the end of the function, and a wait on a condition variable may
    end without a notification. *)

From S2P Require Import Prelude CInt.
Open Scope Z_scope.

(** ** Counting threads *)

Section counting.
Context {pc : Type}.
Implicit Types (l : list pc) (P : pc -> bool).

Definition nb (b : bool) : Z := if b then 1 else 0.

(** The number of threads at a place in [P]. *)
Fixpoint count P l : Z :=
  match l with [] => 0 | p :: l => nb (P p) + count P l end.

Lemma tally_nonneg P l : 0 <= count P l.
Proof. induction l as [|p l IH]; simpl; [done|]. unfold nb. destruct (P p); lia. Qed.

Lemma tally_insert P l i p q :
  l !! i = Some p -> count P (<[i := q]> l) = count P l - nb (P p) + nb (P q).
Proof.
  revert i. induction l as [|x l IH]; intros [|i] Hi; simpl in *; simplify_eq; [lia|].
  rewrite (IH i Hi). lia.
Qed.

Lemma tally_pos P l i p : l !! i = Some p -> P p = true -> 1 <= count P l.
Proof.
  revert i. induction l as [|x l IH]; intros [|i] Hi HP; simpl in *; simplify_eq.
  - rewrite HP. pose proof (tally_nonneg P l). unfold nb. lia.
  - specialize (IH i Hi HP). unfold nb. destruct (P x); lia.
Qed.

Lemma tally_zero P l : count P l = 0 <-> Forall (fun p => P p = false) l.
Proof.
  induction l as [|x l IH]; simpl; [done|]. rewrite Forall_cons, <- IH.
  pose proof (tally_nonneg P l). unfold nb. destruct (P x); split; intros; [lia|naive_solver|lia|lia].
Qed.

Lemma tally_one P l : 1 <= count P l -> exists i p, l !! i = Some p /\ P p = true.
Proof.
  induction l as [|x l IH]; simpl; [lia|]. destruct (P x) eqn:E; [by exists 0%nat, x|].
  simpl. intros (i & p & ? & ?)%IH. by exists (S i), p.
Qed.

Lemma tally_map P l f : (forall p, P (f p) = P p) -> count P (f <$> l) = count P l.
Proof.
  intros H. induction l as [|x l IH]; [done|]. rewrite fmap_cons. cbn [count]. by rewrite H, IH.
Qed.

Lemma tally_or P Q l :
  (forall p, P p && Q p = false) -> count (fun p => P p || Q p) l = count P l + count Q l.
Proof.
  intros H. induction l as [|x l IH]; simpl; [done|]. rewrite IH. specialize (H x).
  destruct (P x), (Q x); simpl in *; (done || lia).
Qed.

Lemma tally_replicate P n p : P p = false -> count P (replicate n p) = 0.
Proof. intros H. induction n as [|n IH]; simpl; [done|]. by rewrite H, IH. Qed.

Lemma tally_le P Q l : (forall p, P p = true -> Q p = true) -> count P l <= count Q l.
Proof.
  intros H. induction l as [|x l IH]; simpl; [done|]. specialize (H x).
  destruct (P x), (Q x); simpl; try lia; naive_solver.
Qed.
End counting.

(** ** The spin lock *)

Module Spinlock.

(** Outside, in the loop of [lock], between [lock] and [unlock]. *)
Inductive spin_pc := Outside | Spinning | Inside.

Record spinlock := mk_state { flag : bool; threads : list spin_pc }.

Definition spin_go (c : spinlock) (f : bool) (i : nat) (p : spin_pc) : spinlock :=
  mk_state f (<[i := p]> (threads c)).

(** Thread [i] calls [lock], spins once, or calls [unlock]. *)
Definition spin_exec (c : spinlock) (i : nat) : option spinlock :=
  match threads c !! i with
  | Some Outside => Some (spin_go c (flag c) i Spinning)
  | Some Spinning => Some (spin_go c true i (if flag c then Spinning else Inside))
  | Some Inside => Some (spin_go c false i Outside)
  | None => None
  end.

Inductive spin_reachable (f : bool) (n : nat) : spinlock -> Prop :=
| reach_init : spin_reachable f n (mk_state f (replicate n Outside))
| reach_step c i c' : spin_reachable f n c -> spin_exec c i = Some c' -> spin_reachable f n c'.

Definition inside (p : spin_pc) : bool := match p with Inside => true | _ => false end.

Lemma inside_flag f n c :
  spin_reachable f n c ->
  (if f then flag c = true /\ count inside (threads c) = 0
   else count inside (threads c) = nb (flag c)).
Proof.
  induction 1 as [|c i c' _ IH Hx].
  { destruct f; simpl; [split; [done|]|]; by rewrite tally_replicate. }
  unfold spin_exec, spin_go in Hx. destruct (threads c !! i) as [p|] eqn:Hi; [|done].
  destruct f.
  - destruct IH as [Hf Hc]. assert (Hp : inside p = false).
    { destruct (inside p) eqn:E; [|done]. pose proof (tally_pos _ _ _ _ Hi E). lia. }
    destruct p; simplify_eq; simpl; rewrite (tally_insert _ _ _ _ _ Hi), Hf; simpl; (lia || done).
  - pose proof (tally_nonneg inside (threads c)) as Hn.
    destruct p; simplify_eq; simpl; rewrite (tally_insert _ _ _ _ _ Hi); simpl;
      destruct (flag c); simpl in *; try lia.
    pose proof (tally_pos inside _ _ _ Hi eq_refl). lia.
Qed.
End Spinlock.

(** ** The barrier *)

Module Barrier.

(** Before the call; at the lock; holding it before and after [count] is
    decremented; inside [cv.wait]; at the lock again; returned. *)
Inductive barrier_pc := Idle | Lock | Arrive | Check | Wait | Relock | Passed.

#[export] Instance pc_eq_dec : EqDecision barrier_pc.
Proof. solve_decision. Defined.

Record barrier := mk_state { count_ : Z; mtx : option nat; threads : list barrier_pc }.

Definition notify_all (p : barrier_pc) : barrier_pc := match p with Wait => Relock | p => p end.

(** A step of [arrive_and_wait] by thread [i]. *)
Definition arrive_and_wait (c : barrier) (i : nat) : option barrier :=
  let go k o p := Some (mk_state k o (<[i := p]> (threads c))) in
  match threads c !! i with
  | Some Idle => go (count_ c) (mtx c) Lock
  | Some Lock => match mtx c with None => go (count_ c) (Some i) Arrive | Some _ => None end
  | Some Arrive =>
      if 0 <? count_ c then
        Some (mk_state (count_ c - 1) (mtx c) (<[i := Check]> (notify_all <$> threads c)))
      else go (count_ c) (mtx c) Check
  | Some Check => if 0 <? count_ c then go (count_ c) None Wait else go (count_ c) None Passed
  | Some Relock => match mtx c with None => go (count_ c) (Some i) Check | Some _ => None end
  | Some Wait | Some Passed | None => None
  end.

Definition barrier_spurious (c : barrier) (i : nat) : option barrier :=
  match threads c !! i with
  | Some Wait => Some (mk_state (count_ c) (mtx c) (<[i := Relock]> (threads c)))
  | _ => None
  end.

Inductive barrier_reachable (n : nat) (k : Z) : barrier -> Prop :=
| reach_init : barrier_reachable n k (mk_state k None (replicate n Idle))
| reach_step c i c' : barrier_reachable n k c -> arrive_and_wait c i = Some c' -> barrier_reachable n k c'
| reach_spurious c i c' : barrier_reachable n k c -> barrier_spurious c i = Some c' -> barrier_reachable n k c'.

(** Threads that have decremented the count, that wait, that hold the mutex. *)
Definition arrived (p : barrier_pc) : bool := match p with Check | Wait | Relock | Passed => true | _ => false end.
Definition waits (p : barrier_pc) : bool := match p with Wait => true | _ => false end.
Definition passed (p : barrier_pc) : bool := match p with Passed => true | _ => false end.
Definition holds (p : barrier_pc) : bool := match p with Arrive | Check => true | _ => false end.

Record barrier_inv (n : nat) (k : Z) (c : barrier) : Prop := {
  inv_length : length (threads c) = n;
  inv_arrived : k <= count_ c + count arrived (threads c);
  inv_exact : 0 < count_ c -> count_ c + count arrived (threads c) = k;
  inv_passed : 0 < count_ c -> count passed (threads c) = 0;
  inv_waits : count_ c <= 0 -> count waits (threads c) = 0;
  inv_mtx : forall i p, threads c !! i = Some p -> holds p = true <-> mtx c = Some i;
  inv_holder : forall i, mtx c = Some i -> is_Some (threads c !! i)
}.

(** Thread [i] moves from [p] to [q], and nothing else happens to the others
    than that they are notified. *)
Lemma threads_insert (f : barrier_pc -> barrier_pc) l i p q :
  (f = id \/ f = notify_all) -> l !! i = Some p -> f p = p ->
  let l' := <[i := q]> (f <$> l) in
  length l' = length l /\
  count arrived l' = count arrived l - nb (arrived p) + nb (arrived q) /\
  count passed l' = count passed l - nb (passed p) + nb (passed q) /\
  (forall j, is_Some (l' !! j) <-> is_Some (l !! j)) /\
  (forall j p', l' !! j = Some p' ->
     j = i /\ p' = q \/ j <> i /\ exists p'', l !! j = Some p'' /\ holds p'' = holds p').
Proof.
  intros Hf Hi Hp l'. unfold l'.
  assert (Hi' : (f <$> l) !! i = Some p) by (rewrite list_lookup_fmap, Hi; simpl; by rewrite Hp).
  rewrite length_insert, length_fmap, !(tally_insert _ _ _ _ _ Hi').
  rewrite !tally_map by (intros []; by destruct Hf as [-> | ->]).
  split_and!; [done..| |].
  - intros j. rewrite !lookup_lt_is_Some, length_insert, length_fmap. done.
  - intros j p' Hj. destruct (decide (j = i)) as [->|Hne].
    + rewrite list_lookup_insert_eq in Hj; [naive_solver|]. by eapply lookup_lt_Some.
    + right. split; [done|]. rewrite list_lookup_insert_ne, list_lookup_fmap in Hj by done.
      destruct (l !! j) as [p''|]; [|done]. simpl in Hj. simplify_eq. exists p''. split; [done|].
      by destruct Hf as [-> | ->], p''.
Qed.

Lemma barrier_inv_move n k c f i p q k' o' :
  barrier_inv n k c -> (f = id \/ f = notify_all) -> threads c !! i = Some p -> f p = p ->
  let l' := <[i := q]> (f <$> threads c) in
  let a := count arrived (threads c) - nb (arrived p) + nb (arrived q) in
  k <= k' + a -> (0 < k' -> k' + a = k) ->
  (0 < k' -> count passed (threads c) - nb (passed p) + nb (passed q) = 0) ->
  (k' <= 0 -> count waits l' = 0) ->
  (o' = mtx c /\ holds p = holds q \/ mtx c = None /\ o' = Some i /\ holds q = true
   \/ o' = None /\ holds p = true /\ holds q = false) ->
  barrier_inv n k (mk_state k' o' l').
Proof.
  intros Hi Hf Hp Hfp l' a H1 H2 H3 H4 Ho.
  destruct (threads_insert f (threads c) i p q Hf Hp Hfp) as (Hlen & Ha & Hpa & Hdom & Hj).
  fold l' in Hlen, Ha, Hpa, Hdom, Hj.
  split; simpl; [by rewrite Hlen, (inv_length _ _ _ Hi)|by rewrite Ha|by rewrite Ha|by rewrite Hpa|done| |].
  - pose proof (inv_mtx _ _ _ Hi) as Hm. intros j p' [[-> ->]|(Hne & p'' & Hj' & <-)]%Hj.
    + rewrite (Hm i p Hp) in Ho. specialize (Hm i p Hp).
      destruct Ho as [(-> & Hpq)|[(_ & -> & ->)|(-> & _ & ->)]]; [|done..]. by rewrite <- Hpq.
    + rewrite (Hm j p'' Hj').
      destruct Ho as [(-> & _)|[(-> & -> & _)|(-> & Hh & _)]]; [done|naive_solver|].
      apply (Hm i p Hp) in Hh. rewrite Hh. naive_solver.
  - intros j Hj'. apply Hdom.
    destruct Ho as [(-> & _)|[(_ & -> & _)|(-> & _ & _)]]; [|simplify_eq; by rewrite Hp|done].
    by apply (inv_holder _ _ _ Hi).
Qed.

Lemma count_waits_id l i p q :
  l !! i = Some p -> waits q = false -> count waits l = 0 -> count waits (<[i := q]> (id <$> l)) = 0.
Proof.
  intros Hi Hq Hl. rewrite list_fmap_id, (tally_insert _ _ _ _ _ Hi), Hq.
  pose proof (proj1 (tally_zero waits l) Hl) as Hall. rewrite Forall_lookup in Hall.
  rewrite (Hall i p Hi), Hl. done.
Qed.

Lemma count_waits_notified l i q :
  (i < length l)%nat -> waits q = false -> count waits (<[i := q]> (notify_all <$> l)) = 0.
Proof.
  intros Hi Hq. apply tally_zero, Forall_insert; [|done].
  apply Forall_fmap, Forall_true. by intros [].
Qed.

(** A move whose accounting is plain. *)
Ltac shift_inv Hi Hp :=
  eapply barrier_inv_move; [exact Hi|by auto|exact Hp|done|..]; simpl;
  [lia|lia|lia|intros; try (by eapply count_waits_id; eauto); try lia|auto].

Lemma barrier_exec_inv n k c i c' : barrier_inv n k c -> arrive_and_wait c i = Some c' -> barrier_inv n k c'.
Proof.
  intros Hi Hx. unfold arrive_and_wait in Hx. destruct (threads c !! i) as [p|] eqn:Hp; [|done].
  pose proof (inv_arrived _ _ _ Hi) as H1. pose proof (inv_exact _ _ _ Hi) as H2.
  pose proof (inv_passed _ _ _ Hi) as H3. pose proof (inv_waits _ _ _ Hi) as H4.
  assert (Hid : forall q k' o', mk_state k' o' (<[i := q]> (threads c)) =
    mk_state k' o' (<[i := q]> (id <$> threads c))) by (intros; by rewrite list_fmap_id).
  destruct p; try done.
  - simplify_eq. rewrite Hid. shift_inv Hi Hp.
  - destruct (mtx c) eqn:Hm; simplify_eq. rewrite Hid. shift_inv Hi Hp.
  - destruct (Z.ltb_spec 0 (count_ c)); simplify_eq; [|rewrite Hid; shift_inv Hi Hp].
    shift_inv Hi Hp. apply count_waits_notified; [by eapply lookup_lt_Some|done].
  - destruct (Z.ltb_spec 0 (count_ c)); simplify_eq; rewrite Hid; shift_inv Hi Hp.
  - destruct (mtx c) eqn:Hm; simplify_eq. rewrite Hid. shift_inv Hi Hp.
Qed.

Lemma barrier_spurious_inv n k c i c' : barrier_inv n k c -> barrier_spurious c i = Some c' -> barrier_inv n k c'.
Proof.
  intros Hi Hx. unfold barrier_spurious in Hx. destruct (threads c !! i) as [[]|] eqn:Hp; simplify_eq.
  pose proof (inv_arrived _ _ _ Hi) as H1. pose proof (inv_exact _ _ _ Hi) as H2.
  pose proof (inv_passed _ _ _ Hi) as H3. pose proof (inv_waits _ _ _ Hi) as H4.
  rewrite <- (list_fmap_id (threads c)). shift_inv Hi Hp.
Qed.

Lemma barrier_reachable_inv n k c : barrier_reachable n k c -> barrier_inv n k c.
Proof.
  induction 1; [|by eapply barrier_exec_inv|by eapply barrier_spurious_inv]. split; simpl.
  - apply length_replicate.
  - rewrite tally_replicate; [lia|done].
  - rewrite tally_replicate; [lia|done].
  - by rewrite tally_replicate.
  - by rewrite tally_replicate.
  - intros i p [-> _]%lookup_replicate. done.
  - done.
Qed.

(** When no thread can move, every one of them waits or has passed. *)
Lemma barrier_stuck n k c :
  barrier_inv n k c -> (forall i, arrive_and_wait c i = None) ->
  Forall (fun p => p = Wait \/ p = Passed) (threads c).
Proof.
  intros Hi Hs. apply Forall_lookup. intros i p Hp.
  assert (Hm : mtx c = None).
  { destruct (mtx c) as [j|] eqn:Hm; [|done]. destruct (inv_holder _ _ _ Hi j Hm) as [q Hq].
    pose proof (proj2 (inv_mtx _ _ _ Hi j q Hq) Hm) as Hh. specialize (Hs j). unfold arrive_and_wait in Hs.
    rewrite Hq in Hs. destruct q; try done; by destruct (0 <? count_ c). }
  specialize (Hs i). unfold arrive_and_wait in Hs. rewrite Hp, Hm in Hs.
  destruct p; auto; try done; by destruct (0 <? count_ c).
Qed.
End Barrier.

(** ** The semaphore *)

Module Semaphore.

(** Between calls; in [acquire] at the lock, at the test, at the decrement,
    inside [cv.wait], at the lock again; in [release] at the lock, at the
    increment, at the notification. *)
Inductive sem_pc := Idle | ALock | ATest | ADec | AWait | ARelock | RLock | RInc | RNotify.

#[export] Instance pc_eq_dec : EqDecision sem_pc.
Proof. solve_decision. Defined.

(** [acquires] and [releases] count the completed changes of [cnt]. *)
Record semaphore := mk_state {
  cnt : Z; mtx : option nat; threads : list sem_pc; acquires : Z; releases : Z }.

Definition with_threads (c : semaphore) (o : option nat) (l : list sem_pc) : semaphore :=
  mk_state (cnt c) o l (acquires c) (releases c).

Definition waits (p : sem_pc) : bool := match p with AWait => true | _ => false end.

(** A step of thread [i]; [notify_one] wakes thread [j], which has to be one
    that waits, unless there is none.  [cnt] is an [int]. *)
Definition acquire_release (c : semaphore) (i j : nat) : outcome (option semaphore) :=
  let go o p := Ok (Some (with_threads c o (<[i := p]> (threads c)))) in
  match threads c !! i with
  | Some ALock => match mtx c with None => go (Some i) ATest | Some _ => Ok None end
  | Some ATest => if cnt c =? 0 then go None AWait else go (mtx c) ADec
  | Some ADec =>
      let? k := add_int (cnt c) (-1) in
      Ok (Some (mk_state k None (<[i := Idle]> (threads c)) (acquires c + 1) (releases c)))
  | Some ARelock => match mtx c with None => go (Some i) ATest | Some _ => Ok None end
  | Some RLock => match mtx c with None => go (Some i) RInc | Some _ => Ok None end
  | Some RInc =>
      let? k := add_int (cnt c) 1 in
      Ok (Some (mk_state k (mtx c) (<[i := RNotify]> (threads c)) (acquires c) (releases c + 1)))
  | Some RNotify =>
      if decide (threads c !! j = Some AWait) then
        Ok (Some (with_threads c None (<[i := Idle]> (<[j := ARelock]> (threads c)))))
      else if decide (Forall (fun p => waits p = false) (threads c)) then go None Idle
      else Ok None
  | Some Idle | Some AWait | None => Ok None
  end.

(** A thread between calls calls [acquire] or [release]. *)
Definition sem_call (c : semaphore) (i : nat) (p : sem_pc) : option semaphore :=
  match threads c !! i with
  | Some Idle => if decide (p = ALock \/ p = RLock) then
                   Some (with_threads c (mtx c) (<[i := p]> (threads c))) else None
  | _ => None
  end.

Definition sem_spurious (c : semaphore) (i : nat) : option semaphore :=
  match threads c !! i with
  | Some AWait => Some (with_threads c (mtx c) (<[i := ARelock]> (threads c)))
  | _ => None
  end.

Inductive sem_reachable (n : nat) (k : Z) : semaphore -> Prop :=
| reach_init : sem_reachable n k (mk_state k None (replicate n Idle) 0 0)
| reach_step c i j c' : sem_reachable n k c -> acquire_release c i j = Ok (Some c') -> sem_reachable n k c'
| reach_call c i p c' : sem_reachable n k c -> sem_call c i p = Some c' -> sem_reachable n k c'
| reach_spurious c i c' : sem_reachable n k c -> sem_spurious c i = Some c' -> sem_reachable n k c'.

(** Threads on their way to use or to announce a unit; threads that are sure of
    one; threads that hold the mutex. *)
Definition coming (p : sem_pc) : bool := match p with ATest | ADec | ARelock | RNotify => true | _ => false end.
Definition sure (p : sem_pc) : bool := match p with ADec => true | _ => false end.
Definition holds (p : sem_pc) : bool := match p with ATest | ADec | RInc | RNotify => true | _ => false end.

Record sem_inv (k : Z) (c : semaphore) : Prop := {
  inv_cnt : cnt c = k + releases c - acquires c;
  inv_nonneg : 0 <= cnt c <= INT_MAX;
  inv_sure : 1 <= count sure (threads c) -> 0 < cnt c;
  inv_wakes : 1 <= count waits (threads c) -> cnt c <= count coming (threads c);
  inv_one : count holds (threads c) = nb (bool_decide (is_Some (mtx c)));
  inv_mtx : forall i, mtx c = Some i -> exists p, threads c !! i = Some p /\ holds p = true
}.

(** Thread [i] moves from [p] to [q] with the mutex going from [mtx c] to [o]. *)
Definition handed (o o' : option nat) (i : nat) (p q : sem_pc) : Prop :=
  (o' = o /\ holds p = holds q) \/
  (o = None /\ o' = Some i /\ holds p = false /\ holds q = true) \/
  (o' = None /\ holds p = true /\ holds q = false).

Lemma handed_inv k c i p q o' :
  sem_inv k c -> threads c !! i = Some p -> handed (mtx c) o' i p q ->
  let l' := <[i := q]> (threads c) in
  count holds l' = nb (bool_decide (is_Some o')) /\
  forall j, o' = Some j -> exists p', l' !! j = Some p' /\ holds p' = true.
Proof.
  intros Hi Hp Ho l'. unfold l'. rewrite (tally_insert _ _ _ _ _ Hp), (inv_one _ _ Hi).
  pose proof (inv_mtx _ _ Hi) as Hm. pose proof (inv_one _ _ Hi) as H1.
  assert (Hpos : holds p = true -> 1 <= count holds (threads c)) by (by intros; eapply tally_pos).
  assert (Hlt : (i < length (threads c))%nat) by (by eapply lookup_lt_Some).
  destruct Ho as [(-> & Hpq)|[(Hn & -> & H2 & H3)|(-> & H2 & H3)]].
  - rewrite Hpq. split; [lia|]. intros j Hj. destruct (Hm j Hj) as (p' & Hj' & Hh).
    destruct (decide (j = i)) as [->|]; [|exists p'; by rewrite list_lookup_insert_ne].
    exists q. rewrite list_lookup_insert_eq by done. simplify_eq. by rewrite <- Hpq.
  - rewrite Hn, H2, H3. split; [done|]. intros j [= ->]. exists q. by rewrite list_lookup_insert_eq.
  - rewrite H2, H3. specialize (Hpos H2). rewrite H1 in Hpos. split; [|done].
    destruct (bool_decide _); simpl in *; lia.
Qed.

Lemma sem_inv_move k c i p q k' o' a r :
  sem_inv k c -> threads c !! i = Some p -> handed (mtx c) o' i p q ->
  k' = k + r - a -> 0 <= k' <= INT_MAX ->
  (1 <= count sure (threads c) - nb (sure p) + nb (sure q) -> 0 < k') ->
  (1 <= count waits (threads c) - nb (waits p) + nb (waits q) ->
   k' <= count coming (threads c) - nb (coming p) + nb (coming q)) ->
  sem_inv k (mk_state k' o' (<[i := q]> (threads c)) a r).
Proof.
  intros Hi Hp Ho H1 H2 H3 H4. destruct (handed_inv k c i p q o' Hi Hp Ho) as [H5 H6].
  split; simpl; [done|done| | |done|done]; by rewrite !(tally_insert _ _ _ _ _ Hp).
Qed.

(** Only the holder of the mutex is past the test. *)
Lemma sure_alone k c i p :
  sem_inv k c -> threads c !! i = Some p -> holds p = true -> sure p = false ->
  count sure (threads c) = 0.
Proof.
  intros Hi Hp Hh Hs. pose proof (inv_one _ _ Hi) as H1.
  set (Q := fun p => bool_decide (p = ATest) || bool_decide (p = RInc) || bool_decide (p = RNotify)).
  assert (Hsum : count (fun p => sure p || Q p) (threads c) = count sure (threads c) + count Q (threads c)).
  { apply tally_or. by intros []. }
  assert (HQ : Q p = true) by (by destruct p).
  pose proof (tally_pos _ _ _ _ Hp HQ). pose proof (tally_nonneg sure (threads c)).
  assert (Hle : count (fun p => sure p || Q p) (threads c) = count holds (threads c)).
  { clear. induction (threads c) as [|[] l IH]; simpl; [done|..]; by rewrite IH. }
  unfold nb in H1. destruct (bool_decide _); lia.
Qed.
(** A move whose accounting is plain. *)
Ltac shift_inv Hi Hp :=
  unfold with_threads; eapply sem_inv_move; [exact Hi|exact Hp|..]; simpl;
  [unfold handed; simpl; intuition congruence|lia|lia|lia|lia].

Lemma add_int_inv {A} a b (f : Z -> outcome A) r :
  (let? v := add_int a b in f v) = Ok r -> exists v, v = a + b /\ a + b <= INT_MAX /\ f v = Ok r.
Proof.
  unfold add_int. destruct (Z.leb_spec (- 2 ^ 31) (a + b)), (Z.leb_spec (a + b) INT_MAX); simpl; try done.
  intros E. by exists (a + b).
Qed.

Lemma sem_exec_inv k c i j c' : sem_inv k c -> acquire_release c i j = Ok (Some c') -> sem_inv k c'.
Proof.
  intros Hi Hx. unfold acquire_release in Hx. destruct (threads c !! i) as [p|] eqn:Hp; [|done].
  pose proof (inv_cnt _ _ Hi) as H1. pose proof (inv_nonneg _ _ Hi) as H2.
  pose proof (inv_sure _ _ Hi) as H3. pose proof (inv_wakes _ _ Hi) as H4.
  pose proof (tally_nonneg coming (threads c)) as H5.
  assert (H6 : count sure (threads c) <= 1).
  { pose proof (inv_one _ _ Hi). pose proof (tally_le sure holds (threads c)) as Hle.
    unfold nb in *. destruct (bool_decide _); (etransitivity; [apply Hle; by intros []|lia]). }
  destruct p; try done.
  - destruct (mtx c) eqn:Hm; simplify_eq. shift_inv Hi Hp.
  - pose proof (sure_alone _ _ _ _ Hi Hp eq_refl eq_refl) as H7.
    pose proof (tally_pos coming _ _ _ Hp eq_refl) as H8.
    destruct (Z.eqb_spec (cnt c) 0); simplify_eq; shift_inv Hi Hp.
  - pose proof (tally_pos sure _ _ _ Hp eq_refl) as H7. apply add_int_inv in Hx as (v & -> & Hv & Hx).
    simplify_eq. shift_inv Hi Hp.
  - destruct (mtx c) eqn:Hm; simplify_eq. shift_inv Hi Hp.
  - destruct (mtx c) eqn:Hm; simplify_eq. shift_inv Hi Hp.
  - apply add_int_inv in Hx as (v & -> & Hv & Hx). simplify_eq. shift_inv Hi Hp.
  - case_decide as Hj.
    + simplify_eq. assert (Hij : i <> j) by congruence.
      assert (Hm : sem_inv k (with_threads c (mtx c) (<[j := ARelock]> (threads c)))).
      { shift_inv Hi Hj. }
      assert (Hp' : threads (with_threads c (mtx c) (<[j := ARelock]> (threads c))) !! i = Some RNotify)
        by (simpl; by rewrite list_lookup_insert_ne).
      pose proof (inv_wakes _ _ Hm) as H7. simpl in H7.
      rewrite !(tally_insert _ _ _ _ _ Hj) in H7. simpl in H7.
      apply (sem_inv_move k _ i RNotify Idle (cnt c) None (acquires c) (releases c) Hm Hp'); simpl.
      * unfold handed. simpl. auto.
      * lia.
      * lia.
      * rewrite (tally_insert _ _ _ _ _ Hj). simpl. lia.
      * rewrite !(tally_insert _ _ _ _ _ Hj). simpl. lia.
    + case_decide as Hn; [|done]. apply tally_zero in Hn. simplify_eq. shift_inv Hi Hp.
Qed.
Lemma sem_call_inv k c i p c' : sem_inv k c -> sem_call c i p = Some c' -> sem_inv k c'.
Proof.
  intros Hi Hx. unfold sem_call in Hx. destruct (threads c !! i) as [[]|] eqn:Hp; try done.
  case_decide as Hd; simplify_eq. pose proof (inv_cnt _ _ Hi) as H1.
  pose proof (inv_nonneg _ _ Hi) as H2. pose proof (inv_sure _ _ Hi) as H3.
  pose proof (inv_wakes _ _ Hi) as H4. destruct Hd as [-> | ->]; shift_inv Hi Hp.
Qed.

Lemma sem_spurious_inv k c i c' : sem_inv k c -> sem_spurious c i = Some c' -> sem_inv k c'.
Proof.
  intros Hi Hx. unfold sem_spurious in Hx. destruct (threads c !! i) as [[]|] eqn:Hp; simplify_eq.
  pose proof (inv_cnt _ _ Hi) as H1. pose proof (inv_nonneg _ _ Hi) as H2.
  pose proof (inv_sure _ _ Hi) as H3. pose proof (inv_wakes _ _ Hi) as H4. shift_inv Hi Hp.
Qed.

Lemma sem_reachable_inv n k c : 0 <= k <= INT_MAX -> sem_reachable n k c -> sem_inv k c.
Proof.
  intros Hk. induction 1; [|by eapply sem_exec_inv|by eapply sem_call_inv|by eapply sem_spurious_inv].
  split; simpl; [lia|done|..]; rewrite ?tally_replicate by done; done || lia.
Qed.

(** The count overflows in a release only. *)
Lemma sem_faults k c i j f :
  sem_inv k c ->
  acquire_release c i j = Fault f <->
  f = Indeterminate /\ threads c !! i = Some RInc /\ cnt c = INT_MAX.
Proof.
  intros Hi. pose proof (inv_nonneg _ _ Hi) as H. unfold acquire_release.
  destruct (threads c !! i) as [p|]; [|split; [done|naive_solver]].
  destruct p; try (split; [by repeat case_match|naive_solver]).
  - unfold add_int. rewrite (proj2 (Z.leb_le _ _)), (proj2 (Z.leb_le _ _)) by (unfold INT_MAX in *; lia).
    split; [done|naive_solver].
  - unfold add_int. rewrite (proj2 (Z.leb_le (- 2 ^ 31) _)) by lia.
    destruct (Z.leb_spec (cnt c + 1) INT_MAX); simpl; split; [done|intros (_ & _ & ?); lia| |].
    + intros [= <-]. split_and!; [done|done|lia].
    + by intros (-> & _).
Qed.

(** When no thread can move on its own, every one is between calls or waits. *)
Lemma sem_stuck k c :
  sem_inv k c -> (forall i j, acquire_release c i j = Ok None) ->
  Forall (fun p => p = Idle \/ p = AWait) (threads c) /\ count coming (threads c) = 0.
Proof.
  intros Hi Hs. assert (Hn : forall i, threads c !! i <> Some RNotify).
  { intros i Hp. destruct (decide (Forall (fun p => waits p = false) (threads c))) as [Hw|Hw].
    - specialize (Hs i i). unfold acquire_release in Hs. rewrite Hp in Hs.
      rewrite decide_False in Hs by done. by rewrite decide_True in Hs.
    - rewrite <- tally_zero in Hw. pose proof (tally_nonneg waits (threads c)).
      destruct (tally_one waits (threads c)) as (j & q & Hj & Hq); [lia|].
      specialize (Hs i j). unfold acquire_release in Hs. rewrite Hp in Hs.
      destruct q; try done. by rewrite decide_True in Hs. }
  assert (Hm : mtx c = None).
  { destruct (mtx c) as [j|] eqn:Hm; [|done]. destruct (inv_mtx _ _ Hi j Hm) as (q & Hq & Hh).
    specialize (Hs j j). unfold acquire_release in Hs. rewrite Hq in Hs.
    destruct q; try done; [by destruct (cnt c =? 0)|by destruct (add_int _ _)..|by destruct (Hn j)]. }
  assert (Hall : Forall (fun p => p = Idle \/ p = AWait) (threads c)).
  { apply Forall_lookup. intros i p Hp. specialize (Hs i i). unfold acquire_release in Hs.
    rewrite Hp, Hm in Hs. destruct p; auto; try done; [by destruct (cnt c =? 0)|by destruct (add_int _ _)..|by destruct (Hn i)]. }
  split; [done|]. apply tally_zero. eapply Forall_impl; [exact Hall|]. by intros p [-> | ->].
Qed.
End Semaphore.

(** ** Properties *)

(** the spin lock excludes.  Whatever the number of threads and the
    interleaving, at most one thread is between [lock] and [unlock] when the
    flag starts clear; when it starts set, as the language allowed before
    C++20 for a flag nobody initialises, no thread ever gets inside. *)
Theorem spinlock_excludes f n c :
  Spinlock.spin_reachable f n c ->
  count Spinlock.inside (Spinlock.threads c) <= (if f then 0 else 1).
Proof.
  intros H%Spinlock.inside_flag. unfold nb in H. destruct f; [lia|].
  destruct (Spinlock.flag c); lia.
Qed.

(** C32: the barrier holds its threads back until enough have come, and then lets
    all of them go.  When a thread has passed, at least [k] threads have
    arrived; and when as many threads as the count use the barrier, an
    execution can only come to rest with every thread through: no notification
    is lost, also when waits end on their own. *)
Theorem barrier_releases_all n k c :
  Barrier.barrier_reachable n k c ->
  (1 <= count Barrier.passed (Barrier.threads c) ->
   k <= count Barrier.arrived (Barrier.threads c)) /\
  ((forall i, Barrier.arrive_and_wait c i = None) -> k <= Z.of_nat n ->
   Barrier.threads c = replicate n Barrier.Passed).
Proof.
  intros Hi%Barrier.barrier_reachable_inv.
  pose proof (Barrier.inv_arrived _ _ _ Hi) as H1. pose proof (Barrier.inv_exact _ _ _ Hi) as H2.
  pose proof (Barrier.inv_passed _ _ _ Hi) as H3. pose proof (Barrier.inv_waits _ _ _ Hi) as H4.
  pose proof (Barrier.inv_length _ _ _ Hi) as Hn.
  split; [destruct (decide (0 < Barrier.count_ c)); intros; lia|].
  intros Hs Hk. pose proof (Barrier.barrier_stuck _ _ _ Hi Hs) as Hall.
  assert (Hc : count Barrier.arrived (Barrier.threads c) = Z.of_nat n).
  { rewrite <- Hn. clear -Hall. induction Hall as [|p l [-> | ->] _ IH]; simpl; lia. }
  assert (Hw : count Barrier.waits (Barrier.threads c) = 0) by (apply H4; lia).
  apply tally_zero in Hw. symmetry. apply replicate_as_Forall. split; [done|].
  apply Forall_lookup. intros i p Hp. rewrite Forall_lookup in Hall, Hw.
  destruct (Hall i p Hp) as [-> | ->]; [by specialize (Hw i _ Hp)|done].
Qed.

(** C31: the semaphore counts, and loses no wake-up.  From an [int] that is not
    negative, acquisitions never outnumber the initial count and the releases,
    and the difference is what is left; it stays within an [int], and the only
    step without a meaning is a release at INT_MAX.  When no thread can move on
    its own, a thread waits only if nothing is left to acquire. *)
Theorem semaphore_counts n k c :
  0 <= k <= INT_MAX -> Semaphore.sem_reachable n k c ->
  Semaphore.cnt c = k + Semaphore.releases c - Semaphore.acquires c /\
  0 <= Semaphore.cnt c <= INT_MAX /\
  (forall i j f, Semaphore.acquire_release c i j = Fault f <->
     f = Indeterminate /\ Semaphore.threads c !! i = Some Semaphore.RInc /\ Semaphore.cnt c = INT_MAX) /\
  ((forall i j, Semaphore.acquire_release c i j = Ok None) ->
   Exists (fun p => p = Semaphore.AWait) (Semaphore.threads c) -> Semaphore.cnt c = 0).
Proof.
  intros Hk Hr. apply Semaphore.sem_reachable_inv in Hr as Hi; [|done].
  pose proof (Semaphore.inv_nonneg _ _ Hi) as H0.
  split_and!; [apply (Semaphore.inv_cnt _ _ Hi)|lia|lia|intros i j f; exact (Semaphore.sem_faults k c i j f Hi)|].
  intros Hs (p & Hp & ->)%Exists_exists.
  destruct (Semaphore.sem_stuck _ _ Hi Hs) as [_ Hc]. apply list_elem_of_lookup_1 in Hp as [i Hp].
  pose proof (tally_pos Semaphore.waits _ _ _ Hp eq_refl) as Hw.
  pose proof (Semaphore.inv_wakes _ _ Hi Hw). lia.
Qed.

(** ** Instances *)

Lemma spinlock_excludes_witness :
  exists c, Spinlock.spin_exec (Spinlock.mk_state false (replicate 2 Spinlock.Outside)) 0 = Some c /\
    count Spinlock.inside (Spinlock.threads c) <= 1.
Proof.
  eexists. split; [reflexivity|].
  apply (spinlock_excludes false 2).
  eapply Spinlock.reach_step with (i := 0%nat); [apply Spinlock.reach_init|reflexivity].
Defined.

(** Two threads go through a barrier for two. *)
Fixpoint barrier_run (c : Barrier.barrier) (l : list nat) : option Barrier.barrier :=
  match l with [] => Some c | i :: l => c ← Barrier.arrive_and_wait c i; barrier_run c l end.

Lemma barrier_run_reachable n k c l c' :
  Barrier.barrier_reachable n k c -> barrier_run c l = Some c' -> Barrier.barrier_reachable n k c'.
Proof.
  revert c. induction l as [|i l IH]; simpl; intros c Hr H; [by simplify_eq|].
  destruct (Barrier.arrive_and_wait c i) as [c1|] eqn:E; simpl in H; [|done].
  eapply IH; [by eapply Barrier.reach_step|done].
Qed.

Lemma barrier_releases_all_witness :
  exists c, barrier_run (Barrier.mk_state 2 None (replicate 2 Barrier.Idle))
      [0; 0; 0; 0; 1; 1; 1; 1; 0; 0]%nat = Some c /\
    Barrier.threads c = [Barrier.Passed; Barrier.Passed].
Proof.
  eexists. split; [reflexivity|]. apply (barrier_releases_all 2 2); [| |lia].
  - eapply (barrier_run_reachable _ _ _ [0; 0; 0; 0; 1; 1; 1; 1; 0; 0]%nat);
      [apply Barrier.reach_init|reflexivity].
  - by intros [|[|i]].
Defined.

Lemma semaphore_counts_witness :
  exists c, Semaphore.sem_reachable 1 0 c /\ Semaphore.threads c = [Semaphore.AWait] /\
    Semaphore.cnt c = 0.
Proof.
  assert (H : Semaphore.sem_reachable 1 0 (Semaphore.mk_state 0 None [Semaphore.AWait] 0 0)).
  { eapply Semaphore.reach_step with (i := 0%nat) (j := 0%nat);
      [eapply Semaphore.reach_step with (i := 0%nat) (j := 0%nat);
       [eapply Semaphore.reach_call with (i := 0%nat) (p := Semaphore.ALock);
        [apply Semaphore.reach_init|reflexivity]|reflexivity]|reflexivity]. }
  eexists. split; [exact H|]. split; [done|]. apply (semaphore_counts 1 0); [done|done| |].
  - by intros [|i] j.
  - by constructor.
Defined.
