(* ===== verification/LinearAlgebra.v ===== *)
(** * LinearAlgebra: Gaussian elimination and least squares

    Models [src/utils/math/linear_algebra]: matrix_utils.cpp,
    linear_system_solver.cpp and least_squares_solver.cpp.  The code is written
    over a type of scalars with the operations it uses on [double]; the
    instance at the end is IEEE binary64.  A matrix is the vector of its rows,
    and an access outside a vector is a fault.  The theorems are about exact
    arithmetic: scalars that form a field, with an [EPSILON] of 0. *)

From Stdlib Require Import Field SpecFloat QArith Qcanon.
From S2P Require Import Prelude.

(** ** Scalars *)

Class Scalar (F : Type) := {
  zero : F;
  one : F;
  minus_one : F;
  add : F -> F -> F;
  sub : F -> F -> F;
  mul : F -> F -> F;
  div : F -> F -> F;
  lt : F -> F -> bool;
  eqb : F -> F -> bool;
  EPSILON : F;
  round_int : F -> outcome F   (* [(double)(int64_t)round(num)] *)
}.

Section code.
Context {F : Type} `{!Scalar F}.

Abbreviation matrix := (list (list F)).

(** ** matrix_utils.cpp *)

Definition is_zero_limit (num : F) : F :=
  if lt (mul minus_one EPSILON) num && lt num EPSILON then zero else num.

Definition my_abs (num : F) : F := if lt num zero then mul num minus_one else num.

Definition get_limit (num : F) : outcome F :=
  let? int_part := round_int num in
  Ok (if lt (my_abs (sub num int_part)) EPSILON then int_part else num).

(** [v[i]] of a vector, its assignment, and the same for a matrix. *)
Definition at_ {A} (v : list A) (i : nat) : outcome A := of_option OutOfBounds (v !! i).
Definition put {A} (v : list A) (i : nat) (x : A) : outcome (list A) :=
  let? _ := at_ v i in Ok (<[i := x]> v).
Definition el (m : matrix) (r c : nat) : outcome F := let? row := at_ m r in at_ row c.
Definition set_el (m : matrix) (r c : nat) (x : F) : outcome matrix :=
  let? row := at_ m r in let? row := put row c x in put m r row.

(** [for (i = i; i < i + n; i++)] with a body that changes the matrix. *)
Fixpoint loop {A} (n i : nat) (body : nat -> A -> outcome A) (m : A) : outcome A :=
  match n with
  | O => Ok m
  | S n => let? m := body i m in loop n (S i) body m
  end.

Definition add_rows (m : matrix) (row_a row_b : nat) : outcome matrix :=
  let? a := at_ m row_a in
  loop (length a) 0 (fun i m =>
    let? y := el m row_b i in
    let? x := el m row_a i in
    set_el m row_b i (is_zero_limit (add y x))) m.

Definition fill_row (m : matrix) (row : nat) (diff_coeff : F) : outcome matrix :=
  let? r := at_ m row in
  loop (length r) 0 (fun i m =>
    let? x := el m row i in set_el m row i (mul x diff_coeff)) m.

Definition swap_rows (m : matrix) (row_a row_b : nat) : outcome matrix :=
  let? temp := at_ m row_b in
  let? a := at_ m row_a in
  let? m := put m row_b a in
  put m row_a temp.

Definition nonzero (x : F) : bool := negb (eqb (is_zero_limit x) zero).

Definition find_rank (m : matrix) (n cols : nat) : outcome nat :=
  loop n 0 (fun i rank =>
    let? all_zeros := loop cols 0 (fun j all_zeros =>
      let? x := el m i j in Ok (if nonzero x then false else all_zeros)) true in
    Ok (if all_zeros then rank else S rank)) 0.

Definition dot_product (vect1 vect2 : list F) : outcome F :=
  match vect1, vect2 with
  | [], _ | _, [] => Ok zero
  | _, _ =>
      loop (length vect1) 0 (fun i acc =>
        let? x := at_ vect1 i in
        let? y := at_ vect2 i in
        let? p := get_limit (mul x y) in
        get_limit (add acc p)) zero
  end.

(** Of an empty row the subtraction wraps around. *)
Definition get_vars_cnt (m : matrix) : outcome nat :=
  let? row := at_ m 0 in
  match length row with O => Fault OutOfBounds | S n => Ok n end.

Definition make_transpose_matrix (m : matrix) : outcome matrix :=
  let? row := at_ m 0 in
  loop (length row) 0 (fun i t =>
    loop (length m) 0 (fun j t => let? x := el m j i in set_el t i j x) t)
    (replicate (length row) (replicate (length m) zero)).

Fixpoint find_nonzero_from (n i : nat) (m : matrix) (col : nat) : outcome (option nat) :=
  match n with
  | O => Ok None
  | S n =>
      let? x := el m i col in
      if nonzero x then Ok (Some i) else find_nonzero_from n (S i) m col
  end.

Definition try_find_nonzero_el (m : matrix) (col : nat) : outcome (option nat) :=
  find_nonzero_from (length m - col) col m col.

(** [fuel] is the number of rows left; what is printed on the way is left out. *)
Fixpoint get_determinant_loop (fuel : nat) (m : matrix) (pos : nat) : outcome F :=
  if (S pos =? length m)%nat then el m pos pos
  else match fuel with
  | O => Fault OutOfBounds
  | S fuel =>
      let? x := el m pos pos in
      let? found :=
        (if nonzero x then Ok (Some (one, m))
         else let? p := try_find_nonzero_el m pos in
           match p with
           | None => Ok None
           | Some p => let? m := swap_rows m pos p in Ok (Some (mul one minus_one, m))
           end) in
      match found with
      | None => Ok zero
      | Some (determinant_sign, m) =>
          let? sub_determinant := el m pos pos in
          let? m := loop (length m - S pos) (S pos) (fun i m =>
            let? y := el m i pos in
            if nonzero y then
              let? x := el m pos pos in
              let? m := fill_row m pos (mul minus_one (div y x)) in
              add_rows m pos i
            else Ok m) m in
          let? d := get_determinant_loop fuel m (S pos) in
          Ok (mul (mul determinant_sign sub_determinant) d)
      end
  end.

Definition get_determinant (m : matrix) (pos : nat) : outcome F :=
  get_determinant_loop (length m - pos) m pos.

(** [input] are the numbers still to be read from [std::cin]; what is missing
    or not a number is read as 0. *)
Fixpoint read_row (row : list F) (input : list F) : list F * list F :=
  match row with
  | [] => ([], input)
  | _ :: row =>
      let (x, input) := match input with [] => (zero, []) | x :: input => (x, input) end in
      let (row, input) := read_row row input in (x :: row, input)
  end.
Fixpoint read_matrix (m : matrix) (input : list F) : matrix * list F :=
  match m with
  | [] => ([], input)
  | row :: m =>
      let (row, input) := read_row row input in
      let (m, input) := read_matrix m input in (row :: m, input)
  end.

(** ** linear_system_solver.cpp *)

Inductive verdict := CONSIST_AND_ONE_SOLUTION | CONSIST_AND_INF_SOLUTION | NOT_CONSIST.

(** One row of the loop below. *)
Definition eliminate (start_pos i : nat) (m : matrix) : outcome matrix :=
  let? x := el m i start_pos in
  if negb (nonzero x) then Ok m
  else
    let? p := el m start_pos start_pos in
    let diff_coeff := div p x in
    if negb (nonzero diff_coeff) then swap_rows m start_pos i
    else
      let? m := fill_row m i (mul minus_one diff_coeff) in
      add_rows m start_pos i.

Definition try_make_row_echelon_form (m : matrix) (start_pos : nat) : outcome matrix :=
  let? _ := el m start_pos start_pos in
  loop (length m - S start_pos) (S start_pos) (eliminate start_pos) m.

Definition find_xi (m : matrix) (row : nat) (res : list F) : outcome F :=
  let? r := at_ m row in
  match length r with
  | O => Fault OutOfBounds
  | S n =>
      let? right_side_val := at_ r n in
      let? right_side_val := loop (n - S row) (S row) (fun i acc =>
        let? x := at_ res i in
        let? a := at_ r i in
        Ok (sub acc (mul x a))) right_side_val in
      let? d := at_ r row in
      Ok (div right_side_val d)
  end.

(** From row [i - 1] down to row 0. *)
Fixpoint find_roots_loop (i : nat) (m : matrix) (res : list F) : outcome (list F) :=
  match i with
  | O => Ok res
  | S i =>
      let? xi := find_xi m i res in
      let? res := put res i xi in
      find_roots_loop i m res
  end.

Definition find_roots (m : matrix) : outcome (list F) :=
  let? x_cnt := get_vars_cnt m in
  find_roots_loop x_cnt m (replicate x_cnt zero).

(** The verdict, and the solution where there is one. *)
Definition gaussian_method (m : matrix) : outcome (verdict * list F) :=
  match m with
  | [] => Ok (NOT_CONSIST, [])
  | _ =>
      let? m := loop (length m - 1) 0 (fun i m => try_make_row_echelon_form m i) m in
      let? vars_cnt := get_vars_cnt m in
      let? base_matrix_rank := find_rank m (length m) vars_cnt in
      let? augmented_matrix_rank := find_rank m (length m) (S vars_cnt) in
      if (base_matrix_rank <? augmented_matrix_rank)%nat then Ok (NOT_CONSIST, [])
      else if (base_matrix_rank <? vars_cnt)%nat then Ok (CONSIST_AND_INF_SOLUTION, [])
      else let? solution := find_roots m in Ok (CONSIST_AND_ONE_SOLUTION, solution)
  end.

(** [solve_linear_system] from the two sizes on: what is read and what the
    method answers. *)
Definition solve_linear_system (rows columns : nat) (input : list F) : outcome (verdict * list F) :=
  gaussian_method (read_matrix (replicate rows (replicate (S columns) zero)) input).1.

(** ** least_squares_solver.cpp *)

Definition least_squares (m : matrix) : outcome matrix :=
  let? t := make_transpose_matrix m in
  let? var_cnt := get_vars_cnt m in
  loop var_cnt 0 (fun i coeff =>
    loop (S var_cnt) 0 (fun j coeff =>
      let? a := at_ t i in
      let? b := at_ t j in
      let? d := dot_product a b in
      set_el coeff i j d) coeff)
    (replicate var_cnt (replicate (S var_cnt) zero)).

Definition solve (rows columns : nat) (input : list F) : outcome (verdict * list F) :=
  let? coeff_matrix := least_squares (read_matrix (replicate rows (replicate (S columns) zero)) input).1 in
  gaussian_method coeff_matrix.
End code.
Abbreviation matrix F := (list (list F)).

(** ** What the loops compute *)

Section loops.
Context {F : Type} `{!Scalar F}.
Implicit Types (m : matrix F) (row : list F).

Lemma at_ok {A} (v : list A) i x : v !! i = Some x -> at_ v i = Ok x.
Proof. unfold at_. by intros ->. Qed.

Lemma put_ok {A} (v : list A) i x : (i < length v)%nat -> put v i x = Ok (<[i := x]> v).
Proof. intros [y Hy]%lookup_lt_is_Some. unfold put. by rewrite (at_ok _ _ _ Hy). Qed.

Lemma el_ok m r row i x : m !! r = Some row -> row !! i = Some x -> el m r i = Ok x.
Proof. intros Hr Hi. unfold el. rewrite (at_ok _ _ _ Hr). by apply at_ok. Qed.

Lemma set_el_row m r row i x :
  (r < length m)%nat -> (i < length row)%nat ->
  set_el (<[r := row]> m) r i x = Ok (<[r := <[i := x]> row]> m).
Proof.
  intros Hr Hi. unfold set_el. rewrite (at_ok _ _ row) by (by apply list_lookup_insert_eq).
  simpl. rewrite put_ok by done. simpl. rewrite put_ok by (by rewrite length_insert).
  by rewrite list_insert_insert_eq.
Qed.

(** A loop that changes one row of the matrix, one element at a time. *)
Lemma row_loop (f : nat -> F -> F) body m r row :
  m !! r = Some row ->
  (forall i x row', row !! i = Some x -> row' !! i = Some x -> length row' = length row ->
     body i (<[r := row']> m) = Ok (<[r := <[i := f i x]> row']> m)) ->
  loop (length row) 0 body m = Ok (<[r := imap f row]> m).
Proof.
  intros Hr Hbody.
  enough (H : forall n i row', (i + n = length row)%nat -> length row' = length row ->
    (forall j, (j < i)%nat -> row' !! j = f j <$> row !! j) ->
    (forall j, (i <= j)%nat -> row' !! j = row !! j) ->
    loop n i body (<[r := row']> m) = Ok (<[r := imap f row]> m)).
  { rewrite <- (list_insert_id m r row) at 1 by done. apply H; [lia|done|lia|done]. }
  induction n as [|n IH]; intros i row' Hn Hl Hlt Hge; simpl.
  - do 2 f_equal. apply list_eq. intros j. rewrite list_lookup_imap.
    destruct (decide (j < i)%nat) as [Hj|Hj]; [by apply Hlt|].
    rewrite Hge by lia. rewrite (lookup_ge_None_2 row j) by lia. done.
  - destruct (lookup_lt_is_Some_2 row i) as [x Hx]; [lia|].
    rewrite (Hbody i x) by (done || (by rewrite Hge by lia)). simpl. apply IH; [lia|..].
    + by rewrite length_insert.
    + intros j Hj. destruct (decide (j = i)) as [->|].
      * rewrite list_lookup_insert_eq by lia. by rewrite Hx.
      * rewrite list_lookup_insert_ne by done. apply Hlt. lia.
    + intros j Hj. rewrite list_lookup_insert_ne by lia. apply Hge. lia.
Qed.

Lemma fill_row_ok m r row c :
  m !! r = Some row -> fill_row m r c = Ok (<[r := (fun x => mul x c) <$> row]> m).
Proof.
  intros Hr. unfold fill_row. rewrite (at_ok _ _ _ Hr). simpl.
  rewrite (row_loop (fun _ x => mul x c) _ m r row Hr).
  - do 2 f_equal. apply list_eq. intros j. by rewrite list_lookup_imap, list_lookup_fmap.
  - intros i x row' Hi Hi' Hl. assert (Hlt : (r < length m)%nat) by (by eapply lookup_lt_Some).
    rewrite (el_ok _ _ row' _ x) by (done || by apply list_lookup_insert_eq). simpl.
    apply set_el_row; [done|]. by eapply lookup_lt_Some.
Qed.

Lemma add_rows_ok m a b ra rb :
  a <> b -> m !! a = Some ra -> m !! b = Some rb -> length ra = length rb ->
  add_rows m a b = Ok (<[b := zip_with (fun y x => is_zero_limit (add y x)) rb ra]> m).
Proof.
  intros Hab Ha Hb Hlen. unfold add_rows. rewrite (at_ok _ _ _ Ha). simpl. rewrite Hlen.
  rewrite (row_loop (fun i y => is_zero_limit (add y (default zero (ra !! i)))) _ m b rb Hb).
  - do 2 f_equal. apply list_eq. intros j. rewrite list_lookup_imap, lookup_zip_with.
    destruct (rb !! j) as [y|] eqn:Hy; simpl; [|done].
    destruct (lookup_lt_is_Some_2 ra j) as [x Hx]; [rewrite Hlen; by eapply lookup_lt_Some|].
    by rewrite Hx.
  - intros i y row' Hi Hi' Hl. assert (Hlt : (b < length m)%nat) by (by eapply lookup_lt_Some).
    rewrite (el_ok _ _ row' _ y) by (done || by apply list_lookup_insert_eq). simpl.
    destruct (lookup_lt_is_Some_2 ra i) as [x Hx]; [rewrite Hlen; by eapply lookup_lt_Some|].
    rewrite (el_ok _ _ ra _ x) by (done || by rewrite list_lookup_insert_ne). simpl. rewrite Hx.
    apply set_el_row; [done|]. by eapply lookup_lt_Some.
Qed.

Lemma swap_rows_ok m a b ra rb :
  m !! a = Some ra -> m !! b = Some rb ->
  swap_rows m a b = Ok (<[a := rb]> (<[b := ra]> m)).
Proof.
  intros Ha Hb. unfold swap_rows. rewrite (at_ok _ _ _ Hb). simpl. rewrite (at_ok _ _ _ Ha). simpl.
  rewrite put_ok by (by eapply lookup_lt_Some). simpl.
  apply put_ok. rewrite length_insert. by eapply lookup_lt_Some.
Qed.

(** Invariants of loops. *)
Lemma loop_inv {A} (I : nat -> A -> Prop) body n i s :
  I i s ->
  (forall j s, (i <= j < i + n)%nat -> I j s -> exists s', body j s = Ok s' /\ I (S j) s') ->
  exists s', loop n i body s = Ok s' /\ I (i + n)%nat s'.
Proof.
  revert i s. induction n as [|n IH]; intros i s Hs Hb; simpl.
  - exists s. by rewrite Nat.add_0_r.
  - destruct (Hb i s) as (s1 & -> & H1); [lia|done|]. simpl.
    destruct (IH (S i) s1 H1) as (s' & Hl & Hs'); [intros j s0 Hj; apply Hb; lia|].
    exists s'. by rewrite Nat.add_succ_r.
Qed.
End loops.

(** ** Exact arithmetic *)

(** The scalars form a field, comparisons are exact, and nothing but zero is
    taken for zero. *)
Class Exact (F : Type) `{!Scalar F} := {
  opp : F -> F;
  inv : F -> F;
  exact_field : field_theory zero one add mul sub opp div inv eq;
  exact_minus_one : minus_one = opp one;
  exact_epsilon : EPSILON = zero;
  exact_eqb : forall x y, eqb x y = true <-> x = y;
  exact_lt : forall x, lt zero x && lt x zero = false;
  exact_abs : forall x, lt (my_abs x) zero = false;
  exact_round : forall x, exists y, round_int x = Ok y
}.

Section exact.
Context {F : Type} `{!Scalar F, !Exact F}.
Add Field exact_scalars : exact_field.
Implicit Types (m : matrix F) (row rs ri x y : list F) (a b c p q : F) (i j s n w : nat).

Lemma limit_exact a : is_zero_limit a = a.
Proof.
  unfold is_zero_limit. rewrite exact_epsilon. replace (mul minus_one zero) with zero by ring.
  by rewrite exact_lt.
Qed.

Lemma get_limit_exact a : get_limit a = Ok a.
Proof.
  unfold get_limit. destruct (exact_round a) as [b ->]. simpl.
  by rewrite exact_epsilon, exact_abs.
Qed.

Lemma nonzero_spec a : nonzero a = true <-> a <> zero.
Proof.
  unfold nonzero. rewrite limit_exact, negb_true_iff, <- not_true_iff_false. by rewrite exact_eqb.
Qed.

Lemma nonzero_false a : nonzero a = false <-> a = zero.
Proof.
  unfold nonzero. rewrite limit_exact, negb_false_iff. by rewrite exact_eqb.
Qed.

Lemma mul_zero a b : mul a b = zero -> a <> zero -> b = zero.
Proof.
  intros H Ha. transitivity (mul (inv a) (mul a b)); [by field|]. rewrite H. ring.
Qed.

Lemma minus_one_opp a : mul minus_one a = opp a.
Proof. rewrite exact_minus_one. ring. Qed.

(** *** Linear forms *)

(** A row with right-hand side, applied to the unknowns followed by -1. *)
Definition form (row y : list F) : F := foldr add zero (zip_with mul row y).

Definition holds_row (row x : list F) : Prop := form row (x ++ [opp one]) = zero.

(** [x] solves the system. *)
Definition solves (m : matrix F) (x : list F) : Prop := Forall (fun row => holds_row row x) m.

Lemma form_scale row y c : form ((fun a => mul a c) <$> row) y = mul c (form row y).
Proof.
  unfold form. revert y. induction row as [|a row IH]; intros [|b y]; simpl; try ring.
  rewrite IH. ring.
Qed.

Lemma form_add row1 row2 y :
  length row1 = length row2 ->
  form (zip_with (fun a b => is_zero_limit (add a b)) row1 row2) y = add (form row1 y) (form row2 y).
Proof.
  unfold form. revert row2 y. induction row1 as [|a row1 IH]; intros [|b row2] [|c y] Hl;
    simpl in *; try done; try ring.
  rewrite IH by lia. rewrite limit_exact. ring.
Qed.

Lemma form_ext row1 row2 y :
  length row1 = length row2 -> (forall j, (j < length y)%nat -> row1 !! j = row2 !! j) ->
  form row1 y = form row2 y.
Proof.
  unfold form. revert row2 y. induction row1 as [|a row1 IH]; intros [|b row2] [|c y] Hl H;
    simpl in *; try done.
  pose proof (H 0%nat ltac:(lia)) as H0. simpl in H0. simplify_eq.
  rewrite (IH row2 y); [done|lia|]. intros j Hj. apply (H (S j)). lia.
Qed.

(** A form whose products are all zero. *)
Lemma form_zero row y :
  (forall j a b, row !! j = Some a -> y !! j = Some b -> mul a b = zero) -> form row y = zero.
Proof.
  unfold form. revert y. induction row as [|a row IH]; intros [|b y] H; simpl; try done.
  rewrite (H 0%nat a b eq_refl eq_refl), IH; [ring|]. intros j. apply (H (S j)).
Qed.

(** Changing one coordinate. *)
Lemma form_insert row y k a b c :
  row !! k = Some a -> y !! k = Some b ->
  form row (<[k := c]> y) = add (form row y) (mul a (sub c b)).
Proof.
  unfold form. revert y k. induction row as [|a' row IH]; intros [|b' y] [|k] Ha Hb; simpl in *;
    simplify_eq; try ring. rewrite (IH y k) by done. ring.
Qed.

Lemma form_sum row y1 y2 :
  length y1 = length y2 ->
  form row (zip_with add y1 y2) = add (form row y1) (form row y2).
Proof.
  unfold form. revert y1 y2. induction row as [|a row IH]; intros [|b y1] [|c y2] Hl; simpl in *;
    try done; try ring. rewrite IH by lia. ring.
Qed.

(** *** Elimination *)

Definition rect (n w : nat) (m : matrix F) : Prop :=
  length m = n /\ Forall (fun row => length row = w) m.

(** Row [i] is zero in the columns of [P]. *)
Definition zeros (m : matrix F) (P : nat -> nat -> Prop) : Prop :=
  forall i j row a, m !! i = Some row -> row !! j = Some a -> P i j -> a = zero.

(** What is zero once columns below [s] are done, and column [s] down to row
    [i]. *)
Definition done_to (s i : nat) (i' j : nat) : Prop :=
  (j < s /\ j < i')%nat \/ (j = s /\ s < i' < i)%nat.

Definition same_solutions (w : nat) (m m' : matrix F) : Prop :=
  forall x, S (length x) = w -> solves m' x <-> solves m x.

Lemma rect_lookup n w m i : rect n w m -> (i < n)%nat -> exists row, m !! i = Some row /\ length row = w.
Proof.
  intros [Hn Hw] Hi. destruct (lookup_lt_is_Some_2 m i) as [row Hr]; [lia|].
  exists row. split; [done|]. by eapply Forall_lookup_1 in Hw.
Qed.

Lemma rect_insert n w m i row : rect n w m -> length row = w -> rect n w (<[i := row]> m).
Proof. intros [Hn Hw] Hl. split; [by rewrite length_insert|]. by apply Forall_insert. Qed.

Lemma solves_insert m i row x :
  (i < length m)%nat ->
  solves (<[i := row]> m) x <->
  holds_row row x /\ forall j r, j <> i -> m !! j = Some r -> holds_row r x.
Proof.
  intros Hi. unfold solves. rewrite Forall_lookup. split.
  - intros H. split; [apply (H i); by apply list_lookup_insert_eq|].
    intros j r Hj Hr. apply (H j). by rewrite list_lookup_insert_ne.
  - intros [H1 H2] j r Hj. destruct (decide (j = i)) as [->|].
    + rewrite list_lookup_insert_eq in Hj by done. by simplify_eq.
    + rewrite list_lookup_insert_ne in Hj by done. by apply (H2 j).
Qed.

Lemma zeros_insert m i row P :
  zeros m (fun i' j => P i' j /\ i' <> i) -> (forall j a, row !! j = Some a -> P i j -> a = zero) ->
  zeros (<[i := row]> m) P.
Proof.
  intros Hm Hrow i' j r a Hr Ha HP. destruct (decide (i' = i)) as [->|Hne].
  - apply list_lookup_insert_Some in Hr as [(_ & -> & _)|[? _]]; [by eapply Hrow|done].
  - rewrite list_lookup_insert_ne in Hr by done. by eapply Hm.
Qed.

Lemma solves_row m x i row : solves m x -> m !! i = Some row -> holds_row row x.
Proof. intros H Hi. by eapply Forall_lookup_1 in H. Qed.

(** Scaling row [i] by a nonzero factor and adding row [s] to it. *)
Lemma combine_solutions w m s i rs ri c :
  s <> i -> m !! s = Some rs -> m !! i = Some ri -> length rs = length ri -> c <> zero ->
  same_solutions w m
    (<[i := zip_with (fun b a => is_zero_limit (add b a)) ((fun a => mul a c) <$> ri) rs]> m).
Proof.
  intros Hsi Hs Hi Hl Hc x _.
  assert (Hlt : (i < length m)%nat) by (by eapply lookup_lt_Some).
  rewrite solves_insert by done. unfold holds_row at 1.
  rewrite form_add by (by rewrite length_fmap). rewrite form_scale. split.
  - intros [H1 H2]. apply Forall_lookup. intros j r Hj.
    destruct (decide (j = i)) as [->|Hne]; [|by apply (H2 j)]. simplify_eq.
    pose proof (H2 s rs Hsi Hs) as H3. unfold holds_row in H3 |- *. rewrite H3 in H1.
    apply (mul_zero c); [|done]. rewrite <- H1. ring.
  - intros H. pose proof (solves_row _ _ _ _ H Hs) as H1. pose proof (solves_row _ _ _ _ H Hi) as H2.
    unfold holds_row in H1, H2. rewrite H1, H2. split; [ring|].
    intros j r _ Hj. by eapply solves_row.
Qed.

Lemma swap_solutions w m s i rs ri :
  s <> i -> m !! s = Some rs -> m !! i = Some ri ->
  same_solutions w m (<[s := ri]> (<[i := rs]> m)).
Proof.
  intros Hsi Hs Hi x _.
  assert (Hlt : (i < length m)%nat) by (by eapply lookup_lt_Some).
  assert (Hlt' : (s < length m)%nat) by (by eapply lookup_lt_Some).
  rewrite solves_insert by (by rewrite length_insert). split.
  - intros [H1 H2]. apply Forall_lookup. intros j r Hj.
    destruct (decide (j = s)) as [->|Hs']; [|destruct (decide (j = i)) as [->|Hi']]; simplify_eq.
    + apply (H2 i); [done|]. by apply list_lookup_insert_eq.
    + done.
    + apply (H2 j); [done|]. by rewrite list_lookup_insert_ne.
  - intros H. split; [by eapply solves_row|]. intros j r Hj Hr.
    apply list_lookup_insert_Some in Hr as [(-> & -> & _)|[_ Hr]]; by eapply solves_row.
Qed.

(** Once the row has been treated, its element in the column is zero, and so
    is all that was. *)
Lemma eliminate_zeros_combined m s i rs ri p q :
  (s < i)%nat -> m !! s = Some rs -> m !! i = Some ri ->
  rs !! s = Some p -> ri !! s = Some q -> q <> zero ->
  zeros m (done_to s i) ->
  zeros (<[i := zip_with (fun b a => is_zero_limit (add b a))
                  ((fun a => mul a (mul minus_one (div p q))) <$> ri) rs]> m) (done_to s (S i)).
Proof.
  intros Hsi Hs Hi Hp Hq Hq0 Hz. apply zeros_insert.
  - intros i' j row a Hr Ha [HP Hne]. apply (Hz i' j row a Hr Ha).
    unfold done_to in *. lia.
  - intros j a Ha HP. rewrite lookup_zip_with, list_lookup_fmap in Ha.
    destruct (ri !! j) as [b|] eqn:Hb; simpl in Ha; [|done].
    destruct (rs !! j) as [d|] eqn:Hd; simpl in Ha; [|done]. simplify_eq. rewrite limit_exact.
    destruct (decide (j = s)) as [->|Hj].
    + simplify_eq. rewrite exact_minus_one. by field.
    + assert (Hjs : (j < s)%nat) by (unfold done_to in HP; lia).
      rewrite (Hz i j ri b Hi Hb), (Hz s j rs d Hs Hd); [ring|left; lia..].
Qed.

Lemma eliminate_zeros_swapped m s i rs ri :
  (s < i)%nat -> m !! s = Some rs -> m !! i = Some ri -> rs !! s = Some zero ->
  zeros m (done_to s i) ->
  zeros (<[s := ri]> (<[i := rs]> m)) (done_to s (S i)).
Proof.
  intros Hsi Hs Hi Hp Hz. apply zeros_insert; [apply zeros_insert|].
  - intros i' j row a Hr Ha [[HP Hne] Hne']. apply (Hz i' j row a Hr Ha).
    unfold done_to in *. lia.
  - intros j a Ha [HP _]. destruct (decide (j = s)) as [->|Hj]; [by simplify_eq|].
    apply (Hz s j rs a Hs Ha). unfold done_to in *. lia.
  - intros j a Ha HP. apply (Hz i j ri a Hi Ha). unfold done_to in *. lia.
Qed.

(** What elimination keeps while it clears the matrix up to [P]. *)
Definition eliminated (n w : nat) (m0 : matrix F) (P : nat -> nat -> Prop) (m : matrix F) : Prop :=
  rect n w m /\ zeros m P /\ same_solutions w m0 m.

Lemma same_solutions_trans w m1 m2 m3 :
  same_solutions w m1 m2 -> same_solutions w m2 m3 -> same_solutions w m1 m3.
Proof. intros H1 H2 x Hx. by rewrite (H2 x Hx), (H1 x Hx). Qed.

Lemma zeros_weaken m (P Q : nat -> nat -> Prop) :
  (forall i j, Q i j -> P i j) -> zeros m P -> zeros m Q.
Proof. intros HPQ H i j row a Hr Ha HQ. by eapply H, HPQ. Qed.

Lemma eliminate_ok n w m0 s i m :
  (s < i < n)%nat -> (s < w)%nat -> eliminated n w m0 (done_to s i) m ->
  exists m', eliminate s i m = Ok m' /\ eliminated n w m0 (done_to s (S i)) m'.
Proof.
  intros Hi Hw (Hr & Hz & Hsol).
  destruct (rect_lookup n w m i Hr) as (ri & Hri & Hli); [lia|].
  destruct (rect_lookup n w m s Hr) as (rs & Hrs & Hls); [lia|].
  destruct (lookup_lt_is_Some_2 ri s) as [q Hq]; [lia|].
  destruct (lookup_lt_is_Some_2 rs s) as [p Hp]; [lia|].
  unfold eliminate. rewrite (el_ok _ _ _ _ _ Hri Hq). simpl.
  destruct (nonzero q) eqn:Hq0; simpl.
  - apply nonzero_spec in Hq0. rewrite (el_ok _ _ _ _ _ Hrs Hp). simpl.
    assert (Hd : mul (div p q) q = p) by (by field).
    destruct (nonzero (div p q)) eqn:Hp0; simpl.
    + apply nonzero_spec in Hp0. rewrite (fill_row_ok _ _ ri) by done. simpl.
      rewrite (add_rows_ok _ s i rs ((fun a => mul a (mul minus_one (div p q))) <$> ri));
        [|lia|by rewrite list_lookup_insert_ne by lia|
         apply list_lookup_insert_eq; by eapply lookup_lt_Some|by rewrite length_fmap, Hls].
      eexists. split; [done|]. rewrite list_insert_insert_eq. split; [|split].
      * apply rect_insert; [done|]. rewrite length_zip_with, length_fmap. lia.
      * by apply (eliminate_zeros_combined m s i rs ri p q); [lia|..].
      * eapply same_solutions_trans; [done|]. apply (combine_solutions w m s i rs ri); [lia|done|done|by rewrite Hls|].
        rewrite minus_one_opp. intros H0. apply Hp0. transitivity (opp (opp (div p q))); [ring|].
        rewrite H0. ring.
    + apply nonzero_false in Hp0. rewrite Hp0 in Hd.
      assert (p = zero) as -> by (rewrite <- Hd; ring).
      rewrite (swap_rows_ok _ _ _ rs ri) by done. eexists. split; [done|]. split; [|split].
      * by apply rect_insert; [apply rect_insert|].
      * by apply (eliminate_zeros_swapped m s i rs ri); [lia|..].
      * eapply same_solutions_trans; [done|]. by apply (swap_solutions w m s i rs ri); [lia|..].
  - apply nonzero_false in Hq0 as ->. exists m. split; [done|]. split; [done|]. split; [|done].
    intros i' j row a Hrow Ha HP. destruct (decide (i' = i)) as [->|].
    + destruct (decide (j = s)) as [->|]; [by simplify_eq|].
      apply (Hz i j row a Hrow Ha). unfold done_to in *. lia.
    + apply (Hz i' j row a Hrow Ha). unfold done_to in *. lia.
Qed.

Lemma try_make_row_echelon_form_ok n w m0 s m :
  (S s < n)%nat -> (s < w)%nat -> eliminated n w m0 (done_to s 0) m ->
  exists m', try_make_row_echelon_form m s = Ok m' /\ eliminated n w m0 (done_to (S s) 0) m'.
Proof.
  intros Hn Hw H. pose proof H as (Hr & Hz & Hsol). pose proof Hr as [Hlen _].
  unfold try_make_row_echelon_form.
  destruct (rect_lookup n w m s Hr) as (rs & Hrs & Hls); [lia|].
  destruct (lookup_lt_is_Some_2 rs s) as [p Hp]; [lia|].
  rewrite (el_ok _ _ _ _ _ Hrs Hp). simpl.
  destruct (loop_inv (fun i m => eliminated n w m0 (done_to s i) m) (eliminate s)
    (length m - S s) (S s) m) as (m' & Hm' & Hr' & Hz' & Hs').
  - split; [done|]. split; [|done]. eapply zeros_weaken; [|exact Hz]. unfold done_to. lia.
  - intros j m1 Hj Hm1. apply eliminate_ok; [lia|done|done].
  - exists m'. split; [done|]. split; [done|]. split; [|done].
    intros i j row a Hrow Ha HP. apply (Hz' i j row a Hrow Ha).
    pose proof (lookup_lt_Some _ _ _ Hrow). destruct Hr' as [Hl' _]. unfold done_to in *. lia.
Qed.

(** Every row is zero left of the diagonal. *)
Definition triangular (i j : nat) : Prop := (j < i)%nat.

Lemma elimination_ok n w m :
  (1 <= n <= S w)%nat -> rect n w m ->
  exists m', loop (length m - 1) 0 (fun i m => try_make_row_echelon_form m i) m = Ok m' /\
    eliminated n w m triangular m'.
Proof.
  intros Hn Hr. pose proof Hr as [Hl _].
  destruct (loop_inv (fun s m1 => eliminated n w m (done_to s 0) m1)
    (fun i m => try_make_row_echelon_form m i) (length m - 1) 0 m) as (m' & Hm' & Hr' & Hz' & Hs').
  - split; [done|]. split; [|by intros x]. intros i j row a _ _ HP. unfold done_to in HP. lia.
  - intros s m1 Hs Hm1. apply try_make_row_echelon_form_ok; [lia..|done].
  - exists m'. split; [done|]. split; [done|]. split; [|done].
    intros i j row a Hrow Ha HP. apply (Hz' i j row a Hrow Ha).
    pose proof (lookup_lt_Some _ _ _ Hrow). destruct Hr' as [Hl' _]. unfold done_to, triangular in *. lia.
Qed.

(** *** Back substitution *)

Lemma form_nil_r row : form row [] = zero.
Proof. by destruct row. Qed.

Lemma form_last row y b c :
  row !! length y = Some b -> form row (y ++ [c]) = add (form row y) (mul b c).
Proof.
  unfold form. revert row. induction y as [|d y IH]; intros [|a row] Hb; simpl in *; simplify_eq.
  - destruct row; simpl; ring.
  - rewrite IH by done. ring.
Qed.

Lemma form_drop row y i :
  (forall j a, (j < i)%nat -> row !! j = Some a -> a = zero) ->
  form row y = form (drop i row) (drop i y).
Proof.
  unfold form. revert row y. induction i as [|i IH]; intros row y H; [done|].
  destruct row as [|a row]; [by destruct y|]. destruct y as [|b y].
  { simpl. by destruct (drop i row). }
  simpl. rewrite (H 0%nat a) by (lia || done). rewrite IH; [ring|].
  intros j d Hj Hd. apply (H (S j)); [lia|done].
Qed.

Lemma find_xi_ok m i row res a b :
  m !! i = Some row -> length row = S (length res) -> (i < length res)%nat ->
  row !! i = Some a -> row !! length res = Some b ->
  find_xi m i res = Ok (div (sub b (form (drop (S i) row) (drop (S i) res))) a).
Proof.
  intros Hm Hl Hi Ha Hb. unfold find_xi. rewrite (at_ok _ _ _ Hm). simpl. rewrite Hl.
  rewrite (at_ok _ _ _ Hb). simpl.
  destruct (loop_inv (fun j acc =>
      sub acc (form (drop j row) (drop j res)) = sub b (form (drop (S i) row) (drop (S i) res)))
    (fun j acc => let? d := at_ res j in let? a := at_ row j in Ok (sub acc (mul d a)))
    (length res - S i) (S i) b) as (acc & -> & Hacc).
  - done.
  - intros j acc Hj Hinv.
    destruct (lookup_lt_is_Some_2 res j) as [z Hz]; [lia|].
    destruct (lookup_lt_is_Some_2 row j) as [d Hd]; [lia|].
    rewrite (at_ok _ _ _ Hz). simpl. rewrite (at_ok _ _ _ Hd). simpl. eexists. split; [done|].
    rewrite <- Hinv. rewrite (drop_S row d j), (drop_S res z j) by done. unfold form. simpl. ring.
  - simpl. rewrite (at_ok _ _ _ Ha). simpl. do 2 f_equal. rewrite <- Hacc.
    rewrite (drop_ge res) by lia. rewrite form_nil_r. ring.
Qed.

(** The value a row that is zero left of the diagonal gives its unknown. *)
Lemma row_value row x i a b d :
  holds_row row x -> (forall j a, (j < i)%nat -> row !! j = Some a -> a = zero) ->
  row !! i = Some a -> a <> zero -> row !! length x = Some b -> x !! i = Some d ->
  div (sub b (form (drop (S i) row) (drop (S i) x))) a = d.
Proof.
  intros Hh Hz Ha Ha0 Hb Hd. unfold holds_row in Hh. rewrite (form_last _ _ b) in Hh by done.
  rewrite (form_drop _ _ i) in Hh by done. rewrite (drop_S row a i), (drop_S x d i) in Hh by done.
  unfold form in Hh at 1. simpl in Hh. fold (form (drop (S i) row) (drop (S i) x)) in Hh.
  set (g := form _ _) in *.
  assert (sub b g = mul a d) as ->.
  { transitivity (add (mul a d) (opp (add (add (mul a d) g) (mul b (opp one))))); [ring|].
    rewrite Hh. ring. }
  by field.
Qed.

Definition diagonal_nonzero (k : nat) (m : matrix F) : Prop :=
  forall i row a, (i < k)%nat -> m !! i = Some row -> row !! i = Some a -> a <> zero.

Lemma find_roots_loop_ok n m x i res :
  rect n (S n) m -> zeros m triangular -> diagonal_nonzero n m -> solves m x ->
  length x = n -> length res = n -> (i <= n)%nat -> drop i res = drop i x ->
  find_roots_loop i m res = Ok x.
Proof.
  intros Hr Hz Hd Hs Hx. revert res. induction i as [|i IH]; intros res Hres Hi Hdrop; simpl.
  { by rewrite !drop_0 in Hdrop; subst. }
  destruct (rect_lookup _ _ m i Hr) as (row & Hrow & Hl); [lia|].
  destruct (lookup_lt_is_Some_2 row i) as [a Ha]; [lia|].
  destruct (lookup_lt_is_Some_2 row n) as [b Hb]; [lia|].
  destruct (lookup_lt_is_Some_2 x i) as [d Hxd]; [lia|].
  rewrite (find_xi_ok m i row res a b) by (done || lia || by rewrite Hres).
  rewrite Hdrop, (row_value row x i a b d); [|by eapply solves_row| |done|by eapply Hd|by rewrite Hx|done].
  - simpl. rewrite put_ok by lia. simpl. apply IH; [by rewrite length_insert|lia|].
    rewrite (drop_S x d i) by done.
    rewrite (drop_S _ d i) by (apply list_lookup_insert_eq; lia). by rewrite drop_insert_lt, Hdrop by lia.
  - intros j e Hj He. by eapply (Hz i j row e).
Qed.

Lemma find_roots_ok n m x :
  (1 <= n)%nat -> rect n (S n) m -> zeros m triangular -> diagonal_nonzero n m -> solves m x ->
  length x = n -> find_roots m = Ok x.
Proof.
  intros Hn Hr Hz Hd Hs Hx. unfold find_roots, get_vars_cnt.
  destruct (rect_lookup _ _ m 0 Hr) as (row & Hrow & Hl); [lia|].
  rewrite (at_ok _ _ _ Hrow). simpl. rewrite Hl. simpl.
  apply (find_roots_loop_ok n); try done; [by rewrite length_replicate|].
  by rewrite !drop_ge by (rewrite ?length_replicate; lia).
Qed.

(** Back substitution needs no more than the rows it visits. *)
Lemma find_roots_total n v m :
  (1 <= n)%nat -> (v <= n)%nat -> rect n (S v) m -> exists x, find_roots m = Ok x.
Proof.
  intros Hn Hv Hr. unfold find_roots, get_vars_cnt.
  destruct (rect_lookup _ _ m 0 Hr) as (row & Hrow & Hl); [lia|].
  rewrite (at_ok _ _ _ Hrow). simpl. rewrite Hl. simpl.
  enough (H : forall i res, (i <= v)%nat -> length res = v -> exists x, find_roots_loop i m res = Ok x)
    by (apply H; [done|by rewrite length_replicate]).
  induction i as [|i IH]; intros res Hi Hres; simpl; [by exists res|].
  destruct (rect_lookup _ _ m i Hr) as (ri & Hri & Hli); [lia|].
  destruct (lookup_lt_is_Some_2 ri i) as [a Ha]; [lia|].
  destruct (lookup_lt_is_Some_2 ri v) as [b Hb]; [lia|].
  rewrite (find_xi_ok m i ri res a b) by (done || lia || by rewrite Hres). simpl.
  rewrite put_ok by lia. simpl. apply IH; [lia|by rewrite length_insert].
Qed.

(** *** A zero on the diagonal *)

Lemma kernel_step n m k z i :
  (i < k < n)%nat -> rect n (S n) m -> zeros m triangular -> diagonal_nonzero k m ->
  length z = n -> z !! k = Some one ->
  (forall j row, (S i <= j)%nat -> m !! j = Some row -> form row z = zero) ->
  exists z, length z = n /\ z !! k = Some one /\
    forall j row, (i <= j)%nat -> m !! j = Some row -> form row z = zero.
Proof.
  intros Hi Hr Hz Hd Hl Hk H.
  destruct (rect_lookup _ _ m i Hr) as (row & Hrow & Hw); [lia|].
  destruct (lookup_lt_is_Some_2 row i) as [a Ha]; [lia|].
  destruct (lookup_lt_is_Some_2 z i) as [b Hb]; [lia|].
  assert (Ha0 : a <> zero) by (eapply (Hd i); [lia|done..]).
  exists (<[i := sub b (div (form row z) a)]> z).
  split; [by rewrite length_insert|]. split; [by rewrite list_lookup_insert_ne by lia|].
  intros j r Hj Hjr. destruct (rect_lookup _ _ m j Hr) as (r' & Hr' & Hw');
    [pose proof (lookup_lt_Some _ _ _ Hjr); destruct Hr; lia|]. simplify_eq.
  destruct (lookup_lt_is_Some_2 r i) as [e He]; [lia|].
  rewrite (form_insert r z i e b) by done. destruct (decide (j = i)) as [->|Hne].
  - simplify_eq. by field.
  - rewrite (Hz j i r e), (H j r); [by field|lia|done|done|done|unfold triangular; lia].
Qed.

Lemma kernel_exists n m k row :
  (k < n)%nat -> rect n (S n) m -> zeros m triangular -> diagonal_nonzero k m ->
  m !! k = Some row -> row !! k = Some zero ->
  exists z, length z = n /\ z !! k = Some one /\ Forall (fun row => form row z = zero) m.
Proof.
  intros Hk Hr Hz Hd Hrow H0.
  enough (H : forall d, (d <= k)%nat -> exists z, length z = n /\ z !! k = Some one /\
    forall j row, (k - d <= j)%nat -> m !! j = Some row -> form row z = zero).
  { destruct (H k) as (z & Hl & H1 & Hf); [done|]. exists z. split; [done|]. split; [done|].
    apply Forall_lookup. intros j r. apply Hf. lia. }
  induction d as [|d IH]; intros Hdk.
  - exists (<[k := one]> (replicate n zero)).
    split; [by rewrite length_insert, length_replicate|].
    split; [by rewrite list_lookup_insert_eq by (by rewrite length_replicate)|].
    intros j r Hj Hr'. apply form_zero. intros p a b Ha Hb.
    apply list_lookup_insert_Some in Hb as [(<- & <- & _)|[_ [-> _]%lookup_replicate]]; [|ring].
    destruct (decide (j = k)) as [->|]; [simplify_eq; ring|].
    rewrite (Hz j k r a); [ring|done|done|unfold triangular; lia].
  - destruct IH as (z & Hl & H1 & Hf); [lia|].
    destruct (kernel_step n m k z (k - S d)) as (z' & Hz'); try done; [lia| |by exists z'].
    intros j r Hj. apply Hf. lia.
Qed.

Lemma unique_diagonal n m x :
  rect n (S n) m -> zeros m triangular -> length x = n -> solves m x ->
  (forall y, length y = n -> solves m y -> y = x) -> diagonal_nonzero n m.
Proof.
  intros Hr Hz Hx Hs Hu.
  enough (H : forall k, (k <= n)%nat -> diagonal_nonzero k m) by by apply H.
  induction k as [|k IH]; intros Hk; [intros i row a Hi; lia|].
  intros i row a Hi Hrow Ha. destruct (decide (i = k)) as [->|]; [|by apply (IH ltac:(lia) i row a); [lia|..]].
  intros ->. destruct (kernel_exists n m k row) as (z & Hl & H1 & Hf); try done; [apply IH; lia|].
  destruct (lookup_lt_is_Some_2 x k) as [d Hd]; [lia|].
  assert (Hy : zip_with add x z = x).
  { apply Hu; [rewrite length_zip_with; lia|]. apply Forall_lookup. intros j r Hj.
    pose proof (solves_row _ _ _ _ Hs Hj) as Hh. unfold holds_row in *.
    destruct (rect_lookup _ _ m j Hr) as (r' & Hr' & Hw');
      [pose proof (lookup_lt_Some _ _ _ Hj); destruct Hr; lia|]. simplify_eq.
    destruct (lookup_lt_is_Some_2 r (length x)) as [b Hb]; [lia|].
    rewrite (form_last _ _ b) in Hh by done.
    rewrite (form_last _ _ b) by (rewrite length_zip_with; by replace (_ `min` _)%nat with (length x) by lia).
    rewrite form_sum by lia. rewrite (Forall_lookup_1 _ _ _ _ Hf Hj). etransitivity; [|exact Hh]. ring. }
  assert (E : add d one = d).
  { assert (zip_with add x z !! k = Some (add d one)) as E by (by rewrite lookup_zip_with, Hd, H1).
    rewrite Hy, Hd in E. by simplify_eq. }
  apply (F_1_neq_0 exact_field). transitivity (sub (add d one) d); [ring|]. rewrite E. ring.
Qed.

(** *** Ranks *)

Definition row_nonzero (cols : nat) (row : list F) : bool := existsb nonzero (take cols row).

Lemma find_rank_ok n w m cols :
  rect n w m -> (cols <= w)%nat ->
  find_rank m n cols = Ok (length (filter (fun row => row_nonzero cols row = true) m)).
Proof.
  intros Hr Hc. pose proof Hr as [Hn _]. unfold find_rank.
  match goal with |- loop n 0 ?body 0%nat = _ =>
    destruct (loop_inv (fun i rank =>
      rank = length (filter (fun row => row_nonzero cols row = true) (take i m))) body n 0 0%nat)
      as (rank & -> & ->)
  end; [done| |by rewrite take_ge by lia].
  intros i rank Hi ->. destruct (rect_lookup n w m i Hr) as (row & Hrow & Hl); [lia|].
  match goal with |- context [loop cols 0 ?body true] =>
    destruct (loop_inv (fun j all_zeros => all_zeros = negb (row_nonzero j row)) body cols 0 true)
      as (z & -> & ->)
  end; [done| |].
  - intros j z Hj ->. destruct (lookup_lt_is_Some_2 row j) as [a Ha]; [lia|].
    rewrite (el_ok _ _ _ _ _ Hrow Ha). simpl. eexists. split; [done|].
    unfold row_nonzero. rewrite (take_S_r row j a Ha), existsb_app. simpl.
    destruct (existsb nonzero (take j row)), (nonzero a); done.
  - eexists. split; [done|]. rewrite (take_S_r m i row Hrow), filter_app, length_app.
    simpl. rewrite filter_cons, filter_nil.
    destruct (row_nonzero cols row); simpl; lia.
Qed.

Lemma row_nonzero_intro cols row i a :
  (i < cols)%nat -> row !! i = Some a -> a <> zero -> row_nonzero cols row = true.
Proof.
  intros Hi Ha H0. apply existsb_exists. exists a. split; [|by apply nonzero_spec].
  apply list_elem_of_In. apply list_elem_of_lookup. exists i. by rewrite lookup_take_lt.
Qed.

Lemma row_nonzero_false cols row i a :
  (i < cols)%nat -> row !! i = Some a -> row_nonzero cols row = false -> a = zero.
Proof.
  intros Hi Ha H. apply nonzero_false. destruct (nonzero a) eqn:E; [|done].
  apply nonzero_spec in E. by rewrite (row_nonzero_intro cols row i a) in H.
Qed.

Lemma filter_all {A} (P : A -> Prop) `{forall e, Decision (P e)} (l : list A) :
  Forall P l -> filter P l = l.
Proof.
  induction 1 as [|a l Ha _ IH]; [done|]. by rewrite filter_cons_True, IH.
Qed.

Lemma full_rank n w m cols :
  rect n w m -> (n <= cols <= w)%nat -> diagonal_nonzero n m -> find_rank m n cols = Ok n.
Proof.
  intros Hr Hc Hd. rewrite (find_rank_ok n w) by (done || lia). f_equal.
  enough (filter (fun row => row_nonzero cols row = true) m = m) as ->
    by (by destruct Hr).
  apply filter_all, Forall_lookup. intros i row Hrow. pose proof (lookup_lt_Some _ _ _ Hrow) as Hi.
  destruct (rect_lookup n w m i Hr) as (row' & Hrow' & Hl); [by destruct Hr; lia|]. simplify_eq.
  destruct Hr as [<- _]. destruct (lookup_lt_is_Some_2 row i) as [a Ha]; [lia|].
  eapply (row_nonzero_intro cols row i a); [lia|done|]. by eapply Hd.
Qed.

(** A row of the larger rank only: no unknowns, but a right-hand side. *)
Lemma rank_gap (P Q : list F -> bool) m :
  (length (filter (fun row => P row = true) m) < length (filter (fun row => Q row = true) m))%nat ->
  exists i row, m !! i = Some row /\ P row = false /\ Q row = true.
Proof.
  induction m as [|row m IH]; [simpl; lia|]. rewrite !filter_cons.
  destruct (P row) eqn:HP, (Q row) eqn:HQ; simpl; intros H.
  - destruct IH as (i & r & ?); [lia|]. by exists (S i), r.
  - destruct IH as (i & r & ?); [lia|]. by exists (S i), r.
  - by exists 0%nat, row.
  - destruct IH as (i & r & ?); [lia|]. by exists (S i), r.
Qed.

Lemma contradictory_row v row x :
  length row = S v -> length x = v ->
  row_nonzero v row = false -> row_nonzero (S v) row = true -> ~ holds_row row x.
Proof.
  intros Hl Hx H0 H1 Hh. destruct (lookup_lt_is_Some_2 row v) as [b Hb]; [lia|].
  unfold holds_row in Hh. rewrite (form_last _ _ b) in Hh by (by rewrite Hx).
  rewrite form_zero in Hh.
  - unfold row_nonzero in H0, H1. rewrite (take_S_r row v b Hb), existsb_app, H0 in H1.
    simpl in H1. rewrite orb_false_r in H1. apply nonzero_spec in H1. apply H1.
    transitivity (opp (add zero (mul b (opp one)))); [ring|]. rewrite Hh. ring.
  - intros j a d Ha Hd. rewrite (row_nonzero_false v row j a); [ring| |done|done].
    rewrite <- Hx. by eapply lookup_lt_Some.
Qed.

(** *** The solver *)

Lemma rect_vars_cnt n v m : (1 <= n)%nat -> rect n (S v) m -> get_vars_cnt m = Ok v.
Proof.
  intros Hn Hr. unfold get_vars_cnt. destruct (rect_lookup _ _ m 0 Hr) as (row & Hrow & Hl); [lia|].
  rewrite (at_ok _ _ _ Hrow). simpl. by rewrite Hl.
Qed.

Lemma gaussian_method_cons m : m <> [] ->
  gaussian_method m =
    let? m := loop (length m - 1) 0 (fun i m => try_make_row_echelon_form m i) m in
    let? vars_cnt := get_vars_cnt m in
    let? base_matrix_rank := find_rank m (length m) vars_cnt in
    let? augmented_matrix_rank := find_rank m (length m) (S vars_cnt) in
    if (base_matrix_rank <? augmented_matrix_rank)%nat then Ok (NOT_CONSIST, [])
    else if (base_matrix_rank <? vars_cnt)%nat then Ok (CONSIST_AND_INF_SOLUTION, [])
    else let? solution := find_roots m in Ok (CONSIST_AND_ONE_SOLUTION, solution).
Proof. by destruct m. Qed.

(** In exact arithmetic and with 0 for [EPSILON], for a square system that has exactly one solution
    [gaussian_method] answers [CONSIST_AND_ONE_SOLUTION] and gives that
    solution: the elimination keeps the set of solutions and ends in triangular
    form, a zero on the diagonal would leave a second solution, and back
    substitution finds the unknowns. *)
Theorem gaussian_finds_solution n (m : matrix F) (x : list F) :
  (1 <= n)%nat -> rect n (S n) m -> length x = n -> solves m x ->
  (forall y, length y = n -> solves m y -> y = x) ->
  gaussian_method m = Ok (CONSIST_AND_ONE_SOLUTION, x).
Proof.
  intros Hn Hr Hx Hs Hu. rewrite gaussian_method_cons by (intros ->; destruct Hr; simpl in *; lia).
  destruct (elimination_ok n (S n) m) as (t & -> & Ht & Hz & Hsol); [lia|done|]. simpl.
  pose proof Ht as [Hlen _].
  assert (Hst : solves t x) by (by apply Hsol; [rewrite Hx|]).
  assert (Hd : diagonal_nonzero n t).
  { apply (unique_diagonal n t x); try done. intros y Hy Hsy. apply Hu; [done|].
    by apply Hsol; [rewrite Hy|]. }
  rewrite (rect_vars_cnt n n) by done. simpl. rewrite Hlen.
  rewrite !(full_rank n (S n)) by (done || lia). simpl. rewrite Nat.ltb_irrefl.
  by rewrite (find_roots_ok n t x) by done.
Qed.

(** In exact arithmetic [gaussian_method] returns for every system of up
    to two more equations than unknowns, without an access outside a row, and
    when it answers [NOT_CONSIST] the system has no solution. *)
Theorem gaussian_not_consist n v (m : matrix F) :
  (1 <= n <= v + 2)%nat -> rect n (S v) m ->
  exists r, gaussian_method m = Ok r /\
    (r.1 = NOT_CONSIST -> forall x, length x = v -> ~ solves m x).
Proof.
  intros Hn Hr. rewrite gaussian_method_cons by (intros ->; destruct Hr; simpl in *; lia).
  destruct (elimination_ok n (S v) m) as (t & -> & Ht & Hz & Hsol); [lia|done|]. simpl.
  pose proof Ht as [Hlen _]. rewrite (rect_vars_cnt n v) by (done || lia). simpl. rewrite Hlen.
  rewrite !(find_rank_ok n (S v)) by (done || lia). simpl.
  destruct (_ <? _)%nat eqn:Hrank; [|destruct (_ <? v)%nat eqn:Hv].
  - eexists. split; [done|]. intros _ x Hx Hsx.
    apply Nat.ltb_lt, rank_gap in Hrank as (i & row & Hi & H0 & H1).
    apply Hsol in Hsx; [|by rewrite Hx].
    eapply (contradictory_row v row x); try done; [|by eapply solves_row].
    destruct Ht as [_ Ht]. by eapply Forall_lookup_1 in Ht.
  - by eexists.
  - apply Nat.ltb_ge in Hv. pose proof (length_filter (fun row => row_nonzero v row = true) t).
    destruct (find_roots_total n v t) as [x ->]; [lia|lia|done|]. by eexists.
Qed.

(** *** Least squares *)

Definition table (h w : nat) (f : nat -> nat -> F) : matrix F :=
  (fun i => f i <$> seq 0 w) <$> seq 0 h.

(** A matrix filled element by element. *)
Lemma fill_table h w (f : nat -> nat -> F) (step : nat -> nat -> matrix F -> outcome (matrix F)) :
  (forall i j t, (i < h)%nat -> (j < w)%nat -> step i j t = set_el t i j (f i j)) ->
  loop h 0 (fun i t => loop w 0 (fun j t => step i j t) t)
    (replicate h (replicate w zero)) = Ok (table h w f).
Proof.
  intros Hg.
  match goal with |- loop h 0 ?body ?t0 = _ =>
    destruct (loop_inv (fun i t => rect h w t /\
      forall i', (i' < i)%nat -> t !! i' = Some (f i' <$> seq 0 w)) body h 0 t0)
      as (t & -> & [Hlen _] & Ht)
  end.
  - split; [|lia]. split; [by rewrite length_replicate|].
    apply Forall_replicate. by rewrite length_replicate.
  - intros i t Hi [Hr Ht]. destruct (rect_lookup h w t i Hr) as (row & Hrow & Hl); [lia|].
    pose proof (lookup_lt_Some _ _ _ Hrow) as Hlt.
    assert (Hw : forall body, loop w 0 body t = loop (length row) 0 body t) by (by rewrite Hl).
    rewrite Hw, (row_loop (fun j _ => f i j) _ t i row Hrow).
    + eexists. split; [done|].
      assert (Himap : imap (fun j _ => f i j) row = f i <$> seq 0 w).
      { apply list_eq. intros j. rewrite list_lookup_imap, list_lookup_fmap.
        destruct (decide (j < w)%nat) as [Hj|Hj].
        - destruct (lookup_lt_is_Some_2 row j) as [a Ha]; [lia|]. rewrite Ha.
          by rewrite lookup_seq_lt by done.
        - rewrite (lookup_ge_None_2 row j) by lia. by rewrite lookup_seq_ge by lia. }
      rewrite Himap. split.
      * apply rect_insert; [done|]. by rewrite length_fmap, length_seq.
      * intros i' Hi'. destruct (decide (i' = i)) as [->|]; [by apply list_lookup_insert_eq|].
        rewrite list_lookup_insert_ne by done. apply Ht. lia.
    + intros j a row' Ha Ha' Hl'. pose proof (lookup_lt_Some _ _ _ Ha) as Hj.
      rewrite Hg by lia. by apply set_el_row; [|rewrite Hl'].
  - f_equal. apply list_eq. intros i. unfold table. rewrite list_lookup_fmap.
    destruct (decide (i < h)%nat) as [Hi|Hi].
    + rewrite Ht by lia. by rewrite lookup_seq_lt.
    + rewrite (lookup_ge_None_2 t i) by lia. by rewrite lookup_seq_ge by lia.
Qed.

Definition column (m : matrix F) (j : nat) : list F := (fun row => default zero (row !! j)) <$> m.

Lemma make_transpose_matrix_ok n w m :
  (1 <= n)%nat -> rect n w m -> make_transpose_matrix m = Ok (column m <$> seq 0 w).
Proof.
  intros Hn Hr. pose proof Hr as [Hlen _]. unfold make_transpose_matrix.
  destruct (rect_lookup _ _ m 0 Hr) as (row & Hrow & Hl); [lia|].
  rewrite (at_ok _ _ _ Hrow). simpl. rewrite Hl, Hlen.
  rewrite (fill_table w n (fun i j => default zero ((m !! j) ≫= (.!! i)))).
  - f_equal. unfold table. apply list_fmap_ext. intros _ i _. unfold column.
    apply list_eq. intros j. rewrite !list_lookup_fmap. destruct (decide (j < n)%nat) as [Hj|Hj].
    + destruct (rect_lookup _ _ m j Hr) as (r & Hj' & _); [done|].
      rewrite lookup_seq_lt by done. simpl. by rewrite Hj'.
    + rewrite (lookup_ge_None_2 m j) by lia. by rewrite lookup_seq_ge by lia.
  - intros i j t Hi Hj. destruct (rect_lookup _ _ m j Hr) as (r & Hr' & Hlr); [done|].
    destruct (lookup_lt_is_Some_2 r i) as [a Ha]; [lia|]. rewrite Hr'. simpl. rewrite Ha.
    by rewrite (el_ok _ _ r _ a).
Qed.

Lemma dot_product_ok u y : length u = length y -> dot_product u y = Ok (form u y).
Proof.
  intros Hl. unfold dot_product.
  destruct u as [|a u]; [by destruct y|]. destruct y as [|b y]; [done|].
  set (u1 := a :: u) in *. set (y1 := b :: y) in *.
  match goal with |- loop _ 0 ?body zero = _ =>
    destruct (loop_inv (fun i acc => add acc (form (drop i u1) (drop i y1)) = form u1 y1)
      body (length u1) 0 zero) as (acc & -> & Hacc)
  end.
  - rewrite !drop_0. ring.
  - intros i acc Hi Hinv. destruct (lookup_lt_is_Some_2 u1 i) as [c Hc]; [lia|].
    destruct (lookup_lt_is_Some_2 y1 i) as [d Hd]; [lia|].
    rewrite (at_ok _ _ _ Hc). simpl. rewrite (at_ok _ _ _ Hd). simpl.
    rewrite get_limit_exact. simpl. rewrite get_limit_exact. eexists. split; [done|].
    rewrite <- Hinv. rewrite (drop_S u1 c i), (drop_S y1 d i) by done. unfold form. simpl. ring.
  - f_equal. rewrite <- Hacc, drop_ge by lia. unfold form. simpl. ring.
Qed.

Lemma length_column m j : length (column m j) = length m.
Proof. apply length_fmap. Qed.

Lemma least_squares_ok n v m :
  (1 <= n)%nat -> rect n (S v) m ->
  least_squares m = Ok (table v (S v) (fun i j => form (column m i) (column m j))).
Proof.
  intros Hn Hr. unfold least_squares. rewrite (make_transpose_matrix_ok n (S v)) by done.
  cbn [obind]. rewrite (rect_vars_cnt n v) by done. cbn [obind].
  apply fill_table. intros i j t Hi Hj.
  rewrite !(at_ok _ _ (column m _)) by (rewrite list_lookup_fmap, lookup_seq_lt by lia; done).
  simpl. by rewrite dot_product_ok by (by rewrite !length_column).
Qed.

(** A row as the list of its elements. *)
Lemma row_elements row w :
  length row = w -> (fun j => default zero (row !! j)) <$> seq 0 w = row.
Proof.
  intros Hl. apply list_eq. intros j. rewrite list_lookup_fmap.
  destruct (decide (j < w)%nat) as [Hj|Hj].
  - rewrite lookup_seq_lt by done. simpl.
    destruct (lookup_lt_is_Some_2 row j) as [a Ha]; [lia|]. by rewrite Ha.
  - rewrite (lookup_ge_None_2 row j) by lia. by rewrite lookup_seq_ge by lia.
Qed.

Lemma form_linear (f g : nat -> F) (c : F) l y :
  form ((fun j => add (mul c (f j)) (g j)) <$> l) y =
  add (mul c (form (f <$> l) y)) (form (g <$> l) y).
Proof.
  unfold form. revert y. induction l as [|j l IH]; intros [|b y]; csimpl; simpl; try ring.
  etransitivity; [apply f_equal, IH|]. ring.
Qed.

(** The combination of the columns by [y], weighted by [u]: the columns or the
    rows may be summed first. *)
Lemma form_exchange u m w y :
  Forall (fun row => length row = w) m ->
  form ((fun j => form u (column m j)) <$> seq 0 w) y = form u ((fun row => form row y) <$> m).
Proof.
  revert u. induction m as [|row m IH]; intros u Hw.
  { rewrite form_nil_r. apply form_zero. intros j a b Ha _. rewrite list_lookup_fmap in Ha.
    destruct (seq 0 w !! j); simpl in Ha; [|done]. simplify_eq. unfold column. simpl.
    rewrite form_nil_r. ring. }
  apply Forall_cons in Hw as [Hl Hw]. destruct u as [|a u].
  { apply form_zero. intros j b c Hb _. rewrite list_lookup_fmap in Hb.
    destruct (seq 0 w !! j); simpl in Hb; [|done]. simplify_eq. unfold form. simpl. ring. }
  change (form (a :: u) ((fun row => form row y) <$> row :: m)) with
    (add (mul a (form row y)) (form u ((fun row => form row y) <$> m))).
  assert (form row y = form ((fun j => default zero (row !! j)) <$> seq 0 w) y) as ->
    by (by rewrite row_elements).
  rewrite <- IH by done. by rewrite <- form_linear.
Qed.

(** In exact arithmetic and with 0 for [EPSILON] [least_squares] returns the normal equations: a
    square system whose solutions are the vectors at which the residuals of
    the given equations are orthogonal to every column of the coefficients. *)
Theorem least_squares_normal_equations n v (m : matrix F) :
  (1 <= n)%nat -> rect n (S v) m ->
  exists c : matrix F, least_squares m = Ok c /\ rect v (S v) c /\
    forall x, length x = v ->
      solves c x <->
      forall i, (i < v)%nat ->
        form (column m i) ((fun row => form row (x ++ [opp one])) <$> m) = zero.
Proof.
  intros Hn Hr. eexists. split; [by apply (least_squares_ok n v)|]. split.
  - split; [unfold table; by rewrite length_fmap, length_seq|]. apply Forall_fmap, Forall_true.
    intros i. simpl. by rewrite length_fmap, length_seq.
  - intros x _. destruct Hr as [_ Hw]. unfold solves. rewrite Forall_lookup.
    assert (Hrow : forall i, (i < v)%nat ->
      table v (S v) (fun i j => form (column m i) (column m j)) !! i =
      Some ((fun j => form (column m i) (column m j)) <$> seq 0 (S v))).
    { intros i Hi. unfold table. by rewrite list_lookup_fmap, lookup_seq_lt. }
    split.
    + intros H i Hi. rewrite <- (form_exchange _ _ (S v)) by done. by apply (H i), Hrow.
    + intros H i row Hi. unfold holds_row. pose proof (lookup_lt_Some _ _ _ Hi) as Hlt.
      unfold table in Hlt. rewrite length_fmap, length_seq in Hlt. rewrite Hrow in Hi by done.
      simplify_eq. rewrite (form_exchange _ _ (S v)) by done. by apply H.
Qed.
End exact.

(** ** Rational numbers *)

Module Rational.
Import Qcanon.

Definition ltb (x y : Qc) : bool := negb (Qle_bool y x).

(** Halves are rounded away from zero. *)
Definition round (x : Qc) : Qc :=
  let n := Qnum (this x) in
  let d := Zpos (Qden (this x)) in
  let r := Z.div (2 * Z.abs n + d) (2 * d) in
  Q2Qc (inject_Z (if (n <? 0)%Z then - r else r)%Z).

#[export] Instance scalar : Scalar Qc := {|
  zero := Q2Qc 0; one := Q2Qc 1; minus_one := Qcopp (Q2Qc 1);
  add := Qcplus; sub := Qcminus; mul := Qcmult; div := Qcdiv;
  lt := ltb; eqb := Qc_eq_bool; EPSILON := Q2Qc 0; round_int := fun x => Ok (round x)
|}.

Lemma ltb_lt x y : ltb x y = true <-> Qclt x y.
Proof.
  unfold ltb. rewrite negb_true_iff, <- not_true_iff_false, Qle_bool_iff. unfold Qclt.
  split; [apply Qnot_le_lt|apply Qlt_not_le].
Qed.

#[export] Instance exact : Exact Qc.
Proof.
  refine {| opp := Qcopp; inv := Qcinv; exact_field := Qcft |}; try done.
  - intros x y. split; [apply Qc_eq_bool_correct|]. intros ->. simpl. unfold Qc_eq_bool.
    by destruct (Qc_eq_dec y y).
  - intros x. apply not_true_iff_false. intros [H1%ltb_lt H2%ltb_lt]%andb_true_iff.
    apply (Qclt_not_le _ _ H1). by apply Qclt_le_weak.
  - intros x. apply not_true_iff_false. intros H. unfold my_abs in H. simpl in H.
    destruct (ltb x (Q2Qc 0)) eqn:E; [|by rewrite E in H].
    apply ltb_lt in E. apply ltb_lt in H.
    apply (Qclt_not_le _ _ H).
    replace (Q2Qc 0) with (Qcopp (Q2Qc 0)) by ring.
    replace (Qcmult x (Qcopp (Q2Qc 1))) with (Qcopp x) by ring.
    by apply Qcopp_le_compat, Qclt_le_weak.
  - intros x. by exists (round x).
Defined.

Definition q (n : Z) : Qc := Q2Qc (inject_Z n).
End Rational.

(** ** Doubles *)

Module Binary64.
Definition normalize (m e : Z) : spec_float := binary_normalize 53 1024 m e false.
Definition of_Z (n : Z) : spec_float := normalize n 0.

(** [round], then the conversions to [int64_t] and back. *)
Definition round_int64 (x : spec_float) : outcome spec_float :=
  match x with
  | S754_zero _ => Ok (of_Z 0)
  | S754_finite s m e =>
      let r := (if 0 <=? e then Z.shiftl (Zpos m) e
                else Z.shiftr (Zpos m + Z.shiftl 1 (- e - 1)) (- e))%Z in
      let n := (if s then - r else r)%Z in
      if (- 2 ^ 63 <=? n)%Z && (n <? 2 ^ 63)%Z then Ok (of_Z n) else Fault Indeterminate
  | _ => Fault Indeterminate
  end.

#[export] Instance scalar64 : Scalar spec_float := {|
  zero := of_Z 0; one := of_Z 1; minus_one := of_Z (-1);
  add := SFadd 53 1024; sub := SFsub 53 1024; mul := SFmul 53 1024; div := SFdiv 53 1024;
  lt := SFltb; eqb := SFeqb; EPSILON := normalize 7922816251426434 (-96);
  round_int := round_int64
|}.

Definition doubles (m : list (list Z)) : matrix spec_float := (fun row : list Z => of_Z <$> row) <$> m.
End Binary64.

Section runs.
Import Binary64.

(** Two equations with one solution: x = 3, y = 2, after an exchange of rows. *)
Example solves_doubles :
  gaussian_method (doubles [[0; 1; 2]; [2; 1; 8]]%Z) =
  Ok (CONSIST_AND_ONE_SOLUTION, of_Z <$> [3; 2]%Z).
Proof. vm_compute. reflexivity. Qed.

(** y = 1 and y = 2 cannot both hold; the answer is a solution, one of whose
    components is the result of a division by zero. *)
Example inconsistent_answered_yes :
  gaussian_method (doubles [[0; 1; 1]; [0; 1; 2]]%Z) =
  Ok (CONSIST_AND_ONE_SOLUTION, [S754_infinity true; of_Z 2]).
Proof. vm_compute. reflexivity. Qed.

(** The same equations with a third unknown: infinitely many solutions. *)
Example inconsistent_answered_inf :
  gaussian_method (doubles [[0; 1; 0; 1]; [0; 1; 0; 2]]%Z) = Ok (CONSIST_AND_INF_SOLUTION, []).
Proof. vm_compute. reflexivity. Qed.

(** Four equations in one unknown: row 2 has no column 2. *)
Example tall_system_reads_outside :
  gaussian_method (doubles [[1; 1]; [1; 1]; [1; 1]; [1; 1]]%Z) = Fault OutOfBounds.
Proof. vm_compute. reflexivity. Qed.

Example determinant_doubles :
  get_determinant (doubles [[0; 2; 1]; [3; 1; 0]; [1; 0; 2]]%Z) 0 = Ok (of_Z (-13)).
Proof. vm_compute. reflexivity. Qed.

(** Three points on the line y = 2 x + 1: the coefficients 2 and 1. *)
Example least_squares_doubles :
  solve 3 2 (of_Z <$> [0; 1; 1; 1; 1; 3; 2; 1; 5]%Z) =
  Ok (CONSIST_AND_ONE_SOLUTION, of_Z <$> [2; 1]%Z).
Proof. vm_compute. reflexivity. Qed.
End runs.

Section witnesses.
Import Qcanon Rational.

Lemma exchanged_unique (a b c d : Qc) :
  holds_row [q 0; q 1; c] [a; b] -> holds_row [q 1; q 1; d] [a; b] -> a = Qcminus d c /\ b = c.
Proof.
  unfold holds_row, form. simpl. change (q 0) with (Q2Qc 0). change (q 1) with (Q2Qc 1). intros H1 H2.
  assert (b = c) as ->.
  { etransitivity; [|etransitivity; [apply (f_equal (fun z => Qcplus z c) H1)|]]; ring. }
  split; [|done].
  etransitivity; [|etransitivity; [apply (f_equal (fun z => Qcplus z (Qcminus d c)) H2)|]]; ring.
Qed.

Lemma gaussian_finds_solution_witness :
  gaussian_method [[q 0; q 1; q 2]; [q 1; q 1; q 5]] = Ok (CONSIST_AND_ONE_SOLUTION, [q 3; q 2]).
Proof.
  apply (gaussian_finds_solution 2).
  - lia.
  - split; [reflexivity|repeat constructor].
  - reflexivity.
  - repeat constructor; vm_compute; by apply Qc_is_canon.
  - intros y Hy H. destruct y as [|a [|b [|? ?]]]; try discriminate Hy.
    apply Forall_cons in H as [H1 [H2 _]%Forall_cons].
    destruct (exchanged_unique a b (q 2) (q 5) H1 H2) as [-> ->].
    reflexivity.
Defined.

Lemma gaussian_not_consist_witness :
  exists r, gaussian_method [[q 1; q 1; q 2]; [q 1; q 1; q 3]] = Ok r /\
    (r.1 = NOT_CONSIST -> forall x, length x = 2%nat -> ~ solves [[q 1; q 1; q 2]; [q 1; q 1; q 3]] x).
Proof.
  apply (gaussian_not_consist 2 2); [lia|]. split; [reflexivity|repeat constructor].
Defined.

Lemma least_squares_normal_equations_witness :
  exists c, least_squares [[q 1; q 2]; [q 2; q 5]] = Ok c /\ rect 1 2 c /\
    forall x, length x = 1%nat -> solves c x <->
      forall i, (i < 1)%nat ->
        form (column [[q 1; q 2]; [q 2; q 5]] i)
          ((fun row => form row (x ++ [opp one])) <$> [[q 1; q 2]; [q 2; q 5]]) = zero.
Proof.
  apply (least_squares_normal_equations 2 1); [lia|]. split; [reflexivity|repeat constructor].
Defined.
End witnesses.
