(* ===== verification/FileThreads.v ===== *)
(** * FileThreads: writers and readers of files

    Models src/src/pthreads-problems/problem-4/solution.c: half of the threads
    write a file each, the other half read one each, and a reader waits for the
    flag that its writer sets; all of them share one mutex and one condition
    variable.  [writable] says which files can be opened and [sizes] how many
    characters a writer puts. *)

From S2P Require Import Prelude CInt CString.
Open Scope Z_scope.

(** ** Names of files *)

Definition USER_DIR : cstr := bytes_of "/home/test/c_thread_app/".

Definition int_to_str (malloc_ok : bool) (num : Z) : outcome (option cstr) :=
  let length := strlen (print_dec num) + 1 in
  if negb malloc_ok then Ok None
  else let? str := sprintf (Z.to_nat length) (print_dec num) in Ok (Some str).

Definition concat (malloc_ok : bool) (str1 str2 : cstr) : outcome (option cstr) :=
  let new_str_len := strlen str1 + strlen str2 in
  if negb malloc_ok then Ok None
  else
    let? new_str := sprintf (Z.to_nat (new_str_len + 1)) str1 in
    let? new_str := sprintf (Z.to_nat (new_str_len + 1)) (new_str ++ str2) in
    Ok (Some new_str).

(** The name of file [i]; a missing number is read through a null pointer. *)
Definition file_name (malloc_str malloc_name : bool) (i : Z) : outcome (option cstr) :=
  let? num_str := int_to_str malloc_str (2 * (i + 1) - 1) in
  let? num_str := of_option NullDeref num_str in
  concat malloc_name USER_DIR num_str.

(** [rand] is what the generator answers for a seed; a remainder by 0 is not
    defined. *)
Definition get_rand_number (rand : Z -> Z) (base user_start : Z) : outcome Z :=
  if base =? 0 then Fault Indeterminate else Ok (rand user_start mod base).

(** The number of characters a writer puts. *)
Definition rand_size_block (rand : Z -> Z) (self : Z) : outcome Z :=
  let? base := get_rand_number rand 100000 self in get_rand_number rand base self.

(** ** Threads *)

(** [write_in_file]. *)
Inductive wpc :=
| WOpen             (* fopen(.., w) *)
| WWrite            (* putc .., fclose *)
| WLock             (* pthread_mutex_lock *)
| WSet              (* the flag is set *)
| WSignal           (* pthread_cond_signal *)
| WUnlock           (* pthread_mutex_unlock *)
| WDone (res : Z).

(** [read_file]. *)
Inductive rpc :=
| RLock             (* pthread_mutex_lock *)
| RTest             (* while (the flag is not 1) *)
| RWait             (* in pthread_cond_wait *)
| RUnlock           (* pthread_mutex_unlock *)
| ROpen             (* fopen(.., r) and fgetc .. *)
| RDone (res : Z) (char_cnt : nat).

#[export] Instance wpc_eq_dec : EqDecision wpc.
Proof. solve_decision. Defined.
#[export] Instance rpc_eq_dec : EqDecision rpc.
Proof. solve_decision. Defined.

Inductive tid := Writer (i : nat) | Reader (i : nat).
#[export] Instance tid_eq_dec : EqDecision tid.
Proof. solve_decision. Defined.

(** A file: not written yet, being written, or closed with its length. *)
Inductive file := Absent | Partial | Closed (size : nat).
#[export] Instance file_eq_dec : EqDecision file.
Proof. solve_decision. Defined.

Record config := mk_c {
  writers : list wpc;
  readers : list rpc;
  files_lock : list bool;
  files : list file;
  owner : option tid
}.

Section threads.
Context (writable : nat -> bool) (sizes : nat -> nat).

Definition with_writer (c : config) (i : nat) (p : wpc) : config :=
  mk_c (<[i := p]> (writers c)) (readers c) (files_lock c) (files c) (owner c).
Definition with_reader (c : config) (i : nat) (p : rpc) : config :=
  mk_c (writers c) (<[i := p]> (readers c)) (files_lock c) (files c) (owner c).
Definition with_file (c : config) (i : nat) (f : file) : config :=
  mk_c (writers c) (readers c) (files_lock c) (<[i := f]> (files c)) (owner c).
Definition with_owner (c : config) (o : option tid) : config :=
  mk_c (writers c) (readers c) (files_lock c) (files c) o.
Definition with_flag (c : config) (i : nat) : config :=
  mk_c (writers c) (readers c) (<[i := true]> (files_lock c)) (files c) (owner c).

(** [e] is the reader that a signal wakes, where one waits. *)
Definition exec_writer (i e : nat) (c : config) : option config :=
  match writers c !! i with
  | Some WOpen =>
      if writable i then Some (with_file (with_writer c i WWrite) i Partial)
      else Some (with_writer c i (WDone 1))
  | Some WWrite => Some (with_file (with_writer c i WLock) i (Closed (sizes i)))
  | Some WLock =>
      match owner c with
      | None => Some (with_owner (with_writer c i WSet) (Some (Writer i)))
      | Some _ => None
      end
  | Some WSet => Some (with_flag (with_writer c i WSignal) i)
  | Some WSignal =>
      if decide (RWait ∈ readers c) then
        if decide (readers c !! e = Some RWait)
        then Some (with_reader (with_writer c i WUnlock) e RLock) else None
      else Some (with_writer c i WUnlock)
  | Some WUnlock => Some (with_owner (with_writer c i (WDone 0)) None)
  | Some (WDone _) | None => None
  end.

(** Reading a file that is still written gives what is there so far: [e]. *)
Definition exec_reader (i e : nat) (c : config) : option config :=
  match readers c !! i with
  | Some RLock =>
      match owner c with
      | None => Some (with_owner (with_reader c i RTest) (Some (Reader i)))
      | Some _ => None
      end
  | Some RTest =>
      if decide (files_lock c !! i = Some true) then Some (with_reader c i RUnlock)
      else Some (with_owner (with_reader c i RWait) None)
  | Some RUnlock => Some (with_owner (with_reader c i ROpen) None)
  | Some ROpen =>
      match files c !! i with
      | Some (Closed n) => Some (with_reader c i (RDone 0 n))
      | Some Partial => Some (with_reader c i (RDone 0 e))
      | _ => Some (with_reader c i (RDone 1 0))
      end
  | Some (RWait | RDone _ _) | None => None
  end.

Definition exec (t : tid) (e : nat) (c : config) : option config :=
  match t with Writer i => exec_writer i e c | Reader i => exec_reader i e c end.

(** The condition variable may also wake a thread that nobody signalled. *)
Definition spurious (i : nat) (c : config) : option config :=
  if decide (readers c !! i = Some RWait) then Some (with_reader c i RLock) else None.

Definition step (c c' : config) : Prop := exists t e, exec t e c = Some c'.
Definition any_step (c c' : config) : Prop := step c c' \/ exists i, spurious i c = Some c'.

(** [k] writers and [k] readers. *)
Definition initial (k : nat) : config :=
  mk_c (replicate k WOpen) (replicate k RLock) (replicate k false) (replicate k Absent) None.

(** [main] joins the threads in the order of their creation, and frees the
    address of its own variable after the first. *)
Definition joined (c : config) (i : nat) : bool :=
  if (i <? length (writers c))%nat
  then match writers c !! i with Some (WDone _) => true | _ => false end
  else match readers c !! (i - length (writers c))%nat with Some (RDone _ _) => true | _ => false end.

Definition join (c : config) (i : nat) : outcome (option unit) :=
  if joined c i then Fault Indeterminate else Ok None.

(** ** What a reader reads *)

(** Writer, reader, flag and file of a pair. *)
Definition pair_ok (i : nat) (w : wpc) (r : rpc) (flag : bool) (f : file) : Prop :=
  match w with
  | WOpen => flag = false
  | WWrite => flag = false /\ writable i = true
  | WLock | WSet => flag = false /\ writable i = true /\ f = Closed (sizes i)
  | WSignal | WUnlock => writable i = true /\ f = Closed (sizes i)
  | WDone res => (res = 0 /\ writable i = true /\ f = Closed (sizes i)) \/ (flag = false /\ writable i = false)
  end /\
  match r with
  | RUnlock | ROpen => flag = true
  | RDone res n => flag = true /\ res = 0 /\ n = sizes i
  | RLock | RTest | RWait => True
  end.

Record inv (k : nat) (c : config) : Prop := {
  inv_lengths : length (writers c) = k /\ length (readers c) = k /\
                length (files_lock c) = k /\ length (files c) = k;
  inv_pairs : forall i w r flag f,
    writers c !! i = Some w -> readers c !! i = Some r ->
    files_lock c !! i = Some flag -> files c !! i = Some f -> pair_ok i w r flag f
}.

(** The flag is set only after the file was closed. *)
Lemma flag_closed i w r f : pair_ok i w r true f -> writable i = true /\ f = Closed (sizes i).
Proof. intros [Hw _]. destruct w; naive_solver. Qed.

Lemma inv_pair k c i :
  inv k c -> (i < k)%nat ->
  exists w r flag f, writers c !! i = Some w /\ readers c !! i = Some r /\
    files_lock c !! i = Some flag /\ files c !! i = Some f /\ pair_ok i w r flag f.
Proof.
  intros [(H1 & H2 & H3 & H4) H] Hi.
  destruct (lookup_lt_is_Some_2 (writers c) i) as [w Hw]; [lia|].
  destruct (lookup_lt_is_Some_2 (readers c) i) as [r Hr]; [lia|].
  destruct (lookup_lt_is_Some_2 (files_lock c) i) as [fl Hfl]; [lia|].
  destruct (lookup_lt_is_Some_2 (files c) i) as [f Hf]; [lia|].
  exists w, r, fl, f. split_and!; try done. by apply H.
Qed.

(** A step that changes the pair [i] only. *)
Lemma pair_update k c c' i w r flag f :
  inv k c ->
  writers c' = <[i := w]> (writers c) -> readers c' = <[i := r]> (readers c) ->
  files_lock c' = <[i := flag]> (files_lock c) -> files c' = <[i := f]> (files c) ->
  pair_ok i w r flag f -> inv k c'.
Proof.
  intros [(L1 & L2 & L3 & L4) H] E1 E2 E3 E4 Hp. split.
  - rewrite E1, E2, E3, E4, !length_insert. done.
  - intros j w' r' flag' f'. rewrite E1, E2, E3, E4. destruct (decide (j = i)) as [->|Hne].
    + intros Hw Hr Hfl Hf.
      apply list_lookup_insert_Some in Hw as [(_ & -> & ?)|[? _]]; [|done].
      apply list_lookup_insert_Some in Hr as [(_ & -> & ?)|[? _]]; [|done].
      apply list_lookup_insert_Some in Hfl as [(_ & -> & ?)|[? _]]; [|done].
      apply list_lookup_insert_Some in Hf as [(_ & -> & ?)|[? _]]; [|done]. done.
    + rewrite !list_lookup_insert_ne by done. apply H.
Qed.

(** Waking a reader changes nothing that matters. *)
Lemma inv_wake k c e : inv k c -> readers c !! e = Some RWait -> inv k (with_reader c e RLock).
Proof.
  intros Hi He.
  destruct (inv_pair k c e Hi) as (w & r & flag & f & Hw & Hr & Hfl & Hf & Hp).
  { destruct Hi as [(_ & <- & _) _]. by eapply lookup_lt_Some. }
  simplify_eq. apply (pair_update k c _ e w RLock flag f); simpl; try done;
    try (by rewrite list_insert_id).
Qed.

(** A step of writer [i] that leaves its reader alone. *)
Lemma inv_writer k c c' i w r flag f w' flag' f' :
  inv k c -> writers c !! i = Some w -> readers c !! i = Some r ->
  files_lock c !! i = Some flag -> files c !! i = Some f ->
  writers c' = <[i := w']> (writers c) -> readers c' = readers c ->
  files_lock c' = <[i := flag']> (files_lock c) -> files c' = <[i := f']> (files c) ->
  pair_ok i w' r flag' f' -> inv k c'.
Proof.
  intros Hi Hw Hr Hfl Hf E1 E2 E3 E4 Hp. apply (pair_update k c c' i w' r flag' f'); try done.
  by rewrite E2, list_insert_id.
Qed.

Ltac writer_step w' flag' f' :=
  match goal with
  | Hi : inv ?k ?c, Hw : writers ?c !! ?i = Some ?w, Hr : readers ?c !! ?i = Some ?r,
    Hfl : files_lock ?c !! ?i = Some ?flag, Hf : files ?c !! ?i = Some ?f |- _ =>
      apply (inv_writer k c _ i w r flag f w' flag' f' Hi Hw Hr Hfl Hf); simpl;
      [reflexivity|reflexivity|first [reflexivity|by rewrite list_insert_id]|
       first [reflexivity|by rewrite list_insert_id]|]
  end.

Lemma inv_exec_writer k c i e c' : inv k c -> exec_writer i e c = Some c' -> inv k c'.
Proof.
  intros Hi He. unfold exec_writer in He. destruct (writers c !! i) as [w|] eqn:Hw; [|done].
  destruct (inv_pair k c i Hi) as (w0 & r & flag & f & Hw0 & Hr & Hfl & Hf & Hp).
  { destruct Hi as [(<- & _) _]. by eapply lookup_lt_Some. }
  rewrite Hw in Hw0. injection Hw0 as <-. pose proof Hp as [Hpw Hpr].
  assert (Hno : flag = false -> match r with RLock | RTest | RWait => True | _ => False end).
  { intros ->. destruct r; naive_solver. }
  destruct w; simpl in Hpw.
  - destruct (writable i) eqn:Ew; injection He as <-.
    + writer_step WWrite flag Partial. split; [done|]. specialize (Hno Hpw). by destruct r.
    + writer_step (WDone 1) flag f. split; [by right|done].
  - injection He as <-. writer_step WLock flag (Closed (sizes i)). split; [naive_solver|done].
  - destruct (owner c); [done|]. injection He as <-. by writer_step WSet flag f.
  - injection He as <-. writer_step WSignal true f. destruct Hpw as (-> & ? & ?).
    split; [done|]. specialize (Hno eq_refl). by destruct r.
  - destruct (decide (RWait ∈ readers c)) as [_|_].
    + destruct (decide (readers c !! e = Some RWait)) as [Hwt|]; [|done]. injection He as <-.
      pose proof (inv_wake k c e Hi Hwt) as Hi2.
      destruct (inv_pair k (with_reader c e RLock) i Hi2) as (w2 & r2 & flag2 & f2 & Hw2 & Hr2 & Hfl2 & Hf2 & Hp2).
      { destruct Hi as [(<- & _) _]. by eapply lookup_lt_Some. }
      simpl in Hw2. rewrite Hw in Hw2. injection Hw2 as <-.
      apply (inv_writer k (with_reader c e RLock) _ i WSignal r2 flag2 f2 WUnlock flag2 f2 Hi2 Hw Hr2 Hfl2 Hf2);
        simpl; [reflexivity|reflexivity|by rewrite list_insert_id|by rewrite list_insert_id|done].
    + injection He as <-. by writer_step WUnlock flag f.
  - injection He as <-. writer_step (WDone 0) flag f. split; [by left|done].
  - done.
Qed.

Lemma inv_exec_reader k c i e c' : inv k c -> exec_reader i e c = Some c' -> inv k c'.
Proof.
  intros Hi He. unfold exec_reader in He.
  destruct (readers c !! i) as [r|] eqn:Hr; [|done].
  destruct (inv_pair k c i Hi) as (w & r0 & flag & f & Hw & Hr0 & Hfl & Hf & Hp).
  { destruct Hi as [(_ & <- & _) _]. by eapply lookup_lt_Some. }
  simplify_eq. pose proof Hp as [Hpw Hpr].
  assert (Hup : forall p o, (match p with
      | RUnlock | ROpen => flag = true
      | RDone res n => flag = true /\ res = 0 /\ n = sizes i
      | RLock | RTest | RWait => True end) -> inv k (with_owner (with_reader c i p) o)).
  { intros p o Hpp. apply (pair_update k c _ i w p flag f); simpl; try done;
      try (by rewrite list_insert_id). }
  assert (Hup' : forall p, (match p with
      | RUnlock | ROpen => flag = true
      | RDone res n => flag = true /\ res = 0 /\ n = sizes i
      | RLock | RTest | RWait => True end) -> inv k (with_reader c i p)).
  { intros p Hpp. apply (pair_update k c _ i w p flag f); simpl; try done;
      try (by rewrite list_insert_id). }
  destruct r; simpl in Hpr; try done.
  - destruct (owner c); simplify_eq. by apply Hup.
  - rewrite Hfl in He. case_decide; simplify_eq; [by apply Hup'|by apply Hup].
  - simplify_eq. by apply Hup.
  - subst flag. destruct (flag_closed _ _ _ _ Hp) as [_ ->]. rewrite Hf in He. simplify_eq. by apply Hup'.
Qed.

Lemma inv_initial_files k : inv k (initial k).
Proof.
  split; simpl; [by rewrite !length_replicate|]. intros i w r flag f.
  intros [-> _]%lookup_replicate [-> _]%lookup_replicate [-> _]%lookup_replicate [-> _]%lookup_replicate.
  done.
Qed.

Lemma inv_any_step k c c' : inv k c -> any_step c c' -> inv k c'.
Proof.
  intros Hi [(t & e & He)|[i He]].
  - destruct t; [by eapply inv_exec_writer|by eapply inv_exec_reader].
  - unfold spurious in He. case_decide; simplify_eq. by apply inv_wake.
Qed.

(** With any number of pairs and any interleaving, wake-ups that nobody
    signalled included, a reader that ends has read its whole file: it opened
    it after its writer had closed it, and counted as many characters as were
    written.  The reader of a file that cannot be written never gets past its
    wait. *)
Theorem readers_read_whole_files k c i :
  (i < k)%nat -> rtc any_step (initial k) c ->
  (forall res n, readers c !! i = Some (RDone res n) ->
     res = 0 /\ n = sizes i /\ files c !! i = Some (Closed (sizes i))) /\
  (writable i = false ->
     readers c !! i = Some RLock \/ readers c !! i = Some RTest \/ readers c !! i = Some RWait).
Proof.
  intros Hik Hc. assert (Hi : inv k c).
  { revert Hc. apply (rtc_ind_r (fun c => inv k c)); [apply inv_initial_files|].
    intros c1 c2 _ Hs H1. by eapply inv_any_step. }
  destruct (inv_pair k c i Hi Hik) as (w & r & flag & f & Hw & Hr & Hfl & Hf & Hp). rewrite Hr, Hf.
  pose proof (proj2 Hp) as Hpr. split.
  - intros res n [= ->]. destruct Hpr as (-> & -> & ->).
    destruct (flag_closed _ _ _ _ Hp) as [_ ->]. done.
  - intros Hwr. destruct flag.
    + destruct (flag_closed _ _ _ _ Hp) as [? _]. congruence.
    + destruct r; naive_solver.
Qed.
End threads.

(** ** A reader that is not woken *)

Fixpoint run (ts : list (tid * nat)) (c : config) : option config :=
  match ts with
  | [] => Some c
  | (t, e) :: ts => exec (fun _ => true) (fun i => S i) t e c ≫= run ts
  end.

Lemma run_steps ts : forall c c', run ts c = Some c' -> rtc (step (fun _ => true) (fun i => S i)) c c'.
Proof.
  induction ts as [|[t e] ts IH]; intros c c' H; simpl in H; [by simplify_eq|].
  destruct (exec _ _ t e c) as [c1|] eqn:E; [|done]. eapply rtc_l; [by exists t, e|by apply IH].
Qed.

(** Both readers wait; each writer's signal wakes reader 1. *)
Definition hang_turns : list (tid * nat) :=
  replicate 2 (Reader 0, 0%nat) ++ replicate 2 (Reader 1, 0%nat) ++
  replicate 6 (Writer 0, 1%nat) ++ replicate 2 (Reader 1, 0%nat) ++
  replicate 6 (Writer 1, 1%nat) ++ replicate 4 (Reader 1, 0%nat).

Definition hung : config :=
  mk_c [WDone 0; WDone 0] [RWait; RDone 0 2] [true; true] [Closed 1; Closed 2] None.

(** With two pairs: every writer has ended and every flag is set, but reader 0
    waits, and no thread can move any more. *)
Lemma reader_not_woken :
  rtc (step (fun _ => true) (fun i => S i)) (initial 2) hung /\
  forall t e, exec (fun _ => true) (fun i => S i) t e hung = None.
Proof.
  split; [apply (run_steps hang_turns); vm_compute; reflexivity|].
  intros [[|[|i]]|[|[|i]]] e; reflexivity.
Qed.

(** [main] does not survive the first thread it joins. *)
Lemma first_join_faults c i : joined c i = true -> join c i = Fault Indeterminate.
Proof. unfold join. by intros ->. Qed.

(** A generator that answers a multiple of 100000 makes the second remainder
    one by 0. *)
Lemma rand_size_block_zero rand self :
  rand self mod 100000 = 0 -> rand_size_block rand self = Fault Indeterminate.
Proof. intros H. unfold rand_size_block, get_rand_number. simpl. by rewrite H. Qed.

Lemma file_name_ok i : file_name true true i = Ok (Some (USER_DIR ++ print_dec (2 * (i + 1) - 1))).
Proof.
  unfold file_name, int_to_str, concat, sprintf, strlen. simpl negb. cbv iota.
  rewrite decide_True by lia. cbn [obind of_option]. rewrite decide_True by lia. cbn [obind].
  by rewrite decide_True by (rewrite length_app; lia).
Qed.

(** ** Witness *)

Definition one_pair : config :=
  match run (replicate 6 (Writer 0, 0%nat) ++ replicate 4 (Reader 0, 0%nat)) (initial 1) with
  | Some c => c | None => initial 1 end.

Lemma readers_read_whole_files_witness :
  readers one_pair !! 0%nat = Some (RDone 0 1) /\ files one_pair !! 0%nat = Some (Closed 1).
Proof.
  split; [vm_compute; reflexivity|].
  apply (readers_read_whole_files (fun _ => true) (fun i => S i) 1 one_pair 0) with (res := 0) (n := 1%nat).
  - lia.
  - apply (rtc_subrel (step (fun _ => true) (fun i => S i))).
    + intros c c' H. by left.
    + apply (run_steps (replicate 6 (Writer 0, 0%nat) ++ replicate 4 (Reader 0, 0%nat))).
      vm_compute. reflexivity.
  - vm_compute. reflexivity.
Defined.
