(* ===== verification/UdpServer.v ===== *)
(** * UdpServer: a server that logs datagrams

    Models src/src/net/udp/server/udp_server.c.  What [recvfrom] answers is a
    list: a datagram, or [None] for an error; the answers of the other system
    calls are arguments.  The log is the file that [open_log] appends to. *)

From S2P Require Import Prelude CInt CString.
Open Scope Z_scope.

Definition BUFSIZE : nat := Z.to_nat (2 * 4096).
Definition MAXPATH : nat := Z.to_nat 4096.
Definition EXIT_SUCCESS := 0.
Definition EXIT_FAILURE := 1.

(** [Some status]: the process exits.  The three arguments are what the calls
    of [fork], [setsid] and [fork] answer. *)
Definition start_daemon (fork1 setsid fork2 : Z) : option Z :=
  if fork1 <? 0 then Some EXIT_FAILURE
  else if 0 <? fork1 then Some EXIT_SUCCESS
  else if setsid <? 0 then Some EXIT_FAILURE
  else if fork2 <? 0 then Some EXIT_FAILURE
  else if 0 <? fork2 then Some EXIT_SUCCESS
  else None.

(** [open_ret]: the answer of [open] for a path. *)
Definition open_log (open_ret : cstr -> Z) (log_dir_path : cstr) : outcome Z :=
  let? log_path := sprintf MAXPATH (log_dir_path ++ bytes_of "/log_file") in
  Ok (open_ret log_path).

Definition validate_dir_path (opendir : cstr -> bool) (log_dir_path : cstr) : bool :=
  opendir log_dir_path.

(** The log and the answers sent. *)
Record server := mk_server { log : list Z; replies : list cstr }.

Definition message : cstr := bytes_of "OK!".

(** Whether the loop was left, or still waits for a datagram.  The buffer is
    all zeros before each [recvfrom]; a count of -1 makes [write] read far
    beyond it. *)
Fixpoint receive_loop (input : list (option (list Z))) (s : server) : outcome (bool * server) :=
  match input with
  | [] => Ok (false, s)
  | answer :: input =>
      let received := take BUFSIZE (default [] answer) in
      let buf := received ++ replicate (BUFSIZE - length received) 0 in
      if strncmp (c_str buf) (bytes_of "OFF" ++ [10]) 4 =? 0 then Ok (true, s)
      else
        match answer with
        | None => Fault OutOfBounds
        | Some _ =>
            receive_loop input
              (mk_server (log s ++ take (length received) buf) (replies s ++ [message]))
        end
  end.

Definition main_loop (open_ret : cstr -> Z) (log_dir_path : cstr) (input : list (option (list Z)))
    (s : server) : outcome (bool * server) :=
  let? log_fd := open_log open_ret log_dir_path in
  if log_fd =? -1 then Ok (true, s) else receive_loop input s.

(** What the operating system answers; that [bind] may fail is not looked at. *)
Record world := mk_world {
  opendir : cstr -> bool;
  fork1 : Z; setsid : Z; fork2 : Z;
  open_ret : cstr -> Z;
  input : list (option (list Z))
}.

(** The exit status, or [None] while the server waits, and the server. *)
Definition main (w : world) (argv : list cstr) (s : server) : outcome (option Z * server) :=
  match argv with
  | [_; _; log_dir_path] =>
      if negb (validate_dir_path (opendir w) log_dir_path) then Ok (Some EXIT_FAILURE, s)
      else
        match start_daemon (fork1 w) (setsid w) (fork2 w) with
        | Some status => Ok (Some status, s)
        | None =>
            let? (over, s) := main_loop (open_ret w) log_dir_path (input w) s in
            Ok (if over : bool then Some EXIT_SUCCESS else None, s)
        end
  | _ => Ok (Some EXIT_FAILURE, s)
  end.

(** ** Properties *)

Definition off : list Z := bytes_of "OFF" ++ [10].
Lemma off_received data :
  is_bytes data ->
  strncmp (c_str (data ++ replicate (BUFSIZE - length data) 0)) off 4 = 0 <-> off `prefix_of` data.
Proof. intros Hd. apply (strncmp_zeros off); [repeat constructor; lia|done]. Qed.

Lemma receive_loop_step data rest s :
  is_bytes data ->
  receive_loop (Some data :: rest) s =
  if decide (off `prefix_of` take BUFSIZE data) then Ok (true, s)
  else receive_loop rest (mk_server (log s ++ take BUFSIZE data) (replies s ++ [message])).
Proof.
  intros Hd. cbn [receive_loop default]. fold off. unfold id.
  pose proof (off_received (take BUFSIZE data) (Forall_take _ _ _ Hd)) as Hoff.
  destruct (decide (off `prefix_of` take BUFSIZE data)) as [Ho|Ho].
  - apply Hoff in Ho. by rewrite Ho.
  - rewrite (proj2 (Z.eqb_neq _ _)) by tauto. by rewrite take_app_length.
Qed.

(** The server, started on a directory it can use, logs the datagrams it
    receives before the first one that starts with OFF and a newline, in their
    order and each cut off at 8192 bytes, answers each of them, and then exits
    with success. *)
Theorem main_logs_datagrams w prog port dir s ds d rest :
  opendir w dir = true -> start_daemon (fork1 w) (setsid w) (fork2 w) = None ->
  (length dir + 9 < MAXPATH)%nat -> open_ret w (dir ++ bytes_of "/log_file") <> -1 ->
  input w = map Some ds ++ Some d :: rest -> Forall is_bytes (ds ++ [d]) ->
  Forall (fun d => ~ off `prefix_of` take BUFSIZE d) ds -> off `prefix_of` take BUFSIZE d ->
  main w [prog; port; dir] s =
  Ok (Some EXIT_SUCCESS,
      mk_server (log s ++ concat (map (take BUFSIZE) ds)) (replies s ++ replicate (length ds) message)).
Proof.
  intros Hdir Hfork Hlen Hopen Hin [Hb Hbd]%Forall_app Hds Hd. unfold main, validate_dir_path, main_loop, open_log.
  rewrite Hdir, Hfork. simpl. unfold sprintf. rewrite decide_True by (rewrite length_app; simpl; lia).
  simpl. rewrite (proj2 (Z.eqb_neq _ _) Hopen), Hin.
  enough (receive_loop (map Some ds ++ Some d :: rest) s = Ok (true,
    mk_server (log s ++ concat (map (take BUFSIZE) ds)) (replies s ++ replicate (length ds) message))) as ->
    by done.
  clear Hin. revert s. induction Hds as [|d0 ds Hd0 Hds IH]; intros s; cbn [map app].
  - rewrite receive_loop_step by (by inversion Hbd). rewrite decide_True by done.
    simpl. rewrite !app_nil_r. by destruct s.
  - apply Forall_cons in Hb as [Hb0 Hb]. rewrite receive_loop_step by done.
    rewrite decide_False by done. rewrite IH by done. simpl. by rewrite <- !app_assoc.
Qed.

(** When [recvfrom] fails, the server writes from beyond its buffer. *)
Lemma receive_error_overruns rest s : receive_loop (None :: rest) s = Fault OutOfBounds.
Proof. vm_compute. reflexivity. Qed.

(** A path that leaves no room for the name of the log overruns the array. *)
Lemma long_log_path_overruns f dir :
  (MAXPATH <= length dir + 9)%nat -> open_log f dir = Fault OutOfBounds.
Proof.
  intros H. unfold open_log, sprintf. rewrite decide_False; [done|]. rewrite length_app. simpl. lia.
Qed.

(** ** Witness *)

Definition small_world : world :=
  mk_world (fun _ => true) 0 7 0 (fun _ => 3)
    [Some (bytes_of "hello"); Some []; Some (bytes_of "OFF" ++ [10; 33]); Some (bytes_of "late")].

Lemma main_logs_datagrams_witness :
  main small_world [bytes_of "server"; bytes_of "99"; bytes_of "/l"] (mk_server [] []) =
  Ok (Some 0, mk_server (bytes_of "hello") [message; message]).
Proof.
  apply (main_logs_datagrams small_world (bytes_of "server") (bytes_of "99") (bytes_of "/l")
    (mk_server [] []) [bytes_of "hello"; []] (bytes_of "OFF" ++ [10; 33]) [Some (bytes_of "late")]).
  - reflexivity.
  - reflexivity.
  - apply (bool_decide_unpack _). vm_compute. exact I.
  - discriminate.
  - reflexivity.
  - repeat constructor; lia.
  - repeat constructor; apply (bool_decide_unpack _); vm_compute; exact I.
  - apply (bool_decide_unpack _). vm_compute. exact I.
Defined.
