(* ===== verification/SortServer.v ===== *)
(** * SortServer: a server that sorts what it is sent

    Models src/src/net/examples/sortserver/solution.c.  A connection is the list
    of what [read] answers on it before 0 or an error; [main_loop] takes the
    connections in the order they are accepted. *)

From stdpp Require Import sorting.
From S2P Require Import Prelude CInt CString.
Open Scope Z_scope.

Definition BUFSIZE : nat := Z.to_nat (2 * 4096).
Definition EXIT_SUCCESS := 0.
Definition EXIT_FAILURE := 1.

(** A byte is read as a [char], which is signed. *)
Definition compare (a b : Z) : Z :=
  let x := i8 a in
  let y := i8 b in
  if x <? y then 1 else if y <? x then -1 else 0.

(** The order [qsort] is asked for. *)
Definition before (a b : Z) : Prop := compare a b <= 0.
#[export] Instance before_dec : RelDecision before.
Proof. unfold RelDecision, before. apply _. Defined.

(** Elements that compare equal are equal, so every sorting algorithm gives
    the same array. *)
Definition qsort (base : list Z) (nmemb : nat) : list Z :=
  merge_sort before (take nmemb base) ++ drop nmemb base.

(** The answers sent, the descriptors left open, and whether OFF was read. *)
Record server := mk_server { answers : list (list Z); left_open : nat }.

Fixpoint connection_loop (reads : list (list Z)) (s : server) : bool * server :=
  match reads with
  | [] => (false, s)
  | received :: reads =>
      let received := take BUFSIZE received in
      let message := received ++ replicate (BUFSIZE - length received) 0 in
      if strncmp (c_str message) (bytes_of "OFF" ++ [10]) 4 =? 0 then (true, s)
      else
        let message := qsort message (length received) in
        connection_loop reads (mk_server (answers s ++ [message]) (left_open s))
  end.

(** A connection that ends is not closed before the next is accepted. *)
Fixpoint main_loop (connections : list (list (list Z))) (s : server) : bool * server :=
  match connections with
  | [] => (false, s)
  | reads :: connections =>
      let (off, s) := connection_loop reads s in
      if off then (true, s) else main_loop connections (mk_server (answers s) (S (left_open s)))
  end.

(** The exit status, or [None] while the server waits. *)
Definition main (argc : Z) (bind_res : Z) (connections : list (list (list Z))) : option Z * server :=
  let s := mk_server [] 0 in
  if negb (argc =? 2) then (Some EXIT_FAILURE, s)
  else if bind_res =? -1 then (Some EXIT_FAILURE, s)
  else
    let (off, s) := main_loop connections s in
    (if off then Some EXIT_SUCCESS else None, s).

(** ** Sorting *)

Lemma i8_inj a b : 0 <= a < 256 -> 0 <= b < 256 -> i8 a = i8 b -> a = b.
Proof. unfold i8. intros Ha Hb. Z.to_euclidean_division_equations. lia. Qed.

Lemma before_iff a b : before a b <-> i8 b <= i8 a.
Proof.
  unfold before, compare. destruct (Z.ltb_spec (i8 a) (i8 b)); [lia|].
  destruct (Z.ltb_spec (i8 b) (i8 a)); lia.
Qed.

#[export] Instance before_trans : Transitive before.
Proof. intros a b c. rewrite !before_iff. lia. Qed.
#[export] Instance before_total : Total before.
Proof. intros a b. rewrite !before_iff. lia. Qed.

(** There is one sorted array of given bytes, so the choice of an algorithm
    does not matter. *)
Lemma sorted_unique l1 l2 :
  is_bytes l1 -> StronglySorted before l1 -> StronglySorted before l2 -> l1 ≡ₚ l2 -> l1 = l2.
Proof.
  revert l2. induction l1 as [|a l1 IH]; intros l2 Hb H1 H2 Hp.
  { by apply Permutation_nil in Hp as ->. }
  destruct l2 as [|b l2]; [by apply Permutation_sym, Permutation_nil in Hp|].
  pose proof Hb as Hb0. apply Forall_cons in Hb as [Ha Hb].
  apply StronglySorted_inv in H1 as [H1 Ha1]. apply StronglySorted_inv in H2 as [H2 Hb2].
  assert (a = b) as ->.
  { assert (Hab : before a b).
    { assert (b ∈ a :: l1) as [->|Hin]%elem_of_cons by (rewrite Hp; by left).
      - apply before_iff. lia.
      - by apply (proj1 (Forall_forall _ _) Ha1). }
    assert (Hba : before b a).
    { assert (a ∈ b :: l2) as [->|Hin]%elem_of_cons by (rewrite <- Hp; by left).
      - apply before_iff. lia.
      - by apply (proj1 (Forall_forall _ _) Hb2). }
    rewrite before_iff in Hab, Hba. apply i8_inj; [done| |lia].
    assert (b ∈ a :: l1) as Hin by (rewrite Hp; by left).
    by apply (proj1 (Forall_forall _ _) Hb0) in Hin. }
  f_equal. apply IH; try done. by apply Permutation_cons_inv in Hp.
Qed.

(** An answer to [received]: the bytes in descending order of [char], then
    zeros up to the size of the buffer. *)
Definition sorted_answer (received answer : list Z) : Prop :=
  length answer = BUFSIZE /\
  exists l, answer = l ++ replicate (BUFSIZE - length received) 0 /\
    l ≡ₚ received /\ StronglySorted (fun a b => i8 b <= i8 a) l.

Lemma answer_sorted received :
  (length received <= BUFSIZE)%nat ->
  sorted_answer received
    (qsort (received ++ replicate (BUFSIZE - length received) 0) (length received)).
Proof.
  intros Hl. unfold qsort. rewrite take_app_length, drop_app_length.
  pose proof (merge_sort_Permutation before received) as Hp. split.
  - rewrite length_app, length_replicate, Hp. lia.
  - eexists. split; [done|]. split; [done|].
    eapply StronglySorted_ind with (P := StronglySorted _); [constructor| |apply (StronglySorted_merge_sort before)].
    intros a l _ IH Ha. constructor; [done|]. eapply Forall_impl; [exact Ha|]. intros b. apply before_iff.
Qed.

Definition off : list Z := bytes_of "OFF" ++ [10].

(** What is read before OFF. *)
Fixpoint until_off (reads : list (list Z)) : list (list Z) :=
  match reads with
  | [] => []
  | received :: reads =>
      if decide (off `prefix_of` take BUFSIZE received) then [] else take BUFSIZE received :: until_off reads
  end.

Definition has_off (reads : list (list Z)) : Prop :=
  Exists (fun received => off `prefix_of` take BUFSIZE received) reads.

#[export] Instance has_off_dec reads : Decision (has_off reads).
Proof. unfold has_off. apply _. Defined.

Lemma off_read received :
  is_bytes received ->
  let received := take BUFSIZE received in
  (strncmp (c_str (received ++ replicate (BUFSIZE - length received) 0)) off 4 =? 0) =
  bool_decide (off `prefix_of` received).
Proof.
  intros Hb received0. pose proof (strncmp_zeros off received0 (BUFSIZE - length received0)
    ltac:(repeat constructor; lia) (Forall_take _ _ _ Hb)) as H.
  change 4%nat with (length off). destruct (Z.eqb_spec (strncmp (c_str (received0 ++ replicate (BUFSIZE - length received0) 0)) off (length off)) 0);
    symmetry; [apply bool_decide_eq_true_2|apply bool_decide_eq_false_2]; tauto.
Qed.

Lemma connection_loop_answers reads : forall s,
  Forall is_bytes reads ->
  exists new, connection_loop reads s =
      (bool_decide (has_off reads), mk_server (answers s ++ new) (left_open s)) /\
    Forall2 sorted_answer (until_off reads) new.
Proof.
  induction reads as [|r reads IH]; intros s Hb.
  - exists []. rewrite app_nil_r. split; [|constructor]. cbn [connection_loop].
    rewrite bool_decide_eq_false_2 by (by intros ?%Exists_nil). by destruct s.
  - apply Forall_cons in Hb as [Hr Hb]. cbn [connection_loop until_off]. fold off.
    rewrite (off_read r Hr). destruct (decide (off `prefix_of` take BUFSIZE r)) as [Ho|Ho].
    + rewrite bool_decide_eq_true_2 by done. exists []. rewrite app_nil_r. split; [|constructor].
      rewrite bool_decide_eq_true_2 by (by left). by destruct s.
    + rewrite bool_decide_eq_false_2 by done.
      match goal with |- context [connection_loop reads ?s1] => destruct (IH s1 Hb) as (new & -> & Hnew) end.
      simpl. eexists (_ :: new). split; [rewrite <- app_assoc; f_equal|constructor; [|done]].
      * apply bool_decide_ext. unfold has_off. rewrite Exists_cons. tauto.
      * apply answer_sorted. rewrite length_take. lia.
Qed.

(** Started with a port it can bind, the server answers every message it
    reads before OFF, over all connections, with the bytes of the message in
    descending order followed by zeros, 8192 bytes in all; it ends exactly when
    OFF is read.  No connection but the last is closed. *)
Theorem main_sorts connections :
  Forall (Forall is_bytes) connections ->
  let reads := concat connections in
  exists s, main 2 0 connections = (if decide (has_off reads) then Some EXIT_SUCCESS else None, s) /\
    Forall2 sorted_answer (until_off reads) (answers s) /\
    (~ has_off reads -> left_open s = length connections).
Proof.
  intros Hb reads. unfold main. cbn [Z.eqb negb].
  enough (H : forall cs s, Forall (Forall is_bytes) cs -> exists new k,
    main_loop cs s = (bool_decide (has_off (concat cs)), mk_server (answers s ++ new) (left_open s + k)) /\
    Forall2 sorted_answer (until_off (concat cs)) new /\ (~ has_off (concat cs) -> k = length cs)).
  { destruct (H connections (mk_server [] 0) Hb) as (new & k & -> & H1 & H2).
    exists (mk_server new k). split; [|split; [exact H1|exact H2]].
    by destruct (decide (has_off reads)) as [Ho|Ho];
      [rewrite bool_decide_eq_true_2 by done|rewrite bool_decide_eq_false_2 by done]. }
  clear. induction cs as [|reads cs IH]; intros s Hb.
  - exists [], 0%nat. rewrite app_nil_r, Nat.add_0_r. split; [|split; [constructor|done]].
    cbn [main_loop concat]. rewrite bool_decide_eq_false_2 by (by intros ?%Exists_nil). by destruct s.
  - apply Forall_cons in Hb as [Hr Hb]. cbn [main_loop concat].
    destruct (connection_loop_answers reads s Hr) as (new & -> & Hnew).
    destruct (decide (has_off reads)) as [Ho|Ho].
    + rewrite bool_decide_eq_true_2 by done. exists new, 0%nat. rewrite Nat.add_0_r.
      assert (Hc : has_off (reads ++ concat cs)) by (apply Exists_app; by left).
      rewrite bool_decide_eq_true_2 by done. split; [done|]. split; [|done].
      enough (until_off (reads ++ concat cs) = until_off reads) as -> by done.
      clear -Ho. induction reads as [|r reads IHr]; [by apply Exists_nil in Ho|]. simpl.
      destruct (decide _) as [|Hn]; [done|]. rewrite IHr; [done|]. by apply Exists_cons in Ho as [?|?].
    + rewrite bool_decide_eq_false_2 by done. cbn [answers left_open].
      destruct (IH (mk_server (answers s ++ new) (S (left_open s))) Hb) as (new' & k & -> & H1 & H2).
      cbn [answers left_open]. exists (new ++ new'), (S k). split; [|split].
      * rewrite <- app_assoc, Nat.add_succ_r. f_equal. apply bool_decide_ext.
        unfold has_off. rewrite Exists_app. tauto.
      * enough (until_off (reads ++ concat cs) = until_off reads ++ until_off (concat cs)) as ->
          by (by apply Forall2_app).
        clear -Ho. induction reads as [|r reads IHr]; [done|]. simpl.
        rewrite decide_False by (intros H; apply Ho; by left). rewrite decide_False by (intros H; apply Ho; by left).
        simpl. rewrite IHr; [done|]. intros H. apply Ho. by right.
      * intros Hn. rewrite H2; [done|]. intros H. apply Hn, Exists_app. by right.
Qed.

(** ** Witness *)

Lemma main_sorts_witness :
  exists s, main 2 0 [[bytes_of "ab"]; [bytes_of "c"; bytes_of "OFF" ++ [10]]] = (Some 0, s) /\
    Forall2 sorted_answer [bytes_of "ab"; bytes_of "c"] (answers s).
Proof.
  destruct (main_sorts [[bytes_of "ab"]; [bytes_of "c"; bytes_of "OFF" ++ [10]]]) as (s & H1 & H2 & _).
  - repeat constructor; lia.
  - exists s. split; [exact H1|exact H2].
Defined.
