(* ===== verification/Array.v ===== *)
(** * Array: an array that constructs its elements in place

    Models the class template of src/src/c++/array.cpp.  A block is raw memory
    for elements, [None] where no element lives; [vars] are the array objects
    of the program, by name.  [addr] is the address [new] answers, 0 where it
    throws; copies of elements do not throw. *)

From S2P Require Import Prelude CInt.
Open Scope Z_scope.

Section array.
Context {T : Type} (sizeof_T : Z).

(** [data] and [size_]. *)
Record Array := mk_array { data : Z; size_ : Z }.

Record st := mk_st { heap : gmap Z (list (option T)); vars : gmap nat Array }.

Definition array_at (v : nat) : M st Array :=
  fun s => match vars s !! v with Some a => Ok (a, s) | None => Fault Dangling end.
Definition set_array (v : nat) (a : Array) : M st unit :=
  modify (fun s => mk_st (heap s) (<[v := a]> (vars s))).
Definition drop_array (v : nat) : M st unit := modify (fun s => mk_st (heap s) (delete v (vars s))).

(** A block of [sizeof(T) * size] bytes: as many elements as fit in the
    product, which may wrap around. *)
Definition new_block (addr size : Z) : M st Z :=
  if addr =? 0 then fail Thrown
  else
    modify (fun s =>
      mk_st (<[addr := replicate (Z.to_nat (u64 (sizeof_T * size) / sizeof_T)) None]> (heap s)) (vars s));;
    ret addr.

Definition block_at (p : Z) : M st (list (option T)) :=
  fun s => if p =? 0 then Fault NullDeref
           else match heap s !! p with Some b => Ok (b, s) | None => Fault Dangling end.

(** [p[i]], an element that lives. *)
Definition elem (p : Z) (i : nat) : M st T :=
  b <- block_at p;;
  e <- lift (of_option OutOfBounds (b !! i));;
  lift (of_option Indeterminate e).

Definition set_slot (p : Z) (i : nat) (e : option T) : M st unit :=
  b <- block_at p;;
  lift (of_option OutOfBounds (b !! i));;
  modify (fun s => mk_st (<[p := <[i := e]> b]> (heap s)) (vars s)).

(** [new (p + i) T(x)] and [p[i].~T()]. *)
Definition construct_at (p : Z) (i : nat) (x : T) : M st unit := set_slot p i (Some x).
Definition destroy_at (p : Z) (i : nat) : M st unit := elem p i;; set_slot p i None.

(** [operator delete [] (p)]. *)
Definition delete_block (p : Z) : M st unit :=
  if p =? 0 then ret tt
  else block_at p;; modify (fun s => mk_st (delete p (heap s)) (vars s)).

(** [for (i = i; i < i + n; i++)]. *)
Fixpoint for_ (n i : nat) (body : nat -> M st unit) : M st unit :=
  match n with O => ret tt | S n => body i;; for_ n (S i) body end.

(** ** The members *)

(** [Array(size, value)]. *)
Definition Array_size (v : nat) (addr size : Z) (value : T) : M st unit :=
  data <- new_block addr size;;
  for_ (Z.to_nat size) 0 (fun i => construct_at data i value);;
  set_array v (mk_array data size).

Definition Array_default (v : nat) : M st unit := set_array v (mk_array 0 0).

Definition size (arr : nat) : M st Z := a <- array_at arr;; ret (size_ a).

(** The two [operator[]]. *)
Definition get (arr : nat) (i : nat) : M st T := a <- array_at arr;; elem (data a) i.
Definition set (arr : nat) (i : nat) (x : T) : M st unit :=
  a <- array_at arr;; elem (data a) i;; set_slot (data a) i (Some x).

Definition Array_copy (v : nat) (addr : Z) (arr : nat) : M st unit :=
  n <- size arr;;
  new_data <- new_block addr n;;
  for_ (Z.to_nat n) 0 (fun i => x <- get arr i;; construct_at new_data i x);;
  set_array v (mk_array new_data n).

(** Destroys the elements and releases the block of an array. *)
Definition release (a : Array) : M st unit :=
  for_ (Z.to_nat (size_ a)) 0 (fun i => destroy_at (data a) i);;
  delete_block (data a).

Definition Array_destroy (v : nat) : M st unit := a <- array_at v;; release a;; drop_array v.

Definition assign (this : nat) (addr : Z) (arr : nat) : M st unit :=
  if decide (arr = this) then ret tt
  else
    n <- size arr;;
    new_data <- new_block addr n;;
    for_ (Z.to_nat n) 0 (fun i => x <- get arr i;; construct_at new_data i x);;
    a <- array_at this;;
    release a;;
    set_array this (mk_array new_data n).

(** ** Programs *)

(** [addr_of] chooses where the next block goes. *)
Context (addr_of : gmap Z (list (option T)) -> Z).

Inductive op :=
| Make (v : nat) (n : nat) (x : T)   (* Array v(n, x); *)
| Empty (v : nat)                    (* Array v; *)
| Copy (v w : nat)                   (* Array v(w); *)
| Assign (v w : nat)                 (* v = w; *)
| Get (v : nat) (i : nat)            (* v[i] *)
| Set_ (v : nat) (i : nat) (x : T)   (* v[i] = x; *)
| Drop (v : nat).                    (* the end of the scope of v *)

Definition fresh : M st Z := gets (fun s => addr_of (heap s)).

Definition run_op (o : op) : M st (option T) :=
  match o with
  | Make v n x => a <- fresh;; Array_size v a (Z.of_nat n) x;; ret None
  | Empty v => Array_default v;; ret None
  | Copy v w => a <- fresh;; Array_copy v a w;; ret None
  | Assign v w => a <- fresh;; assign v a w;; ret None
  | Get v i => x <- get v i;; ret (Some x)
  | Set_ v i x => set v i x;; ret None
  | Drop v => Array_destroy v;; ret None
  end.

Fixpoint run_ops (ops : list op) : M st (list (option T)) :=
  match ops with
  | [] => ret []
  | o :: ops => x <- run_op o;; l <- run_ops ops;; ret (x :: l)
  end.

(** The reference: variables that hold lists.  [None] where the language does
    not define what happens. *)
Definition spec_op (o : op) (e : gmap nat (list T)) : option (option T * gmap nat (list T)) :=
  match o with
  | Make v n x =>
      if decide (e !! v = None /\ sizeof_T * Z.of_nat n < 2 ^ 64)
      then Some (None, <[v := replicate n x]> e) else None
  | Empty v => if decide (e !! v = None) then Some (None, <[v := []]> e) else None
  | Copy v w =>
      if decide (e !! v = None) then l ← e !! w; Some (None, <[v := l]> e) else None
  | Assign v w => _ ← e !! v; l ← e !! w; Some (None, <[v := l]> e)
  | Get v i => l ← e !! v; x ← l !! i; Some (Some x, e)
  | Set_ v i x => l ← e !! v; _ ← l !! i; Some (None, <[v := <[i := x]> l]> e)
  | Drop v => _ ← e !! v; Some (None, delete v e)
  end.

Fixpoint spec_ops (ops : list op) (e : gmap nat (list T)) : option (list (option T) * gmap nat (list T)) :=
  match ops with
  | [] => Some ([], e)
  | o :: ops =>
      '(x, e) ← spec_op o e;
      '(l, e) ← spec_ops ops e;
      Some (x :: l, e)
  end.

(** ** Representation *)

Hypothesis sizeof_pos : 0 < sizeof_T.
Hypothesis addr_of_fresh : forall h, addr_of h <> 0 /\ h !! addr_of h = None.

(** The block of an array holds its elements; an array made without a size has
    none. *)
Definition holds (h : gmap Z (list (option T))) (a : Array) (l : list T) : Prop :=
  size_ a = Z.of_nat (length l) /\ sizeof_T * size_ a < 2 ^ 64 /\
  ((data a = 0 /\ l = []) \/ (data a <> 0 /\ h !! data a = Some (Some <$> l))).

Record rep (s : st) (e : gmap nat (list T)) : Prop := {
  rep_dom : forall v, vars s !! v = None <-> e !! v = None;
  rep_holds : forall v a l, vars s !! v = Some a -> e !! v = Some l -> holds (heap s) a l;
  rep_apart : forall v w a b, vars s !! v = Some a -> vars s !! w = Some b ->
    data a = data b -> data a <> 0 -> v = w;
  rep_owned : forall p b, heap s !! p = Some b -> p <> 0 /\ exists v a, vars s !! v = Some a /\ data a = p
}.

Lemma rep_var s e v l : rep s e -> e !! v = Some l -> exists a, vars s !! v = Some a /\ holds (heap s) a l.
Proof.
  intros Hr He. destruct (vars s !! v) as [a|] eqn:Ha.
  - exists a. split; [done|]. by eapply (rep_holds _ _ Hr).
  - apply (rep_dom _ _ Hr) in Ha. congruence.
Qed.

Lemma holds_frame h h' a l :
  (forall b, data a <> 0 -> h !! data a = Some b -> h' !! data a = Some b) -> holds h a l -> holds h' a l.
Proof. intros Hf (H1 & H2 & [H3|[H3 H4]]); (split; [done|]; split; [done|]); [by left|]. right. split; [done|]. by apply Hf. Qed.

(** ** Loops *)

Lemma for_inv (I : nat -> st -> Prop) body n i s :
  I i s ->
  (forall j s, (i <= j < i + n)%nat -> I j s -> exists s', body j s = Ok (tt, s') /\ I (S j) s') ->
  exists s', for_ n i body s = Ok (tt, s') /\ I (i + n)%nat s'.
Proof.
  revert i s. induction n as [|n IH]; intros i s Hs Hb; simpl.
  - exists s. by rewrite Nat.add_0_r.
  - destruct (Hb i s) as (s1 & H1 & Hs1); [lia|done|]. run H1.
    destruct (IH (S i) s1 Hs1) as (s' & Hl & Hs'); [intros j s0 Hj; apply Hb; lia|].
    exists s'. by rewrite Nat.add_succ_r.
Qed.

Lemma block_at_ok s p b : p <> 0 -> heap s !! p = Some b -> block_at p s = Ok (b, s).
Proof. intros Hp Hb. unfold block_at. by rewrite (proj2 (Z.eqb_neq _ _) Hp), Hb. Qed.

Lemma elem_ok s p b i x : p <> 0 -> heap s !! p = Some b -> b !! i = Some (Some x) -> elem p i s = Ok (x, s).
Proof. intros Hp Hb Hi. unfold elem. run (block_at_ok _ _ _ Hp Hb). by rewrite Hi. Qed.

Lemma set_slot_ok s p b i e :
  p <> 0 -> heap s !! p = Some b -> (i < length b)%nat ->
  set_slot p i e s = Ok (tt, mk_st (<[p := <[i := e]> b]> (heap s)) (vars s)).
Proof.
  intros Hp Hb [y Hy]%lookup_lt_is_Some. unfold set_slot. run (block_at_ok _ _ _ Hp Hb). by rewrite Hy.
Qed.

(** Filling a fresh block from [l]. *)
Lemma fill_block s p l body :
  p <> 0 -> heap s !! p = None ->
  (forall i x s', l !! i = Some x -> vars s' = vars s ->
     (forall q, q <> p -> heap s' !! q = heap s !! q) ->
     body i s' = construct_at p i x s') ->
  for_ (length l) 0 body (mk_st (<[p := replicate (length l) None]> (heap s)) (vars s)) =
  Ok (tt, mk_st (<[p := Some <$> l]> (heap s)) (vars s)).
Proof.
  intros Hp Hfree Hbody.
  destruct (for_inv (fun i s' => s' = mk_st (<[p := (Some <$> take i l) ++ replicate (length l - i) None]> (heap s)) (vars s))
    body (length l) 0 (mk_st (<[p := replicate (length l) None]> (heap s)) (vars s))) as (s' & -> & ->).
  - by rewrite take_0, Nat.sub_0_r.
  - intros i s' Hi ->. destruct (lookup_lt_is_Some_2 l i) as [x Hx]; [lia|].
    rewrite (Hbody i x); [|done|done|intros q Hq; simpl; by rewrite lookup_insert_ne].
    unfold construct_at. erewrite set_slot_ok; [|done|simpl; by rewrite lookup_insert_eq|].
    + eexists. split; [done|]. simpl. rewrite insert_insert_eq. do 2 f_equal.
      rewrite (take_S_r l i x Hx), fmap_app. destruct (length l - i)%nat as [|k] eqn:Ek; [lia|].
      rewrite insert_app_r_alt by (rewrite length_fmap, length_take; lia).
      rewrite length_fmap, length_take, Nat.min_l, Nat.sub_diag by lia. simpl.
      replace (length l - S i)%nat with k by lia. by rewrite <- app_assoc.
    + rewrite length_app, length_fmap, length_take, length_replicate. lia.
  - do 2 f_equal. rewrite Nat.add_0_l, take_ge, Nat.sub_diag by lia. simpl. by rewrite app_nil_r.
Qed.

(** Destroying the elements of a block and releasing it. *)
Lemma release_ok s a l :
  holds (heap s) a l ->
  release a s = Ok (tt, mk_st (if decide (data a = 0) then heap s else delete (data a) (heap s)) (vars s)).
Proof.
  intros (Hn & _ & Hd). unfold release. rewrite Hn, Nat2Z.id.
  destruct Hd as [[Hp ->]|[Hp Hb]].
  - simpl. unfold bind, ret, delete_block. rewrite Hp. simpl. by destruct s.
  - rewrite decide_False by done.
    destruct (for_inv (fun i s' => s' = mk_st (<[data a := replicate i None ++ (Some <$> drop i l)]> (heap s)) (vars s))
      (fun i => destroy_at (data a) i) (length l) 0 s) as (s' & Hf & ->).
    + simpl. rewrite drop_0, insert_id by done. by destruct s.
    + intros i s' Hi ->. destruct (lookup_lt_is_Some_2 l i) as [x Hx]; [lia|]. unfold destroy_at.
      rewrite (drop_S l x i Hx). csimpl.
      assert (Hl : (replicate i None ++ Some x :: (Some <$> drop (S i) l)) !! i = Some (Some x))
        by (rewrite lookup_app_r, length_replicate, Nat.sub_diag by (rewrite length_replicate; lia); done).
      erewrite bind_ok; [|eapply elem_ok; [done|simpl; by rewrite lookup_insert_eq|exact Hl]].
      erewrite set_slot_ok; [|done|simpl; by rewrite lookup_insert_eq|by eapply lookup_lt_Some].
      eexists. split; [done|]. simpl. rewrite insert_insert_eq. do 2 f_equal.
      rewrite insert_app_r_alt by (rewrite length_replicate; lia).
      rewrite length_replicate, Nat.sub_diag. simpl. by rewrite app_comm_cons, replicate_cons_app, <- app_assoc.
    + run Hf. unfold delete_block. rewrite (proj2 (Z.eqb_neq _ _) Hp).
      erewrite bind_ok; [|eapply block_at_ok; [done|simpl; by rewrite lookup_insert_eq]].
      unfold modify. simpl. by rewrite delete_insert_eq.
Qed.

(** ** Operations *)

Lemma rep_pointer s e v a : rep s e -> vars s !! v = Some a -> data a <> 0 -> is_Some (heap s !! data a).
Proof.
  intros Hr Ha Hp. destruct (e !! v) as [l|] eqn:He.
  - destruct (rep_holds _ _ Hr _ _ _ Ha He) as (_ & _ & [[? _]|[_ ->]]); [done|by eexists].
  - apply (rep_dom _ _ Hr) in He. congruence.
Qed.

(** A new array in a block of its own. *)
Lemma rep_new s e v p l :
  rep s e -> e !! v = None -> p <> 0 -> heap s !! p = None -> sizeof_T * Z.of_nat (length l) < 2 ^ 64 ->
  rep (mk_st (<[p := Some <$> l]> (heap s)) (<[v := mk_array p (Z.of_nat (length l))]> (vars s))) (<[v := l]> e).
Proof.
  intros Hr Hv Hp Hfree Hsz.
  assert (Hne : forall w a, vars s !! w = Some a -> data a <> 0 -> data a <> p).
  { intros w a Ha H0 E. destruct (rep_pointer _ _ _ _ Hr Ha H0). congruence. }
  split; simpl.
  - intros w. destruct (decide (w = v)) as [->|]; simplify_map_eq; [done|]. apply (rep_dom _ _ Hr).
  - intros w a k. rewrite !lookup_insert_Some. intros [[<- <-]|[Hw Ha]] [[Hw' <-]|[Hw' Hk]]; try done.
    + split; [done|]. split; [done|]. right. simpl. split; [done|]. by rewrite lookup_insert_eq.
    + eapply holds_frame; [|by eapply (rep_holds _ _ Hr)]. intros b H0 Hb.
      rewrite lookup_insert_ne; [done|]. apply not_eq_sym. by eapply Hne.
  - intros w1 w2 a b. rewrite !lookup_insert_Some.
    intros [[<- <-]|[Hw Ha]] [[Hw' <-]|[Hw' Hb]] Hd H0; try done.
    + simpl in *. exfalso. apply (Hne w2 b Hb); congruence.
    + simpl in *. exfalso. by apply (Hne w1 a Ha).
    + by eapply (rep_apart _ _ Hr).
  - intros q b. rewrite lookup_insert_Some. intros [[<- _]|[Hq Hb]].
    + split; [done|]. exists v, (mk_array p (Z.of_nat (length l))). by rewrite lookup_insert_eq.
    + destruct (rep_owned _ _ Hr _ _ Hb) as (H0 & w & a & Ha & Hd). split; [done|]. exists w, a.
      rewrite lookup_insert_ne; [done|]. intros ->. apply (rep_dom _ _ Hr) in Hv. congruence.
Qed.

Lemma rep_no_block s e v :
  rep s e -> e !! v = None -> rep (mk_st (heap s) (<[v := mk_array 0 0]> (vars s))) (<[v := []]> e).
Proof.
  intros Hr Hv. split; simpl.
  - intros w. destruct (decide (w = v)) as [->|]; simplify_map_eq; [done|]. apply (rep_dom _ _ Hr).
  - intros w a k. rewrite !lookup_insert_Some. intros [[<- <-]|[Hw Ha]] [[Hw' <-]|[Hw' Hk]]; try done.
    + split; [done|]. split; [simpl; lia|]. by left.
    + by eapply (rep_holds _ _ Hr).
  - intros w1 w2 a b. rewrite !lookup_insert_Some.
    intros [[<- <-]|[Hw Ha]] [[Hw' <-]|[Hw' Hb]] Hd H0; try done.
    by eapply (rep_apart _ _ Hr).
  - intros q b Hb. destruct (rep_owned _ _ Hr _ _ Hb) as (H0 & w & a & Ha & Hd). split; [done|]. exists w, a.
    rewrite lookup_insert_ne; [done|]. intros ->. apply (rep_dom _ _ Hr) in Hv. congruence.
Qed.

Lemma rep_drop s e v a :
  rep s e -> vars s !! v = Some a ->
  rep (mk_st (if decide (data a = 0) then heap s else delete (data a) (heap s)) (delete v (vars s))) (delete v e).
Proof.
  intros Hr Ha. split; simpl.
  - intros w. destruct (decide (w = v)) as [->|]; simplify_map_eq; [done|]. apply (rep_dom _ _ Hr).
  - intros w b k. rewrite !lookup_delete_Some. intros [Hw Hb] [_ Hk].
    eapply holds_frame; [|by eapply (rep_holds _ _ Hr)]. intros blk H0 Hblk.
    case_decide; [done|]. rewrite lookup_delete_ne; [done|]. intros Hd.
    apply Hw. by eapply (rep_apart _ _ Hr v w a b).
  - intros w1 w2 b c. rewrite !lookup_delete_Some. intros [_ Hb] [_ Hc]. by eapply (rep_apart _ _ Hr).
  - intros q b Hb. assert (Hq : heap s !! q = Some b /\ (data a <> 0 -> q <> data a)).
    { case_decide; [done|]. apply lookup_delete_Some in Hb as [? ?]. done. }
    destruct Hq as [Hq Hqa]. destruct (rep_owned _ _ Hr _ _ Hq) as (H0 & w & c & Hc & Hd).
    split; [done|]. exists w, c. split; [|done]. rewrite lookup_delete_ne; [done|].
    intros ->. simplify_eq. by apply Hqa.
Qed.

Lemma rep_set s e v a l i x :
  rep s e -> vars s !! v = Some a -> e !! v = Some l -> (i < length l)%nat ->
  rep (mk_st (<[data a := <[i := Some x]> (Some <$> l)]> (heap s)) (vars s)) (<[v := <[i := x]> l]> e).
Proof.
  intros Hr Ha Hl Hi. pose proof (rep_holds _ _ Hr _ _ _ Ha Hl) as (H1 & H2 & H3).
  assert (H0 : data a <> 0) by (destruct H3 as [[_ ->]|[? _]]; [simpl in Hi; lia|done]).
  split; simpl.
  - intros w. rewrite (rep_dom _ _ Hr w). destruct (decide (w = v)) as [->|]; simplify_map_eq; [|done].
    by split.
  - intros w b k Hb. rewrite lookup_insert_Some. intros [[<- <-]|[Hw Hk]].
    + simplify_eq. split; [by rewrite length_insert|]. split; [done|]. right. split; [done|].
      rewrite lookup_insert_eq, list_fmap_insert. done.
    + eapply holds_frame; [|by eapply (rep_holds _ _ Hr)]. intros blk Hb0 Hblk.
      rewrite lookup_insert_ne; [done|]. intros E. apply Hw. by eapply (rep_apart _ _ Hr v w a b).
  - apply (rep_apart _ _ Hr).
  - intros q b. rewrite lookup_insert_Some. intros [[<- _]|[_ Hb]]; [split; [done|by exists v, a]|].
    by eapply (rep_owned _ _ Hr).
Qed.

Lemma new_block_ok s p n :
  p <> 0 -> sizeof_T * Z.of_nat n < 2 ^ 64 ->
  new_block p (Z.of_nat n) s = Ok (p, mk_st (<[p := replicate n None]> (heap s)) (vars s)).
Proof.
  intros Hp Hn. unfold new_block. rewrite (proj2 (Z.eqb_neq _ _) Hp). unfold bind, modify, ret.
  rewrite u64_small by lia. rewrite Z.mul_comm, Z.div_mul by lia. by rewrite Nat2Z.id.
Qed.

(** The elements of [w] copied into a fresh block. *)
Lemma copy_block s e w a l p :
  rep s e -> vars s !! w = Some a -> e !! w = Some l -> p <> 0 -> heap s !! p = None ->
  (new_data <- new_block p (size_ a);;
   for_ (Z.to_nat (size_ a)) 0 (fun i => x <- get w i;; construct_at new_data i x);;
   ret new_data) s = Ok (p, mk_st (<[p := Some <$> l]> (heap s)) (vars s)).
Proof.
  intros Hr Ha Hl Hp Hfree. pose proof (rep_holds _ _ Hr _ _ _ Ha Hl) as (H1 & H2 & H3).
  rewrite H1 in H2 |- *. run (new_block_ok s p (length l) Hp H2). rewrite Nat2Z.id.
  erewrite bind_ok; [reflexivity|]. apply fill_block; [done|done|].
  intros i x s' Hx Hv Hh. assert (Hget : get w i s' = Ok (x, s')); [|by run Hget].
  unfold get. erewrite bind_ok; [|unfold array_at; by rewrite Hv, Ha].
  destruct H3 as [[_ ->]|[H0 Hb]]; [done|].
  apply (elem_ok _ _ (Some <$> l)); [done| |by rewrite list_lookup_fmap, Hx].
  rewrite Hh; [done|]. intros E. congruence.
Qed.

Lemma size_ok s v a : vars s !! v = Some a -> size v s = Ok (size_ a, s).
Proof. intros Ha. unfold size. erewrite bind_ok; [|unfold array_at; by rewrite Ha]. done. Qed.

(** What [Array_copy] and [assign] begin with, before [k]. *)
Lemma copy_run s e w l p (k : Z -> Z -> M st unit) :
  rep s e -> e !! w = Some l -> p <> 0 -> heap s !! p = None ->
  (n <- size w;;
   new_data <- new_block p n;;
   for_ (Z.to_nat n) 0 (fun i => x <- get w i;; construct_at new_data i x);;
   k n new_data) s =
  k (Z.of_nat (length l)) p (mk_st (<[p := Some <$> l]> (heap s)) (vars s)).
Proof.
  intros Hr Hl Hp Hfree. destruct (rep_var _ _ _ _ Hr Hl) as (a & Ha & Hh).
  run (size_ok _ _ _ Ha). pose proof (copy_block s e w a l p Hr Ha Hl Hp Hfree) as Hc.
  destruct Hh as (H1 & H2 & _). rewrite H1 in H2, Hc |- *.
  rewrite (bind_ok _ _ _ _ _ (new_block_ok s p (length l) Hp H2)) in Hc.
  run (new_block_ok s p (length l) Hp H2).
  apply bind_inv in Hc as ([] & s1 & Hf & [= ->]). by run Hf.
Qed.

Lemma Array_size_ok s v p n y :
  p <> 0 -> heap s !! p = None -> sizeof_T * Z.of_nat n < 2 ^ 64 ->
  Array_size v p (Z.of_nat n) y s =
  Ok (tt, mk_st (<[p := Some <$> replicate n y]> (heap s)) (<[v := mk_array p (Z.of_nat n)]> (vars s))).
Proof.
  intros Hp Hfree Hn. unfold Array_size. run (new_block_ok s p n Hp Hn). rewrite Nat2Z.id.
  pose proof (fill_block s p (replicate n y) (fun i => construct_at p i y) Hp Hfree) as Hf.
  rewrite length_replicate in Hf. erewrite bind_ok; [|apply Hf].
  - reflexivity.
  - by intros i x s' [-> _]%lookup_replicate _ _.
Qed.

Lemma run_op_ok o s e x e' :
  rep s e -> spec_op o e = Some (x, e') -> exists s', run_op o s = Ok (x, s') /\ rep s' e'.
Proof.
  intros Hr Hs. destruct (addr_of_fresh (heap s)) as [Hp Hfree]. set (p := addr_of (heap s)) in *.
  assert (Hfr : fresh s = Ok (p, s)) by done.
  destruct o as [v n y|v|v w|v w|v i|v i y|v]; simpl in Hs |- *.
  - case_decide as Hc; [|done]. destruct Hc as [Hv Hn]. simplify_eq. run Hfr.
    run (Array_size_ok s v p n y Hp Hfree Hn). eexists. split; [reflexivity|].
    pose proof (rep_new s e v p (replicate n y)) as Hnew. rewrite length_replicate in Hnew. by apply Hnew.
  - case_decide; [|done]. simplify_eq. eexists. split; [reflexivity|]. by apply rep_no_block.
  - case_decide; [|done]. destruct (e !! w) as [l|] eqn:Hl; [|done]. simpl in Hs. simplify_eq.
    destruct (rep_var _ _ _ _ Hr Hl) as (a & Ha & H1 & H2 & _). rewrite H1 in H2.
    run Hfr. unfold Array_copy.
    erewrite bind_ok; [|rewrite (copy_run s e w l p (fun n q => set_array v (mk_array q n)) Hr Hl Hp Hfree); reflexivity].
    eexists. split; [reflexivity|]. simpl. by apply rep_new.
  - destruct (e !! v) as [lv|] eqn:Hlv; [|done]. destruct (e !! w) as [l|] eqn:Hl; [|done].
    simpl in Hs. simplify_eq. run Hfr. unfold assign. case_decide as Hvw.
    { subst w. simplify_eq. exists s. split; [done|]. by rewrite insert_id. }
    destruct (rep_var _ _ _ _ Hr Hlv) as (a & Ha & Hh).
    destruct (rep_var _ _ _ _ Hr Hl) as (b & Hb & H1 & H2 & _). rewrite H1 in H2.
    set (s1 := mk_st (<[p := Some <$> l]> (heap s)) (vars s)).
    assert (Hpa : data a <> 0 -> data a <> p).
    { intros H0 E. destruct (rep_pointer _ _ _ _ Hr Ha H0). congruence. }
    assert (Hrel : release a s1 = Ok (tt, mk_st (if decide (data a = 0) then heap s1 else delete (data a) (heap s1)) (vars s1))).
    { apply (release_ok s1 a lv). eapply holds_frame; [|exact Hh]. intros blk H0 Hblk. simpl.
      rewrite lookup_insert_ne; [done|]. apply not_eq_sym. by apply Hpa. }
    erewrite bind_ok; [|rewrite (copy_run s e w l p (fun n q => a <- array_at v;; release a;; set_array v (mk_array q n)) Hr Hl Hp Hfree);
      fold s1; erewrite bind_ok; [|unfold array_at; simpl; by rewrite Ha]; run Hrel; reflexivity].
    eexists. split; [reflexivity|]. simpl.
    pose proof (rep_drop s e v a Hr Ha) as Hd.
    apply (rep_new _ _ v p l) in Hd; [|by rewrite lookup_delete_eq|done|..].
    + simpl in Hd. rewrite !insert_delete_eq in Hd. case_decide; [done|].
      rewrite insert_delete_ne in Hd; [done|]. apply not_eq_sym. by apply Hpa.
    + simpl. case_decide; [done|]. by rewrite lookup_delete_ne by (by apply Hpa).
    + done.
  - destruct (e !! v) as [l|] eqn:Hl; [|done]. simpl in Hs. destruct (l !! i) as [y|] eqn:Hy; [|done].
    simpl in Hs. simplify_eq. destruct (rep_var _ _ _ _ Hr Hl) as (a & Ha & _ & _ & H3).
    exists s. split; [|done]. unfold get. erewrite bind_ok; [reflexivity|].
    erewrite bind_ok; [|unfold array_at; by rewrite Ha].
    destruct H3 as [[_ ->]|[H0 Hb]]; [done|].
    apply (elem_ok _ _ (Some <$> l)); [done|done|by rewrite list_lookup_fmap, Hy].
  - destruct (e !! v) as [l|] eqn:Hl; [|done]. simpl in Hs. destruct (l !! i) as [z|] eqn:Hz; [|done].
    simpl in Hs. simplify_eq. destruct (rep_var _ _ _ _ Hr Hl) as (a & Ha & Hh).
    pose proof Hh as (_ & _ & H3). destruct H3 as [[_ ->]|[H0 Hb]]; [done|].
    unfold set. rewrite bind_assoc. erewrite bind_ok; [|unfold array_at; by rewrite Ha].
    rewrite bind_assoc.
    erewrite bind_ok; [|apply (elem_ok _ _ (Some <$> l) i z); [done|done|by rewrite list_lookup_fmap, Hz]].
    pose proof (lookup_lt_Some _ _ _ Hz) as Hi.
    erewrite bind_ok; [|apply (set_slot_ok _ _ (Some <$> l)); [done|done|by rewrite length_fmap]].
    eexists. split; [reflexivity|]. by apply rep_set.
  - destruct (e !! v) as [l|] eqn:Hl; [|done]. simpl in Hs. simplify_eq.
    destruct (rep_var _ _ _ _ Hr Hl) as (a & Ha & Hh). unfold Array_destroy.
    rewrite bind_assoc. erewrite bind_ok; [|unfold array_at; by rewrite Ha].
    rewrite bind_assoc. run (release_ok _ _ _ Hh). eexists. split; [reflexivity|]. simpl. by apply rep_drop.
Qed.

(** A program whose use of its arrays the language defines (every array is
    made before it is used, no index is outside) runs without a fault and sees
    what it would see if its variables held lists: copies and assignments are
    independent of the array they came from.  When no array is left, no block
    is. *)
Theorem arrays_are_lists ops out e :
  spec_ops ops ∅ = Some (out, e) ->
  exists s, run_ops ops (mk_st ∅ ∅) = Ok (out, s) /\ (e = ∅ -> heap s = ∅).
Proof.
  enough (H : forall e0 s out e, rep s e0 -> spec_ops ops e0 = Some (out, e) ->
    exists s', run_ops ops s = Ok (out, s') /\ rep s' e).
  { intros Hs. destruct (H ∅ (mk_st ∅ ∅) out e) as (s & Hrun & Hr); [|done|].
    - split; simpl; try done; intros *; rewrite ?lookup_empty; done.
    - exists s. split; [done|]. intros ->. apply map_empty. intros q.
      destruct (heap s !! q) as [b|] eqn:Hb; [|done].
      destruct (rep_owned _ _ Hr _ _ Hb) as (_ & v & a & Ha & _).
      pose proof (proj2 (rep_dom _ _ Hr v) (lookup_empty v)). congruence. }
  clear out e. induction ops as [|o ops IH]; intros e0 s out e Hr Hs; simpl in Hs.
  { simplify_eq. exists s. done. }
  destruct (spec_op o e0) as [[x e1]|] eqn:Ho; [|done]. simpl in Hs.
  destruct (spec_ops ops e1) as [[l e2]|] eqn:Hops; [|done]. simpl in Hs. simplify_eq.
  destruct (run_op_ok _ _ _ _ _ Hr Ho) as (s1 & H1 & Hr1).
  destruct (IH _ _ _ _ Hr1 Hops) as (s2 & H2 & Hr2). exists s2. split; [|done].
  cbn [run_ops]. run H1. by run H2.
Qed.
End array.

(** ** A run *)

(** Eight-byte elements, and an address no block has. *)
Definition unused_address (h : gmap Z (list (option Z))) : Z := base.fresh ({[0]} ∪ dom h : gset Z).

Lemma unused_address_ok h : unused_address h <> 0 /\ h !! unused_address h = None.
Proof.
  pose proof (is_fresh ({[0]} ∪ dom h : gset Z)) as Hf. fold (unused_address h) in Hf.
  apply not_elem_of_union in Hf as [H0 Hd]. split; [set_solver|]. by apply not_elem_of_dom.
Qed.

(** A copy keeps its elements when the array it came from changes, and takes
    those of an empty array by assignment. *)
Definition copies : list (op (T := Z)) :=
  [Make 0 3 7; Copy 1 0; Set_ 0 1 5; Get 0 1; Get 1 1; Empty 2; Assign 2 1; Assign 2 2;
   Get 2 2; Drop 0; Get 2 0; Drop 1; Drop 2].

Lemma arrays_are_lists_witness :
  exists s, run_ops 8 unused_address copies (mk_st ∅ ∅) =
    Ok ([None; None; None; Some 5; Some 7; None; None; None; Some 7; None; Some 7; None; None], s) /\
    heap s = ∅.
Proof.
  destruct (arrays_are_lists 8 unused_address ltac:(lia) unused_address_ok copies
    [None; None; None; Some 5; Some 7; None; None; None; Some 7; None; Some 7; None; None] ∅)
    as (s & H & He); [vm_compute; reflexivity|].
  exists s. split; [exact H|]. by apply He.
Defined.

(** An index outside the array is not looked at: the access leaves the block. *)
Example index_outside :
  run_ops 8 unused_address [Make 0 3 7; Get 0 3] (mk_st ∅ ∅) = Fault OutOfBounds.
Proof. vm_compute. reflexivity. Qed.

(** The size in bytes wraps around: an array of 2^61 eight-byte elements gets
    no memory, and constructing the first one is outside it. *)
Example size_wraps (s : st (T := Z)) :
  new_block 8 4096 (2 ^ 61) s = Ok (4096, mk_st (<[4096 := []]> (heap s)) (vars s)).
Proof. reflexivity. Qed.
